(* ===== verification/_CoqProject ===== *)
-Q . S2P
Prelude.v
Frames.v
Common.v
Gpu.v
Layout.v
Ckpt.v
SaveFacts.v
CkptFacts.v
CkptErrors.v
Restore.v
RestoreFacts.v
Driver.v
Vmm.v
Nv.v
Amd.v
Sim.v
NvFacts.v
CrTheorems.v
AmdTheorems.v
Copies.v
FdExchange.v
FdFacts.v
IpcState.v
IpcDriver.v
IpcHooks.v
LaunchHooks.v
IpcExports.v
IpcRules.v
IpcSave.v
IpcRebuild.v
IpcRoundtrip.v
LocalSave.v
LocalRebuild.v
IpcImports.v
CuSim.v
IpcTracking.v
IpcTheorems.v
IpcPublish.v
ImportTheorems.v
HookTheorems.v
Process.v
Handlers.v
IpcSafe.v
HandlerFacts.v
Cluster.v
SignalFacts.v
WorkerPhases.v
ProcSim.v
HandlerTheorems.v
Text.v
InitTheorems.v
MultiClient.v
ClusterFacts.v
CoordFacts.v
CoordFlows.v
CoordTrace.v
CoordTheorems.v
Client.v
ClientTheorems.v
Interrupts.v
Runtime.v
RuntimeFacts.v
RuntimeTheorems.v
RuntimeData.v
RuntimeRoundtrip.v
RuntimeCycle.v
NcclHooks.v
NcclFacts.v
NcclTheorems.v
NcclPlugin.v
NcclPluginTheorems.v
TwoProc.v
TwoProcFacts.v
TwoProcTheorems.v
TwoProcVerdict.v
TwoProcLive.v
TwoProcPass.v
Migration.v
MigrationTheorems.v
Features.v
