(* ===== verification/Prelude.v ===== *)
(** * GPU-CR: a verification development.

    GPU-CR takes checkpoints of processes that use GPUs.  A library is preloaded into each
    worker; it hooks the allocation and IPC functions of the driver, and on a signal it copies the
    device memory to a file and gives the physical memory back, so that [cuda-checkpoint] or CRIU can
    freeze the process.  A coordinator drives one worker ([cr_client]) or several
    ([multi_cr_client]).  An application that uses NCCL can do the same from inside, through entry
    points added to NCCL.

    ** Parts and files

    The source is under [src/]; the library is [src/src/], the coordinators are [src/coordinator/].

    - Shared data, [src/src/common.h]: [Common] (constants, the header page, [memcpy_multi]),
      [Layout] (the payload of a dump).
    - Checkpoint and restore of device memory, [src/src/vGPU.cpp]: [Ckpt] ([ckpt], [ckpt_selective]) and
      [Restore] (the two restore functions) over the interface [GPU] of [Gpu] ([src/src/GPUs/GPU.h]).
      The state is [vstate]: the vendor object, the file table and the two locks.
      [SaveFacts], [CkptFacts], [CkptErrors], [RestoreFacts] hold the invariants of the two staging buffers;
      [CrTheorems] the theorems.
    - GPU backends: [Driver] is what [nv.cpp] and [amd.cpp] call; [Nv] and [Amd] are the two classes and
      their allocation hooks, [Vmm] the allocation steps both hooks share; [NvFacts] the invariant of the hooks,
      [AmdTheorems] the AMD side; [Sim] a driver that satisfies the laws.
    - IPC module, [src/src/ipc_hooks.cpp]: [IpcState] (the records and tables), [IpcDriver] (the driver calls and the
      resolution of function pointers, [dlsym] included), [IpcHooks] (the [cuMem*] hooks, peer access,
      events, imports, publication), [IpcExports] (save, teardown and rebuild of exports and local
      allocations, validation), [LaunchHooks] (kernel launches, error and context hooks).
      [IpcRules] to [ImportTheorems] are its rules, round trips and theorems ([LocalSave] and [LocalRebuild]
      for the local allocations), [IpcSafe] its totality,
      [CuSim] a driver that satisfies the laws.
    - Descriptor exchange, [src/src/ipc_fd_exchange.cpp]: [FdExchange] and [FdFacts].
    - Worker process: [Process] ([share_mem.cpp], [mmap_backend.cpp], [gpu_factory.cpp], [init_CR]) and [Handlers]
      (the two signal handlers); [HandlerFacts], [SignalFacts], [WorkerPhases], [HandlerTheorems]; [InitTheorems]
      has the ids that several workers draw; [ProcSim] is a concrete worker.
    - Coordinators: [Cluster] is the machine they work on, [MultiClient] and [Client] the two programs,
      [Text] the C string functions they use; [ClusterFacts], [CoordFacts], [CoordFlows] (with a machine of two workers), [CoordTrace] the rules,
      [CoordTheorems] and [ClientTheorems] the theorems; [Interrupts] a signal that
      reaches a worker inside an allocation hook.
    - NCCL adapter, [src/adapters/nccl/]: [Runtime] (the checkpoint runtime), [NcclPlugin] (the two entry points, the
      plugin loader and the GCR plugin); [RuntimeFacts], [RuntimeTheorems], [NcclPluginTheorems].
      [RuntimeData], [RuntimeRoundtrip] and [RuntimeCycle] compose the round trips of the IPC module along the three entry
      points of a cycle.
    - Two-process example, [src/adapters/nccl/examples/two_proc_nccl_test.cpp]: [TwoProc] has the parent and the two ranks as
      lists of steps, and the step relation of the three processes with their barrier, mutex and condition variable;
      [TwoProcFacts] the invariant, [TwoProcTheorems] the order of the phases, [TwoProcVerdict] what the verdict means,
      [TwoProcLive] and [TwoProcPass] that it passes without failures.
    - NCCL hooks, [src/src/nccl_hooks.cpp]: [NcclHooks], [NcclFacts], [NcclTheorems].
    - Demonstrations of [cuda-checkpoint], [src/cuda-checkpoint/src/]: [Migration] (the two GPU migration programs) and
      [MigrationTheorems]; [Features] (the CRIU demonstration, a machine of two processes small enough to enumerate).

    This file has the outcome monad ([M], with normal return, [exit] and stuck states), its weakest precondition
    [wp] (normal return required) and the shared lemmas; [Frames] has the partial [post] and the
    frame rules.

    ** How the parts meet

    A component sees the one below through a class: [GPU]/[GPULaws] between [vGPU.cpp] and the backends
    ([nv_laws] and the AMD counterpart discharge it), [Driver], [CuDriver], [Sockets], [Posix] and so on
    for code outside the repository.  [Driver] has several devices, each with its own free memory; an object of a vendor
    class works on one of them.  States nest ([zoom]): a worker ([proc]) holds the
    [vstate] and the [ipc] tables; the runtime holds the same tables; a node of the machine holds a worker.
    Operations have the names they have in the source; loops over containers follow the container's
    order ([std::map]: [map_entries]).

    ** What the theorems show

    - Data comes back, for allocations on the device of the vendor object: a checkpoint and a restore (full, selective, through signals,
      through a coordinator with several workers, through the checkpoint runtime), exports, local allocations and imports with their
      mappings, access rights and descriptors, peer access, the published export records.
    - Invariants: the hooks keep a process checkpointable and the IPC tables consistent; the IPC handler answers
      every message from every table state, if the calls it makes come back; the runtime keeps its storage well formed; the list of
      communicators is the set of live ones.
    - Refinement and equivalence: the NVIDIA and the AMD class implement the interface, the parallel copy is one copy under every
      interleaving, a descriptor request delivers the first descriptors that fit, in order, or nothing, the runtime is a machine of three
      flags, the entry points of NCCL are those of the runtime, the two
      migration programs visit the GPUs in the same order with the same output.
    - The descriptor server: it starts completely or leaves nothing behind; if the client it serves talks or hangs up, its stop returns, closes what was opened and
      removes the socket file.
    - Concurrency: workers that initialise one after the other, on one system, get different ids and files; the three processes of the example pass through
      the phases in order under every schedule, every failing call and every spurious wake-up; without
      failures each of their runs is finite and passes; so does each run of the CRIU demonstration.
    - Errors: what is undone and what is not when a step fails, up to the places where the
      program does not do what it means to (lost peer access, swapped local allocations, a second [prepare] that
      throws saved data away, a hook that calls itself, an exit with an unset result, a signal inside a hook that
      deadlocks, an example that waits for a dead rank, memory that is created on the wrong device, a silent client that keeps the
      descriptor server from stopping, an answer that overruns a buffer).

    Every property with hypotheses has a concrete instance ([..._witness]) on the reference drivers.

    ** Bounds and fuel

    Loops that end by themselves are [foldM], [for_ret] or structural recursion.  [iter] takes fuel where the
    loop of the source is guarded by a condition; the theorems give a bound on the rounds (the payload
    for the copy loops, the retries of [connect], the steps of the server thread, for which 4 suffice)
    and prove that it is enough.  Waiting of a coordinator for a worker takes as many rounds as the schedule needs:
    [live] says that some fuel suffices, for a schedule that lets every worker run again and again.  [stack_depth]
    bounds the recursion of a hook that reaches itself; reaching it is [OutOfFuel].
    Sizes and offsets are integers with the wrap-around of 64 bits written out ([wrap64], [ROUND_UP_2MB]), of 32 bits where the code
    has an [int] ([signed32]).

    ** Assumptions

    The laws of the driver, of the sockets and of the file system are those their documentation gives; a failing call
    changes nothing; [cudaDeviceSynchronize] waits for the pending copies ([HostLaws]), and a new socket is a descriptor that
    was not in use ([ServerLaws]).  For the cycle of the runtime: the two buffers the runtime allocates do not overlap ([buffers_apart]), and its memory is left alone between the calls ([resumed], [waited]).  Of the sockets, [SockReturns] says
    which calls come back by themselves ([accept] only where a receive timeout was set), [TalkingPeers] that the other end of
    a connection talks or hangs up, because the source reads from connections without a timeout ([silent_client_blocks_stop]), and
    [honest_peers] that no peer announces more descriptors than it was asked for, because that makes the source write past its array
    ([oversized_answer_overruns]).  The counter of [get_id] is the first word of the file that it maps ([FileWords]).  A process uses one device: on AMD
    device 0 is current ([on_device_0]), on NVIDIA the object's device is that of the hook ([at_home]); without that a restore
    can fail ([amd_wrong_device], [nv_wrong_device]).
    A signal handler runs to its end once started, and outside [Interrupts] it starts between two calls of the application;
    between any two calls of a coordinator an arbitrary schedule lets workers run.  What [cuda-checkpoint] does to a process between the two phases is a hypothesis ([carried]; [MigrationLaws] for the demonstrations).
    The recursive mutex of the IPC module and the mutexes of the NCCL files do not show: the functions they guard
    are atomic steps.

    ** Not modelled

    Printing, timing snapshots and the metrics files; [ipc_dump_state] and [ipc_dump_nvidia_fds], which only print;
    the three detection hooks of the old [cudaIpc*] memory handles, which count, warn and forward; [pidfd_copy_fd], which
    nothing calls; [externalCheckpoint] and [externalRestore] of the vendor classes, which nothing calls and which run a
    command; the race of the status reads outside the lock in the plugin loader.  In the two-process example the numbers in the
    all-reduce are one step that passes or fails, and so is a run of [cuda-checkpoint].  The NVSHMEM and vLLM tests,
    [counter.cu], the launch scripts and the [cuda-checkpoint] binaries are not part of the development. *)
From stdpp Require Export prelude gmap strings sorting.
From Stdlib Require Export ZArith Lia.

Open Scope Z_scope.

(** ** Outcomes of a computation *)

(** Why a computation cannot go on: a failed [assert], a call through a null function
    pointer, a lock taken twice by the same thread, a system call that waits for ever, an array
    access out of range, a read of a variable that has no value, or the bound of an executable loop
    being reached. *)
Inductive stuck := AssertionFailed | NullCall | Deadlocked | Blocked | OutOfBounds | Indeterminate | OutOfFuel.

Inductive outcome (S A : Type) :=
  | Ret (a : A) (s : S)
  | Exit (code : Z) (s : S)
  | Stuck (why : stuck) (s : S).
Arguments Ret {S A} a s.
Arguments Exit {S A} code s.
Arguments Stuck {S A} why s.

(** State, process exit and undefined behaviour in one monad. *)
Definition M (S A : Type) : Type := S → outcome S A.

#[export] Instance M_ret S : MRet (M S) := λ A a s, Ret a s.
#[export] Instance M_bind S : MBind (M S) := λ A B f m s,
  match m s with
  | Ret a s' => f a s'
  | Exit c s' => Exit c s'
  | Stuck w s' => Stuck w s'
  end.

Definition get {S A} (f : S → A) : M S A := λ s, Ret (f s) s.
Definition modify {S} (f : S → S) : M S unit := λ s, Ret tt (f s).
Definition exit {S A} (code : Z) : M S A := λ s, Exit code s.
Definition fail {S A} (why : stuck) : M S A := λ s, Stuck why s.
Definition assert_ {S} (b : bool) : M S unit :=
  if b then mret tt else fail AssertionFailed.

(** Runs a computation on a component of the state. *)
Definition zoom {S T A} (proj : S → T) (upd : T → S → S) (m : M T A) : M S A := λ s,
  match m (proj s) with
  | Ret a t => Ret a (upd t s)
  | Exit c t => Exit c (upd t s)
  | Stuck w t => Stuck w (upd t s)
  end.

(** [while] loops: the body answers [inl] to go round again, [inr] to stop. *)
Fixpoint iter {S L R} (fuel : nat) (body : L → M S (L + R)) (l : L) : M S R :=
  match fuel with
  | O => fail OutOfFuel
  | Datatypes.S fuel' =>
      r ← body l;
      match r with
      | inl l' => iter fuel' body l'
      | inr r => mret r
      end
  end.

(** [for (x : xs)] loops over loop variables [L]. *)
Fixpoint foldM {S L X} (f : L → X → M S L) (l : L) (xs : list X) : M S L :=
  match xs with
  | [] => mret l
  | x :: xs' => l' ← f l x; foldM f l' xs'
  end.

(** [for (x : xs)] loops whose body may return from the function ([inr]). *)
Fixpoint for_ret {S L R X} (f : L → X → M S (L + R)) (l : L) (xs : list X) : M S (L + R) :=
  match xs with
  | [] => mret (inl l)
  | x :: xs' =>
      r ← f l x;
      match r with
      | inl l' => for_ret f l' xs'
      | inr r => mret (inr r)
      end
  end.

(** ** Machine integers and byte memories *)

Definition wrap64 (x : Z) : Z := x mod 2 ^ 64.
Definition wrap32 (x : Z) : Z := x mod 2 ^ 32.

(** A byte-addressed memory, total: what an unmapped byte holds is unspecified. *)
Abbreviation mem := (Z → Z).

(** [copy d_mem d s_mem s n]: [d_mem] after [n] bytes read at [s] of [s_mem] are
    written at [d]. *)
Definition copy (d_mem : mem) (d : Z) (s_mem : mem) (s n : Z) : mem := λ a,
  if (d <=? a) && (a <? d + n) then s_mem (s + (a - d)) else d_mem a.

(** The byte ranges [x, x+n) and [y, y+m) share no byte. *)
Definition disjoint_ranges (x n y m : Z) : Prop := x + n ≤ y ∨ y + m ≤ x.

(** A [std::map] is iterated in increasing key order. *)
Definition key_le {A} (x y : Z * A) : Prop := x.1 ≤ y.1.

#[export] Instance key_le_dec {A} : RelDecision (@key_le A).
Proof. intros x y. apply Z.le_dec. Defined.

Definition map_entries {A} (m : gmap Z A) : list (Z * A) := merge_sort key_le (map_to_list m).

(** [for (x : xs) m[key(x)].push_back(x)] on a [std::map] of vectors, and the map's
    iteration. *)
Definition push_back {A} (key : A → Z) (m : gmap Z (list A)) (x : A) : gmap Z (list A) :=
  <[key x := default [] (m !! key x) ++ [x]]> m.
Definition group_by {A} (key : A → Z) (xs : list A) : list (Z * list A) :=
  map_entries (foldl (push_back key) ∅ xs).

(** Sum of a measure over a list. *)
Definition sum_by {A} (f : A → Z) (l : list A) : Z := foldr (λ x acc, f x + acc) 0 l.

(** ** Weakest preconditions (total: normal return required) *)

Definition wp {S A} (m : M S A) (Q : A → S → Prop) (s : S) : Prop :=
  match m s with Ret a s' => Q a s' | _ => False end.

Create HintDb gcr discriminated.

Lemma wp_ret {S A} (a : A) (Q : A → S → Prop) s : Q a s → wp (mret a) Q s.
Proof. done. Qed.

Lemma wp_bind {S A B} (m : M S A) (f : A → M S B) Q s :
  wp m (λ a s', wp (f a) Q s') s → wp (m ≫= f) Q s.
Proof. unfold wp, mbind, M_bind. by destruct (m s). Qed.

Lemma wp_get {S A} (f : S → A) (Q : A → S → Prop) s : Q (f s) s → wp (get f) Q s.
Proof. done. Qed.

Lemma wp_modify {S} (f : S → S) (Q : unit → S → Prop) s : Q tt (f s) → wp (modify f) Q s.
Proof. done. Qed.

Lemma wp_assert {S} (b : bool) (Q : unit → S → Prop) s : b = true → Q tt s → wp (assert_ b) Q s.
Proof. by intros ->. Qed.

Lemma wp_mono {S A} (m : M S A) (P Q : A → S → Prop) s :
  wp m P s → (∀ a s', P a s' → Q a s') → wp m Q s.
Proof. unfold wp. destruct (m s); naive_solver. Qed.

Lemma wp_zoom {S T A} (proj : S → T) upd (m : M T A) (Q : A → S → Prop) s :
  wp m (λ a t, Q a (upd t s)) (proj s) → wp (zoom proj upd m) Q s.
Proof. unfold wp, zoom. by destruct (m (proj s)). Qed.

Lemma wp_elim {S A} (m : M S A) (Q : A → S → Prop) s :
  wp m Q s → ∃ a s', m s = Ret a s' ∧ Q a s'.
Proof. unfold wp. destruct (m s); naive_solver. Qed.

Lemma wp_intro {S A} (m : M S A) (Q : A → S → Prop) s a s' :
  m s = Ret a s' → Q a s' → wp m Q s.
Proof. unfold wp. by intros ->. Qed.

(** Loop rule: the invariant is indexed by a bound on the rounds left. *)
Lemma wp_iter {S L R} (I : nat → L → S → Prop) (body : L → M S (L + R)) (Q : R → S → Prop) :
  (∀ n l s, I n l s →
     wp (body l) (λ r s', match r with
                          | inl l' => ∃ m, (m < n)%nat ∧ I m l' s'
                          | inr r => Q r s'
                          end) s) →
  ∀ fuel n l s, I n l s → (n < fuel)%nat → wp (iter fuel body l) Q s.
Proof.
  intros Hbody fuel. induction fuel as [|fuel IH]; intros n l s HI Hn; [lia|].
  simpl. apply wp_bind. eapply wp_mono; [by apply (Hbody n)|].
  intros [l'|r] s'; simpl; [|done].
  intros (m & Hm & HI'). eapply IH; [done|lia].
Qed.

Lemma wp_foldM_aux {S L X} (I : list X → L → S → Prop) (f : L → X → M S L) xs :
  (∀ pre x post l s, xs = pre ++ x :: post → I pre l s → wp (f l x) (I (pre ++ [x])) s) →
  ∀ ys pre l s, xs = pre ++ ys → I pre l s → wp (foldM f l ys) (I xs) s.
Proof.
  intros Hf ys. induction ys as [|x ys IH]; intros pre l s -> HI; simpl.
  - apply wp_ret. by rewrite app_nil_r.
  - apply wp_bind. eapply wp_mono; [by eapply Hf|].
    intros l' s' HI'. apply (IH (pre ++ [x])); [|done]. by rewrite <- app_assoc.
Qed.

(** Loop rule for [foldM]: the invariant speaks of the elements already seen. *)
Lemma wp_foldM {S L X} (I : list X → L → S → Prop) (f : L → X → M S L) xs l s :
  I [] l s →
  (∀ pre x post l s, xs = pre ++ x :: post → I pre l s → wp (f l x) (I (pre ++ [x])) s) →
  wp (foldM f l xs) (I xs) s.
Proof. intros HI Hf. by apply (wp_foldM_aux I f xs Hf xs [] l s). Qed.

(** Loops over the positions of a list. *)
Lemma wp_foldM_seq_aux {S L X} (xs : list X) (I : list X → L → S → Prop) (f : L → nat → M S L) :
  (∀ pre x post l s, xs = pre ++ x :: post → I pre l s → wp (f l (length pre)) (I (pre ++ [x])) s) →
  ∀ ys pre l s, xs = pre ++ ys → I pre l s → wp (foldM f l (seq (length pre) (length ys))) (I xs) s.
Proof.
  intros Hf ys. induction ys as [|x ys IH]; intros pre l s -> HI; simpl.
  - apply wp_ret. by rewrite app_nil_r.
  - apply wp_bind. eapply wp_mono; [by eapply Hf|].
    intros l' s' HI'. specialize (IH (pre ++ [x]) l' s').
    rewrite length_app, Nat.add_1_r in IH. apply IH; [|done]. by rewrite <- app_assoc.
Qed.

Lemma wp_foldM_seq {S L X} (xs : list X) (I : list X → L → S → Prop) (f : L → nat → M S L) l s :
  I [] l s →
  (∀ pre x post l s, xs = pre ++ x :: post → I pre l s → wp (f l (length pre)) (I (pre ++ [x])) s) →
  wp (foldM f l (seq 0 (length xs))) (I xs) s.
Proof. intros HI Hf. by apply (wp_foldM_seq_aux xs I f Hf xs [] l s). Qed.

Lemma alter_middle {A} (f : A → A) (l1 l2 : list A) x :
  alter f (length l1) (l1 ++ x :: l2) = l1 ++ f x :: l2.
Proof. induction l1 as [|y l1 IH]; [done|]. cbn. f_equal. apply IH. Qed.

Lemma filter_snoc_true {A} (P : A → bool) l x : P x = true → filter P (l ++ [x]) = filter P l ++ [x].
Proof.
  intros HP. rewrite filter_app. f_equal. by rewrite filter_cons_True by (by rewrite HP).
Qed.
Lemma filter_snoc_false {A} (P : A → bool) l x : P x = false → filter P (l ++ [x]) = filter P l.
Proof.
  intros HP. rewrite filter_app, filter_cons_False; [by rewrite filter_nil, app_nil_r|].
  rewrite HP. intros [].
Qed.

Lemma filter_none {A} (P : A → Prop) `{!∀ x, Decision (P x)} l : Forall (λ x, ¬ P x) l → filter P l = [].
Proof. induction 1 as [|x l Hx _ IH]; [done|]. by rewrite filter_cons_False. Qed.

(** Loop rule for [for_ret] when no round returns early. *)
Lemma wp_for_ret_aux {S L R X} (I : list X → L → S → Prop) (f : L → X → M S (L + R)) xs :
  (∀ pre x post l s, xs = pre ++ x :: post → I pre l s →
     wp (f l x) (λ r s', ∃ l', r = inl l' ∧ I (pre ++ [x]) l' s') s) →
  ∀ ys pre l s, xs = pre ++ ys → I pre l s →
    wp (for_ret f l ys) (λ r s', ∃ l', r = inl l' ∧ I xs l' s') s.
Proof.
  intros Hf ys. induction ys as [|x ys IH]; intros pre l s -> HI; simpl.
  - apply wp_ret. exists l. by rewrite app_nil_r.
  - apply wp_bind. eapply wp_mono; [by eapply Hf|].
    intros r s' (l' & -> & HI'). apply (IH (pre ++ [x])); [|done]. by rewrite <- app_assoc.
Qed.

Lemma wp_for_ret {S L R X} (I : list X → L → S → Prop) (f : L → X → M S (L + R)) xs l s :
  I [] l s →
  (∀ pre x post l s, xs = pre ++ x :: post → I pre l s →
     wp (f l x) (λ r s', ∃ l', r = inl l' ∧ I (pre ++ [x]) l' s') s) →
  wp (for_ret f l xs) (λ r s', ∃ l', r = inl l' ∧ I xs l' s') s.
Proof. intros HI Hf. by apply (wp_for_ret_aux I f xs Hf xs [] l s). Qed.

(** ** Memories *)

Lemma copy_in (d_mem s_mem : mem) d s n a :
  d ≤ a < d + n → copy d_mem d s_mem s n a = s_mem (s + (a - d)).
Proof.
  intros H. unfold copy.
  rewrite (proj2 (Z.leb_le d a)), (proj2 (Z.ltb_lt a (d + n))) by lia. done.
Qed.

Lemma copy_out (d_mem s_mem : mem) d s n a :
  ¬ (d ≤ a < d + n) → copy d_mem d s_mem s n a = d_mem a.
Proof.
  intros H. unfold copy.
  destruct (Z.leb_spec d a), (Z.ltb_spec a (d + n)); simpl; try done; lia.
Qed.

Lemma copy_empty (d_mem s_mem : mem) d s n a : n ≤ 0 → copy d_mem d s_mem s n a = d_mem a.
Proof. intros. apply copy_out. lia. Qed.

(** Case analysis on whether a byte is in the copied range. *)
Ltac copy_case :=
  match goal with
  | |- context [copy ?dm ?d ?sm ?s ?n ?a] =>
      let Hin := fresh "Hin" in
      destruct (decide (d ≤ a < d + n)) as [Hin|Hin];
      [rewrite (copy_in dm sm d s n a Hin)|rewrite (copy_out dm sm d s n a Hin)]
  end.

Lemma wrap64_small x : 0 ≤ x < 2 ^ 64 → wrap64 x = x.
Proof. apply Z.mod_small. Qed.

(** ** Sums and map iteration *)

Lemma sum_by_app {A} (f : A → Z) l1 l2 : sum_by f (l1 ++ l2) = sum_by f l1 + sum_by f l2.
Proof. induction l1 as [|x l1 IH]; simpl; lia. Qed.

Lemma sum_by_nonneg {A} (f : A → Z) l : (∀ x, x ∈ l → 0 ≤ f x) → 0 ≤ sum_by f l.
Proof.
  induction l as [|x l IH]; simpl; intros H; [lia|].
  pose proof (H x ltac:(set_solver)). pose proof (IH ltac:(set_solver)). lia.
Qed.

Lemma sum_by_Permutation {A} (f : A → Z) l1 l2 : l1 ≡ₚ l2 → sum_by f l1 = sum_by f l2.
Proof. induction 1; simpl; lia. Qed.

Lemma sum_by_fmap {A B} (f : B → Z) (g : A → B) l : sum_by f (g <$> l) = sum_by (λ x, f (g x)) l.
Proof. induction l as [|x l IH]; [done|]. cbn. unfold sum_by in IH. by rewrite IH. Qed.

Lemma sum_by_ext {A} (f g : A → Z) l : (∀ x, x ∈ l → f x = g x) → sum_by f l = sum_by g l.
Proof.
  induction l as [|x l IH]; simpl; intros H; [done|].
  rewrite (H x), IH by set_solver. done.
Qed.

Lemma map_entries_perm {A} (m : gmap Z A) : map_entries m ≡ₚ map_to_list m.
Proof. apply merge_sort_Permutation. Qed.

Lemma elem_of_map_entries {A} (m : gmap Z A) k x : (k, x) ∈ map_entries m ↔ m !! k = Some x.
Proof. rewrite map_entries_perm. apply elem_of_map_to_list. Qed.

Lemma NoDup_map_entries {A} (m : gmap Z A) : NoDup (map_entries m).*1.
Proof. rewrite map_entries_perm. apply NoDup_fst_map_to_list. Qed.

Lemma length_map_entries {A} (m : gmap Z A) : length (map_entries m) = size m.
Proof. rewrite map_entries_perm. apply length_map_to_list. Qed.

Lemma map_entries_sorted {A} (m : gmap Z A) :
  StronglySorted key_le (map_entries m).
Proof.
  apply StronglySorted_merge_sort.
  - intros x y z. unfold key_le. lia.
  - intros x y. unfold key_le. lia.
Qed.

Lemma sum_by_ge {A} (f : A → Z) l x : (∀ y, 0 ≤ f y) → x ∈ l → f x ≤ sum_by f l.
Proof.
  intros Hf. induction l as [|y l IH]; intros Hin; [by apply elem_of_nil in Hin|].
  pose proof (sum_by_nonneg f l (λ y _, Hf y)) as Hnn. simpl.
  change (foldr _ 0 l) with (sum_by f l).
  apply elem_of_cons in Hin as [->|Hin]; [lia|]. specialize (IH Hin). pose proof (Hf y). lia.
Qed.

(** A key that is not in use. *)
Definition fresh_key {A} (m : gmap Z A) : Z := 1 + sum_by (λ b, Z.abs b.1) (map_to_list m).

Lemma fresh_key_spec {A} (m : gmap Z A) : m !! fresh_key m = None ∧ 0 < fresh_key m.
Proof.
  unfold fresh_key.
  pose proof (sum_by_nonneg (λ b : Z * A, Z.abs b.1) (map_to_list m) ltac:(intros; lia)). split; [|lia].
  apply eq_None_not_Some. intros [x Hx%elem_of_map_to_list].
  pose proof (sum_by_ge (λ b : Z * A, Z.abs b.1) _ _ ltac:(intros; lia) Hx) as Hs. simpl in Hs. lia.
Qed.

(** Grouping permutes the elements. *)
Lemma concat_push_back {A} (key : A → Z) (m : gmap Z (list A)) x :
  concat (snd <$> map_to_list (push_back key m x)) ≡ₚ concat (snd <$> map_to_list m) ++ [x].
Proof.
  unfold push_back. destruct (m !! key x) as [l|] eqn:Hm; simpl.
  - rewrite <- (insert_id m (key x) l Hm) at 2.
    rewrite <- !(insert_delete_eq m). rewrite !map_to_list_insert by apply lookup_delete_eq.
    simpl. rewrite <- !app_assoc. apply Permutation_app_head, Permutation_app_comm.
  - rewrite map_to_list_insert by done. simpl. by rewrite Permutation_cons_append.
Qed.

Lemma group_by_perm {A} (key : A → Z) (xs : list A) : concat (snd <$> group_by key xs) ≡ₚ xs.
Proof.
  unfold group_by. rewrite map_entries_perm.
  assert (Hg : ∀ m, concat (snd <$> map_to_list (foldl (push_back key) m xs))
                    ≡ₚ concat (snd <$> map_to_list m) ++ xs).
  { induction xs as [|x xs IH]; intros m; simpl; [by rewrite app_nil_r|].
    rewrite IH, concat_push_back, <- app_assoc. done. }
  rewrite Hg, map_to_list_empty. done.
Qed.

Lemma push_back_keys {A} (key : A → Z) xs : ∀ (m : gmap Z (list A)) k l x,
  (∀ k l x, m !! k = Some l → x ∈ l → key x = k) →
  foldl (push_back key) m xs !! k = Some l → x ∈ l → key x = k.
Proof.
  induction xs as [|y xs IH]; intros m k l x Hm Hl Hx; simpl in *; [by eapply Hm|].
  eapply IH; [|done..]. clear k l x Hl Hx. intros k l x Hl Hx. unfold push_back in Hl.
  destruct (decide (k = key y)) as [->|Hk].
  - rewrite lookup_insert_eq in Hl. injection Hl as <-.
    apply elem_of_app in Hx as [Hx|Hx%list_elem_of_singleton]; [|by subst].
    destruct (m !! key y) eqn:He; [by eapply Hm|]. by apply elem_of_nil in Hx.
  - rewrite lookup_insert_ne in Hl by done. by eapply Hm.
Qed.

Lemma group_by_key {A} (key : A → Z) xs k l x : (k, l) ∈ group_by key xs → x ∈ l → key x = k.
Proof.
  intros Hg%elem_of_map_entries Hx. eapply push_back_keys; [|done..]. intros ? ? ? He.
  by rewrite lookup_empty in He.
Qed.

(** On a list sorted by the key, grouping keeps the order. *)
Lemma map_entries_is {A} (m : gmap Z A) l : l ≡ₚ map_to_list m → StronglySorted key_le l → map_entries m = l.
Proof.
  intros Hp Hs. assert (Hel : ∀ x, x ∈ l → m !! x.1 = Some x.2) by (intros [k x]; rewrite Hp; apply elem_of_map_to_list).
  apply (StronglySorted_unique_strong key_le); [|apply map_entries_sorted|done|by rewrite map_entries_perm].
  intros [k1 x1] [k2 x2] H1%elem_of_map_entries H2%Hel. unfold key_le; simpl in *. intros H3 H4.
  assert (k1 = k2) as -> by lia. congruence.
Qed.

Lemma map_entries_snoc {A} (m : gmap Z A) k x : (∀ k', is_Some (m !! k') → k' < k) →
  map_entries (<[k := x]> m) = map_entries m ++ [(k, x)].
Proof.
  intros Hk. apply map_entries_is.
  - rewrite map_to_list_insert, map_entries_perm by (apply eq_None_not_Some; intros H%Hk; lia).
    symmetry. apply Permutation_cons_append.
  - apply StronglySorted_app_2; [|apply map_entries_sorted|repeat constructor].
    intros [k1 x1] y H1%elem_of_map_entries ->%list_elem_of_singleton. unfold key_le; simpl.
    specialize (Hk k1 ltac:(by exists x1)). lia.
Qed.

Lemma group_by_sorted {A} (key : A → Z) (xs : list A) : StronglySorted (λ x y, key x ≤ key y) xs →
  concat (snd <$> group_by key xs) = xs.
Proof.
  unfold group_by. assert (Haux : StronglySorted (λ x y, key x ≤ key y) xs →
    concat (snd <$> map_entries (foldl (push_back key) ∅ xs)) = xs ∧
    ∀ k, is_Some (foldl (push_back key) ∅ xs !! k) → ∃ x, x ∈ xs ∧ key x = k); [|intros H; by apply Haux].
  induction xs as [|x xs IH] using rev_ind.
  { intros _. split; [done|]. intros k [? Hk]. simpl in Hk. by apply lookup_empty_Some in Hk. }
  intros Hs. rewrite foldl_app. simpl. set (m := foldl (push_back key) ∅ xs) in *.
  destruct (IH (StronglySorted_app_1_l _ _ _ Hs)) as [Hc Hkeys].
  assert (Hle : ∀ y, y ∈ xs → key y ≤ key x) by (intros y Hy; apply (StronglySorted_app_1_elem_of _ _ _ y x Hs Hy); set_solver). split.
  - assert (Hd : ∀ v, map_entries (<[key x := v]> m) = map_entries (delete (key x) m) ++ [(key x, v)]).
    { intros v. rewrite <- insert_delete_eq. apply map_entries_snoc. intros k [l Hk].
      apply lookup_delete_Some in Hk as [Hne Hk]. destruct (Hkeys k ltac:(by exists l)) as (y & Hy & <-).
      pose proof (Hle y Hy). lia. }
    unfold push_back. rewrite Hd, fmap_app, concat_app. destruct (m !! key x) as [l|] eqn:Hm; simpl.
    + rewrite <- Hc at 1. rewrite <- (insert_id m (key x) l Hm) at 2. rewrite Hd, fmap_app, concat_app. simpl.
      by rewrite !app_nil_r, app_assoc.
    + by rewrite delete_id, Hc by done.
  - intros k. unfold push_back. rewrite lookup_insert_is_Some. intros [<-|[_ [y [Hy Hk]]%Hkeys]].
    + exists x. set_solver.
    + exists y. set_solver.
Qed.

(** Several keys deleted. *)
Definition delete_all {A} (ks : list Z) (m : gmap Z A) : gmap Z A := foldl (λ m k, delete k m) m ks.

Lemma delete_all_snoc {A} ks k (m : gmap Z A) : delete_all (ks ++ [k]) m = delete k (delete_all ks m).
Proof. unfold delete_all. by rewrite foldl_app. Qed.

Lemma delete_all_in {A} ks k (m : gmap Z A) : k ∈ ks → delete_all ks m !! k = None.
Proof.
  induction ks as [|k' ks IH] using rev_ind; [by intros ?%elem_of_nil|].
  intros Hk. rewrite delete_all_snoc. destruct (decide (k = k')) as [->|Hne].
  - apply lookup_delete_eq.
  - rewrite lookup_delete_ne by done. apply IH. set_solver.
Qed.

Lemma delete_all_out {A} ks k (m : gmap Z A) : k ∉ ks → delete_all ks m !! k = m !! k.
Proof.
  induction ks as [|k' ks IH] using rev_ind; [done|].
  intros Hk. rewrite delete_all_snoc, lookup_delete_ne by set_solver. apply IH. set_solver.
Qed.

Lemma delete_all_app {A} l1 l2 (m : gmap Z A) : delete_all (l1 ++ l2) m = delete_all l2 (delete_all l1 m).
Proof. apply foldl_app. Qed.

#[export] Hint Resolve wp_ret wp_get wp_modify : gcr.
