(* ===== verification/Frames.v ===== *)
(** Partial postconditions, and what a computation leaves alone. *)
From S2P Require Import Prelude.
Open Scope Z_scope.

(** [Q] holds if [m] comes back. *)
Definition post {S A} (m : M S A) (Q : A → S → Prop) (s : S) : Prop :=
  match m s with Ret a s' => Q a s' | _ => True end.

Lemma post_bind {S A B} (m : M S A) (f : A → M S B) (R : A → S → Prop) Q s :
  post m R s → (∀ a s', R a s' → post (f a) Q s') → post (m ≫= f) Q s.
Proof. unfold post, mbind, M_bind. destruct (m s); naive_solver. Qed.
Lemma post_mono {S A} (m : M S A) (P Q : A → S → Prop) s :
  post m P s → (∀ a s', P a s' → Q a s') → post m Q s.
Proof. unfold post. destruct (m s); naive_solver. Qed.
Lemma post_and {S A} (m : M S A) (P Q : A → S → Prop) s : post m P s → post m Q s → post m (λ a s', P a s' ∧ Q a s') s.
Proof. unfold post. by destruct (m s). Qed.
Lemma post_true {S A} (m : M S A) s : post m (λ _ _, True) s.
Proof. unfold post. by destruct (m s). Qed.
Lemma post_get {S A} (f : S → A) (Q : A → S → Prop) s : Q (f s) s → post (get f) Q s.
Proof. done. Qed.
Lemma post_ret {S A} (a : A) (Q : A → S → Prop) s : Q a s → post (mret a) Q s.
Proof. done. Qed.
Lemma post_zoom {S T A} (proj : S → T) upd (m : M T A) (Q : A → S → Prop) s :
  post m (λ a t, Q a (upd t s)) (proj s) → post (zoom proj upd m) Q s.
Proof. unfold post, zoom. by destruct (m (proj s)). Qed.
Lemma post_get_bind {S A B} (f : S → A) (k : A → M S B) (Q : B → S → Prop) s : post (k (f s)) Q s → post (get f ≫= k) Q s.
Proof. done. Qed.
Lemma post_modify_bind {S B} (f : S → S) (k : () → M S B) (Q : B → S → Prop) s :
  post (k tt) Q (f s) → post (modify f ≫= k) Q s.
Proof. done. Qed.
Lemma post_if {S A} (b : bool) (m1 m2 : M S A) (Q : A → S → Prop) s :
  (b = true → post m1 Q s) → (b = false → post m2 Q s) → post (if b then m1 else m2) Q s.
Proof. destruct b; auto. Qed.

(** Loops that keep [I]. *)
Lemma post_foldM {S L X} (I : S → Prop) (f : L → X → M S L) xs : (∀ l x s, I s → post (f l x) (λ _, I) s) →
  ∀ l s, I s → post (foldM f l xs) (λ _, I) s.
Proof.
  intros Hf. induction xs as [|x xs IH]; intros l s HI; [exact HI|].
  cbn. eapply post_bind; [by apply Hf|]. intros l' s' HI'. by apply IH.
Qed.
Lemma post_iter {S L R} (I : S → Prop) (body : L → M S (L + R)) : (∀ l s, I s → post (body l) (λ _, I) s) →
  ∀ fuel l s, I s → post (iter fuel body l) (λ _, I) s.
Proof.
  intros Hb. induction fuel as [|fuel IH]; intros l s HI; [done|].
  cbn. eapply post_bind; [by apply Hb|]. intros [l'|r] s' HI'; [by apply IH|exact HI'].
Qed.
Lemma wp_post {S A} (m : M S A) (P Q : A → S → Prop) s : wp m P s → post m Q s → wp m (λ a s', P a s' ∧ Q a s') s.
Proof. unfold wp, post. by destruct (m s). Qed.

(** [m] leaves what [F] reads alone. *)
Definition still {S A B} (F : S → B) (m : M S A) : Prop := ∀ s, post m (λ _ s', F s' = F s) s.

Section Still.
Context {S B : Type} (F : S → B).
Lemma still_ret {A} (a : A) : still F (mret a).
Proof. by intros s. Qed.
Lemma still_get {A} (f : S → A) : still F (get f).
Proof. by intros s. Qed.
Lemma still_modify f : (∀ s, F (f s) = F s) → still F (modify f).
Proof. intros Hf s. apply Hf. Qed.
Lemma still_bind {A C} (m : M S A) (f : A → M S C) : still F m → (∀ a, still F (f a)) → still F (m ≫= f).
Proof. intros Hm Hf s. eapply post_bind; [apply Hm|]. intros a s' <-. apply Hf. Qed.
Lemma still_if {A} (b : bool) (m1 m2 : M S A) : still F m1 → still F m2 → still F (if b then m1 else m2).
Proof. by destruct b. Qed.
Lemma still_opt {A C} (o : option C) (f : C → M S A) m : (∀ c, still F (f c)) → still F m →
  still F (match o with Some c => f c | None => m end).
Proof. by destruct o. Qed.
Lemma still_zoom {T A} (proj : S → T) upd (m : M T A) : (∀ t s, F (upd t s) = F s) → still F (zoom proj upd m).
Proof. intros Hu s. unfold post, zoom. destruct (m (proj s)); auto. Qed.
Lemma post_still {A} (m : M S A) (Q : A → S → Prop) s : still F m → (∀ a s', F s' = F s → Q a s') → post m Q s.
Proof. intros Hm HQ. eapply post_mono; [apply Hm|exact HQ]. Qed.
End Still.

Create HintDb still discriminated.
#[export] Hint Resolve still_ret still_get still_if still_opt : still.
#[export] Hint Extern 1 (still _ (zoom _ _ _)) => apply still_zoom; intros; reflexivity : still.
#[export] Hint Extern 1 (still _ (modify _)) => apply still_modify; intros; reflexivity : still.
#[export] Hint Extern 2 (still _ (mbind _ _)) => apply still_bind; [|intros ?] : still.

(** The answers to a sequence of calls. *)
Definition each {S A B} (f : A → M S B) (xs : list A) : M S (list B) :=
  foldM (λ ys x, y ← f x; mret (ys ++ [y])) [] xs.

Lemma post_each {S A B} (I : list A → list B → S → Prop) (f : A → M S B) xs s : I [] [] s →
  (∀ pre x ys s, I pre ys s → post (f x) (λ y s', I (pre ++ [x]) (ys ++ [y]) s') s) → post (each f xs) (I xs) s.
Proof.
  intros H0 Hf. unfold each. assert (Haux : ∀ zs pre ys s, I pre ys s →
    post (foldM (λ ys x, y ← f x; mret (ys ++ [y])) ys zs) (I (pre ++ zs)) s); [|by apply (Haux xs [])]. clear H0.
  induction zs as [|x zs IH]; intros pre ys s' HI; cbn; [by rewrite app_nil_r|].
  apply (post_bind _ _ (λ ys' s', I (pre ++ [x]) ys' s')).
  - eapply post_bind; [by apply Hf|]. intros y s2 H'. exact H'.
  - intros ys' s2 H'. rewrite cons_middle, app_assoc. by apply IH.
Qed.
Lemma wp_each {S A B} (I : list A → list B → S → Prop) (f : A → M S B) xs s : I [] [] s →
  (∀ pre x ys s, I pre ys s → wp (f x) (λ y s', I (pre ++ [x]) (ys ++ [y]) s') s) → wp (each f xs) (I xs) s.
Proof.
  intros H0 Hf. apply (wp_foldM I); [done|]. intros pre x rest ys s' _ HI. apply wp_bind.
  eapply wp_mono; [by apply Hf|]. intros y s'' H'. by apply wp_ret.
Qed.
