(* ===== verification/Common.v ===== *)
(** Shared constants, structures and copy helpers.

    Models [src/src/common.h] (constants, [ROUND_UP_2MB], the [shared_mem_fs]
    header of the dump file and its layout), the copy helpers of
    [src/src/vGPU.cpp] ([memcpy_multi], [granule_clamp]) and the sizes of the
    structures that share the header page ([IpcRebuildShmBlock]).  The header
    is kept as a record; the layout theorems say why no payload copy can reach
    it. *)
From S2P Require Import Prelude.
Open Scope Z_scope.

(** ** Constants *)

Definition HUGE_PAGE_SIZE : Z := 2 * 1024 * 1024.
Definition VMM_GRANULE_SIZE : Z := 2 * 1024 * 1024.

(** [((x) + (2MB - 1)) & ~(2MB - 1)] on [size_t]: the sum wraps, the mask is the
    sign-extended complement. *)
Definition ROUND_UP_2MB (x : Z) : Z :=
  Z.land (wrap64 (x + (2 * 1024 * 1024 - 1))) (Z.lnot (2 * 1024 * 1024 - 1)).

(** [SHM_SIZE_GB] is a build parameter, 25 by default. *)
Definition SHM_SIZE (shm_size_gb : Z) : Z := wrap64 (Z.shiftl shm_size_gb 30).
Definition SHM_SIZE_GB_DEFAULT : Z := 25.

Definition MAX_FILE_NUM : Z := 4096.
Definition NUM_COPY_THREADS : Z := 4.
Definition STAGING_BUF_SIZE : Z := Z.shiftl 1 30.
Definition STAGING_BUF_NUM : Z := 2.
Definition MAX_SELECTIVE_REGIONS : Z := 4096.
Definition MAX_MULTI_GPU_PROCS : Z := 32.
Definition EXIT_FAILURE : Z := 1.

(** ** The dump file header *)

Record shared_mem_file := MkFile { f_ptr : Z; f_start_offset : Z; f_size : Z }.

Record shared_mem_fs := MkFs {
  file_num : Z;
  current_offset : Z;
  files : list shared_mem_file   (* an array of MAX_FILE_NUM entries *)
}.

Definition sizeof_shared_mem_file : Z := 8 + 8 + 8.
Definition sizeof_shared_mem_fs : Z := 8 + 8 + MAX_FILE_NUM * sizeof_shared_mem_file.

(** Where the payload starts: [ROUND_UP_2MB(sizeof(shared_mem_fs))]. *)
Definition payload_base : Z := ROUND_UP_2MB sizeof_shared_mem_fs.

Record selective_cr_region := MkRegion { r_ptr : Z; r_size : Z }.

Record selective_cr_request := MkReq {
  num_regions : Z;
  regions : list selective_cr_region
}.

Definition sizeof_selective_cr_request : Z := 4 + 4 + MAX_SELECTIVE_REGIONS * (8 + 8).
Definition sizeof_signal_controls : Z := 4 + 4 + sizeof_selective_cr_request.

(** ** The rebuild blocks at the end of the header page *)

Definition IPC_MAX_EXPORTS_PER_PROC : Z := 64.
Definition sizeof_IpcExportShmEntry : Z := 4 + 4 + 8 + 8 + (4 + 4).
Definition sizeof_IpcRebuildShmBlock : Z :=
  (4 + 4) + IPC_MAX_EXPORTS_PER_PROC * sizeof_IpcExportShmEntry.

Definition get_my_block (shm_ptr : Z) : Z :=
  shm_ptr + ROUND_UP_2MB sizeof_shared_mem_fs - sizeof_IpcRebuildShmBlock.
Definition get_peer_block (shm_ptr : Z) : Z :=
  shm_ptr + ROUND_UP_2MB sizeof_shared_mem_fs - sizeof_IpcRebuildShmBlock * 2.

(** ** Copy helpers *)

(** The loop of [memcpy_multi] that deals chunks to threads, from thread [i] on. *)
Fixpoint memcpy_multi_threads (fuel : nat) (i chunk_size dest src size : Z)
    : list (Z * Z * Z) :=
  match fuel with
  | O => []
  | S fuel' =>
      let offset := wrap64 (i * chunk_size) in
      if size <=? offset then []
      else (dest + offset, src + offset, Z.min chunk_size (size - offset))
           :: memcpy_multi_threads fuel' (i + 1) chunk_size dest src size
  end.

Definition memcpy_multi_chunks (dest src size : Z) : list (Z * Z * Z) :=
  memcpy_multi_threads (Z.to_nat NUM_COPY_THREADS) 0
    (wrap64 (size + NUM_COPY_THREADS - 1) / NUM_COPY_THREADS) dest src size.

(** One thread's [memcpy]. *)
Definition run_chunk (m : mem) (c : Z * Z * Z) : mem :=
  let '(d, s, n) := c in copy m d m s n.

Definition memcpy_multi (m : mem) (dest src size : Z) : mem :=
  foldl run_chunk m (memcpy_multi_chunks dest src size).

(** The single-byte assignments a chunk consists of, for the interleaved runs. *)
Definition byte_ops (c : Z * Z * Z) : list (Z * Z) :=
  let '(d, s, n) := c in (λ i, (d + i, s + i)) <$> seqZ 0 n.

Arguments byte_ops : simpl never.

Definition run_byte (m : mem) (op : Z * Z) : mem :=
  λ a, if decide (a = op.1) then m op.2 else m a.

(** [granule_clamp]: cut a device copy at the next granule boundary. *)
Definition granule_clamp (dev_ptr len : Z) : Z :=
  let to_boundary := VMM_GRANULE_SIZE - Z.land dev_ptr (VMM_GRANULE_SIZE - 1) in
  if len <? to_boundary then len else to_boundary.

(** ** Rounding *)

Lemma land_lnot_granule x : Z.land x (Z.lnot (2 * 1024 * 1024 - 1)) = 2097152 * (x / 2097152).
Proof.
  change (2 * 1024 * 1024 - 1) with (Z.ones 21).
  rewrite <- Z.ldiff_land, Z.ldiff_ones_r, Z.shiftl_mul_pow2, Z.shiftr_div_pow2 by lia.
  change (2 ^ 21) with 2097152. lia.
Qed.

Lemma ROUND_UP_2MB_eq x : 0 ≤ x ≤ 2 ^ 64 - 2097152 →
  ROUND_UP_2MB x = 2097152 * ((x + 2097151) / 2097152).
Proof.
  intros H. unfold ROUND_UP_2MB. rewrite land_lnot_granule, wrap64_small by lia.
  by change (2 * 1024 * 1024 - 1) with 2097151.
Qed.

(** The facts about rounding the rest of the development uses. *)
Lemma ROUND_UP_2MB_bounds x : 0 ≤ x ≤ 2 ^ 64 - 2097152 →
  x ≤ ROUND_UP_2MB x < x + 2097152 ∧ ROUND_UP_2MB x mod 2097152 = 0.
Proof.
  intros H. rewrite ROUND_UP_2MB_eq by done.
  pose proof (Z.div_mod (x + 2097151) 2097152 ltac:(lia)).
  pose proof (Z.mod_pos_bound (x + 2097151) 2097152 ltac:(lia)).
  split; [lia|]. rewrite Z.mul_comm. apply Z.mod_mul. lia.
Qed.

Lemma ROUND_UP_2MB_multiple x : 0 ≤ x ≤ 2 ^ 64 - 2097152 → x mod 2097152 = 0 →
  ROUND_UP_2MB x = x.
Proof.
  intros H Hm. destruct (ROUND_UP_2MB_bounds x H) as [Hb Hr].
  pose proof (Z.div_mod (ROUND_UP_2MB x) 2097152 ltac:(lia)).
  pose proof (Z.div_mod x 2097152 ltac:(lia)). lia.
Qed.

Lemma payload_base_eq : payload_base = 2097152.
Proof. reflexivity. Qed.

Lemma STAGING_BUF_SIZE_eq : STAGING_BUF_SIZE = 1073741824.
Proof. reflexivity. Qed.

Lemma granule_eq : VMM_GRANULE_SIZE = 2097152.
Proof. reflexivity. Qed.

(** ** Clamping *)

Lemma granule_clamp_bounds dev_ptr len : 0 < len →
  0 < granule_clamp dev_ptr len ≤ len ∧
  dev_ptr mod 2097152 + granule_clamp dev_ptr len ≤ 2097152 ∧
  (granule_clamp dev_ptr len = len ∨ (dev_ptr + granule_clamp dev_ptr len) mod 2097152 = 0).
Proof.
  intros H. unfold granule_clamp.
  change (VMM_GRANULE_SIZE - 1) with (Z.ones 21).
  rewrite Z.land_ones, granule_eq by lia. change (2 ^ 21) with 2097152.
  pose proof (Z.mod_pos_bound dev_ptr 2097152 ltac:(lia)).
  pose proof (Z.div_mod dev_ptr 2097152 ltac:(lia)).
  destruct (Z.ltb_spec len (2097152 - dev_ptr mod 2097152)).
  - repeat split; [lia..|by left].
  - repeat split; [lia..|]. right.
    replace (dev_ptr + (2097152 - dev_ptr mod 2097152))
      with ((dev_ptr / 2097152 + 1) * 2097152) by lia.
    apply Z.mod_mul. lia.
Qed.

(** ** The thread split of [memcpy_multi] *)

Lemma byte_ops_split d s o n : 0 ≤ o ≤ n →
  byte_ops (d, s, n) = byte_ops (d, s, o) ++ byte_ops (d + o, s + o, n - o).
Proof.
  intros H. unfold byte_ops. replace n with (o + (n - o)) at 1 by lia.
  rewrite seqZ_app, fmap_app by lia. f_equal.
  rewrite <- (Z.add_0_r (0 + o)), <- fmap_add_seqZ, <- list_fmap_compose.
  apply list_fmap_ext. intros k x _. simpl. f_equal; lia.
Qed.

Lemma byte_ops_eq d s n d' s' n' : d = d' → s = s' → n = n' → byte_ops (d, s, n) = byte_ops (d', s', n').
Proof. by intros -> -> ->. Qed.

Lemma byte_ops_empty d s n : n ≤ 0 → byte_ops (d, s, n) = [].
Proof. intros H. unfold byte_ops. by rewrite seqZ_nil. Qed.

(** The threads from [i] on do exactly the bytes from [i * chunk_size] on. *)
Lemma memcpy_threads_bytes fuel i cs dest src size :
  0 ≤ i → 0 < cs → i + Z.of_nat fuel ≤ 4 → size ≤ (i + Z.of_nat fuel) * cs → 4 * cs < 2 ^ 64 →
  concat (byte_ops <$> memcpy_multi_threads fuel i cs dest src size) =
  byte_ops (dest + i * cs, src + i * cs, size - i * cs).
Proof.
  revert i. induction fuel as [|fuel IH]; intros i Hi Hcs Hf Hcov Hw; simpl.
  - by rewrite byte_ops_empty by lia.
  - rewrite wrap64_small by nia.
    destruct (Z.leb_spec size (i * cs)) as [Hle|Hgt]; simpl; [by rewrite byte_ops_empty by lia|].
    rewrite IH by lia.
    symmetry. rewrite (byte_ops_split (dest + i * cs) _ (Z.min cs (size - i * cs)) (size - i * cs))
      by lia.
    f_equal. destruct (Z.min_spec cs (size - i * cs)) as [[? ->]|[? ->]].
    + apply byte_ops_eq; lia.
    + by rewrite !byte_ops_empty by lia.
Qed.

Lemma memcpy_threads_run fuel i cs dest src size m a :
  0 ≤ i → 0 < cs → i + Z.of_nat fuel ≤ 4 → size ≤ (i + Z.of_nat fuel) * cs → 4 * cs < 2 ^ 64 →
  disjoint_ranges dest size src size →
  foldl run_chunk m (memcpy_multi_threads fuel i cs dest src size) a =
  copy m (dest + i * cs) m (src + i * cs) (size - i * cs) a.
Proof.
  revert i m. induction fuel as [|fuel IH]; intros i m Hi Hcs Hf Hcov Hw Hd; simpl.
  - by rewrite copy_empty by lia.
  - rewrite wrap64_small by nia.
    destruct (Z.leb_spec size (i * cs)) as [Hle|Hgt]; simpl; [by rewrite copy_empty by lia|].
    rewrite IH by (done || lia). unfold disjoint_ranges in Hd.
    repeat (copy_case; try lia); f_equal; lia.
Qed.

(** Byte writes to distinct cells, none of which is read by another write. *)
Lemma foldl_run_byte ops m :
  NoDup ops.*1 → (∀ d s, (d, s) ∈ ops → s ∉ ops.*1) →
  (∀ d s, (d, s) ∈ ops → foldl run_byte m ops d = m s) ∧
  (∀ a, a ∉ ops.*1 → foldl run_byte m ops a = m a).
Proof.
  revert m. induction ops as [|[d s] ops IH]; intros m Hnd Hsrc; simpl.
  - split; [|done]. intros d s H. by apply elem_of_nil in H.
  - apply NoDup_cons in Hnd as [Hd Hnd].
    destruct (IH (run_byte m (d, s)) Hnd) as [IHin IHout].
    { intros d' s' H' Hs'. apply (Hsrc d' s'); [by right|]. by right. }
    assert (Hread : ∀ x, x ≠ d → run_byte m (d, s) x = m x).
    { intros x Hx. unfold run_byte. simpl. by rewrite decide_False. }
    split.
    + intros d' s' H'. apply elem_of_cons in H' as [[= -> ->]|H'].
      * rewrite IHout by done. unfold run_byte. simpl. by rewrite decide_True.
      * rewrite (IHin _ _ H'). apply Hread. intros ->.
        apply (Hsrc d' d); [by right|]. by left.
    + intros a Ha. rewrite not_elem_of_cons in Ha. destruct Ha as [Ha Hops].
      rewrite IHout by done. by apply Hread.
Qed.

Lemma elem_of_byte_ops d s n x y :
  (x, y) ∈ byte_ops (d, s, n) ↔ d ≤ x < d + n ∧ y = s + (x - d).
Proof.
  unfold byte_ops. rewrite list_elem_of_fmap. setoid_rewrite elem_of_seqZ. split.
  - intros (i & [= -> ->] & H). lia.
  - intros [H ->]. exists (x - d). split; [f_equal; lia|lia].
Qed.

Lemma byte_ops_fst d s n : (byte_ops (d, s, n)).*1 = (λ i, d + i) <$> seqZ 0 n.
Proof. unfold byte_ops. by rewrite <- list_fmap_compose. Qed.

Lemma memcpy_multi_chunks_bytes dest src size : 0 ≤ size < 2 ^ 62 →
  concat (byte_ops <$> memcpy_multi_chunks dest src size) = byte_ops (dest, src, size).
Proof.
  intros H. unfold memcpy_multi_chunks, NUM_COPY_THREADS. rewrite wrap64_small by lia.
  destruct (decide (size = 0)) as [->|Hne]; [done|].
  pose proof (Z.div_mod (size + 4 - 1) 4 ltac:(lia)).
  pose proof (Z.mod_pos_bound (size + 4 - 1) 4 ltac:(lia)).
  rewrite memcpy_threads_bytes by lia. apply byte_ops_eq; lia.
Qed.

(** [memcpy_multi] in its sequential order is a [memcpy]. *)
Lemma memcpy_multi_spec m dest src size a :
  0 ≤ size < 2 ^ 62 → disjoint_ranges dest size src size →
  memcpy_multi m dest src size a = copy m dest m src size a.
Proof.
  intros H Hd. unfold memcpy_multi, memcpy_multi_chunks, NUM_COPY_THREADS.
  rewrite wrap64_small by lia.
  destruct (decide (size = 0)) as [->|Hne]; [by rewrite copy_empty by lia|].
  pose proof (Z.div_mod (size + 4 - 1) 4 ltac:(lia)).
  pose proof (Z.mod_pos_bound (size + 4 - 1) 4 ltac:(lia)).
  rewrite memcpy_threads_run by (done || lia). f_equal; lia.
Qed.

(** ** Properties *)

(** C19: [memcpy_multi] is race free and complete: whatever the interleaving of
    the byte assignments of its four threads (any permutation of all of them),
    the result is that of one [memcpy] of [size] bytes. *)
Theorem memcpy_multi_interleaving (m : mem) (dest src size : Z) (ops : list (Z * Z)) (a : Z) :
  0 ≤ size < 2 ^ 62 →
  disjoint_ranges dest size src size →
  ops ≡ₚ concat (byte_ops <$> memcpy_multi_chunks dest src size) →
  foldl run_byte m ops a = copy m dest m src size a.
Proof.
  intros Hsz Hd Hops. rewrite memcpy_multi_chunks_bytes in Hops by done.
  assert (Hin : ∀ x y, (x, y) ∈ ops ↔ dest ≤ x < dest + size ∧ y = src + (x - dest)).
  { intros x y. rewrite Hops. apply elem_of_byte_ops. }
  assert (Hfst : ∀ x, x ∈ ops.*1 ↔ dest ≤ x < dest + size).
  { intros x. rewrite list_elem_of_fmap. split.
    - intros ([x' y] & -> & H). by apply Hin in H as [H _].
    - intros H. exists (x, src + (x - dest)). split; [done|]. by apply Hin. }
  destruct (foldl_run_byte ops m) as [Hi Ho].
  - rewrite Hops, byte_ops_fst. apply NoDup_fmap_2; [intros ??; lia|apply NoDup_seqZ].
  - intros d s H. apply Hin in H as [H ->]. rewrite Hfst. unfold disjoint_ranges in Hd. lia.
  - copy_case.
    + apply Hi. by apply Hin.
    + apply Ho. by rewrite Hfst.
Qed.

(** Ten bytes, every assignment in the opposite order. *)
Lemma memcpy_multi_interleaving_witness :
  let ops := reverse (concat (byte_ops <$> memcpy_multi_chunks 0 100 10)) in
  length ops = 10%nat ∧ foldl run_byte (λ a, a) ops 7 = copy (λ a, a) 0 (λ a, a) 100 10 7.
Proof.
  split; [vm_compute; reflexivity|].
  apply (memcpy_multi_interleaving (λ a, a) 0 100 10); [lia|left; lia|apply reverse_Permutation].
Defined.
