(* ===== verification/Gpu.v ===== *)
(** The [GPU] interface of [src/src/GPUs/GPU.h].

    [GPU W] is the abstract class: the operations [vGPU.cpp] calls on the vendor
    object.  [GPULaws W] is what the checkpoint and restore code relies on, stated
    on an abstract view of the device: two byte memories, the FIFO of
    asynchronous copies with the position an event was recorded at, the
    allocation table and the physically backed blocks.  A stream executes its
    copies in order but at a time of its own choosing ([progress k] for any [k]);
    only a synchronisation forces them.  [nv] and [amd] discharge the laws in
    their own files. *)
From S2P Require Import Prelude Common.
Open Scope Z_scope.

Inductive GPUMemcpyKind := HostToDevice | DeviceToHost | DeviceToDevice.

Inductive GPUVendor := NVIDIA | AMD | UNKNOWN.

(** A pending asynchronous copy. *)
Record xfer := MkXfer { x_dst : Z; x_src : Z; x_n : Z; x_kind : GPUMemcpyKind }.

Definition run_xfer (hd : mem * mem) (x : xfer) : mem * mem :=
  let '(h, d) := hd in
  match x_kind x with
  | DeviceToHost => (copy h (x_dst x) d (x_src x) (x_n x), d)
  | HostToDevice => (h, copy d (x_dst x) h (x_src x) (x_n x))
  | DeviceToDevice => (h, copy d (x_dst x) d (x_src x) (x_n x))
  end.

(** The abstract state of a device and the memories it shares with the CPU. *)
Record gview := MkView {
  g_host : mem;                (* host memory *)
  g_dev : mem;                 (* device memory *)
  g_queue : list xfer;         (* copies issued and not executed, oldest first *)
  g_mark : nat;                (* how many of them the event covers *)
  g_alloc : gmap Z Z;          (* allocated_memory: pointer to size *)
  g_backed : gmap Z Z;         (* blocks with physical memory: pointer to extent *)
  g_free : Z                   (* free physical device memory *)
}.

Definition set_host (h : mem) (v : gview) : gview :=
  MkView h (g_dev v) (g_queue v) (g_mark v) (g_alloc v) (g_backed v) (g_free v).
Definition set_dev (d : mem) (v : gview) : gview :=
  MkView (g_host v) d (g_queue v) (g_mark v) (g_alloc v) (g_backed v) (g_free v).
Definition set_backed (b : gmap Z Z) (f : Z) (v : gview) : gview :=
  MkView (g_host v) (g_dev v) (g_queue v) (g_mark v) (g_alloc v) b f.
Definition set_alloc (m : gmap Z Z) (v : gview) : gview :=
  MkView (g_host v) (g_dev v) (g_queue v) (g_mark v) m (g_backed v) (g_free v).

Definition enqueue (x : xfer) (v : gview) : gview :=
  MkView (g_host v) (g_dev v) (g_queue v ++ [x]) (g_mark v) (g_alloc v) (g_backed v) (g_free v).
Definition mark_all (v : gview) : gview :=
  MkView (g_host v) (g_dev v) (g_queue v) (length (g_queue v)) (g_alloc v) (g_backed v) (g_free v).

Definition drain (v : gview) : mem * mem := foldl run_xfer (g_host v, g_dev v) (g_queue v).

(** The device executes the [k] oldest pending copies. *)
Definition progress (k : nat) (v : gview) : gview :=
  let hd := foldl run_xfer (g_host v, g_dev v) (take k (g_queue v)) in
  MkView hd.1 hd.2 (drop k (g_queue v)) (g_mark v - k) (g_alloc v) (g_backed v) (g_free v).

(** The device range a copy touches, and when the driver accepts it: inside one
    backed block, and either made of whole granules or within one granule. *)
Definition x_dev (x : xfer) : Z :=
  match x_kind x with DeviceToHost => x_src x | _ => x_dst x end.

Definition granule_shape (d n : Z) : Prop :=
  (d mod VMM_GRANULE_SIZE = 0 ∧ n mod VMM_GRANULE_SIZE = 0) ∨
  d mod VMM_GRANULE_SIZE + n ≤ VMM_GRANULE_SIZE.

Definition in_block (m : gmap Z Z) (d n : Z) : Prop :=
  ∃ p sz, m !! p = Some sz ∧ p ≤ d ∧ d + n ≤ p + sz.

Definition xfer_ok (v : gview) (x : xfer) : Prop :=
  x_kind x ≠ DeviceToDevice ∧ 0 < x_n x ∧ in_block (g_backed v) (x_dev x) (x_n x) ∧
  granule_shape (x_dev x) (x_n x).

(** ** The abstract class *)

Class GPU (W : Type) := {
  gpu_view : W → gview;
  gpu_wf : W → Prop;                        (* the implementation's own invariant *)
  store_host : mem → W → W;                 (* the CPU writes host memory *)
  createStream : M W Z;
  destroyStream : M W Z;
  createEvent : M W Z;
  destroyEvent : M W Z;
  recordEvent : M W Z;
  synchronizeEvent : M W Z;
  synchronizeStream : M W Z;
  syncAllKernels : M W Z;
  memcpyAsync : Z → Z → Z → GPUMemcpyKind → M W Z;   (* dst src size kind *)
  releasePhysicalMemory : Z → M W Z;
  remapPhysicalMemory : Z → Z → M W Z
}.

(** ** What its clients rely on *)

(** From a well-formed [w], [m] succeeds (returns 0) in a well-formed state whose
    view is in [P]. *)
Definition succeeds {W} `{GPU W} (m : M W Z) (w : W) (P : gview → Prop) : Prop :=
  gpu_wf w → ∃ w', m w = Ret 0 w' ∧ gpu_wf w' ∧ P (gpu_view w').

(** The device contents outside a block survive. *)
Definition dev_outside (p n : Z) (d d' : mem) : Prop := ∀ a, ¬ (p ≤ a < p + n) → d' a = d a.

(** A block as the hooks make it: granule aligned, with a size that rounds. *)
Definition block_ok (p sz : Z) : Prop :=
  0 ≤ p ∧ p mod VMM_GRANULE_SIZE = 0 ∧ 0 < sz ≤ 2 ^ 62.

Class GPULaws (W : Type) `{GPU W} := {
  store_host_law : ∀ h w, gpu_view (store_host h w) = set_host h (gpu_view w);
  store_host_wf : ∀ h w, gpu_wf w → gpu_wf (store_host h w);
  createStream_law : ∀ w, g_queue (gpu_view w) = [] →
    succeeds createStream w (λ v, v = gpu_view w);
  createEvent_law : ∀ w, g_queue (gpu_view w) = [] →
    succeeds createEvent w (λ v, v = gpu_view w);
  destroyStream_law : ∀ w, g_queue (gpu_view w) = [] →
    succeeds destroyStream w (λ v, v = gpu_view w);
  destroyEvent_law : ∀ w, g_queue (gpu_view w) = [] →
    succeeds destroyEvent w (λ v, v = gpu_view w);
  recordEvent_law : ∀ w,
    succeeds recordEvent w (λ v, ∃ k, v = progress k (mark_all (gpu_view w)));
  synchronizeEvent_law : ∀ w,
    succeeds synchronizeEvent w
      (λ v, ∃ k, (g_mark (gpu_view w) ≤ k)%nat ∧ v = progress k (gpu_view w));
  synchronizeStream_law : ∀ w,
    succeeds synchronizeStream w (λ v, v = progress (length (g_queue (gpu_view w))) (gpu_view w));
  syncAllKernels_law : ∀ w, g_queue (gpu_view w) = [] →
    succeeds syncAllKernels w (λ v, v = gpu_view w);
  memcpyAsync_law : ∀ w dst src n k, xfer_ok (gpu_view w) (MkXfer dst src n k) →
    succeeds (memcpyAsync dst src n k) w
      (λ v, ∃ j, v = progress j (enqueue (MkXfer dst src n k) (gpu_view w)));
  releasePhysicalMemory_law : ∀ w p sz, g_queue (gpu_view w) = [] → block_ok p sz →
    g_alloc (gpu_view w) !! p = Some sz →
    g_backed (gpu_view w) !! p = Some (ROUND_UP_2MB sz) →
    succeeds (releasePhysicalMemory p) w
      (λ v, ∃ d, dev_outside p (ROUND_UP_2MB sz) (g_dev (gpu_view w)) d ∧
                 v = set_dev d (set_backed (delete p (g_backed (gpu_view w)))
                       (g_free (gpu_view w) + ROUND_UP_2MB sz) (gpu_view w)));
  remapPhysicalMemory_law : ∀ w p sz0 sz, g_queue (gpu_view w) = [] →
    block_ok p sz0 → sz = sz0 ∨ sz = ROUND_UP_2MB sz0 →
    g_alloc (gpu_view w) !! p = Some sz0 →
    g_backed (gpu_view w) !! p = None →
    ROUND_UP_2MB sz ≤ g_free (gpu_view w) →
    succeeds (remapPhysicalMemory p sz) w
      (λ v, ∃ d, dev_outside p (ROUND_UP_2MB sz) (g_dev (gpu_view w)) d ∧
                 v = set_dev d (set_backed (<[p := ROUND_UP_2MB sz]> (g_backed (gpu_view w)))
                       (g_free (gpu_view w) - ROUND_UP_2MB sz) (gpu_view w)))
}.

(** ** Facts on views *)

Definition is_d2h (x : xfer) : Prop := x_kind x = DeviceToHost.
Definition is_h2d (x : xfer) : Prop := x_kind x = HostToDevice.

Lemma drain_progress k v : drain (progress k v) = drain v.
Proof.
  unfold drain, progress; simpl. rewrite <- (take_drop k (g_queue v)) at 4.
  rewrite foldl_app. by destruct (foldl run_xfer _ (take k _)).
Qed.

Lemma drain_enqueue x v : drain (enqueue x v) = run_xfer (drain v) x.
Proof. unfold drain, enqueue; simpl. by rewrite foldl_app. Qed.

Lemma drain_mark_all v : drain (mark_all v) = drain v.
Proof. done. Qed.

Lemma progress_all k v : (length (g_queue v) ≤ k)%nat → g_queue (progress k v) = [].
Proof. intros H. simpl. by apply drop_ge. Qed.

Lemma drain_empty v : g_queue v = [] → drain v = (g_host v, g_dev v).
Proof. unfold drain. by intros ->. Qed.

Section Runs.
Context (q : list xfer).

Lemma run_d2h_dev h d : Forall is_d2h q → (foldl run_xfer (h, d) q).2 = d.
Proof.
  revert h. induction q as [|x q' IH]; intros h Hq; simpl; [done|].
  apply Forall_cons in Hq as [Hx Hq]. rewrite Hx. by apply IH.
Qed.

Lemma run_d2h_ext h h' d a : Forall is_d2h q → h' a = h a →
  (foldl run_xfer (h', d) q).1 a = (foldl run_xfer (h, d) q).1 a.
Proof.
  revert h h'. induction q as [|x q' IH]; intros h h' Hq Hh; simpl; [done|].
  apply Forall_cons in Hq as [Hx Hq]. rewrite Hx. apply IH; [done|].
  repeat copy_case; done.
Qed.

Lemma run_d2h_out h d a : Forall is_d2h q → (∀ x, x ∈ q → ¬ (x_dst x ≤ a < x_dst x + x_n x)) →
  (foldl run_xfer (h, d) q).1 a = h a.
Proof.
  revert h. induction q as [|x q' IH]; intros h Hq Ha; simpl; [done|].
  apply Forall_cons in Hq as [Hx Hq]. rewrite Hx, IH by set_solver.
  apply copy_out. apply Ha. by left.
Qed.

Lemma run_h2d_host h d : Forall is_h2d q → (foldl run_xfer (h, d) q).1 = h.
Proof.
  revert d. induction q as [|x q' IH]; intros d Hq; simpl; [done|].
  apply Forall_cons in Hq as [Hx Hq]. rewrite Hx. by apply IH.
Qed.

Lemma run_h2d_ext h h' d d' a : Forall is_h2d q →
  (∀ x b, x ∈ q → x_src x ≤ b < x_src x + x_n x → h' b = h b) → d' a = d a →
  (foldl run_xfer (h', d') q).2 a = (foldl run_xfer (h, d) q).2 a.
Proof.
  revert d d'. induction q as [|x q' IH]; intros d d' Hq Hh Hd; simpl; [done|].
  apply Forall_cons in Hq as [Hx Hq]. rewrite Hx. apply IH; [done|set_solver|].
  repeat copy_case; try done. apply (Hh x); [by left|lia].
Qed.
End Runs.

Lemma block_ok_round p sz : block_ok p sz →
  sz ≤ ROUND_UP_2MB sz < sz + 2097152 ∧ ROUND_UP_2MB sz mod 2097152 = 0 ∧
  ROUND_UP_2MB (ROUND_UP_2MB sz) = ROUND_UP_2MB sz.
Proof.
  intros (_ & _ & Hsz). destruct (ROUND_UP_2MB_bounds sz ltac:(lia)) as [Hb Hm].
  split; [lia|]. split; [done|]. apply ROUND_UP_2MB_multiple; [lia|done].
Qed.

(** ** Rules for the operations *)

Lemma succeeds_wp {W} `{GPU W} (m : M W Z) w P :
  gpu_wf w → succeeds m w P → wp m (λ r w', r = 0 ∧ gpu_wf w' ∧ P (gpu_view w')) w.
Proof. intros Hwf Hs. destruct (Hs Hwf) as (w' & Hm & ?). by eapply wp_intro. Qed.
