(* ===== verification/Layout.v ===== *)
(** The payload of a dump: blocks packed one after the other.

    [payload_addr bs q] is the device address of byte [q] of the payload made of
    the blocks [bs] (pointer, saved size); [files_of] is the file table that
    describes it.  Saving reads the payload through these addresses and restoring
    writes through the same ones. *)
From S2P Require Import Prelude Common.
Open Scope Z_scope.

Fixpoint payload_addr (bs : list (Z * Z)) (q : Z) : Z :=
  match bs with
  | [] => 0
  | (p, s) :: rest => if q <? s then p + q else payload_addr rest (q - s)
  end.

Definition payload_size (bs : list (Z * Z)) : Z := sum_by snd bs.

Fixpoint files_of (off : Z) (bs : list (Z * Z)) : list shared_mem_file :=
  match bs with
  | [] => []
  | (p, s) :: rest => MkFile p off s :: files_of (off + s) rest
  end.

(** No two blocks share a byte. *)
Definition blocks_disjoint (bs : list (Z * Z)) : Prop :=
  ∀ i j p s p' s', bs !! i = Some (p, s) → bs !! j = Some (p', s') → i ≠ j →
  disjoint_ranges p s p' s'.

Definition sizes_nonneg (bs : list (Z * Z)) : Prop := ∀ p s, (p, s) ∈ bs → 0 ≤ s.

Lemma sizes_nonneg_cons p s bs : sizes_nonneg ((p, s) :: bs) ↔ 0 ≤ s ∧ sizes_nonneg bs.
Proof. unfold sizes_nonneg. set_solver. Qed.

Lemma payload_size_nonneg bs : sizes_nonneg bs → 0 ≤ payload_size bs.
Proof. intros H. apply sum_by_nonneg. intros [p s] ?. by apply (H p s). Qed.

Lemma payload_size_app bs1 bs2 : payload_size (bs1 ++ bs2) = payload_size bs1 + payload_size bs2.
Proof. apply sum_by_app. Qed.

Lemma payload_addr_at pre p s post i :
  sizes_nonneg pre → 0 ≤ i < s →
  payload_addr (pre ++ (p, s) :: post) (payload_size pre + i) = p + i.
Proof.
  induction pre as [|[p' s'] pre IH]; intros Hnn Hi; simpl.
  - rewrite Z.add_0_l. destruct (Z.ltb_spec i s); [done|lia].
  - apply sizes_nonneg_cons in Hnn as [Hs Hnn]. pose proof (payload_size_nonneg _ Hnn).
    change (sum_by snd pre) with (payload_size pre).
    destruct (Z.ltb_spec (s' + payload_size pre + i) s'); [lia|].
    replace (s' + payload_size pre + i - s') with (payload_size pre + i) by lia. by apply IH.
Qed.

(** Every payload byte lies in one of the blocks. *)
Lemma payload_locate bs q : sizes_nonneg bs → 0 ≤ q < payload_size bs →
  ∃ pre p s post i, bs = pre ++ (p, s) :: post ∧ q = payload_size pre + i ∧ 0 ≤ i < s.
Proof.
  revert q. induction bs as [|[p s] bs IH]; intros q Hnn Hq; simpl in Hq.
  - unfold payload_size in Hq; simpl in Hq; lia.
  - apply sizes_nonneg_cons in Hnn as [Hs Hnn].
    destruct (decide (q < s)) as [Hlt|Hge].
    + exists [], p, s, bs, q. repeat split; [unfold payload_size; simpl|..]; lia.
    + unfold payload_size in Hq; simpl in Hq.
      destruct (IH (q - s) Hnn) as (pre & p' & s' & post & i & -> & Hqi & Hi).
      { unfold payload_size. lia. }
      exists ((p, s) :: pre), p', s', post, i.
      split; [done|]. unfold payload_size in *; simpl. lia.
Qed.

Lemma payload_addr_inj bs q q' :
  sizes_nonneg bs → blocks_disjoint bs → 0 ≤ q < payload_size bs → 0 ≤ q' < payload_size bs →
  payload_addr bs q = payload_addr bs q' → q = q'.
Proof.
  intros Hnn Hdis Hq Hq' Heq.
  assert (Hpre : ∀ pre p s post, bs = pre ++ (p, s) :: post → sizes_nonneg pre).
  { intros pre p s post -> ? ? ?. eapply Hnn. by apply elem_of_app; left. }
  destruct (payload_locate bs q Hnn Hq) as (pre & p & s & post & i & Hbs & -> & Hi).
  destruct (payload_locate bs q' Hnn Hq') as (pre' & p' & s' & post' & i' & Hbs' & -> & Hi').
  rewrite Hbs in Heq at 1. rewrite Hbs' in Heq at 1.
  rewrite !payload_addr_at in Heq by eauto.
  assert (L : bs !! length pre = Some (p, s)) by (rewrite Hbs; by apply list_lookup_middle).
  assert (L' : bs !! length pre' = Some (p', s')) by (rewrite Hbs'; by apply list_lookup_middle).
  destruct (decide (length pre = length pre')) as [Hlen|Hne].
  - rewrite Hlen, L' in L. injection L as -> ->.
    rewrite Hbs' in Hbs. apply app_inj_1 in Hbs as [-> _]; [lia|done].
  - pose proof (Hdis _ _ _ _ _ _ L L' Hne) as Hd. unfold disjoint_ranges in Hd. lia.
Qed.

Lemma files_of_app off bs1 bs2 :
  files_of off (bs1 ++ bs2) = files_of off bs1 ++ files_of (off + payload_size bs1) bs2.
Proof.
  revert off. induction bs1 as [|[p s] bs1 IH]; intros off; simpl.
  - by rewrite Z.add_0_r.
  - rewrite IH. unfold payload_size; simpl. do 3 f_equal. lia.
Qed.

Lemma length_files_of off bs : length (files_of off bs) = length bs.
Proof. revert off. induction bs as [|[p s] bs IH]; intros off; simpl; [done|]. by rewrite IH. Qed.

Lemma files_of_lookup off bs pre p s post : bs = pre ++ (p, s) :: post →
  files_of off bs !! length pre = Some (MkFile p (off + payload_size pre) s).
Proof.
  intros ->. rewrite files_of_app. simpl.
  rewrite <- (length_files_of off pre) at 1. by apply list_lookup_middle.
Qed.
