(* ===== verification/Ckpt.v ===== *)
(** The checkpoint side of [src/src/vGPU.cpp]: [ckpt] and [ckpt_selective].

    Both functions push the blocks through two staging buffers with asynchronous
    device-to-host copies, flush the buffer filled before the last one while the
    next one fills, write the file table of the dump, and release the physical
    memory of the blocks.  The pieces they share are one definition each,
    instantiated with the copy clamp and the size rule of each function. *)
From S2P Require Import Prelude Common Gpu.
Open Scope Z_scope.

(** Where the two mappings of [init_CR] are, and the size of the dump file. *)
Record env := MkEnv {
  shm_size_gb : Z;
  tmp_buf : Z;         (* backend->get_tmp_buf() *)
  host_buf : Z         (* backend->get_host_buffer() *)
}.

(** [staging_buf[i] = host_buf + i * STAGING_BUF_SIZE] *)
Definition staging_buf (e : env) (i : Z) : Z := host_buf e + i * STAGING_BUF_SIZE.

(** The state of the process the two functions touch. *)
Record vstate (W : Type) := MkV {
  vgpu : W;
  fs : shared_mem_fs;
  fs_mutex : bool;
  gpu_mem_mutex : bool
}.
Arguments MkV {W}. Arguments vgpu {W}. Arguments fs {W}.
Arguments fs_mutex {W}. Arguments gpu_mem_mutex {W}.

(** The local variables of the copy pipeline. *)
Record pipe := MkPipe {
  current_buf : Z;
  buf_offset : Z;
  des_offset : Z;
  tot_size : Z
}.

Section Ckpt.
Context {W : Type} `{GPU W} (e : env).

Definition with_gpu (w : W) (s : vstate W) : vstate W :=
  MkV w (fs s) (fs_mutex s) (gpu_mem_mutex s).
Definition with_fs (f : shared_mem_fs) (s : vstate W) : vstate W :=
  MkV (vgpu s) f (fs_mutex s) (gpu_mem_mutex s).

Definition gpu_do {A} (m : M W A) : M (vstate W) A := zoom vgpu with_gpu m.

Definition lock_fs : M (vstate W) unit := λ s,
  if fs_mutex s then Stuck Deadlocked s
  else Ret tt (MkV (vgpu s) (fs s) true (gpu_mem_mutex s)).
Definition unlock_fs : M (vstate W) unit :=
  modify (λ s, MkV (vgpu s) (fs s) false (gpu_mem_mutex s)).
Definition lock_gpu_mem : M (vstate W) unit := λ s,
  if gpu_mem_mutex s then Stuck Deadlocked s
  else Ret tt (MkV (vgpu s) (fs s) (fs_mutex s) true).
Definition unlock_gpu_mem : M (vstate W) unit :=
  modify (λ s, MkV (vgpu s) (fs s) (fs_mutex s) false).

(** [fs_mutex.unlock(); exit(-1);] *)
Definition unlock_exit {A} : M (vstate W) A := _ ← unlock_fs; exit (-1).

(** Every call that is tested: [if (call != 0) { unlock; exit }]. *)
Definition check_or_exit (m : M W Z) : M (vstate W) unit :=
  r ← gpu_do m; if bool_decide (r = 0) then mret tt else unlock_exit.

(** [memcpy_multi] on the host memory. *)
Definition host_copy (dest src size : Z) : M (vstate W) unit :=
  gpu_do (modify (λ w, store_host (memcpy_multi (g_host (gpu_view w)) dest src size) w)).

(** Record one block in the file table. *)
Definition record_file (d size : Z) : M (vstate W) unit :=
  f ← get fs;
  if bool_decide (length (files f) ≤ Z.to_nat (file_num f))%nat then fail OutOfBounds else
  let files' := <[Z.to_nat (file_num f) := MkFile d (current_offset f) size]> (files f) in
  let current_offset' := wrap64 (current_offset f + size) in
  _ ← modify (with_fs (MkFs (file_num f) current_offset' files'));
  if SHM_SIZE (shm_size_gb e) <? current_offset' then unlock_exit else
  _ ← modify (with_fs (MkFs (file_num f + 1) current_offset' files'));
  if MAX_FILE_NUM <=? file_num f + 1 then unlock_exit else mret tt.

(** A staging buffer is full: flush the one filled before it, switch buffers. *)
Definition flush_full (p : pipe) (buf_offset' : Z) : M (vstate W) pipe :=
  _ ← assert_ (buf_offset' =? STAGING_BUF_SIZE);
  des' ← (if 0 <? current_buf p then
            _ ← gpu_do synchronizeEvent;
            _ ← host_copy (tmp_buf e + des_offset p)
                  (staging_buf e (Z.land (current_buf p - 1) 1)) STAGING_BUF_SIZE;
            mret (des_offset p + STAGING_BUF_SIZE)
          else mret (des_offset p));
  _ ← gpu_do recordEvent;
  mret (MkPipe (current_buf p + 1) 0 des' (tot_size p)).

(** One round of [while (size > 0)]. *)
Definition save_body (clamp : Z → Z → Z) (l : pipe * Z * Z)
    : M (vstate W) ((pipe * Z * Z) + pipe) :=
  let '(p, d, size) := l in
  if size <=? 0 then mret (inr p) else
  let cur_size := clamp d (Z.min size (STAGING_BUF_SIZE - buf_offset p)) in
  let start_addr := staging_buf e (Z.land (current_buf p) 1) + buf_offset p in
  _ ← check_or_exit (memcpyAsync start_addr d cur_size DeviceToHost);
  let buf_offset' := buf_offset p + cur_size in
  p' ← (if STAGING_BUF_SIZE <=? buf_offset' then flush_full p buf_offset'
        else mret (MkPipe (current_buf p) buf_offset' (des_offset p) (tot_size p)));
  mret (inl (p', d + cur_size, size - cur_size)).

(** A bound on the rounds one block takes: one per granule, one per staging
    buffer, and the last, empty one. *)
Definition rounds (size : Z) : nat :=
  Z.to_nat (size / VMM_GRANULE_SIZE + size / STAGING_BUF_SIZE + 4).

(** One block: file table entry, then the copy loop. *)
Definition save_block (clamp : Z → Z → Z) (p : pipe) (b : Z * Z) : M (vstate W) pipe :=
  let '(d, size) := b in
  let p := MkPipe (current_buf p) (buf_offset p) (des_offset p) (tot_size p + size) in
  _ ← record_file d size;
  iter (rounds size) (save_body clamp) (p, d, size).

(** After the last block: flush the last full buffer, then the partial one. *)
Definition flush_last (p : pipe) : M (vstate W) pipe :=
  des' ← (if 0 <? current_buf p then
            _ ← gpu_do synchronizeEvent;
            _ ← host_copy (tmp_buf e + des_offset p)
                  (staging_buf e (Z.land (current_buf p - 1) 1)) STAGING_BUF_SIZE;
            mret (des_offset p + STAGING_BUF_SIZE)
          else mret (des_offset p));
  _ ← gpu_do synchronizeStream;
  _ ← host_copy (tmp_buf e + des') (staging_buf e (Z.land (current_buf p) 1)) (buf_offset p);
  f ← get fs;
  _ ← assert_ (des' + buf_offset p =? current_offset f);
  mret (MkPipe (current_buf p) (buf_offset p) des' (tot_size p)).

(** Reset of the file table, and the stream and event of the pipeline. *)
Definition open_dump : M (vstate W) pipe :=
  _ ← lock_fs;
  _ ← lock_gpu_mem;
  f ← get fs;
  _ ← modify (with_fs (MkFs 0 payload_base (files f)));
  _ ← check_or_exit createStream;
  _ ← check_or_exit createEvent;
  _ ← gpu_do recordEvent;
  mret (MkPipe 0 0 payload_base 0).

Definition close_dump (p : pipe) : M (vstate W) pipe :=
  p ← flush_last p;
  _ ← gpu_do destroyStream;
  _ ← gpu_do destroyEvent;
  mret p.

(** [for (entry : allocated_memory)] *)
Definition allocated_memory : M (vstate W) (gmap Z Z) := get (λ s, g_alloc (gpu_view (vgpu s))).

Definition no_clamp (_ len : Z) : Z := len.

Definition release_one (_ : unit) (ptr : Z) : M (vstate W) unit :=
  check_or_exit (releasePhysicalMemory ptr).

(** [ckpt()] *)
Definition ckpt : M (vstate W) Z :=
  p ← open_dump;
  am ← allocated_memory;
  p ← foldM (save_block no_clamp) p
        ((λ b, (b.1, ROUND_UP_2MB b.2)) <$> map_entries am);
  p ← close_dump p;
  am ← allocated_memory;
  _ ← foldM release_one tt (map_entries am).*1;
  _ ← unlock_fs;
  _ ← unlock_gpu_mem;
  mret (tot_size p).

(** [find_containing_allocation]: the first tracked block that contains [ptr]. *)
Fixpoint find_containing (blocks : list (Z * Z)) (ptr : Z) : option (Z * Z) :=
  match blocks with
  | [] => None
  | (alloc_ptr, size) :: rest =>
      if (alloc_ptr <=? ptr) && (ptr <? alloc_ptr + size) then Some (alloc_ptr, size)
      else find_containing rest ptr
  end.

Definition find_containing_allocation (am : gmap Z Z) (ptr : Z) : option (Z * Z) :=
  find_containing (map_entries am) ptr.

(** [blocks_to_snapshot]: the base pointers of the blocks the regions lie in. *)
Fixpoint blocks_to_snapshot (am : gmap Z Z) (rs : list selective_cr_region) : gset Z :=
  match rs with
  | [] => ∅
  | r :: rs' =>
      match find_containing_allocation am (r_ptr r) with
      | Some (base_ptr, _) => {[base_ptr]} ∪ blocks_to_snapshot am rs'
      | None => blocks_to_snapshot am rs'
      end
  end.

(** A [std::set<void*>] is iterated in increasing order. *)
Definition set_entries (X : gset Z) : list Z := merge_sort Z.le (elements X).

(** One block of the selective loop: looked up again, saved unrounded. *)
Definition save_selected (p : pipe) (base_ptr : Z) : M (vstate W) pipe :=
  am ← allocated_memory;
  match am !! base_ptr with
  | None => fail AssertionFailed
  | Some alloc_size => save_block granule_clamp p (base_ptr, alloc_size)
  end.

(** [for (i = 0; i < fs->file_num; i++) releasePhysicalMemory(fs->files[i].ptr)] *)
Definition release_file (_ : unit) (i : nat) : M (vstate W) unit :=
  f ← get fs;
  match files f !! i with
  | None => fail OutOfBounds
  | Some fl => check_or_exit (releasePhysicalMemory (f_ptr fl))
  end.

(** [ckpt_selective(req)] *)
Definition ckpt_selective (req : selective_cr_request) : M (vstate W) Z :=
  p ← open_dump;
  am ← allocated_memory;
  let blocks := blocks_to_snapshot am (take (Z.to_nat (num_regions req)) (regions req)) in
  p ← foldM save_selected p (set_entries blocks);
  p ← close_dump p;
  f ← get fs;
  _ ← foldM release_file tt (seq 0 (Z.to_nat (file_num f)));
  _ ← unlock_fs;
  _ ← unlock_gpu_mem;
  mret (tot_size p).
End Ckpt.
