(* ===== verification/SaveFacts.v ===== *)
(** The copy pipeline of the checkpoint functions keeps its data.

    [save_inv q p v] says what the memories hold when the first [q] payload bytes
    have been issued: the payload below the flush point is in the dump file, the
    previous staging buffer and the filled part of the current one hold their
    bytes once the pending copies have run, and the copies the event does not
    cover write only the current buffer.  The invariant survives any progress of
    the device, so the flush after [synchronizeEvent] reads the right bytes. *)
From S2P Require Import Prelude Common Gpu Layout Ckpt.
Open Scope Z_scope.

(** The two mappings do not overlap and the dump file has an admissible size. *)
Record env_ok (e : env) : Prop := {
  eo_gb : 0 < shm_size_gb e < 2 ^ 30;
  eo_disjoint : disjoint_ranges (tmp_buf e) (SHM_SIZE (shm_size_gb e))
                  (host_buf e) (STAGING_BUF_SIZE * STAGING_BUF_NUM)
}.

Lemma SHM_SIZE_eq gb : 0 < gb < 2 ^ 30 → SHM_SIZE gb = gb * 1073741824.
Proof.
  intros H. unfold SHM_SIZE. rewrite Z.shiftl_mul_pow2 by lia.
  change (2 ^ 30) with 1073741824 in *. apply wrap64_small. lia.
Qed.

Lemma land_1 x : Z.land x 1 = x mod 2.
Proof. change 1 with (Z.ones 1). by rewrite Z.land_ones by lia. Qed.

Section SaveInv.
Context (e : env) (Henv : env_ok e) (bs : list (Z * Z)) (dev0 : mem).
Context (Hfit : payload_base + payload_size bs ≤ SHM_SIZE (shm_size_gb e)).

Definition in_buf (i : Z) (x : xfer) : Prop :=
  staging_buf e i ≤ x_dst x ∧ x_dst x + x_n x ≤ staging_buf e i + STAGING_BUF_SIZE.

Definition staged (x : xfer) : Prop := is_d2h x ∧ (in_buf 0 x ∨ in_buf 1 x).

Definition buf_now (p : pipe) : Z := Z.land (current_buf p) 1.
Definition buf_prev (p : pipe) : Z := Z.land (current_buf p - 1) 1.

(** Blocks flushed so far: all but the previous and the current buffer. *)
Definition flushed (p : pipe) : Z := STAGING_BUF_SIZE * Z.max 0 (current_buf p - 1).

Record save_inv (q : Z) (p : pipe) (v : gview) : Prop := {
  si_cb : 0 ≤ current_buf p;
  si_bo : 0 ≤ buf_offset p ≤ STAGING_BUF_SIZE;
  si_q : q = current_buf p * STAGING_BUF_SIZE + buf_offset p;
  si_bound : q ≤ payload_size bs;
  si_des : des_offset p = payload_base + flushed p;
  si_flushed : ∀ i, 0 ≤ i < flushed p →
    g_host v (tmp_buf e + payload_base + i) = dev0 (payload_addr bs i);
  si_queue : Forall staged (g_queue v);
  si_cur : ∀ j x, g_queue v !! j = Some x → (g_mark v ≤ j)%nat → in_buf (buf_now p) x;
  si_prev : 0 < current_buf p → ∀ i, 0 ≤ i < STAGING_BUF_SIZE →
    (drain v).1 (staging_buf e (buf_prev p) + i) =
    dev0 (payload_addr bs ((current_buf p - 1) * STAGING_BUF_SIZE + i));
  si_now : ∀ i, 0 ≤ i < buf_offset p →
    (drain v).1 (staging_buf e (buf_now p) + i) =
    dev0 (payload_addr bs (current_buf p * STAGING_BUF_SIZE + i));
  si_dev : g_dev v = dev0
}.

Lemma buf_now_01 p : buf_now p = 0 ∨ buf_now p = 1.
Proof. unfold buf_now. rewrite land_1. pose proof (Z.mod_pos_bound (current_buf p) 2). lia. Qed.

Lemma buf_prev_now p : buf_prev p = 1 - buf_now p.
Proof.
  unfold buf_prev, buf_now. rewrite !land_1.
  Z.div_mod_to_equations; lia.
Qed.

(** Staging memory and the dump file are apart. *)
Lemma staging_not_dump i o o' :
  i = 0 ∨ i = 1 → 0 ≤ o < STAGING_BUF_SIZE → 0 ≤ o' < SHM_SIZE (shm_size_gb e) →
  staging_buf e i + o ≠ tmp_buf e + o'.
Proof.
  intros Hi Ho Ho'. pose proof (eo_disjoint e Henv) as Hd. unfold disjoint_ranges in Hd.
  unfold staging_buf, STAGING_BUF_NUM in *. rewrite STAGING_BUF_SIZE_eq in *.
  destruct Hi as [-> | ->]; lia.
Qed.

Lemma save_inv_d2h q p v : save_inv q p v → Forall is_d2h (g_queue v).
Proof. intros I. eapply Forall_impl; [apply (si_queue _ _ _ I)|]. by intros x []. Qed.

Lemma si_drain_dev q p v : save_inv q p v → (drain v).2 = dev0.
Proof.
  intros I. unfold drain. rewrite run_d2h_dev by (by eapply save_inv_d2h). by apply (si_dev _ _ _ I).
Qed.

(** Pending copies do not reach the dump file. *)
Lemma drain_dump q p v k o : save_inv q p v → 0 ≤ o < SHM_SIZE (shm_size_gb e) →
  (foldl run_xfer (g_host v, g_dev v) (take k (g_queue v))).1 (tmp_buf e + o) = g_host v (tmp_buf e + o).
Proof.
  intros I Ho. apply run_d2h_out.
  - apply Forall_take. by eapply save_inv_d2h.
  - intros x Hx. pose proof (Forall_take _ k _ (si_queue _ _ _ I)) as Hall.
    rewrite Forall_forall in Hall. destruct (Hall x Hx) as [_ Hb].
    intros Hr. pose proof (eo_disjoint e Henv) as Hd.
    unfold disjoint_ranges, in_buf, staging_buf, STAGING_BUF_NUM in *.
    rewrite STAGING_BUF_SIZE_eq in *. lia.
Qed.

Lemma flushed_bound q p v i : save_inv q p v → 0 ≤ i < flushed p →
  0 ≤ payload_base + i < SHM_SIZE (shm_size_gb e).
Proof.
  intros I Hi. destruct I. unfold flushed in *. rewrite payload_base_eq, STAGING_BUF_SIZE_eq in *. lia.
Qed.

Lemma save_inv_progress k q p v : save_inv q p v → save_inv q p (progress k v).
Proof.
  intros I. pose proof I as [? ? ? ? ? Hfl Hq Hc Hp Hn Hd]. split; try done.
  - intros i Hi. simpl. rewrite <- Z.add_assoc, (drain_dump q p) by (done || by eapply flushed_bound).
    rewrite Z.add_assoc. by apply Hfl.
  - by apply Forall_drop.
  - intros j x Hj Hm. simpl in *. rewrite lookup_drop in Hj. apply (Hc (k + j)%nat); [done|lia].
  - rewrite drain_progress. apply Hp.
  - rewrite drain_progress. apply Hn.
  - simpl. rewrite run_d2h_dev; [done|]. apply Forall_take. by eapply save_inv_d2h.
Qed.

Lemma staging_apart p o n :
  0 ≤ o < STAGING_BUF_SIZE → 0 ≤ n ≤ STAGING_BUF_SIZE →
  ¬ (staging_buf e (buf_now p) ≤ staging_buf e (buf_prev p) + o < staging_buf e (buf_now p) + n).
Proof.
  intros Ho Ho'. rewrite buf_prev_now. unfold staging_buf. rewrite STAGING_BUF_SIZE_eq in *.
  destruct (buf_now_01 p) as [-> | ->]; lia.
Qed.

Lemma save_inv_enqueue q p v d cur :
  save_inv q p v → 0 < cur → buf_offset p + cur ≤ STAGING_BUF_SIZE →
  q + cur ≤ payload_size bs → (∀ i, 0 ≤ i < cur → payload_addr bs (q + i) = d + i) →
  save_inv (q + cur) (MkPipe (current_buf p) (buf_offset p + cur) (des_offset p) (tot_size p))
    (enqueue (MkXfer (staging_buf e (buf_now p) + buf_offset p) d cur DeviceToHost) v).
Proof.
  intros I Hcur Hbo Hq Ha. pose proof I as [? ? ? ? ? ? Hqu Hc Hp Hn Hd].
  set (x := MkXfer _ _ _ _).
  assert (Hx : in_buf (buf_now p) x) by (unfold in_buf; simpl; lia).
  split; simpl; try done; try lia.
  - apply Forall_app; split; [done|]. apply Forall_singleton. split; [done|].
    destruct (buf_now_01 p) as [<- | <-]; auto.
  - intros j y Hj Hm. apply lookup_app_Some in Hj as [Hj|[_ Hj]]; [by eapply Hc|].
    apply list_lookup_singleton_Some in Hj as [_ <-]. exact Hx.
  - intros Hcb i Hi. rewrite drain_enqueue. unfold run_xfer. simpl.
    destruct (drain v) as [h d'] eqn:Hdr. simpl. simpl in Hp. rewrite copy_out; [by apply Hp|].
    change (buf_prev (MkPipe _ _ _ _)) with (buf_prev p).
    pose proof (staging_apart p i (buf_offset p + cur)). lia.
  - intros i Hi. rewrite drain_enqueue. unfold run_xfer. simpl.
    pose proof (si_drain_dev _ _ _ I) as Hdd.
    destruct (drain v) as [h d'] eqn:Hdr. simpl in *. subst d'.
    change (buf_now (MkPipe _ _ _ _)) with (buf_now p).
    copy_case; [|apply Hn; lia]. f_equal.
    replace (current_buf p * STAGING_BUF_SIZE + i) with (q + (i - buf_offset p)) by lia.
    rewrite Ha by lia. lia.
Qed.

(** CPU writes outside the staging buffers and above the flush point. *)
Lemma save_inv_set_host q p v h' :
  save_inv q p v →
  (∀ i o, i = 0 ∨ i = 1 → 0 ≤ o < STAGING_BUF_SIZE →
     h' (staging_buf e i + o) = g_host v (staging_buf e i + o)) →
  (∀ i, 0 ≤ i < flushed p →
     h' (tmp_buf e + payload_base + i) = g_host v (tmp_buf e + payload_base + i)) →
  save_inv q p (set_host h' v).
Proof.
  intros I Hst Hfl. pose proof I as [? ? ? ? ? Hf ? ? Hp Hn ?]. split; try done.
  - intros i Hi. simpl. rewrite Hfl by done. by apply Hf.
  - intros Hcb i Hi. unfold drain; simpl. rewrite <- (Hp Hcb i Hi). unfold drain.
    apply run_d2h_ext; [by eapply save_inv_d2h|]. apply Hst; [|done].
    rewrite buf_prev_now. destruct (buf_now_01 p); lia.
  - intros i Hi. unfold drain; simpl. rewrite <- (Hn i Hi). unfold drain.
    apply run_d2h_ext; [by eapply save_inv_d2h|]. apply Hst; [apply buf_now_01|lia].
Qed.

(** The dump file holds the first [n] payload bytes. *)
Definition dump_ok (n : Z) (h : mem) : Prop :=
  ∀ i, 0 ≤ i < n → h (tmp_buf e + payload_base + i) = dev0 (payload_addr bs i).

(** Once the event is passed, the previous buffer is complete on the host. *)
Lemma prev_host q p v i : save_inv q p v → 0 < current_buf p → g_mark v = O →
  0 ≤ i < STAGING_BUF_SIZE →
  g_host v (staging_buf e (buf_prev p) + i) =
  dev0 (payload_addr bs ((current_buf p - 1) * STAGING_BUF_SIZE + i)).
Proof.
  intros I Hcb Hm Hi. rewrite <- (si_prev _ _ _ I Hcb i Hi). unfold drain.
  symmetry. apply run_d2h_out; [by eapply save_inv_d2h|].
  intros x Hx Hr. apply list_elem_of_lookup in Hx as [j Hj].
  pose proof (si_cur _ _ _ I j x Hj ltac:(lia)) as Hb. unfold in_buf in Hb.
  pose proof (staging_apart p i STAGING_BUF_SIZE). rewrite STAGING_BUF_SIZE_eq in *. lia.
Qed.

Lemma now_host q p v i : save_inv q p v → g_queue v = [] → 0 ≤ i < buf_offset p →
  g_host v (staging_buf e (buf_now p) + i) =
  dev0 (payload_addr bs (current_buf p * STAGING_BUF_SIZE + i)).
Proof. intros I Hq Hi. rewrite <- (si_now _ _ _ I i Hi). by rewrite drain_empty. Qed.

(** [memcpy_multi] from a staging buffer into the dump file, byte by byte. *)
Lemma memcpy_dump h i n off a :
  i = 0 ∨ i = 1 → 0 ≤ n ≤ STAGING_BUF_SIZE → 0 ≤ off → off + n ≤ SHM_SIZE (shm_size_gb e) →
  memcpy_multi h (tmp_buf e + off) (staging_buf e i) n a =
  copy h (tmp_buf e + off) h (staging_buf e i) n a.
Proof.
  intros Hi Hn Hoff Hend. rewrite STAGING_BUF_SIZE_eq in Hn. apply memcpy_multi_spec; [lia|].
  pose proof (eo_disjoint e Henv) as Hd.
  unfold disjoint_ranges, staging_buf, STAGING_BUF_NUM in *. rewrite STAGING_BUF_SIZE_eq in *.
  destruct Hi as [-> | ->]; lia.
Qed.

Lemma flush_step q p v :
  save_inv q p v → 0 < current_buf p → g_mark v = O →
  let h' := memcpy_multi (g_host v) (tmp_buf e + des_offset p) (staging_buf e (buf_prev p))
              STAGING_BUF_SIZE in
  save_inv q p (set_host h' v) ∧ dump_ok (STAGING_BUF_SIZE * current_buf p) h'.
Proof.
  intros I Hcb Hm h'. pose proof I as [? Hbo Hq Hqb Hdes Hfl ? ? ? ? ?].
  assert (Hp01 : buf_prev p = 0 ∨ buf_prev p = 1)
    by (rewrite buf_prev_now; destruct (buf_now_01 p); lia).
  assert (Hfp : flushed p = STAGING_BUF_SIZE * (current_buf p - 1)) by (unfold flushed; rewrite Z.max_r; lia).
  pose proof STAGING_BUF_SIZE_eq as Hstg. rewrite payload_base_eq in *.
  assert (Hh : ∀ a, h' a = copy (g_host v) (tmp_buf e + des_offset p) (g_host v)
                 (staging_buf e (buf_prev p)) STAGING_BUF_SIZE a).
  { intros a. unfold h'. apply memcpy_dump; [done|lia..]. }
  split.
  - apply save_inv_set_host; [done|..].
    + intros i o Hi Ho. rewrite Hh. apply copy_out. intros Hr.
      apply (staging_not_dump i o (staging_buf e i + o - tmp_buf e)); [done..|lia|lia].
    + intros i Hi. rewrite Hh. apply copy_out. rewrite payload_base_eq. lia.
  - intros i Hi. rewrite Hh, payload_base_eq. copy_case.
    + rewrite (prev_host q p v) by (done || lia). do 2 f_equal. lia.
    + apply Hfl. lia.
Qed.

(** Switching to the next buffer. *)
Lemma save_inv_switch q p v :
  save_inv q p v → buf_offset p = STAGING_BUF_SIZE →
  dump_ok (STAGING_BUF_SIZE * current_buf p) (g_host v) →
  save_inv q (MkPipe (current_buf p + 1) 0 (payload_base + STAGING_BUF_SIZE * current_buf p)
                (tot_size p)) (mark_all v).
Proof.
  intros I Hbo Hdump. pose proof I as [? ? ? ? ? ? ? ? Hp Hn ?].
  assert (Hf : flushed (MkPipe (current_buf p + 1) 0 (payload_base + STAGING_BUF_SIZE * current_buf p)
                (tot_size p)) = STAGING_BUF_SIZE * current_buf p)
    by (unfold flushed; simpl; rewrite Z.max_r; lia).
  pose proof STAGING_BUF_SIZE_eq as Hstg.
  split; rewrite ?Hf; simpl; try done; try lia.
  - intros j x Hj Hm. apply lookup_lt_Some in Hj. lia.
  - intros _ i Hi. rewrite drain_mark_all. unfold buf_prev; simpl.
    replace (current_buf p + 1 - 1) with (current_buf p) by lia. apply Hn. lia.
Qed.
End SaveInv.
