(* ===== verification/CkptFacts.v ===== *)
(** [ckpt] and [ckpt_selective] produce a complete dump.

    Rules for the operations of the checkpoint functions, the invariant of the
    copy loop, and the two functional theorems: whatever the device executes when,
    the functions terminate, the file table describes exactly the blocks, the
    payload holds their bytes, and the physical memory of the blocks is free. *)
From S2P Require Import Prelude Common Gpu Layout Ckpt SaveFacts.
Open Scope Z_scope.

(** ** Vocabulary of the theorems *)

(** The file table describes the blocks [bs]. *)
Record fs_ok (bs : list (Z * Z)) (f : shared_mem_fs) : Prop := {
  fo_num : file_num f = Z.of_nat (length bs);
  fo_off : current_offset f = payload_base + payload_size bs;
  fo_files : take (length bs) (files f) = files_of payload_base bs;
  fo_len : length (files f) = Z.to_nat MAX_FILE_NUM
}.

(** The dump holds the contents [dev] of the blocks [bs]. *)
Definition dump_holds (e : env) (bs : list (Z * Z)) (dev : mem) (f : shared_mem_fs) (h : mem) : Prop :=
  fs_ok bs f ∧ dump_ok e bs dev (payload_size bs) h.

(** The blocks fit in the dump: in the file, and in the file table with the
    margin its check leaves. *)
Record fits (e : env) (bs : list (Z * Z)) : Prop := {
  ft_size : payload_base + payload_size bs ≤ SHM_SIZE (shm_size_gb e);
  ft_num : Z.of_nat (length bs) < MAX_FILE_NUM
}.

(** Allocations as the hooks create them: granule aligned, backed in full. *)
Definition allocs_ok (v : gview) : Prop :=
  ∀ p sz, g_alloc v !! p = Some sz →
    block_ok p sz ∧ g_backed v !! p = Some (ROUND_UP_2MB sz).

Definition unlocked {W} (s : vstate W) : Prop := fs_mutex s = false ∧ gpu_mem_mutex s = false.
Definition locked {W} (s : vstate W) : Prop := fs_mutex s = true ∧ gpu_mem_mutex s = true.

(** What the process looks like before a checkpoint or a restore. *)
Record ready {W} `{GPU W} (s : vstate W) : Prop := {
  rd_wf : gpu_wf (vgpu s);
  rd_queue : g_queue (gpu_view (vgpu s)) = [];
  rd_files : length (files (fs s)) = Z.to_nat MAX_FILE_NUM;
  rd_locks : unlocked s
}.

Definition ckpt_blocks (am : gmap Z Z) : list (Z * Z) :=
  (λ b, (b.1, ROUND_UP_2MB b.2)) <$> map_entries am.

(** What [ckpt_selective] saves: each selected block with its allocated size. *)
Definition selected (am : gmap Z Z) (req : selective_cr_request) : list Z :=
  set_entries (blocks_to_snapshot am (take (Z.to_nat (num_regions req)) (regions req))).

Definition sel_blocks (am : gmap Z Z) (ps : list Z) : list (Z * Z) := (λ p, (p, am !!! p)) <$> ps.

Definition freed (am : gmap Z Z) (ps : list Z) : Z :=
  sum_by (λ p, ROUND_UP_2MB (am !!! p)) ps.

Definition unback (ps : list Z) (bk : gmap Z Z) : gmap Z Z := foldl (λ m p, delete p m) bk ps.

(** [a] is in the physical memory of one of the blocks [ps]. *)
Definition in_extent (am : gmap Z Z) (ps : list Z) (a : Z) : Prop :=
  ∃ p, p ∈ ps ∧ p ≤ a < p + ROUND_UP_2MB (am !!! p).

(** After a checkpoint that released the blocks [ps]. *)
Record parked {W} `{GPU W} (ps : list Z) (s s' : vstate W) : Prop := {
  pk_ready : ready s';
  pk_alloc : g_alloc (gpu_view (vgpu s')) = g_alloc (gpu_view (vgpu s));
  pk_backed : g_backed (gpu_view (vgpu s')) = unback ps (g_backed (gpu_view (vgpu s)));
  pk_free : g_free (gpu_view (vgpu s')) =
            g_free (gpu_view (vgpu s)) + freed (g_alloc (gpu_view (vgpu s))) ps;
  pk_dev : ∀ a, ¬ in_extent (g_alloc (gpu_view (vgpu s))) ps a →
           g_dev (gpu_view (vgpu s')) a = g_dev (gpu_view (vgpu s)) a
}.

(** ** Rules *)

Section Rules.
Context {W : Type} `{GPULaws W} (e : env).

Lemma gpu_do_wp (m : M W Z) P (Q : Z → vstate W → Prop) s :
  gpu_wf (vgpu s) → succeeds m (vgpu s) P →
  (∀ w', gpu_wf w' → P (gpu_view w') → Q 0 (with_gpu w' s)) → wp (gpu_do m) Q s.
Proof.
  intros Hwf Hs HQ. apply wp_zoom. eapply wp_mono; [by apply succeeds_wp|].
  intros r w' (-> & ? & ?). by apply HQ.
Qed.

Lemma check_wp (m : M W Z) P (Q : unit → vstate W → Prop) s :
  gpu_wf (vgpu s) → succeeds m (vgpu s) P →
  (∀ w', gpu_wf w' → P (gpu_view w') → Q tt (with_gpu w' s)) → wp (check_or_exit m) Q s.
Proof.
  intros Hwf Hs HQ. apply wp_bind. eapply gpu_do_wp; [done..|]. intros w' Hw' HP.
  rewrite bool_decide_eq_true_2 by done. apply wp_ret. by apply HQ.
Qed.

Lemma host_copy_wp dest src size (Q : unit → vstate W → Prop) s :
  Q tt (with_gpu (store_host (memcpy_multi (g_host (gpu_view (vgpu s))) dest src size) (vgpu s)) s) →
  wp (host_copy dest src size) Q s.
Proof. intros HQ. apply wp_zoom. apply wp_modify. done. Qed.

Lemma lock_fs_wp (Q : unit → vstate W → Prop) s : fs_mutex s = false →
  Q tt (MkV (vgpu s) (fs s) true (gpu_mem_mutex s)) → wp lock_fs Q s.
Proof. intros Hl HQ. unfold wp, lock_fs. by rewrite Hl. Qed.

Lemma lock_gpu_mem_wp (Q : unit → vstate W → Prop) s : gpu_mem_mutex s = false →
  Q tt (MkV (vgpu s) (fs s) (fs_mutex s) true) → wp lock_gpu_mem Q s.
Proof. intros Hl HQ. unfold wp, lock_gpu_mem. by rewrite Hl. Qed.

Lemma record_file_wp bs d size (Q : unit → vstate W → Prop) s :
  fs_ok bs (fs s) → Z.of_nat (length bs) + 1 < MAX_FILE_NUM → sizes_nonneg bs → 0 ≤ size →
  0 < shm_size_gb e < 2 ^ 30 →
  payload_base + payload_size (bs ++ [(d, size)]) ≤ SHM_SIZE (shm_size_gb e) →
  (∀ f', fs_ok (bs ++ [(d, size)]) f' → Q tt (with_fs f' s)) →
  wp (record_file e d size) Q s.
Proof.
  intros [Hn Ho Hf Hl] Hmax Hnn Hsz Hgb Hfit HQ. unfold MAX_FILE_NUM in *.
  pose proof (payload_size_nonneg _ Hnn) as Hps.
  rewrite payload_size_app in Hfit. change (payload_size [(d, size)]) with (size + 0) in Hfit.
  rewrite SHM_SIZE_eq in Hfit by done. rewrite payload_base_eq in *.
  unfold record_file. apply wp_bind, wp_get.
  rewrite bool_decide_eq_false_2 by lia. apply wp_bind, wp_modify.
  rewrite wrap64_small by lia. rewrite SHM_SIZE_eq by done.
  rewrite (proj2 (Z.ltb_ge _ _)) by lia. apply wp_bind, wp_modify. unfold MAX_FILE_NUM.
  rewrite (proj2 (Z.leb_gt _ _)) by lia. apply wp_ret.
  apply HQ. split; simpl.
  - rewrite length_app. simpl. lia.
  - rewrite payload_size_app. change (payload_size [(d, size)]) with (size + 0).
    rewrite payload_base_eq. lia.
  - rewrite length_app, files_of_app. simpl. rewrite Hn, Nat2Z.id.
    rewrite Nat.add_1_r, (take_S_r _ _ (MkFile d (current_offset (fs s)) size)).
    + rewrite take_insert_ge, Hf by lia. by rewrite Ho.
    + apply list_lookup_insert_eq. lia.
  - by rewrite length_insert.
Qed.
End Rules.

(** ** The copy loop *)

(** A bound on the rounds left: granule boundaries and buffer ends ahead. *)
Definition rounds_left (d size bo : Z) : nat :=
  if size <=? 0 then O else
  Z.to_nat ((d + size - 1) / VMM_GRANULE_SIZE - d / VMM_GRANULE_SIZE
            + (bo + size - 1) / STAGING_BUF_SIZE + 1).

Lemma rounds_left_bound d size bo : 0 ≤ size → 0 ≤ bo < STAGING_BUF_SIZE →
  (rounds_left d size bo < rounds size)%nat.
Proof.
  intros Hs Hbo. unfold rounds_left, rounds. rewrite STAGING_BUF_SIZE_eq, granule_eq in *.
  destruct (Z.leb_spec size 0); Z.div_mod_to_equations; lia.
Qed.

Lemma rounds_left_step d size bo c :
  0 < c ≤ size → 0 ≤ bo → bo + c ≤ STAGING_BUF_SIZE →
  c = size ∨ bo + c = STAGING_BUF_SIZE ∨ (d + c) mod VMM_GRANULE_SIZE = 0 →
  let bo' := if STAGING_BUF_SIZE <=? bo + c then 0 else bo + c in
  (rounds_left (d + c) (size - c) bo' < rounds_left d size bo)%nat.
Proof.
  intros Hc Hbo Hle Hor bo'. subst bo'. unfold rounds_left. rewrite STAGING_BUF_SIZE_eq, granule_eq in *.
  destruct (Z.leb_spec size 0); [lia|].
  destruct (Z.leb_spec (size - c) 0); [Z.div_mod_to_equations; lia|].
  destruct (Z.leb_spec 1073741824 (bo + c)).
  - replace (d + c + (size - c) - 1) with (d + size - 1) by lia.
    replace (0 + (size - c) - 1) with (bo + size - 1 + (-1) * 1073741824) by lia.
    rewrite Z.div_add by lia. Z.div_mod_to_equations; lia.
  - replace (d + c + (size - c) - 1) with (d + size - 1) by lia.
    replace (bo + c + (size - c) - 1) with (bo + size - 1) by lia.
    assert (d / 2097152 < (d + c) / 2097152) by (Z.div_mod_to_equations; lia).
    Z.div_mod_to_equations; lia.
Qed.

Section Save.
Context {W : Type} `{GPULaws W} (e : env) (Henv : env_ok e).
Context (bs : list (Z * Z)) (dev0 : mem) (am bk : gmap Z Z) (fr : Z).
Context (Hfits : fits e bs).
(** [full] blocks are whole granules; otherwise the clamp keeps to one granule. *)
Context (clamp : Z → Z → Z) (full : bool).
Let aligned (x : Z) : Prop := full = true → x mod VMM_GRANULE_SIZE = 0.
Context (Hclamp : ∀ d len, 0 < len → aligned d → aligned len →
  0 < clamp d len ≤ len ∧ granule_shape d (clamp d len) ∧ aligned (clamp d len) ∧
  (clamp d len = len ∨ (d + clamp d len) mod VMM_GRANULE_SIZE = 0)).
Context (Hbs : ∀ p s, (p, s) ∈ bs → 0 ≤ s ∧ aligned p ∧ aligned s ∧
  ∃ ext, bk !! p = Some ext ∧ s ≤ ext).

Local Lemma Hnn : sizes_nonneg bs.
Proof. intros p s Hin. by destruct (Hbs p s Hin). Qed.

Local Lemma pre_nonneg pre post : bs = pre ++ post → sizes_nonneg pre ∧ sizes_nonneg post.
Proof.
  pose proof Hnn as Hn. intros ->.
  split; intros p s Hin; apply (Hn p s), elem_of_app; [by left|by right].
Qed.

Local Lemma aligned_add x y : aligned x → aligned y → aligned (x + y).
Proof.
  intros Hx Hy Hf. specialize (Hx Hf). specialize (Hy Hf). rewrite granule_eq in *.
  Z.div_mod_to_equations; lia.
Qed.

Local Lemma aligned_sub x y : aligned x → aligned y → aligned (x - y).
Proof.
  intros Hx Hy Hf. specialize (Hx Hf). specialize (Hy Hf). rewrite granule_eq in *.
  Z.div_mod_to_equations; lia.
Qed.

(** The state between two rounds: [q] bytes issued, the blocks [pre] recorded. *)
Record pinv (q : Z) (pre : list (Z * Z)) (p : pipe) (s : vstate W) : Prop := {
  pi_wf : gpu_wf (vgpu s);
  pi_am : g_alloc (gpu_view (vgpu s)) = am;
  pi_bk : g_backed (gpu_view (vgpu s)) = bk;
  pi_fr : g_free (gpu_view (vgpu s)) = fr;
  pi_save : save_inv e bs dev0 q p (gpu_view (vgpu s));
  pi_fs : fs_ok pre (fs s);
  pi_tot : tot_size p = payload_size pre;
  pi_locks : locked s
}.

(** Replacing the device state by one with the same table that keeps [save_inv]. *)
Lemma pinv_gpu q pre p s q' p' w' :
  pinv q pre p s → gpu_wf w' → tot_size p' = tot_size p →
  save_inv e bs dev0 q' p' (gpu_view w') →
  g_alloc (gpu_view w') = g_alloc (gpu_view (vgpu s)) →
  g_backed (gpu_view w') = g_backed (gpu_view (vgpu s)) →
  g_free (gpu_view w') = g_free (gpu_view (vgpu s)) →
  pinv q' pre p' (with_gpu w' s).
Proof. intros [] ? ? ? ? ? ?. split; simpl; try done; congruence. Qed.

(** Synchronising on the event and flushing the previous buffer. *)
Lemma flush_wp q pre p (Q : Z → vstate W → Prop) s :
  pinv q pre p s →
  (∀ s', pinv q pre p s' →
     dump_ok e bs dev0 (STAGING_BUF_SIZE * current_buf p) (g_host (gpu_view (vgpu s'))) →
     Q (payload_base + STAGING_BUF_SIZE * current_buf p) s') →
  wp (if 0 <? current_buf p then
        _ ← gpu_do synchronizeEvent;
        _ ← host_copy (tmp_buf e + des_offset p)
              (staging_buf e (Z.land (current_buf p - 1) 1)) STAGING_BUF_SIZE;
        mret (des_offset p + STAGING_BUF_SIZE)
      else mret (des_offset p)) Q s.
Proof.
  intros I HQ. pose proof (si_des _ _ _ _ _ _ (pi_save _ _ _ _ I)) as Hdes.
  pose proof (si_cb _ _ _ _ _ _ (pi_save _ _ _ _ I)) as Hcb. unfold flushed in Hdes.
  destruct (Z.ltb_spec 0 (current_buf p)) as [Hlt|Hge].
  - apply wp_bind. eapply gpu_do_wp; [apply I|apply synchronizeEvent_law|].
    intros w' Hw' (k & Hk & Hv). apply wp_bind, host_copy_wp, wp_ret.
    assert (I' : pinv q pre p (with_gpu w' s)).
    { eapply pinv_gpu; rewrite ?Hv; try done. apply save_inv_progress; [done|..|apply I]. apply Hfits. }
    destruct (flush_step e Henv bs dev0 (ft_size _ _ Hfits) q p (gpu_view w')) as [Hs Hd].
    + apply I'.
    + done.
    + rewrite Hv. simpl. lia.
    + rewrite Hdes. replace (payload_base + _ + STAGING_BUF_SIZE)
        with (payload_base + STAGING_BUF_SIZE * current_buf p)
        by (rewrite Z.max_r; lia).
      rewrite <- Hdes. apply HQ.
      * eapply pinv_gpu; [exact I'|by apply store_host_wf|done|..]; simpl;
          rewrite store_host_law; done.
      * simpl. rewrite store_host_law. exact Hd.
  - apply wp_ret. assert (current_buf p = 0) as Hz by lia. rewrite Hdes, Hz.
    replace (_ * _) with (STAGING_BUF_SIZE * 0) by lia.
    rewrite <- Hz. apply HQ; [done|]. rewrite Hz. intros i. lia.
Qed.

(** The loop state inside block [(p0, sz)] that follows the blocks [pre]. *)
Record loop_inv (pre : list (Z * Z)) (p0 sz : Z) (n : nat) (l : pipe * Z * Z) (s : vstate W)
    : Prop := {
  li_pipe : pinv (payload_size pre + (sz - l.2)) (pre ++ [(p0, sz)]) l.1.1 s;
  li_bo : buf_offset l.1.1 < STAGING_BUF_SIZE ∧ aligned (buf_offset l.1.1);
  li_d : l.1.2 = p0 + (sz - l.2);
  li_size : 0 ≤ l.2 ≤ sz;
  li_al : aligned l.1.2 ∧ aligned l.2;
  li_n : n = rounds_left l.1.2 l.2 (buf_offset l.1.1)
}.

Lemma flush_full_wp q pre p c (Q : pipe → vstate W → Prop) s :
  pinv q pre (MkPipe (current_buf p) c (des_offset p) (tot_size p)) s →
  c = STAGING_BUF_SIZE →
  (∀ s' p', pinv q pre p' s' → buf_offset p' = 0 → Q p' s') →
  wp (flush_full e p c) Q s.
Proof.
  intros I -> HQ. unfold flush_full. apply wp_bind, wp_assert; [apply Z.eqb_refl|].
  apply wp_bind. eapply (flush_wp q pre _ _ s I). intros s' I' Hd.
  apply wp_bind. eapply gpu_do_wp; [apply I'|apply recordEvent_law|].
  intros w' Hw' [k Hv]. apply wp_ret. apply HQ; [|done].
  eapply (pinv_gpu _ _ _ _ _ (MkPipe (current_buf p + 1) 0
            (payload_base + STAGING_BUF_SIZE * current_buf p) (tot_size p)));
    rewrite ?Hv; try done.
  apply save_inv_progress; [done|apply Hfits|].
  refine (save_inv_switch e bs dev0 _ _ _ (pi_save _ _ _ _ I') _ _); done.
Qed.

(** The next round, after a copy of [c] bytes. *)
Lemma save_next pre p0 sz n p d size c p' s s' :
  loop_inv pre p0 sz n (p, d, size) s → 0 < size → 0 < c ≤ Z.min size (STAGING_BUF_SIZE - buf_offset p) → aligned c →
  c = Z.min size (STAGING_BUF_SIZE - buf_offset p) ∨ (d + c) mod VMM_GRANULE_SIZE = 0 →
  pinv (payload_size pre + (sz - (size - c))) (pre ++ [(p0, sz)]) p' s' →
  buf_offset p' = (if STAGING_BUF_SIZE <=? buf_offset p + c then 0 else buf_offset p + c) →
  ∃ m, (m < n)%nat ∧ loop_inv pre p0 sz m (p', d + c, size - c) s'.
Proof.
  intros LI Hgt Hc Hca Hcor I' Hbo'. pose proof LI as [I [Hbo Hboa] Hd Hsize [Had Hasz] Hn]. simpl in *.
  destruct (si_bo _ _ _ _ _ _ (pi_save _ _ _ _ I)) as [Hbo0 _].
  exists (rounds_left (d + c) (size - c) (buf_offset p')). split.
  { rewrite Hn, Hbo'. apply rounds_left_step; [lia|lia|lia|]. destruct Hcor as [Hcor|Hcor]; lia. }
  split; simpl; try done; try lia.
  - rewrite Hbo'. destruct (Z.leb_spec STAGING_BUF_SIZE (buf_offset p + c)); [split; [done|by intros _]|].
    split; [done|by apply aligned_add].
  - split; [by apply aligned_add|by apply aligned_sub].
Qed.

Lemma save_body_wp pre p0 sz post n l s :
  bs = pre ++ (p0, sz) :: post → loop_inv pre p0 sz n l s →
  wp (save_body e clamp l)
    (λ r s', match r with
             | inl l' => ∃ m, (m < n)%nat ∧ loop_inv pre p0 sz m l' s'
             | inr p' => pinv (payload_size (pre ++ [(p0, sz)])) (pre ++ [(p0, sz)]) p' s' ∧
                         buf_offset p' < STAGING_BUF_SIZE ∧ aligned (buf_offset p')
             end) s.
Proof.
  intros Hsplit LI. destruct l as [[p d] size]. unfold save_body.
  pose proof LI as [I [Hbo Hboa] Hd Hsize [Had Hasz] Hn]. simpl in *.
  pose proof (pi_save _ _ _ _ I) as SI. destruct (si_bo _ _ _ _ _ _ SI) as [Hbo0 _].
  destruct (Z.leb_spec size 0) as [Hle|Hgt].
  { apply wp_ret. rewrite payload_size_app. assert (size = 0) as -> by lia.
    change (payload_size [(p0, sz)]) with (sz + 0).
    replace (sz - 0) with (sz + 0) in I by lia. done. }
  assert (Hstg : STAGING_BUF_SIZE mod VMM_GRANULE_SIZE = 0) by reflexivity.
  destruct (Hclamp d (Z.min size (STAGING_BUF_SIZE - buf_offset p))) as (Hc & Hshape & Hca & Hcor);
    [lia|done|..].
  { destruct (Z.min_spec size (STAGING_BUF_SIZE - buf_offset p)) as [[_ ->]|[_ ->]]; [done|].
    apply aligned_sub; [by intros _|done]. }
  set (c := clamp _ _) in *.
  destruct (Hbs p0 sz) as (_ & _ & _ & ext & Hext & Hszx).
  { rewrite Hsplit. apply elem_of_app. right. left. }
  apply wp_bind. eapply check_wp; [apply I|apply memcpyAsync_law|].
  { split; [done|]. split; [simpl; lia|]. split; [|done].
    exists p0, ext. rewrite (pi_bk _ _ _ _ I). cbn. split; [done|]. lia. }
  intros w' Hw' [j Hv].
  assert (I' : pinv (payload_size pre + (sz - (size - c))) (pre ++ [(p0, sz)])
                 (MkPipe (current_buf p) (buf_offset p + c) (des_offset p) (tot_size p))
                 (with_gpu w' s)).
  { eapply pinv_gpu; rewrite ?Hv; try done. apply save_inv_progress; [done|apply Hfits|].
    replace (payload_size pre + (sz - (size - c))) with (payload_size pre + (sz - size) + c) by lia.
    destruct (pre_nonneg pre _ Hsplit) as [Hp1 Hp2]. apply sizes_nonneg_cons in Hp2 as [_ Hp2].
    apply save_inv_enqueue; [done|lia|lia| |].
    - rewrite Hsplit, payload_size_app. change (payload_size ((p0, sz) :: post)) with (sz + payload_size post).
      pose proof (payload_size_nonneg _ Hp2). lia.
    - intros i Hi. rewrite Hsplit.
      rewrite <- Z.add_assoc, payload_addr_at by (done || lia). lia. }
  pose proof (λ p' s', save_next pre p0 sz n p d size c p' s s' LI Hgt Hc Hca Hcor) as Hnext.
  apply wp_bind. destruct (Z.leb_spec STAGING_BUF_SIZE (buf_offset p + c)) as [Hfull|Hpart].
  - eapply flush_full_wp; [exact I'|lia|]. intros s'' p'' I'' Hz. apply wp_ret. by apply Hnext.
  - by do 2 apply wp_ret; apply Hnext.
Qed.

(** The state between two blocks. *)
Definition block_inv (pre : list (Z * Z)) (p : pipe) (s : vstate W) : Prop :=
  pinv (payload_size pre) pre p s ∧ buf_offset p < STAGING_BUF_SIZE ∧ aligned (buf_offset p).

Lemma save_block_wp pre p0 sz post p s :
  bs = pre ++ (p0, sz) :: post → block_inv pre p s →
  wp (save_block e clamp p (p0, sz)) (block_inv (pre ++ [(p0, sz)])) s.
Proof.
  intros Hsplit (I & Hbo & Hboa). unfold save_block.
  destruct (pre_nonneg pre _ Hsplit) as [Hp1 Hp2].
  apply sizes_nonneg_cons in Hp2 as [Hsz Hp2]. pose proof (payload_size_nonneg _ Hp2) as Hps.
  assert (Hin : (p0, sz) ∈ bs) by (rewrite Hsplit; apply elem_of_app; right; left).
  destruct (Hbs p0 sz Hin) as (_ & Hpa & Hsa & _).
  pose proof (ft_num _ _ Hfits) as Hnum. pose proof (ft_size _ _ Hfits) as Hfit.
  rewrite Hsplit, length_app in Hnum. simpl in Hnum.
  rewrite Hsplit, payload_size_app in Hfit.
  change (payload_size ((p0, sz) :: post)) with (sz + payload_size post) in Hfit.
  apply wp_bind. eapply (record_file_wp e pre).
  - apply I.
  - lia.
  - done.
  - done.
  - apply Henv.
  - rewrite payload_size_app. change (payload_size [(p0, sz)]) with (sz + 0). lia.
  - intros f' Hf'. pose proof (si_bo _ _ _ _ _ _ (pi_save _ _ _ _ I)) as [Hbo0 _].
    eapply (wp_iter (loop_inv pre p0 sz)); [intros; by eapply save_body_wp| |].
    + split; simpl.
      * replace (sz - sz) with 0 by lia. rewrite Z.add_0_r. destruct I as [? ? ? ? SI ? ? ?]. split; try done; simpl; [by destruct SI|].
        rewrite payload_size_app. change (payload_size [(p0, sz)]) with (sz + 0). lia.
      * done.
      * lia.
      * lia.
      * done.
      * reflexivity.
    + simpl. by apply rounds_left_bound.
Qed.

(** The state once everything is in the dump file. *)
Record saved (s : vstate W) : Prop := {
  sv_wf : gpu_wf (vgpu s);
  sv_am : g_alloc (gpu_view (vgpu s)) = am;
  sv_bk : g_backed (gpu_view (vgpu s)) = bk;
  sv_fr : g_free (gpu_view (vgpu s)) = fr;
  sv_queue : g_queue (gpu_view (vgpu s)) = [];
  sv_dev : g_dev (gpu_view (vgpu s)) = dev0;
  sv_dump : dump_holds e bs dev0 (fs s) (g_host (gpu_view (vgpu s)));
  sv_locks : locked s
}.

Lemma flush_last_wp p (Q : pipe → vstate W → Prop) s :
  pinv (payload_size bs) bs p s →
  (∀ s' p', saved s' → tot_size p' = payload_size bs → Q p' s') →
  wp (flush_last e p) Q s.
Proof.
  intros I HQ. unfold flush_last. apply wp_bind.
  eapply (flush_wp _ _ _ _ s I). intros s1 I1 Hd1.
  apply wp_bind. eapply gpu_do_wp; [apply I1|apply synchronizeStream_law|].
  intros w2 Hw2 Hv2. apply wp_bind, host_copy_wp.
  assert (I2 : pinv (payload_size bs) bs p (with_gpu w2 s1)).
  { eapply pinv_gpu; rewrite ?Hv2; try done. apply save_inv_progress; [done|apply Hfits|apply I1]. }
  set (h' := memcpy_multi _ _ _ _).
  pose proof (pi_save _ _ _ _ I2) as [Hcb Hbo Hq _ _ _ _ _ _ _ _].
  pose proof STAGING_BUF_SIZE_eq as Hstg. pose proof payload_base_eq as Hbase.
  pose proof (ft_size _ _ Hfits) as Hfit.
  assert (Hb01 : buf_now p = 0 ∨ buf_now p = 1) by apply buf_now_01.
  assert (Hh : ∀ a, h' a = copy (g_host (gpu_view w2)) (tmp_buf e + (payload_base + STAGING_BUF_SIZE * current_buf p))
                 (g_host (gpu_view w2)) (staging_buf e (buf_now p)) (buf_offset p) a).
  { intros a. apply memcpy_dump; [done|done|lia..]. }
  pose proof (fo_off _ _ (pi_fs _ _ _ _ I2)) as Hoff. simpl in Hoff.
  apply wp_bind, wp_get, wp_bind, wp_assert.
  { apply Z.eqb_eq. simpl. rewrite Hoff. lia. }
  assert (Hqe : g_queue (gpu_view w2) = []) by by rewrite Hv2, progress_all.
  apply wp_ret. apply HQ; [|apply I].
  destruct I2 as [? ? ? ? SI2 Hfs2 ? ?].
  split; simpl; rewrite ?store_host_law; try done; [by apply store_host_wf|apply SI2|].
  split; [done|]. intros i Hi. simpl. rewrite Hh. copy_case.
  - rewrite (now_host e bs dev0 (payload_size bs) p (gpu_view w2)) by (done || lia).
    do 2 f_equal. lia.
  - rewrite Hv2. simpl.
    rewrite <- Z.add_assoc, (drain_dump e Henv bs dev0 (payload_size bs) p); [|apply I1|lia].
    rewrite Z.add_assoc. apply Hd1. lia.
Qed.

Lemma close_dump_wp p (Q : pipe → vstate W → Prop) s :
  pinv (payload_size bs) bs p s →
  (∀ s' p', saved s' → tot_size p' = payload_size bs → Q p' s') →
  wp (close_dump e p) Q s.
Proof.
  intros I HQ. apply wp_bind. eapply flush_last_wp; [done|]. intros s1 p1 [] Ht.
  apply wp_bind. eapply gpu_do_wp; [done|by apply destroyStream_law|]. intros w2 Hw2 Hv2.
  apply wp_bind. eapply gpu_do_wp; [done|apply destroyEvent_law; simpl; by rewrite Hv2|].
  intros w3 Hw3 Hv3. simpl in *. apply wp_ret. rewrite Hv2 in Hv3.
  apply HQ; [|done]. by split; simpl; rewrite ?Hv3.
Qed.
End Save.

Lemma unback_snoc ps p bk : unback (ps ++ [p]) bk = delete p (unback ps bk).
Proof. unfold unback. by rewrite foldl_app. Qed.

Lemma lookup_unback ps bk p : unback ps bk !! p = if decide (p ∈ ps) then None else bk !! p.
Proof.
  induction ps as [|q ps IH] using rev_ind; [done|].
  rewrite unback_snoc. destruct (decide (p = q)) as [->|Hne].
  - rewrite lookup_delete_eq, decide_True by (apply elem_of_app; right; left). done.
  - rewrite lookup_delete_ne, IH by done.
    destruct (decide (p ∈ ps)) as [Hin|Hnin]; [by rewrite decide_True by (apply elem_of_app; by left)|].
    rewrite decide_False; [done|]. rewrite elem_of_app, list_elem_of_singleton. naive_solver.
Qed.

Lemma freed_snoc am ps p : freed am (ps ++ [p]) = freed am ps + ROUND_UP_2MB (am !!! p).
Proof. unfold freed. rewrite sum_by_app. simpl. lia. Qed.

(** ** Opening the dump, releasing the blocks *)

Section Release.
Context {W : Type} `{GPULaws W} (e : env) (Henv : env_ok e).

Lemma open_dump_wp bs (Q : pipe → vstate W → Prop) s :
  ready s → fits e bs → sizes_nonneg bs →
  (∀ p s', pinv e bs (g_dev (gpu_view (vgpu s))) (g_alloc (gpu_view (vgpu s)))
             (g_backed (gpu_view (vgpu s))) (g_free (gpu_view (vgpu s))) 0 [] p s' →
     buf_offset p = 0 → Q p s') →
  wp open_dump Q s.
Proof.
  intros [Hwf Hq Hlen [Hl1 Hl2]] Hfit Hnn HQ. unfold open_dump.
  apply wp_bind, lock_fs_wp; [done|]. apply wp_bind, lock_gpu_mem_wp; [done|].
  apply wp_bind, wp_get, wp_bind, wp_modify.
  apply wp_bind. eapply check_wp; [done|by apply createStream_law|]. intros w1 Hw1 Hv1.
  apply wp_bind. eapply check_wp; [done|apply createEvent_law; simpl in *; by rewrite Hv1|].
  intros w2 Hw2 Hv2.
  apply wp_bind. eapply gpu_do_wp; [done|apply recordEvent_law|]. intros w3 Hw3 [k Hv3].
  apply wp_ret. apply HQ; [|done].
  simpl in *. rewrite Hv2, Hv1 in Hv3. unfold progress in Hv3. simpl in Hv3.
  rewrite Hq, take_nil, drop_nil in Hv3. simpl in Hv3.
  split; simpl; rewrite ?Hv3; try done.
  pose proof STAGING_BUF_SIZE_eq. pose proof (payload_size_nonneg _ Hnn).
  split; simpl; try done; try lia; intros i Hi; unfold flushed in Hi; simpl in Hi; lia.
Qed.

(** The state while the blocks are released, one after the other. *)
Record rel_inv (am bk : gmap Z Z) (fr : Z) (dev0 h : mem) (f : shared_mem_fs) (ps : list Z)
    (s : vstate W) : Prop := {
  ri_wf : gpu_wf (vgpu s);
  ri_queue : g_queue (gpu_view (vgpu s)) = [];
  ri_am : g_alloc (gpu_view (vgpu s)) = am;
  ri_bk : g_backed (gpu_view (vgpu s)) = unback ps bk;
  ri_fr : g_free (gpu_view (vgpu s)) = fr + freed am ps;
  ri_dev : ∀ a, ¬ in_extent am ps a → g_dev (gpu_view (vgpu s)) a = dev0 a;
  ri_host : g_host (gpu_view (vgpu s)) = h;
  ri_fs : fs s = f;
  ri_locks : locked s
}.

Lemma release_step am bk fr dev0 h f ps p sz (Q : unit → vstate W → Prop) s :
  rel_inv am bk fr dev0 h f ps s → p ∉ ps → am !! p = Some sz → block_ok p sz →
  bk !! p = Some (ROUND_UP_2MB sz) →
  (∀ s', rel_inv am bk fr dev0 h f (ps ++ [p]) s' → Q tt s') →
  wp (check_or_exit (releasePhysicalMemory p)) Q s.
Proof.
  intros [? ? Ham Hbk Hfr Hdev ? ? ?] Hp Hsz Hok Hb HQ.
  eapply check_wp; [done|eapply (releasePhysicalMemory_law _ p sz); try done|].
  - by rewrite Ham.
  - rewrite Hbk, lookup_unback. by rewrite decide_False.
  - intros w' Hw' (d & Hd & Hv). apply HQ.
    assert (Htot : am !!! p = sz) by by apply lookup_total_correct.
    split; simpl; rewrite ?Hv; simpl; try done.
    + by rewrite unback_snoc, Hbk.
    + rewrite freed_snoc, Hfr, Htot. lia.
    + intros a Ha. rewrite Hd.
      * apply Hdev. intros (p' & Hp' & Hr). apply Ha. exists p'.
        split; [apply elem_of_app; by left|done].
      * intros Hr. apply Ha. exists p. rewrite Htot. split; [apply elem_of_app; right; left|lia].
Qed.
End Release.

(** ** The two functions *)

Lemma no_clamp_ok d len : 0 < len →
  (true = true → d mod VMM_GRANULE_SIZE = 0) → (true = true → len mod VMM_GRANULE_SIZE = 0) →
  0 < no_clamp d len ≤ len ∧ granule_shape d (no_clamp d len) ∧
  (true = true → no_clamp d len mod VMM_GRANULE_SIZE = 0) ∧
  (no_clamp d len = len ∨ (d + no_clamp d len) mod VMM_GRANULE_SIZE = 0).
Proof.
  intros Hl Hd Hm. unfold no_clamp. split; [lia|]. split; [left; auto|]. split; [done|by left].
Qed.

Lemma granule_clamp_ok d len : 0 < len →
  (false = true → d mod VMM_GRANULE_SIZE = 0) → (false = true → len mod VMM_GRANULE_SIZE = 0) →
  0 < granule_clamp d len ≤ len ∧ granule_shape d (granule_clamp d len) ∧
  (false = true → granule_clamp d len mod VMM_GRANULE_SIZE = 0) ∧
  (granule_clamp d len = len ∨ (d + granule_clamp d len) mod VMM_GRANULE_SIZE = 0).
Proof.
  intros Hl _ _. destruct (granule_clamp_bounds d len Hl) as (Hb & Hs & Ho).
  split; [done|]. split; [right; by rewrite granule_eq|]. split; [done|]. by rewrite granule_eq.
Qed.

Lemma elem_of_ckpt_blocks am p s :
  (p, s) ∈ ckpt_blocks am ↔ ∃ sz, am !! p = Some sz ∧ s = ROUND_UP_2MB sz.
Proof.
  unfold ckpt_blocks. rewrite list_elem_of_fmap. split.
  - intros ([p' sz] & [= -> ->] & Hin). exists sz. by apply elem_of_map_entries in Hin.
  - intros (sz & Hin & ->). exists (p, sz). split; [done|]. by apply elem_of_map_entries.
Qed.

Lemma freed_ckpt am : freed am (map_entries am).*1 = payload_size (ckpt_blocks am).
Proof.
  unfold freed, payload_size, ckpt_blocks. rewrite !sum_by_fmap.
  apply sum_by_ext. intros [p sz] Hp%elem_of_map_entries. simpl.
  by rewrite (lookup_total_correct _ _ _ Hp).
Qed.

Section Ckpt.
Context {W : Type} `{GPULaws W} (e : env) (Henv : env_ok e).

Lemma rel_inv_parked s am bk fr dev0 h f ps s' :
  am = g_alloc (gpu_view (vgpu s)) → bk = g_backed (gpu_view (vgpu s)) →
  fr = g_free (gpu_view (vgpu s)) → dev0 = g_dev (gpu_view (vgpu s)) →
  length (files f) = Z.to_nat MAX_FILE_NUM →
  rel_inv am bk fr dev0 h f ps s' →
  parked ps s (MkV (vgpu s') (fs s') false false).
Proof.
  intros -> -> -> -> Hf []. split; simpl; try done. split; simpl; try done; congruence.
Qed.

Lemma ckpt_wp s : ready s → allocs_ok (gpu_view (vgpu s)) →
  let am := g_alloc (gpu_view (vgpu s)) in
  fits e (ckpt_blocks am) →
  wp (ckpt e) (λ t s',
    t = payload_size (ckpt_blocks am) ∧ parked (map_entries am).*1 s s' ∧
    dump_holds e (ckpt_blocks am) (g_dev (gpu_view (vgpu s))) (fs s') (g_host (gpu_view (vgpu s')))) s.
Proof.
  intros Hr Hal am Hfit. unfold ckpt.
  assert (Hbs : ∀ p s0, (p, s0) ∈ ckpt_blocks am → 0 ≤ s0 ∧
    (true = true → p mod VMM_GRANULE_SIZE = 0) ∧ (true = true → s0 mod VMM_GRANULE_SIZE = 0) ∧
    ∃ ext, g_backed (gpu_view (vgpu s)) !! p = Some ext ∧ s0 ≤ ext).
  { intros p s0 (sz & Hsz & ->)%elem_of_ckpt_blocks. destruct (Hal p sz Hsz) as [Hok Hb].
    pose proof Hok as (? & ? & ?). destruct (block_ok_round p sz Hok) as (? & ? & ?).
    split; [lia|]. split; [done|]. split; [done|]. by eexists. }
  apply wp_bind. eapply (open_dump_wp e (ckpt_blocks am)); [done|done|intros p s0 Hin; by destruct (Hbs p s0 Hin)|].
  intros p1 s1 I1 Hb1. apply wp_bind, wp_get. rewrite (pi_am _ _ _ _ _ _ _ _ _ _ I1). fold am.
  change ((λ b : Z * Z, (b.1, ROUND_UP_2MB b.2)) <$> map_entries am) with (ckpt_blocks am).
  apply wp_bind. eapply wp_mono.
  { eapply (wp_foldM (block_inv e (ckpt_blocks am) (g_dev (gpu_view (vgpu s))) am
              (g_backed (gpu_view (vgpu s))) (g_free (gpu_view (vgpu s))) true)).
    - split; [exact I1|]. rewrite Hb1. by split; [|intros _].
    - intros pre [p0 sz] post l s2 Hsplit I. eapply save_block_wp; try done.
      intros; by apply no_clamp_ok. }
  intros p2 s2 (I2 & _ & _). apply wp_bind. eapply close_dump_wp; try done.
  intros s3 p3 S3 Ht. apply wp_bind, wp_get. rewrite (sv_am _ _ _ _ _ _ _ S3).
  apply wp_bind. eapply wp_mono.
  { eapply (wp_foldM (λ ps _, rel_inv am (g_backed (gpu_view (vgpu s))) (g_free (gpu_view (vgpu s)))
              (g_dev (gpu_view (vgpu s))) (g_host (gpu_view (vgpu s3))) (fs s3) ps)).
    - destruct S3. split; try done; [by rewrite Z.add_0_r|by intros; congruence].
    - intros pre p post [] s4 Hsplit R.
      assert (Hp : p ∈ (map_entries am).*1) by (rewrite Hsplit; apply elem_of_app; right; left).
      apply list_elem_of_fmap in Hp as ([p' sz] & -> & Hp%elem_of_map_entries).
      destruct (Hal p' sz Hp) as [Hok Hb].
      eapply release_step; try done.
      pose proof (NoDup_map_entries am) as Hnd. rewrite Hsplit in Hnd.
      apply NoDup_app in Hnd as (_ & Hnd & _). intros Hin. apply (Hnd _ Hin). by left. }
  intros [] s4 R. apply wp_bind, wp_modify, wp_bind, wp_modify, wp_ret. 
  destruct S3 as [? ? ? ? ? ? [Hfs Hd] ?]. split; [done|]. split.
  - eapply (rel_inv_parked s _ _ _ _ _ _ _ s4); [..|exact R]; try done. apply Hfs.
  - simpl. rewrite (ri_host _ _ _ _ _ _ _ _ R), (ri_fs _ _ _ _ _ _ _ _ R). by split.
Qed.

Lemma release_file_wp am bk fr dev0 h f ps s :
  fs_ok (sel_blocks am ps) f → NoDup ps →
  (∀ p, p ∈ ps → ∃ sz, am !! p = Some sz ∧ block_ok p sz ∧ bk !! p = Some (ROUND_UP_2MB sz)) →
  rel_inv am bk fr dev0 h f [] s →
  wp (foldM release_file tt (seq 0 (length ps))) (λ _, rel_inv am bk fr dev0 h f ps) s.
Proof.
  intros Hf Hnd Hps R. eapply wp_mono.
  { eapply (wp_foldM (λ pre _, rel_inv am bk fr dev0 h f (take (length pre) ps))); [done|].
    intros pre i post [] s1 Hseq R1.
    assert (Hi : seq 0 (length ps) !! length pre = Some i) by (rewrite Hseq; by apply list_lookup_middle).
    apply lookup_seq in Hi as [-> Hlt]. simpl.
    destruct (lookup_lt_is_Some_2 ps (length pre) Hlt) as [p Hp].
    destruct (Hps p) as (sz & Hsz & Hok & Hb); [by eapply list_elem_of_lookup_2|].
    unfold release_file. apply wp_bind, wp_get. rewrite (ri_fs _ _ _ _ _ _ _ _ R1).
    assert (Hfl : files f !! length pre =
              Some (MkFile p (payload_base + payload_size (sel_blocks am (take (length pre) ps))) (am !!! p))).
    { rewrite <- (lookup_take_lt _ (length (sel_blocks am ps)));
        [|unfold sel_blocks; by rewrite length_fmap].
      rewrite (fo_files _ _ Hf). 
      rewrite <- (take_drop_middle ps _ _ Hp) at 1. unfold sel_blocks. rewrite fmap_app, fmap_cons.
      erewrite <- (files_of_lookup payload_base _ _ p (am !!! p)) by reflexivity.
      f_equal. rewrite length_fmap, length_take. lia. }
    rewrite Hfl. simpl. rewrite length_app, Nat.add_1_r, (take_S_r _ _ p Hp).
    eapply release_step; try done.
    rewrite <- (take_drop_middle ps _ _ Hp) in Hnd. apply NoDup_app in Hnd as (_ & Hnd & _).
    intros Hin. apply (Hnd p Hin). by left. }
  intros [] s1. simpl. by rewrite length_seq, firstn_all.
Qed.
End Ckpt.

(** ** Which blocks a selective checkpoint takes *)

Lemma find_containing_Some bl ptr p sz : find_containing bl ptr = Some (p, sz) →
  (p, sz) ∈ bl ∧ p ≤ ptr < p + sz.
Proof.
  induction bl as [|[q n] bl IH]; simpl; [done|].
  destruct (Z.leb_spec q ptr), (Z.ltb_spec ptr (q + n)); simpl;
    try (intros [? ?]%IH; split; [by right|done]).
  intros [= -> ->]. split; [by left|lia].
Qed.

Lemma find_containing_None bl ptr : find_containing bl ptr = None →
  ∀ p sz, (p, sz) ∈ bl → ¬ (p ≤ ptr < p + sz).
Proof.
  induction bl as [|[q n] bl IH]; simpl; intros Hf p sz Hin; [by apply elem_of_nil in Hin|].
  destruct (Z.leb_spec q ptr), (Z.ltb_spec ptr (q + n)); simpl in *; try done;
    apply elem_of_cons in Hin as [[= -> ->]|Hin]; try lia; by apply IH.
Qed.

Lemma blocks_to_snapshot_spec am rs p :
  p ∈ blocks_to_snapshot am rs ↔
  ∃ r sz, r ∈ rs ∧ find_containing_allocation am (r_ptr r) = Some (p, sz).
Proof.
  induction rs as [|r rs IH]; simpl.
  - split; [by intros ?%elem_of_empty|]. intros (r & sz & Hr & _). by apply elem_of_nil in Hr.
  - setoid_rewrite elem_of_cons.
    destruct (find_containing_allocation am (r_ptr r)) as [[q n]|] eqn:Hf;
      rewrite ?elem_of_union, ?elem_of_singleton, IH; naive_solver.
Qed.

Lemma elem_of_selected am req p : p ∈ selected am req →
  ∃ sz, am !! p = Some sz.
Proof.
  unfold selected, set_entries. rewrite merge_sort_Permutation, elem_of_elements.
  intros (r & sz & _ & Hf)%blocks_to_snapshot_spec. exists sz.
  apply elem_of_map_entries. by apply find_containing_Some in Hf as [? _].
Qed.

Lemma NoDup_selected am req : NoDup (selected am req).
Proof. unfold selected, set_entries. rewrite merge_sort_Permutation. apply NoDup_elements. Qed.

Section Selective.
Context {W : Type} `{GPULaws W} (e : env) (Henv : env_ok e).

Lemma save_selected_eq am p p0 sz (Q : pipe → vstate W → Prop) s :
  g_alloc (gpu_view (vgpu s)) = am → am !! p0 = Some sz →
  wp (save_block e granule_clamp p (p0, am !!! p0)) Q s → wp (save_selected e p p0) Q s.
Proof.
  intros Ham Hsz Hw. unfold save_selected. apply wp_bind, wp_get. rewrite Ham, Hsz.
  by rewrite (lookup_total_correct _ _ _ Hsz) in Hw.
Qed.

Lemma sel_blocks_split am ps pre p post :
  ps = pre ++ p :: post → sel_blocks am ps = sel_blocks am pre ++ (p, am !!! p) :: sel_blocks am post.
Proof. intros ->. unfold sel_blocks. by rewrite fmap_app. Qed.

Lemma ckpt_selective_wp req s : ready s → allocs_ok (gpu_view (vgpu s)) →
  let am := g_alloc (gpu_view (vgpu s)) in
  let ps := selected am req in
  fits e (sel_blocks am ps) →
  wp (ckpt_selective e req) (λ t s',
    t = payload_size (sel_blocks am ps) ∧ parked ps s s' ∧
    dump_holds e (sel_blocks am ps) (g_dev (gpu_view (vgpu s))) (fs s') (g_host (gpu_view (vgpu s')))) s.
Proof.
  intros Hr Hal am ps Hfit. unfold ckpt_selective.
  assert (Hps : ∀ p, p ∈ ps → ∃ sz, am !! p = Some sz ∧ block_ok p sz ∧
                  g_backed (gpu_view (vgpu s)) !! p = Some (ROUND_UP_2MB sz)).
  { intros p (sz & Hsz)%elem_of_selected. destruct (Hal p sz Hsz). by exists sz. }
  assert (Hbs : ∀ p s0, (p, s0) ∈ sel_blocks am ps → 0 ≤ s0 ∧
    (false = true → p mod VMM_GRANULE_SIZE = 0) ∧ (false = true → s0 mod VMM_GRANULE_SIZE = 0) ∧
    ∃ ext, g_backed (gpu_view (vgpu s)) !! p = Some ext ∧ s0 ≤ ext).
  { intros p s0 (p' & [= -> ->] & Hp)%list_elem_of_fmap. destruct (Hps p' Hp) as (sz & Hsz & Hok & Hb).
    rewrite (lookup_total_correct _ _ _ Hsz). pose proof Hok as (? & ? & ?).
    destruct (block_ok_round p' sz Hok) as (? & ? & ?).
    split; [lia|]. split; [done|]. split; [done|]. eexists. split; [done|lia]. }
  apply wp_bind. eapply (open_dump_wp e (sel_blocks am ps));
    [done|done|intros p s0 Hin; by destruct (Hbs p s0 Hin)|].
  intros p1 s1 I1 Hb1. apply wp_bind, wp_get. rewrite (pi_am _ _ _ _ _ _ _ _ _ _ I1). fold am.
  change (set_entries _) with ps. apply wp_bind. eapply wp_mono.
  { eapply (wp_foldM (λ pre, block_inv e (sel_blocks am ps) (g_dev (gpu_view (vgpu s))) am
              (g_backed (gpu_view (vgpu s))) (g_free (gpu_view (vgpu s))) false (sel_blocks am pre))).
    - split; [exact I1|]. rewrite Hb1. by split; [|intros ?].
    - intros pre p0 post l s2 Hsplit I.
      assert (Hin : p0 ∈ ps) by (rewrite Hsplit; apply elem_of_app; right; left).
      destruct (Hps p0 Hin) as (sz & Hsz & _). eapply save_selected_eq; [apply I|done|].
      unfold sel_blocks at 2. rewrite fmap_app. eapply save_block_wp; try done.
      + intros; by apply granule_clamp_ok.
      + by apply sel_blocks_split. }
  intros p2 s2 (I2 & _ & _). apply wp_bind. eapply close_dump_wp; try done.
  intros s3 p3 S3 Ht. apply wp_bind, wp_get.
  destruct (sv_dump _ _ _ _ _ _ _ S3) as [Hfs Hd]. rewrite (fo_num _ _ Hfs).
  rewrite Nat2Z.id. unfold sel_blocks at 1. rewrite length_fmap.
  apply wp_bind. eapply wp_mono.
  { eapply (release_file_wp am (g_backed (gpu_view (vgpu s))) (g_free (gpu_view (vgpu s)))
              (g_dev (gpu_view (vgpu s))) (g_host (gpu_view (vgpu s3))) (fs s3) ps);
      [done|apply NoDup_selected|done|].
    destruct S3. split; try done; [by rewrite Z.add_0_r|by intros; congruence]. }
  intros [] s4 R. apply wp_bind, wp_modify, wp_bind, wp_modify, wp_ret.
  split; [done|]. split.
  - eapply (rel_inv_parked s _ _ _ _ _ _ _ s4); [..|exact R]; try done. apply Hfs.
  - simpl. rewrite (ri_host _ _ _ _ _ _ _ _ R), (ri_fs _ _ _ _ _ _ _ _ R). by split.
Qed.
End Selective.
