(* ===== verification/CkptErrors.v ===== *)
(** The error path of the checkpoint: a payload that does not fit.

    [record_file] checks the size of the file and the number of entries before a
    block is copied.  The lemmas follow the loop up to the first block that does
    not fit, where the process exits with nothing released. *)
From S2P Require Import Prelude Common Gpu Layout Ckpt SaveFacts CkptFacts.
Open Scope Z_scope.

(** The computation ends the process with [c], in a state satisfying [Q]. *)
Definition exits {S A} (m : M S A) (c : Z) (Q : S → Prop) (s : S) : Prop :=
  ∃ s', m s = Exit c s' ∧ Q s'.

Lemma exits_bind {S A B} (m : M S A) (f : A → M S B) c Q s :
  exits m c Q s → exits (m ≫= f) c Q s.
Proof. intros (s' & Hm & HQ). exists s'. unfold mbind, M_bind. by rewrite Hm. Qed.

Lemma exits_bind_ret {S A B} (m : M S A) (f : A → M S B) c P Q s :
  wp m P s → (∀ a s', P a s' → exits (f a) c Q s') → exits (m ≫= f) c Q s.
Proof.
  intros (a & s1 & Hm & HP)%wp_elim Hf. destruct (Hf a s1 HP) as (s' & Hf' & HQ).
  exists s'. unfold mbind, M_bind. by rewrite Hm.
Qed.

Lemma foldM_app {S L X} (f : L → X → M S L) l xs ys s :
  foldM f l (xs ++ ys) s = (foldM f l xs ≫= λ l', foldM f l' ys) s.
Proof.
  revert l s. induction xs as [|x xs IH]; intros l s; [done|]. simpl. unfold mbind, M_bind.
  destruct (f l x s) as [l'| |]; [|done..]. apply IH.
Qed.

#[export] Instance fits_dec e bs : Decision (fits e bs).
Proof.
  destruct (decide (payload_base + payload_size bs ≤ SHM_SIZE (shm_size_gb e)));
    destruct (decide (Z.of_nat (length bs) < MAX_FILE_NUM));
    [left; by split|right; intros [? ?]; contradiction..].
Defined.

Lemma env_fits_nil e : env_ok e → fits e [].
Proof.
  intros He. split; [|done]. rewrite SHM_SIZE_eq by apply He. destruct (eo_gb e He).
  change (payload_size []) with 0. rewrite payload_base_eq. lia.
Qed.

(** The first block that does not fit. *)
Lemma first_misfit e bs : env_ok e → ¬ fits e bs →
  ∃ pre b post, bs = pre ++ b :: post ∧ fits e pre ∧ ¬ fits e (pre ++ [b]).
Proof.
  intros He. induction bs as [|b bs IH] using rev_ind; intros Hno.
  - exfalso. by apply Hno, env_fits_nil.
  - destruct (decide (fits e bs)) as [Hf|Hf].
    + exists bs, b, []. by split_and!.
    + destruct (IH Hf) as (pre & b' & post & -> & ? & ?).
      exists pre, b', (post ++ [b]). by rewrite <- app_assoc.
Qed.

Section Errors.
Context {W : Type} `{GPULaws W} (e : env) (Henv : env_ok e).

Local Lemma fits_nil : fits e [].
Proof. by apply env_fits_nil. Qed.

(** Before the first copy the invariant holds for any payload. *)
Lemma pinv_start pre dev0 am bk fr p (s : vstate W) :
  pinv e [] dev0 am bk fr 0 [] p s → buf_offset p = 0 → sizes_nonneg pre →
  pinv e pre dev0 am bk fr 0 [] p s.
Proof.
  intros [? ? ? ? [Hcb ? Hq ? Hdes ? ? ? ? ? ?] ? ? ?] Hb0 Hnn. pose proof (payload_size_nonneg _ Hnn).
  assert (Hz : current_buf p = 0) by (pose proof STAGING_BUF_SIZE_eq; nia).
  split; try done. split; try done; unfold flushed in *; rewrite ?Hz, ?Hb0 in *; simpl in *; try done; lia.
Qed.

(** [record_file] on a block that does not fit. *)
Lemma record_file_misfit bs d size (s : vstate W) :
  fs_ok bs (fs s) → fits e bs → sizes_nonneg bs → 0 ≤ size ≤ 2 ^ 63 → ¬ fits e (bs ++ [(d, size)]) →
  exits (record_file e d size) (-1) (λ s', vgpu s' = vgpu s ∧ fs_mutex s' = false) s.
Proof.
  intros [Hn Ho Hf Hl] Hfit Hnn Hsz Hno. pose proof (payload_size_nonneg _ Hnn) as Hps.
  pose proof (eo_gb e Henv) as Hgb. pose proof (ft_size _ _ Hfit) as Hb. pose proof (ft_num _ _ Hfit) as Hbn.
  rewrite SHM_SIZE_eq, payload_base_eq in * by done.
  assert (Hsnoc : payload_size (bs ++ [(d, size)]) = payload_size bs + size).
  { rewrite payload_size_app. change (payload_size [(d, size)]) with (size + 0). lia. }
  unfold record_file, exits. unfold MAX_FILE_NUM in *.
  unfold get, mbind, M_bind at 1. rewrite bool_decide_eq_false_2 by lia.
  rewrite wrap64_small by (change (2 ^ 30) with 1073741824 in *; lia).
  unfold modify, M_bind at 1. rewrite SHM_SIZE_eq by done.
  destruct (Z.ltb_spec (shm_size_gb e * 1073741824) (current_offset (fs s) + size)) as [Hlt|Hge].
  - eexists. split; [reflexivity|done].
  - unfold M_bind at 1. change MAX_FILE_NUM with 4096.
    destruct (Z.leb_spec 4096 (file_num (fs s) + 1)) as [Hle|Hgt].
    + eexists. split; [reflexivity|done].
    + exfalso. apply Hno. split; [|rewrite length_app; simpl; unfold MAX_FILE_NUM; lia].
      rewrite SHM_SIZE_eq, payload_base_eq by done. lia.
Qed.

(** The loop over the blocks stops at the first one that does not fit. *)
Lemma save_blocks_misfit bs dev0 am bk fr p (s : vstate W) :
  ¬ fits e bs →
  (∀ pre, fits e pre → pre `prefix_of` bs → pinv e pre dev0 am bk fr 0 [] p s) →
  buf_offset p = 0 →
  (∀ p s, (p, s) ∈ bs → 0 ≤ s ≤ 2 ^ 63 ∧ p mod VMM_GRANULE_SIZE = 0 ∧ s mod VMM_GRANULE_SIZE = 0 ∧
     ∃ ext, bk !! p = Some ext ∧ s ≤ ext) →
  exits (foldM (save_block e no_clamp) p bs) (-1)
    (λ s', g_alloc (gpu_view (vgpu s')) = am ∧ g_backed (gpu_view (vgpu s')) = bk ∧
           g_free (gpu_view (vgpu s')) = fr ∧ g_dev (gpu_view (vgpu s')) = dev0 ∧
           fs_mutex s' = false) s.
Proof.
  intros Hno Hp Hb0 Hbs. destruct (first_misfit e bs Henv Hno) as (pre & [d size] & post & Hsplit & Hf & Hnf).
  assert (Hpre : ∀ b, b ∈ pre → b ∈ bs) by (intros b Hin; rewrite Hsplit; apply elem_of_app; by left).
  assert (Hnn : sizes_nonneg pre) by (intros q z Hin; by destruct (Hbs q z (Hpre _ Hin)) as [[? _] _]).
  destruct (Hbs d size) as [Hsz _]; [rewrite Hsplit; apply elem_of_app; right; left|].
  rewrite Hsplit. unfold exits. setoid_rewrite foldM_app.
  eapply (exits_bind_ret _ _ _ (block_inv e pre dev0 am bk fr true pre)).
  - eapply (wp_foldM (block_inv e pre dev0 am bk fr true)).
    + split; [apply Hp; [done|rewrite Hsplit; by apply prefix_app_r]|]. rewrite Hb0. by split; [|intros _].
    + intros pre' [p0 sz] post' l s2 Hs2 I. eapply save_block_wp; try done.
      * intros; by apply no_clamp_ok.
      * intros q z Hin. destruct (Hbs q z (Hpre _ Hin)) as ([? ?] & ? & ? & ?). by split_and!.
  - intros p' s' (I & _ & _). simpl. apply exits_bind. unfold save_block. apply exits_bind.
    destruct (record_file_misfit pre d size s') as (s2 & Hm & Hv & Hl); try done; [apply I|].
    exists s2. split; [done|]. rewrite Hv. destruct I as [? ? ? ? SI ? ? ?]. by destruct SI.
Qed.

Lemma ckpt_misfit s : ready s → allocs_ok (gpu_view (vgpu s)) →
  ¬ fits e (ckpt_blocks (g_alloc (gpu_view (vgpu s)))) →
  exits (ckpt e) (-1) (λ s', g_alloc (gpu_view (vgpu s')) = g_alloc (gpu_view (vgpu s)) ∧
    g_backed (gpu_view (vgpu s')) = g_backed (gpu_view (vgpu s)) ∧
    g_free (gpu_view (vgpu s')) = g_free (gpu_view (vgpu s)) ∧
    g_dev (gpu_view (vgpu s')) = g_dev (gpu_view (vgpu s)) ∧ fs_mutex s' = false) s.
Proof.
  intros Hr Hal Hno. unfold ckpt. set (am := g_alloc (gpu_view (vgpu s))) in *.
  assert (Hbs : ∀ p s0, (p, s0) ∈ ckpt_blocks am → 0 ≤ s0 ≤ 2 ^ 63 ∧
    p mod VMM_GRANULE_SIZE = 0 ∧ s0 mod VMM_GRANULE_SIZE = 0 ∧
    ∃ ext, g_backed (gpu_view (vgpu s)) !! p = Some ext ∧ s0 ≤ ext).
  { intros p s0 (sz & Hsz & ->)%elem_of_ckpt_blocks. destruct (Hal p sz Hsz) as [Hok Hb].
    pose proof Hok as (? & ? & ?). destruct (block_ok_round p sz Hok) as (? & ? & ?).
    split; [lia|]. split; [done|]. split; [done|]. by eexists. }
  eapply (exits_bind_ret _ _ _ (λ p s1, buf_offset p = 0 ∧ ∀ pre, fits e pre →
    pre `prefix_of` ckpt_blocks am →
    pinv e pre (g_dev (gpu_view (vgpu s))) am (g_backed (gpu_view (vgpu s)))
      (g_free (gpu_view (vgpu s))) 0 [] p s1)).
  - apply (open_dump_wp e []); [done|apply fits_nil|by intros ? ? ?%elem_of_nil|].
    intros p s1 I Hb0. split; [done|]. intros pre Hf Hpre. apply (pinv_start pre); [done|done|].
    intros q z Hin. assert ((q, z) ∈ ckpt_blocks am) as Hin'.
    { destruct Hpre as [k ->]. apply elem_of_app. by left. }
    by destruct (Hbs q z Hin') as [[? _] _].
  - intros p s1 [Hb0 Hp]. eapply (exits_bind_ret _ _ _ (λ a s', a = am ∧ s' = s1)).
    + apply wp_get. split; [|done]. apply (Hp [] fits_nil), prefix_nil.
    + intros a s' [-> ->]. apply exits_bind. by apply save_blocks_misfit.
Qed.
End Errors.
