(* ===== verification/Restore.v ===== *)
(** The restore side of [src/src/vGPU.cpp]: [restore_ptr_and_content] and
    [restore_ptr_and_content_selective].

    Both remap every block of the file table, then push the payload back through
    the two staging buffers: the CPU loads the next buffer once the event recorded
    at the previous switch says that its copies were executed. *)
From S2P Require Import Prelude Common Gpu Ckpt.
Open Scope Z_scope.

(** The local variables of the restore pipeline. *)
Record rpipe := MkRPipe {
  r_current_buf : Z;
  r_buf_offset : Z;
  src_offset : Z;
  r_tot_size : Z
}.

Section Restore.
Context {W : Type} `{GPU W} (e : env).

(** [if (call != 0) exit(-1);]: the lock guard does not run on [exit]. *)
Definition or_exit (m : M W Z) : M (vstate W) unit :=
  r ← gpu_do m; if bool_decide (r = 0) then mret tt else exit (-1).

Definition file_at (i : nat) : M (vstate W) shared_mem_file :=
  f ← get fs;
  match files f !! i with
  | None => fail OutOfBounds
  | Some fl => mret fl
  end.

Definition remap_file (_ : unit) (i : nat) : M (vstate W) unit :=
  fl ← file_at i; or_exit (remapPhysicalMemory (f_ptr fl) (f_size fl)).

(** Load one staging buffer from the dump: [memcpy_multi(staging_buf[b & 1],
    (char* )fs + src_offset, min(fs->current_offset - src_offset, STAGING_BUF_SIZE))]. *)
Definition load_buf (b src : Z) : M (vstate W) unit :=
  f ← get fs;
  host_copy (staging_buf e (Z.land b 1)) (tmp_buf e + src)
    (Z.min (wrap64 (current_offset f - src)) STAGING_BUF_SIZE).

(** A staging buffer was consumed: load the other one and switch. *)
Definition next_buf (p : rpipe) : M (vstate W) rpipe :=
  _ ← assert_ (r_buf_offset p =? STAGING_BUF_SIZE);
  let src' := src_offset p + STAGING_BUF_SIZE in
  _ ← gpu_do synchronizeEvent;
  _ ← load_buf (r_current_buf p + 1) src';
  _ ← gpu_do recordEvent;
  mret (MkRPipe (r_current_buf p + 1) 0 src' (r_tot_size p)).

(** One round of [while (size > 0)], on requestedAddr, offset and size. *)
Definition restore_body (clamp : Z → Z → Z) (l : rpipe * Z * Z * Z)
    : M (vstate W) ((rpipe * Z * Z * Z) + rpipe) :=
  let '(p, requestedAddr, offset, size) := l in
  if size <=? 0 then mret (inr p) else
  let this_copy_size := clamp requestedAddr (Z.min size (STAGING_BUF_SIZE - r_buf_offset p)) in
  _ ← assert_ (r_buf_offset p =? offset - src_offset p);
  _ ← or_exit (memcpyAsync requestedAddr
        (staging_buf e (Z.land (r_current_buf p) 1) + (offset - src_offset p))
        this_copy_size HostToDevice);
  let p' := MkRPipe (r_current_buf p) (r_buf_offset p + this_copy_size) (src_offset p)
              (r_tot_size p) in
  p' ← (if STAGING_BUF_SIZE <=? r_buf_offset p' then next_buf p' else mret p');
  mret (inl (p', requestedAddr + this_copy_size, offset + this_copy_size, size - this_copy_size)).

Definition restore_file (clamp : Z → Z → Z) (p : rpipe) (i : nat) : M (vstate W) rpipe :=
  fl ← file_at i;
  let p := MkRPipe (r_current_buf p) (r_buf_offset p) (src_offset p) (r_tot_size p + f_size fl) in
  p ← (if bool_decide (i = 0)%nat then
         _ ← load_buf (r_current_buf p) (f_start_offset fl);
         mret (MkRPipe (r_current_buf p) 0 (f_start_offset fl) (r_tot_size p))
       else mret p);
  iter (rounds (f_size fl)) (restore_body clamp) (p, f_ptr fl, f_start_offset fl, f_size fl).

Definition restore_with (clamp : Z → Z → Z) : M (vstate W) Z :=
  _ ← lock_gpu_mem;
  f ← get fs;
  let fn := Z.to_nat (file_num f) in
  _ ← foldM remap_file tt (seq 0 fn);
  _ ← or_exit createStream;
  _ ← or_exit createEvent;
  _ ← gpu_do recordEvent;
  p ← foldM (restore_file clamp) (MkRPipe 0 0 0 0) (seq 0 fn);
  _ ← gpu_do synchronizeStream;
  _ ← gpu_do destroyStream;
  _ ← gpu_do destroyEvent;
  _ ← unlock_gpu_mem;
  mret (r_tot_size p).

Definition restore_ptr_and_content : M (vstate W) Z := restore_with no_clamp.

Definition restore_ptr_and_content_selective : M (vstate W) Z := restore_with granule_clamp.
End Restore.
