(* ===== verification/RestoreFacts.v ===== *)
(** The restore functions put the payload back.

    [load_inv q p v] says what holds once the first [q] payload bytes have been
    issued: the dump is intact, the current staging buffer holds its part of the
    payload, the copies the event does not cover read only the current buffer, and
    once the pending copies have run the issued bytes are on the device and
    nothing else changed. *)
From S2P Require Import Prelude Common Gpu Layout Ckpt SaveFacts CkptFacts Restore.
Open Scope Z_scope.

Definition r_now (p : rpipe) : Z := Z.land (r_current_buf p) 1.
Definition r_next (p : rpipe) : Z := Z.land (r_current_buf p + 1) 1.

Lemma r_now_01 p : r_now p = 0 ∨ r_now p = 1.
Proof. unfold r_now. rewrite land_1. pose proof (Z.mod_pos_bound (r_current_buf p) 2). lia. Qed.

Lemma r_next_now p : r_next p = 1 - r_now p.
Proof. unfold r_next, r_now. rewrite !land_1. Z.div_mod_to_equations; lia. Qed.

Section LoadInv.
Context (e : env) (Henv : env_ok e) (bs : list (Z * Z)) (D : mem) (dev1 : mem).
Context (Hnn : sizes_nonneg bs) (Hdisj : blocks_disjoint bs).
Context (Hfit : payload_base + payload_size bs ≤ SHM_SIZE (shm_size_gb e)).

(** [D i] is payload byte [i] of the dump; [dev1] the device before the copies. *)
Definition src_in (i : Z) (x : xfer) : Prop :=
  staging_buf e i ≤ x_src x ∧ x_src x + x_n x ≤ staging_buf e i + STAGING_BUF_SIZE.

Record load_inv (q : Z) (p : rpipe) (v : gview) : Prop := {
  lo_cb : 0 ≤ r_current_buf p;
  lo_bo : 0 ≤ r_buf_offset p ≤ STAGING_BUF_SIZE;
  lo_q : q = r_current_buf p * STAGING_BUF_SIZE + r_buf_offset p;
  lo_bound : q ≤ payload_size bs;
  lo_src : src_offset p = payload_base + r_current_buf p * STAGING_BUF_SIZE;
  lo_dump : ∀ i, 0 ≤ i < payload_size bs → g_host v (tmp_buf e + payload_base + i) = D i;
  lo_now : ∀ i, 0 ≤ i < STAGING_BUF_SIZE → r_current_buf p * STAGING_BUF_SIZE + i < payload_size bs →
    g_host v (staging_buf e (r_now p) + i) = D (r_current_buf p * STAGING_BUF_SIZE + i);
  lo_queue : Forall is_h2d (g_queue v);
  lo_cur : ∀ j x, g_queue v !! j = Some x → (g_mark v ≤ j)%nat → src_in (r_now p) x;
  lo_dev : ∀ i, 0 ≤ i < q → (drain v).2 (payload_addr bs i) = D i;
  lo_rest : ∀ a, (∀ i, 0 ≤ i < payload_size bs → payload_addr bs i ≠ a) → (drain v).2 a = dev1 a
}.

Lemma load_inv_progress k q p v : load_inv q p v → load_inv q p (progress k v).
Proof.
  intros I. pose proof I as [? ? ? ? ? Hdump Hn Hq Hc Hd Hr].
  assert (Hh : g_host (progress k v) = g_host v).
  { simpl. apply run_h2d_host. by apply Forall_take. }
  split; rewrite ?Hh, ?drain_progress; try done.
  - by apply Forall_drop.
  - intros j x Hj Hm. simpl in *. rewrite lookup_drop in Hj. apply (Hc (k + j)%nat); [done|lia].
Qed.

Lemma load_inv_enqueue q p v d cur :
  load_inv q p v → 0 < cur → r_buf_offset p + cur ≤ STAGING_BUF_SIZE →
  q + cur ≤ payload_size bs → (∀ i, 0 ≤ i < cur → payload_addr bs (q + i) = d + i) →
  load_inv (q + cur)
    (MkRPipe (r_current_buf p) (r_buf_offset p + cur) (src_offset p) (r_tot_size p))
    (enqueue (MkXfer d (staging_buf e (r_now p) + r_buf_offset p) cur HostToDevice) v).
Proof.
  intros I Hcur Hbo Hq Ha. pose proof I as [? ? ? ? ? Hdump Hn Hqu Hc Hd Hr].
  set (x := MkXfer _ _ _ _).
  assert (0 ≤ q) as Hq0 by (pose proof STAGING_BUF_SIZE_eq; nia).
  assert (Hdh : (drain v).1 = g_host v) by (by apply run_h2d_host).
  split; simpl; try done; try lia.
  - apply Forall_app; split; [done|]. by apply Forall_singleton.
  - intros j y Hj Hm. apply lookup_app_Some in Hj as [Hj|[_ Hj]]; [by eapply Hc|].
    apply list_lookup_singleton_Some in Hj as [_ <-]. unfold src_in; simpl.
    change (r_now (MkRPipe _ _ _ _)) with (r_now p). lia.
  - intros i Hi. rewrite drain_enqueue. unfold run_xfer.
    destruct (drain v) as [h d'] eqn:Hdr. simpl in *. subst h.
    copy_case.
    + assert (i = q + (payload_addr bs i - d)) as Hi'.
      { apply (payload_addr_inj bs); [done|done|lia|lia|]. rewrite Ha by lia. lia. }
      replace (staging_buf e (r_now p) + r_buf_offset p + (payload_addr bs i - d))
        with (staging_buf e (r_now p) + (r_buf_offset p + (payload_addr bs i - d))) by lia.
      rewrite Hn by lia. f_equal. lia.
    + apply Hd. destruct (decide (i < q)); [lia|]. exfalso. apply Hin.
      pose proof (Ha (i - q) ltac:(lia)) as Hai. replace (q + (i - q)) with i in Hai by lia. lia.
  - intros a Hnot. rewrite drain_enqueue. unfold run_xfer.
    destruct (drain v) as [h d'] eqn:Hdr. simpl in *. copy_case; [|by apply Hr].
    exfalso. apply (Hnot (q + (a - d))); [lia|]. rewrite Ha by lia. lia.
Qed.

(** After the event, what is pending reads the current buffer: the other one can
    be loaded. *)
Lemma load_inv_load q p v h' :
  load_inv q p v → g_mark v = O →
  (∀ a, h' a = g_host v a ∨ (staging_buf e (r_next p) ≤ a < staging_buf e (r_next p) + STAGING_BUF_SIZE)) →
  (∀ i, 0 ≤ i < payload_size bs → h' (tmp_buf e + payload_base + i) = D i) →
  load_inv q p (set_host h' v).
Proof.
  intros I Hm Hh Hdump'. pose proof I as [? Hbo ? ? ? Hdump Hn Hqu Hc Hd Hr].
  assert (Hsame : ∀ o, 0 ≤ o < STAGING_BUF_SIZE →
    h' (staging_buf e (r_now p) + o) = g_host v (staging_buf e (r_now p) + o)).
  { intros o Ho. destruct (Hh (staging_buf e (r_now p) + o)) as [?|Hr']; [done|]. exfalso.
    rewrite r_next_now in Hr'. unfold staging_buf in Hr'. rewrite STAGING_BUF_SIZE_eq in *.
    destruct (r_now_01 p) as [He|He]; rewrite He in Hr'; lia. }
  assert (Hext : ∀ a, (drain (set_host h' v)).2 a = (drain v).2 a).
  { intros a. unfold drain; simpl. apply run_h2d_ext; [done| |done].
    intros x b Hx Hb. apply list_elem_of_lookup in Hx as [j Hj].
    pose proof (Hc j x Hj ltac:(lia)) as Hs. unfold src_in in Hs.
    replace b with (staging_buf e (r_now p) + (b - staging_buf e (r_now p))) by lia.
    apply Hsame. lia. }
  split; try done.
  - intros i Hi Hi'. simpl. rewrite Hsame by done. by apply Hn.
  - intros i Hi. rewrite Hext. by apply Hd.
  - intros a Ha. rewrite Hext. by apply Hr.
Qed.

(** Switching to the buffer just loaded. *)
Lemma load_inv_switch q p v :
  load_inv q p v → r_buf_offset p = STAGING_BUF_SIZE →
  (∀ i, 0 ≤ i < STAGING_BUF_SIZE → (r_current_buf p + 1) * STAGING_BUF_SIZE + i < payload_size bs →
    g_host v (staging_buf e (r_next p) + i) = D ((r_current_buf p + 1) * STAGING_BUF_SIZE + i)) →
  load_inv q (MkRPipe (r_current_buf p + 1) 0 (src_offset p + STAGING_BUF_SIZE) (r_tot_size p))
    (mark_all v).
Proof.
  intros I Hbo Hnext. pose proof I as [? ? ? ? ? Hdump Hn Hqu Hc Hd Hr].
  pose proof STAGING_BUF_SIZE_eq. split; simpl; try done; try lia.
  intros j x Hj Hm. apply lookup_lt_Some in Hj. lia.
Qed.

(** [memcpy_multi] from the dump into a staging buffer. *)
Lemma memcpy_staging h i n off a :
  i = 0 ∨ i = 1 → 0 ≤ n ≤ STAGING_BUF_SIZE → 0 ≤ off → off + n ≤ SHM_SIZE (shm_size_gb e) →
  memcpy_multi h (staging_buf e i) (tmp_buf e + off) n a =
  copy h (staging_buf e i) h (tmp_buf e + off) n a.
Proof.
  intros Hi Hn Hoff Hend. rewrite STAGING_BUF_SIZE_eq in Hn. apply memcpy_multi_spec; [lia|].
  pose proof (eo_disjoint e Henv) as Hd.
  unfold disjoint_ranges, staging_buf, STAGING_BUF_NUM in *. rewrite STAGING_BUF_SIZE_eq in *.
  destruct Hi as [-> | ->]; lia.
Qed.

(** What a load leaves in host memory: buffer [b] holds its part of the payload
    and everything else is as before. *)
Lemma load_host h b cb :
  b = 0 ∨ b = 1 → 0 ≤ cb → cb * STAGING_BUF_SIZE ≤ payload_size bs →
  (∀ i, 0 ≤ i < payload_size bs → h (tmp_buf e + payload_base + i) = D i) →
  let h' := memcpy_multi h (staging_buf e b) (tmp_buf e + (payload_base + cb * STAGING_BUF_SIZE))
              (Z.min (payload_size bs - cb * STAGING_BUF_SIZE) STAGING_BUF_SIZE) in
  (∀ a, h' a = h a ∨ staging_buf e b ≤ a < staging_buf e b + STAGING_BUF_SIZE) ∧
  (∀ i, 0 ≤ i < payload_size bs → h' (tmp_buf e + payload_base + i) = D i) ∧
  (∀ i, 0 ≤ i < STAGING_BUF_SIZE → cb * STAGING_BUF_SIZE + i < payload_size bs →
    h' (staging_buf e b + i) = D (cb * STAGING_BUF_SIZE + i)).
Proof.
  intros Hb Hcb Hle Hdump h'. pose proof STAGING_BUF_SIZE_eq as Hstg.
  pose proof payload_base_eq as Hbase.
  assert (Hh : ∀ a, h' a = copy h (staging_buf e b) h
            (tmp_buf e + (payload_base + cb * STAGING_BUF_SIZE))
            (Z.min (payload_size bs - cb * STAGING_BUF_SIZE) STAGING_BUF_SIZE) a).
  { intros a. apply memcpy_staging; [done|lia..]. }
  split; [|split].
  - intros a. rewrite Hh. copy_case; [right; lia|by left].
  - intros i Hi. rewrite Hh. copy_case; [|by apply Hdump].
    exfalso. apply (staging_not_dump e Henv b (tmp_buf e + payload_base + i - staging_buf e b)
                      (payload_base + i)); [done|lia|lia|lia].
  - intros i Hi Hi'. rewrite Hh, copy_in by lia. rewrite <- Hdump by lia. f_equal. lia.
Qed.
End LoadInv.

(** ** The copy loop *)

Section Load.
Context {W : Type} `{GPULaws W} (e : env) (Henv : env_ok e).
Context (bs : list (Z * Z)) (D dev1 : mem) (am bk : gmap Z Z) (fr : Z) (f0 : shared_mem_fs).
Context (Hfits : fits e bs) (Hf0 : fs_ok bs f0) (Hdisj : blocks_disjoint bs).
Context (clamp : Z → Z → Z) (full : bool).
Let aligned (x : Z) : Prop := full = true → x mod VMM_GRANULE_SIZE = 0.
Context (Hclamp : ∀ d len, 0 < len → aligned d → aligned len →
  0 < clamp d len ≤ len ∧ granule_shape d (clamp d len) ∧ aligned (clamp d len) ∧
  (clamp d len = len ∨ (d + clamp d len) mod VMM_GRANULE_SIZE = 0)).
Context (Hbs : ∀ p s, (p, s) ∈ bs → 0 ≤ s ∧ aligned p ∧ aligned s ∧
  ∃ ext, bk !! p = Some ext ∧ s ≤ ext).

Local Lemma Hnn' : sizes_nonneg bs.
Proof. intros p s Hin. by destruct (Hbs p s Hin). Qed.

Local Lemma pre_nonneg' pre post : bs = pre ++ post → sizes_nonneg pre ∧ sizes_nonneg post.
Proof.
  pose proof Hnn' as Hn. intros ->.
  split; intros p s Hin; apply (Hn p s), elem_of_app; [by left|by right].
Qed.

Record rinv (q : Z) (p : rpipe) (s : vstate W) : Prop := {
  rr_wf : gpu_wf (vgpu s);
  rr_am : g_alloc (gpu_view (vgpu s)) = am;
  rr_bk : g_backed (gpu_view (vgpu s)) = bk;
  rr_fr : g_free (gpu_view (vgpu s)) = fr;
  rr_load : load_inv e bs D dev1 q p (gpu_view (vgpu s));
  rr_fs : fs s = f0;
  rr_locks : fs_mutex s = false
}.

Lemma rinv_gpu q p s q' p' w' :
  rinv q p s → gpu_wf w' → load_inv e bs D dev1 q' p' (gpu_view w') →
  g_alloc (gpu_view w') = g_alloc (gpu_view (vgpu s)) →
  g_backed (gpu_view w') = g_backed (gpu_view (vgpu s)) →
  g_free (gpu_view w') = g_free (gpu_view (vgpu s)) →
  rinv q' p' (with_gpu w' s).
Proof. intros [] ? ? ? ? ?. split; simpl; try done; congruence. Qed.

Lemma or_exit_wp (m : M W Z) P (Q : unit → vstate W → Prop) s :
  gpu_wf (vgpu s) → succeeds m (vgpu s) P →
  (∀ w', gpu_wf w' → P (gpu_view w') → Q tt (with_gpu w' s)) → wp (or_exit m) Q s.
Proof.
  intros Hwf Hs HQ. apply wp_bind. eapply gpu_do_wp; [done..|]. intros w' Hw' HP.
  rewrite bool_decide_eq_true_2 by done. apply wp_ret. by apply HQ.
Qed.

(** The size of a load never wraps: the payload ends at [current_offset]. *)
Lemma load_size cb : 0 ≤ cb → cb * STAGING_BUF_SIZE ≤ payload_size bs →
  Z.min (wrap64 (current_offset f0 - (payload_base + cb * STAGING_BUF_SIZE))) STAGING_BUF_SIZE =
  Z.min (payload_size bs - cb * STAGING_BUF_SIZE) STAGING_BUF_SIZE.
Proof.
  intros Hcb Hle. rewrite (fo_off _ _ Hf0).
  pose proof (ft_size _ _ Hfits) as Hsz. pose proof (eo_gb _ Henv) as Hgb.
  rewrite SHM_SIZE_eq in Hsz by done. rewrite payload_base_eq, STAGING_BUF_SIZE_eq in *.
  rewrite wrap64_small; [lia|]. change (2 ^ 30) with 1073741824 in *. lia.
Qed.

Lemma next_buf_wp q p (Q : rpipe → vstate W → Prop) s :
  rinv q p s → r_buf_offset p = STAGING_BUF_SIZE →
  (∀ s' p', rinv q p' s' → r_buf_offset p' = 0 → r_tot_size p' = r_tot_size p → Q p' s') →
  wp (next_buf e p) Q s.
Proof.
  intros I Hbo HQ. unfold next_buf. apply wp_bind, wp_assert; [by apply Z.eqb_eq|].
  apply wp_bind. eapply gpu_do_wp; [apply I|apply synchronizeEvent_law|].
  intros w1 Hw1 (k & Hk & Hv1).
  assert (I1 : rinv q p (with_gpu w1 s)).
  { eapply rinv_gpu; rewrite ?Hv1; try done. apply load_inv_progress. apply I. }
  pose proof (rr_load _ _ _ I1) as [Hcb _ Hq Hqb Hsrc Hdump _ _ _ _ _]. simpl in Hdump.
  pose proof STAGING_BUF_SIZE_eq as Hstg.
  unfold load_buf. apply wp_bind, wp_bind, wp_get, host_copy_wp. simpl fs.
  rewrite (rr_fs _ _ _ I), Hsrc.
  replace (payload_base + r_current_buf p * STAGING_BUF_SIZE + STAGING_BUF_SIZE)
    with (payload_base + (r_current_buf p + 1) * STAGING_BUF_SIZE) by lia.
  rewrite load_size by lia.
  assert (Hn01 : r_next p = 0 ∨ r_next p = 1).
  { rewrite r_next_now. destruct (r_now_01 p); lia. }
  destruct (load_host e Henv bs D (ft_size _ _ Hfits) (g_host (gpu_view w1)) (r_next p)
              (r_current_buf p + 1)) as (Hh1 & Hh2 & Hh3); [done|lia|lia|done|].
  apply wp_bind. eapply gpu_do_wp; [by apply store_host_wf|apply recordEvent_law|].
  intros w3 Hw3 [k3 Hv3]. simpl in Hv3. rewrite store_host_law in Hv3. apply wp_ret. apply HQ; [|done|done].
  eapply (rinv_gpu _ _ s _ _ _ I); [done|..]; rewrite Hv3; try done; [|by rewrite Hv1..].
  apply load_inv_progress.
  assert (Hp : MkRPipe (r_current_buf p + 1) 0 (payload_base + (r_current_buf p + 1) * STAGING_BUF_SIZE)
      (r_tot_size p) = MkRPipe (r_current_buf p + 1) 0 (src_offset p + STAGING_BUF_SIZE) (r_tot_size p))
    by (f_equal; lia).
  rewrite Hp. apply load_inv_switch; [|done|exact Hh3].
  apply load_inv_load; [apply I1| |done|done]. rewrite Hv1. simpl. lia.
Qed.

Record rloop_inv (pre : list (Z * Z)) (p0 sz : Z) (n : nat) (l : rpipe * Z * Z * Z) (s : vstate W)
    : Prop := {
  rl_pipe : rinv (payload_size pre + (sz - l.2)) l.1.1.1 s;
  rl_bo : r_buf_offset l.1.1.1 < STAGING_BUF_SIZE ∧ aligned (r_buf_offset l.1.1.1);
  rl_d : l.1.1.2 = p0 + (sz - l.2);
  rl_off : l.1.2 = payload_base + payload_size pre + (sz - l.2);
  rl_size : 0 ≤ l.2 ≤ sz;
  rl_al : aligned l.1.1.2 ∧ aligned l.2;
  rl_tot : r_tot_size l.1.1.1 = payload_size pre + sz;
  rl_n : n = rounds_left l.1.1.2 l.2 (r_buf_offset l.1.1.1)
}.

(** One round, at [d] with [size] bytes left. *)
Section Round.
Context (pre : list (Z * Z)) (p0 sz : Z) (post : list (Z * Z)) (Hsplit : bs = pre ++ (p0, sz) :: post).
Context (n : nat) (p : rpipe) (d off size : Z) (s : vstate W).
Context (LI : rloop_inv pre p0 sz n (p, d, off, size) s) (Hgt : 0 < size).
Abbreviation c := (clamp d (Z.min size (STAGING_BUF_SIZE - r_buf_offset p))).

Lemma chunk_ok : (0 < c ≤ Z.min size (STAGING_BUF_SIZE - r_buf_offset p)) ∧ granule_shape d c ∧
  (c = Z.min size (STAGING_BUF_SIZE - r_buf_offset p) ∨ (d + c) mod VMM_GRANULE_SIZE = 0) ∧
  aligned (d + c) ∧ aligned (size - c) ∧ aligned (r_buf_offset p + c).
Proof.
  pose proof LI as [I [Hbo Hboa] Hd Hoff Hsize [Had Hasz] Htot Hn]. simpl in *.
  pose proof (lo_bo _ _ _ _ _ _ _ (rr_load _ _ _ I)) as [Hbo0 _].
  destruct (Hclamp d (Z.min size (STAGING_BUF_SIZE - r_buf_offset p))) as (Hc & Hshape & Hca & Hcor); [lia|done|..].
  { destruct (Z.min_spec size (STAGING_BUF_SIZE - r_buf_offset p)) as [[_ ->]|[_ ->]]; [done|].
    intros Hf. specialize (Hboa Hf). rewrite granule_eq, STAGING_BUF_SIZE_eq in *. Z.div_mod_to_equations; lia. }
  set (k := clamp _ _) in *. split; [done|]. split; [done|]. split; [done|].
  unfold aligned in *. split_and!; intros Hf; specialize (Had Hf); specialize (Hasz Hf); specialize (Hboa Hf);
    specialize (Hca Hf); rewrite granule_eq in *; Z.div_mod_to_equations; lia.
Qed.

(** The pipe and the state after the copy is issued. *)
Lemma chunk_issued j w' : gpu_wf w' →
  gpu_view w' = progress j (enqueue (MkXfer d (staging_buf e (r_now p) + (off - src_offset p)) c HostToDevice) (gpu_view (vgpu s))) →
  rinv (payload_size pre + (sz - (size - c)))
    (MkRPipe (r_current_buf p) (r_buf_offset p + c) (src_offset p) (r_tot_size p)) (with_gpu w' s).
Proof.
  intros Hw' Hv. destruct chunk_ok as (Hc & _). pose proof LI as [I [Hbo Hboa] Hd Hoff Hsize [Had Hasz] Htot Hn]. simpl in *.
  pose proof (rr_load _ _ _ I) as [Hcb [Hbo0 _] Hq _ Hsrc _ _ _ _ _ _]. set (k := clamp _ _) in *.
  eapply rinv_gpu; rewrite ?Hv; try done. apply load_inv_progress.
  replace (payload_size pre + (sz - (size - k))) with (payload_size pre + (sz - size) + k) by lia.
  destruct (pre_nonneg' pre _ Hsplit) as [Hp1 Hp2]. apply sizes_nonneg_cons in Hp2 as [_ Hp2].
  replace (off - src_offset p) with (r_buf_offset p) by lia.
  apply (load_inv_enqueue e bs D dev1 Hnn' Hdisj); [apply I|lia|lia| |].
  - rewrite Hsplit, payload_size_app. change (payload_size ((p0, sz) :: post)) with (sz + payload_size post).
    pose proof (payload_size_nonneg _ Hp2). lia.
  - intros i Hi. rewrite Hsplit.
    rewrite <- Z.add_assoc, payload_addr_at by (done || lia). lia.
Qed.

(** The next round. *)
Lemma chunk_next p' s' : rinv (payload_size pre + (sz - (size - c))) p' s' →
  r_buf_offset p' = (if STAGING_BUF_SIZE <=? r_buf_offset p + c then 0 else r_buf_offset p + c) →
  r_tot_size p' = r_tot_size p →
  ∃ m, (m < n)%nat ∧ rloop_inv pre p0 sz m (p', d + c, off + c, size - c) s'.
Proof.
  intros I' Hbo' Htot'. destruct chunk_ok as (Hc & _ & Hcor & Hal1 & Hal2 & Hal3).
  pose proof LI as [I [Hbo Hboa] Hd Hoff Hsize [Had Hasz] Htot Hn]. simpl in *.
  pose proof (lo_bo _ _ _ _ _ _ _ (rr_load _ _ _ I)) as [Hbo0 _]. set (k := clamp _ _) in *.
  exists (rounds_left (d + k) (size - k) (r_buf_offset p')). split.
  { rewrite Hn, Hbo'. apply rounds_left_step; [lia|lia|lia|]. destruct Hcor as [Hcor|Hcor]; lia. }
  split; simpl; try done; try lia.
  rewrite Hbo'. destruct (Z.leb_spec STAGING_BUF_SIZE (r_buf_offset p + k)); [split; [done|by intros _]|by split].
Qed.
End Round.

Lemma restore_body_wp pre p0 sz post n l s :
  bs = pre ++ (p0, sz) :: post → rloop_inv pre p0 sz n l s →
  wp (restore_body e clamp l)
    (λ r s', match r with
             | inl l' => ∃ m, (m < n)%nat ∧ rloop_inv pre p0 sz m l' s'
             | inr p' => rinv (payload_size (pre ++ [(p0, sz)])) p' s' ∧
                         r_buf_offset p' < STAGING_BUF_SIZE ∧ aligned (r_buf_offset p') ∧
                         r_tot_size p' = payload_size (pre ++ [(p0, sz)])
             end) s.
Proof.
  intros Hsplit LI. destruct l as [[[p d] off] size]. unfold restore_body.
  pose proof LI as [I [Hbo Hboa] Hd Hoff Hsize [Had Hasz] Htot Hn]. simpl in *.
  pose proof (rr_load _ _ _ I) as [Hcb [Hbo0 _] Hq _ Hsrc _ _ _ _ _ _].
  rewrite payload_size_app. change (payload_size [(p0, sz)]) with (sz + 0).
  destruct (Z.leb_spec size 0) as [Hle|Hgt].
  { apply wp_ret. assert (size = 0) as -> by lia.
    replace (sz - 0) with (sz + 0) in I by lia. rewrite Z.add_0_r in *. done. }
  destruct (chunk_ok pre p0 sz n p d off size s LI Hgt) as (Hc & Hshape & _).
  set (c := clamp _ _) in *.
  destruct (Hbs p0 sz) as (_ & _ & _ & ext & Hext & Hszx).
  { rewrite Hsplit. apply elem_of_app. right. left. }
  apply wp_bind, wp_assert; [apply Z.eqb_eq; lia|].
  apply wp_bind. eapply or_exit_wp; [apply I|apply memcpyAsync_law|].
  { split; [done|]. split; [simpl; lia|]. split; [|done].
    exists p0, ext. rewrite (rr_bk _ _ _ I). cbn. split; [done|]. lia. }
  intros w' Hw' [j Hv].
  pose proof (chunk_issued pre p0 sz post Hsplit n p d off size s LI Hgt j w' Hw' Hv) as I'.
  pose proof (chunk_next pre p0 sz n p d off size s LI Hgt) as Hnext. fold c in I', Hnext.
  apply wp_bind. change (r_buf_offset (MkRPipe _ (r_buf_offset p + c) _ _)) with (r_buf_offset p + c).
  destruct (Z.leb_spec STAGING_BUF_SIZE (r_buf_offset p + c)) as [Hfull|Hpart].
  - eapply next_buf_wp; [exact I'|simpl; lia|]. intros s'' p'' I'' Hz Ht. by apply wp_ret, Hnext.
  - by do 2 apply wp_ret; apply Hnext.
Qed.

Lemma fs_lookup pre p0 sz post : bs = pre ++ (p0, sz) :: post →
  files f0 !! length pre = Some (MkFile p0 (payload_base + payload_size pre) sz).
Proof.
  intros Hsplit. rewrite <- (lookup_take_lt _ (length bs)).
  - rewrite (fo_files _ _ Hf0). by eapply files_of_lookup.
  - rewrite Hsplit, length_app. simpl. lia.
Qed.

(** Before the first file: nothing loaded, nothing copied. *)
Record rstart (s : vstate W) : Prop := {
  rs_wf : gpu_wf (vgpu s);
  rs_am : g_alloc (gpu_view (vgpu s)) = am;
  rs_bk : g_backed (gpu_view (vgpu s)) = bk;
  rs_fr : g_free (gpu_view (vgpu s)) = fr;
  rs_queue : g_queue (gpu_view (vgpu s)) = [];
  rs_dump : ∀ i, 0 ≤ i < payload_size bs →
    g_host (gpu_view (vgpu s)) (tmp_buf e + payload_base + i) = D i;
  rs_dev : g_dev (gpu_view (vgpu s)) = dev1;
  rs_fs : fs s = f0;
  rs_locks : fs_mutex s = false
}.

Definition rblock_inv (pre : list (Z * Z)) (p : rpipe) (s : vstate W) : Prop :=
  r_tot_size p = payload_size pre ∧
  match pre with
  | [] => p = MkRPipe 0 0 0 0 ∧ rstart s
  | _ => rinv (payload_size pre) p s ∧ r_buf_offset p < STAGING_BUF_SIZE ∧ aligned (r_buf_offset p)
  end.

(** The first load starts the pipeline. *)
Lemma first_load_wp t (Q : unit → vstate W → Prop) s :
  rstart s → (∀ s', rinv 0 (MkRPipe 0 0 payload_base t) s' → Q tt s') →
  wp (load_buf e 0 payload_base) Q s.
Proof.
  intros [] HQ. unfold load_buf. apply wp_bind, wp_get, host_copy_wp. rewrite rs_fs0.
  pose proof (payload_size_nonneg _ Hnn') as Hps. pose proof STAGING_BUF_SIZE_eq as Hstg.
  pose proof (load_size 0 ltac:(lia) ltac:(lia)) as Hls.
  rewrite Z.mul_0_l, Z.add_0_r in Hls. rewrite Hls.
  destruct (load_host e Henv bs D (ft_size _ _ Hfits) (g_host (gpu_view (vgpu s))) (Z.land 0 1) 0)
    as (Hh1 & Hh2 & Hh3); [by left|lia|lia|done|].
  rewrite Z.mul_0_l, Z.add_0_r in *. apply HQ.
  split; simpl; rewrite ?store_host_law; simpl; try done; [by apply store_host_wf|].
  split; simpl; rewrite ?rs_queue0, ?Z.mul_0_l, ?Z.add_0_r; try done; try lia.
  intros a _. unfold drain; simpl. by rewrite rs_queue0, <- rs_dev0.
Qed.

Lemma restore_file_wp pre p0 sz post p s :
  bs = pre ++ (p0, sz) :: post → rblock_inv pre p s →
  wp (restore_file e clamp p (length pre)) (rblock_inv (pre ++ [(p0, sz)])) s.
Proof.
  intros Hsplit [Htot I]. unfold restore_file, file_at.
  assert (Hfs : fs s = f0) by (destruct pre; [by destruct I as [_ []]|by destruct I as [[] _]]).
  assert (Hin : (p0, sz) ∈ bs) by (rewrite Hsplit; apply elem_of_app; right; left).
  destruct (Hbs p0 sz Hin) as (Hsz & Hpa & Hsa & _).
  apply wp_bind, wp_bind, wp_get. rewrite Hfs, (fs_lookup _ _ _ _ Hsplit). apply wp_ret.
  simpl f_size. simpl f_start_offset. simpl f_ptr. simpl r_tot_size.
  assert (Hloop : ∀ p' s', rinv (payload_size pre) p' s' → r_buf_offset p' < STAGING_BUF_SIZE →
    aligned (r_buf_offset p') → r_tot_size p' = r_tot_size p + sz →
    wp (iter (rounds sz) (restore_body e clamp)
          (p', p0, payload_base + payload_size pre, sz)) (rblock_inv (pre ++ [(p0, sz)])) s').
  { intros p' s' I' Hbo Hboa Ht.
    eapply wp_iter with (n := rounds_left p0 sz (r_buf_offset p')) (I := rloop_inv pre p0 sz).
    - intros n l s1 LI. eapply wp_mono; [by eapply restore_body_wp|].
      intros [l'|p''] s''; [done|]. intros (R & Hb & Ha & Ht'). split; [done|].
      by destruct pre.
    - split; simpl; try done; try lia.
      by rewrite Z.sub_diag, Z.add_0_r.
    - apply rounds_left_bound; [done|].
      pose proof (lo_bo _ _ _ _ _ _ _ (rr_load _ _ _ I')). lia. }
  apply wp_bind. destruct pre as [|b pre].
  - destruct I as [-> I]. rewrite bool_decide_eq_true_2 by done.
    change (payload_size []) with 0 in *. rewrite Z.add_0_r in *.
    apply wp_bind. eapply first_load_wp; [done|]. intros s' I'. apply wp_ret.
    apply Hloop; [exact I'|done|by intros _|done].
  - rewrite bool_decide_eq_false_2 by done. destruct I as ([? ? ? ? L ? ?] & Hb & Ha).
    apply wp_ret. apply Hloop; [|done..]. split; try done. by destruct L.
Qed.
End Load.

(** ** The whole function *)

(** A process whose dump [bs], taken when the device held [dev], can be restored:
    the blocks are allocated, without physical memory, and there is room. *)
Record restorable {W} `{GPU W} (e : env) (bs : list (Z * Z)) (dev : mem) (s : vstate W) : Prop := {
  rt_ready : ready s;
  rt_fits : fits e bs;
  rt_dump : dump_holds e bs dev (fs s) (g_host (gpu_view (vgpu s)));
  rt_blocks : ∀ p sz, (p, sz) ∈ bs → ∃ sz0, g_alloc (gpu_view (vgpu s)) !! p = Some sz0 ∧
    block_ok p sz0 ∧ (sz = sz0 ∨ sz = ROUND_UP_2MB sz0) ∧
    g_backed (gpu_view (vgpu s)) !! p = None;
  rt_nodup : NoDup bs.*1;
  rt_disj : blocks_disjoint bs;
  rt_room : sum_by (λ b, ROUND_UP_2MB b.2) bs ≤ g_free (gpu_view (vgpu s))
}.

Definition reback (bs : list (Z * Z)) (bk : gmap Z Z) : gmap Z Z :=
  foldl (λ m b, <[b.1 := ROUND_UP_2MB b.2]> m) bk bs.

(** [a] is in the physical memory of one of the blocks. *)
Definition in_extents (bs : list (Z * Z)) (a : Z) : Prop :=
  ∃ p sz, (p, sz) ∈ bs ∧ p ≤ a < p + ROUND_UP_2MB sz.

(** After a restore of the blocks [bs] with their contents in [dev]. *)
Record reloaded {W} `{GPU W} (bs : list (Z * Z)) (dev : mem) (s s' : vstate W) : Prop := {
  rd_ready : ready s';
  rd_alloc : g_alloc (gpu_view (vgpu s')) = g_alloc (gpu_view (vgpu s));
  rd_backed : g_backed (gpu_view (vgpu s')) = reback bs (g_backed (gpu_view (vgpu s)));
  rd_free : g_free (gpu_view (vgpu s')) =
            g_free (gpu_view (vgpu s)) - sum_by (λ b, ROUND_UP_2MB b.2) bs;
  rd_data : ∀ p sz a, (p, sz) ∈ bs → p ≤ a < p + sz → g_dev (gpu_view (vgpu s')) a = dev a;
  rd_rest : ∀ a, ¬ in_extents bs a →
            g_dev (gpu_view (vgpu s')) a = g_dev (gpu_view (vgpu s)) a;
  rd_fs : fs s' = fs s
}.

Lemma reback_snoc bs p sz bk : reback (bs ++ [(p, sz)]) bk = <[p := ROUND_UP_2MB sz]> (reback bs bk).
Proof. unfold reback. by rewrite foldl_app. Qed.

Lemma lookup_reback_ne bs bk p : p ∉ bs.*1 → reback bs bk !! p = bk !! p.
Proof.
  induction bs as [|[q n] bs IH] using rev_ind; intros Hp; [done|].
  rewrite fmap_app, elem_of_app in Hp. rewrite reback_snoc, lookup_insert_ne.
  - apply IH. naive_solver.
  - intros ->. apply Hp. right. by left.
Qed.

Lemma lookup_reback bs bk p sz : NoDup bs.*1 → (p, sz) ∈ bs →
  reback bs bk !! p = Some (ROUND_UP_2MB sz).
Proof.
  induction bs as [|[q n] bs IH] using rev_ind; intros Hnd Hin; [by apply elem_of_nil in Hin|].
  rewrite fmap_app in Hnd. apply NoDup_app in Hnd as (Hnd & Hq & _). rewrite reback_snoc.
  apply elem_of_app in Hin as [Hin|Hin%list_elem_of_singleton].
  - rewrite lookup_insert_ne; [by apply IH|]. intros ->.
    apply (Hq p); [by apply (list_elem_of_fmap_2 fst _ (p, sz))|by left].
  - injection Hin as -> ->. by rewrite lookup_insert_eq.
Qed.

(** Every byte of a block is a payload byte. *)
Lemma payload_addr_block bs p sz a : sizes_nonneg bs → (p, sz) ∈ bs → p ≤ a < p + sz →
  ∃ q, 0 ≤ q < payload_size bs ∧ payload_addr bs q = a.
Proof.
  intros Hnn (pre & post & ->)%list_elem_of_split Ha.
  assert (Hpre : sizes_nonneg pre).
  { intros p' s' Hin. apply (Hnn p' s'), elem_of_app. by left. }
  assert (Hpost : sizes_nonneg post).
  { intros p' s' Hin. apply (Hnn p' s'), elem_of_app. right. by right. }
  pose proof (payload_size_nonneg _ Hpre). pose proof (payload_size_nonneg _ Hpost).
  exists (payload_size pre + (a - p)). split.
  - rewrite payload_size_app. change (payload_size ((p, sz) :: post)) with (sz + payload_size post). lia.
  - rewrite payload_addr_at by (done || lia). lia.
Qed.

Lemma payload_addr_in bs q : sizes_nonneg bs → 0 ≤ q < payload_size bs →
  ∃ p sz, (p, sz) ∈ bs ∧ p ≤ payload_addr bs q < p + sz.
Proof.
  intros Hnn Hq. destruct (payload_locate bs q Hnn Hq) as (pre & p & s & post & i & -> & -> & Hi).
  exists p, s. split; [apply elem_of_app; right; left|].
  rewrite payload_addr_at; [lia| |done]. intros p' s' Hin. apply (Hnn p' s'), elem_of_app. by left.
Qed.

(** Loops over the file table, by the blocks it describes. *)
Lemma wp_fold_files {S L} (J : list (Z * Z) → L → S → Prop) (f : L → nat → M S L) bs l s :
  J [] l s →
  (∀ pre p sz post l s, bs = pre ++ (p, sz) :: post → J pre l s →
     wp (f l (length pre)) (J (pre ++ [(p, sz)])) s) →
  wp (foldM f l (seq 0 (length bs))) (J bs) s.
Proof.
  intros H0 Hf. eapply wp_mono.
  { apply (wp_foldM (λ pre l s, J (take (length pre) bs) l s)); [done|].
    intros pre i post l1 s1 Hseq HJ.
    assert (Hi : seq 0 (length bs) !! length pre = Some i) by (rewrite Hseq; by apply list_lookup_middle).
    apply lookup_seq in Hi as [-> Hlt]. simpl.
    destruct (lookup_lt_is_Some_2 bs (length pre) Hlt) as [[p sz] Hb].
    rewrite length_app, Nat.add_1_r, (take_S_r _ _ _ Hb).
    pose proof (Hf (take (length pre) bs) p sz (drop (Datatypes.S (length pre)) bs) l1 s1) as Hw.
    rewrite length_take_le in Hw by lia. apply Hw; [|done]. by rewrite take_drop_middle. }
  intros l' s'. simpl. by rewrite length_seq, firstn_all.
Qed.

Section Whole.
Context {W : Type} `{GPULaws W} (e : env) (Henv : env_ok e).

(** The state while the blocks are remapped. *)
Record map_inv (bs : list (Z * Z)) (s0 : vstate W) (pre : list (Z * Z)) (s : vstate W) : Prop := {
  mi_wf : gpu_wf (vgpu s);
  mi_queue : g_queue (gpu_view (vgpu s)) = [];
  mi_am : g_alloc (gpu_view (vgpu s)) = g_alloc (gpu_view (vgpu s0));
  mi_bk : g_backed (gpu_view (vgpu s)) = reback pre (g_backed (gpu_view (vgpu s0)));
  mi_fr : g_free (gpu_view (vgpu s)) =
          g_free (gpu_view (vgpu s0)) - sum_by (λ b, ROUND_UP_2MB b.2) pre;
  mi_dev : ∀ a, ¬ in_extents pre a → g_dev (gpu_view (vgpu s)) a = g_dev (gpu_view (vgpu s0)) a;
  mi_host : g_host (gpu_view (vgpu s)) = g_host (gpu_view (vgpu s0));
  mi_fs : fs s = fs s0;
  mi_locks : fs_mutex s = false
}.

Lemma remap_file_wp bs dev s0 pre p sz post s :
  restorable e bs dev s0 → bs = pre ++ (p, sz) :: post → map_inv bs s0 pre s →
  wp (remap_file tt (length pre)) (λ _, map_inv bs s0 (pre ++ [(p, sz)])) s.
Proof.
  intros [Hr Hfit [Hfs Hd] Hb Hnd Hdj Hroom] Hsplit [? ? Ham Hbk Hfr Hdev ? Hfs0 ?].
  unfold remap_file, file_at. apply wp_bind, wp_bind, wp_get. rewrite Hfs0.
  rewrite (fs_lookup bs _ Hfs _ _ _ _ Hsplit). apply wp_ret. simpl.
  destruct (Hb p sz) as (sz0 & Hsz0 & Hok & Hsz & Hnone).
  { rewrite Hsplit. apply elem_of_app. right. left. }
  destruct (block_ok_round p sz0 Hok) as (Hrb & _ & Hrr). pose proof Hok as (? & ? & ?).
  assert (Hrnn : ∀ b, b ∈ post → 0 ≤ ROUND_UP_2MB b.2).
  { intros [p' s'] Hin. destruct (Hb p' s') as (z & _ & Hok' & Hor & _).
    { rewrite Hsplit. apply elem_of_app. right. by right. }
    destruct (block_ok_round _ _ Hok') as (? & _ & Hrr'). pose proof Hok' as (? & ? & ?). simpl.
    destruct Hor as [-> | ->]; [lia|rewrite Hrr'; lia]. }
  pose proof (sum_by_nonneg _ _ Hrnn) as Hpn.
  rewrite Hsplit, sum_by_app in Hroom. 
  change (sum_by (λ b : Z * Z, ROUND_UP_2MB b.2) ((p, sz) :: post))
    with (ROUND_UP_2MB sz + sum_by (λ b : Z * Z, ROUND_UP_2MB b.2) post) in Hroom.
  eapply or_exit_wp; [done|eapply (remapPhysicalMemory_law _ p sz0 sz); try done|].
  - by rewrite Ham.
  - rewrite Hbk, lookup_reback_ne; [done|]. rewrite Hsplit, fmap_app in Hnd.
    apply NoDup_app in Hnd as (_ & Hnd & _). intros Hin. apply (Hnd _ Hin). by left.
  - rewrite Hfr. lia.
  - intros w' Hw' (d & Hdo & Hv). split; simpl; rewrite ?Hv; simpl; try done.
    + by rewrite Hbk, reback_snoc.
    + rewrite Hfr, sum_by_app. simpl. lia.
    + intros a Ha. rewrite Hdo.
      * apply Hdev. intros (p' & s' & Hin & Hra). apply Ha. exists p', s'.
        split; [apply elem_of_app; by left|done].
      * intros Hra. apply Ha. exists p, sz. split; [apply elem_of_app; right; by left|done].
Qed.

Lemma restorable_nonneg bs dev s : restorable e bs dev s → sizes_nonneg bs.
Proof.
  intros R p sz Hin. destruct (rt_blocks _ _ _ _ R p sz Hin) as (sz0 & _ & Hok & [-> | ->] & _).
  - destruct Hok; lia.
  - destruct (block_ok_round _ _ Hok). destruct Hok. lia.
Qed.

Lemma mapped_blocks bs dev s0 s (full : bool) p sz :
  restorable e bs dev s0 → map_inv bs s0 bs s →
  (full = true → ∀ p sz, (p, sz) ∈ bs → p mod VMM_GRANULE_SIZE = 0 ∧ sz mod VMM_GRANULE_SIZE = 0) →
  (p, sz) ∈ bs →
  0 ≤ sz ∧ (full = true → p mod VMM_GRANULE_SIZE = 0) ∧ (full = true → sz mod VMM_GRANULE_SIZE = 0) ∧
  ∃ ext, g_backed (gpu_view (vgpu s)) !! p = Some ext ∧ sz ≤ ext.
Proof.
  intros R I Hfull Hin. split; [by eapply restorable_nonneg|].
  split; [intros Hf; by destruct (Hfull Hf p sz Hin)|].
  split; [intros Hf; by destruct (Hfull Hf p sz Hin)|].
  exists (ROUND_UP_2MB sz). rewrite (mi_bk _ _ _ _ I). split.
  - apply lookup_reback; [apply R|done].
  - destruct (rt_blocks _ _ _ _ R p sz Hin) as (sz0 & _ & Hok & Hor & _).
    destruct (block_ok_round p sz0 Hok) as (? & _ & Hrr). destruct Hor as [-> | ->]; lia.
Qed.

(** After the last file: the pending copies finish the blocks. *)
Record all_loaded (bs : list (Z * Z)) (dev : mem) (s1 s5 : vstate W) : Prop := {
  ad_wf : gpu_wf (vgpu s5);
  ad_fs : fs s5 = fs s1;
  ad_lock : fs_mutex s5 = false;
  ad_am : g_alloc (gpu_view (vgpu s5)) = g_alloc (gpu_view (vgpu s1));
  ad_bk : g_backed (gpu_view (vgpu s5)) = g_backed (gpu_view (vgpu s1));
  ad_fr : g_free (gpu_view (vgpu s5)) = g_free (gpu_view (vgpu s1));
  ad_data i : 0 ≤ i < payload_size bs → (drain (gpu_view (vgpu s5))).2 (payload_addr bs i) = dev (payload_addr bs i);
  ad_rest a : (∀ i, 0 ≤ i < payload_size bs → payload_addr bs i ≠ a) →
    (drain (gpu_view (vgpu s5))).2 a = g_dev (gpu_view (vgpu s1)) a
}.

Lemma all_loaded_end bs dev full p s1 s5 :
  rblock_inv e bs (λ i, dev (payload_addr bs i)) (g_dev (gpu_view (vgpu s1))) (g_alloc (gpu_view (vgpu s1)))
    (g_backed (gpu_view (vgpu s1))) (g_free (gpu_view (vgpu s1))) (fs s1) full bs p s5 → all_loaded bs dev s1 s5.
Proof.
  intros [_ I5]. destruct bs as [|b bs'].
  - destruct I5 as [_ []]. split; try done; unfold drain; rewrite rs_queue0; simpl; [|by intros; rewrite <- rs_dev0].
    change (payload_size []) with 0. lia.
  - by destruct I5 as [[? ? ? ? [] ? ?] _].
Qed.

(** The end of [restore_with]. *)
Lemma close_restore_wp bs dev s s1 s5 p :
  restorable e bs dev s → map_inv bs s bs s1 → all_loaded bs dev s1 s5 → r_tot_size p = payload_size bs →
  wp (_ ← gpu_do synchronizeStream; _ ← gpu_do destroyStream; _ ← gpu_do destroyEvent; _ ← unlock_gpu_mem; mret (r_tot_size p))
    (λ t s', t = payload_size bs ∧ reloaded bs dev s s') s5.
Proof.
  intros R I1 A Ht. pose proof (restorable_nonneg _ _ _ R) as Hnn. pose proof I1 as [? Hq1 Ham1 Hbk1 Hfr1 Hdev1 Hh1 Hfs1 ?].
  pose proof (rt_blocks _ _ _ _ R) as Hb. destruct A as [? Hfs5 ? Ham5 Hbk5 Hfr5 Hdata Hrest].
  apply wp_bind. eapply gpu_do_wp; [done|apply synchronizeStream_law|]. intros w6 Hw6 Hv6.
  assert (Hq6 : g_queue (gpu_view w6) = []) by (rewrite Hv6; by apply progress_all).
  assert (Hd6 : g_dev (gpu_view w6) = (drain (gpu_view (vgpu s5))).2).
  { rewrite Hv6. simpl. by rewrite firstn_all. }
  apply wp_bind. eapply gpu_do_wp; [done|by apply destroyStream_law|]. intros w7 Hw7 Hv7.
  apply wp_bind. eapply gpu_do_wp; [done|apply destroyEvent_law; simpl in *; by rewrite Hv7|].
  intros w8 Hw8 Hv8. simpl in *. rewrite Hv7 in Hv8.
  apply wp_bind, wp_modify, wp_ret. split; [done|]. simpl.
  split; simpl; rewrite ?Hv8, ?Hd6; try (rewrite ?Hv6; simpl; congruence).
  - destruct R as [[_ _ Hlen _] _ _ _ _ _ _]. split; simpl; rewrite ?Hv8, ?Hfs5; try done; congruence.
  - intros p' sz a Hin Ha. destruct (payload_addr_block bs p' sz a) as (i & Hi & <-); try done.
    by apply Hdata.
  - intros a Ha. rewrite Hrest; [by apply Hdev1|]. intros i Hi <-. apply Ha.
    destruct (payload_addr_in bs i Hnn Hi) as (p' & sz & Hin & Hr). exists p', sz. split; [done|].
    destruct (Hb p' sz Hin) as (sz0 & _ & Hok & Hor & _).
    destruct (block_ok_round p' sz0 Hok) as (? & _ & Hrr). destruct Hor as [-> | ->]; lia.
Qed.

Lemma restore_with_wp bs dev (full : bool) clamp s :
  restorable e bs dev s →
  (full = true → ∀ p sz, (p, sz) ∈ bs → p mod VMM_GRANULE_SIZE = 0 ∧ sz mod VMM_GRANULE_SIZE = 0) →
  (∀ d len, 0 < len → (full = true → d mod VMM_GRANULE_SIZE = 0) →
     (full = true → len mod VMM_GRANULE_SIZE = 0) →
     0 < clamp d len ≤ len ∧ granule_shape d (clamp d len) ∧
     (full = true → clamp d len mod VMM_GRANULE_SIZE = 0) ∧
     (clamp d len = len ∨ (d + clamp d len) mod VMM_GRANULE_SIZE = 0)) →
  wp (restore_with e clamp) (λ t s', t = payload_size bs ∧ reloaded bs dev s s') s.
Proof.
  intros R Hfull Hclamp. pose proof R as [[Hwf Hq Hlen [Hl1 Hl2]] Hfit [Hfs Hd] Hb Hnd Hdj Hroom].
  unfold restore_with. apply wp_bind, lock_gpu_mem_wp; [done|].
  apply wp_bind, wp_get. simpl. rewrite (fo_num _ _ Hfs), Nat2Z.id.
  apply wp_bind. eapply wp_mono.
  { apply (wp_fold_files (λ pre (_ : unit), map_inv bs s pre)).
    - split; simpl; try done. by rewrite Z.sub_0_r.
    - intros pre p sz post [] s1 Hsplit I. by eapply remap_file_wp. }
  intros [] s1 I1. pose proof I1 as [? Hq1 Ham1 Hbk1 Hfr1 Hdev1 Hh1 Hfs1 ?].
  apply wp_bind. eapply or_exit_wp; [done|by apply createStream_law|]. intros w2 Hw2 Hv2.
  apply wp_bind. eapply or_exit_wp; [done|apply createEvent_law; simpl; by rewrite Hv2|].
  intros w3 Hw3 Hv3. simpl in *.
  apply wp_bind. eapply gpu_do_wp; [done|apply recordEvent_law|]. intros w4 Hw4 [k Hv4].
  simpl in *. rewrite Hv3, Hv2 in Hv4. unfold progress in Hv4. simpl in Hv4.
  rewrite Hq1, take_nil, drop_nil in Hv4. simpl in Hv4.
  apply wp_bind. eapply wp_mono.
  { apply (wp_fold_files (rblock_inv e bs (λ i, dev (payload_addr bs i)) (g_dev (gpu_view (vgpu s1)))
      (g_alloc (gpu_view (vgpu s1))) (g_backed (gpu_view (vgpu s1))) (g_free (gpu_view (vgpu s1)))
      (fs s) full)).
    - split; [done|]. split; [done|]. split; simpl; rewrite ?Hv4; simpl; try done.
      intros i Hi. rewrite Hh1. by apply Hd.
    - intros pre p sz post p0 s5 Hsplit I. eapply (restore_file_wp e Henv bs); try done.
      intros p' sz' Hin. by eapply mapped_blocks. }
  intros p s5 I5. eapply (close_restore_wp bs dev s s1 s5 p R I1); [|apply I5].
  eapply all_loaded_end. by rewrite Hfs1.
Qed.
End Whole.
