(* ===== verification/Driver.v ===== *)
(** The driver below the vendor classes.

    [Driver D] is the part of the CUDA driver and runtime API (and, name for name,
    of HIP) that [nv.cpp] and [amd.cpp] call: virtual memory management, streams
    and events, contexts.  Its code is not part of the repository: it is a
    parameter, and [DriverLaws D] states the documented behaviour the two classes
    rely on, over an abstract view of reservations, mappings and physical
    allocations, each on one of the devices of the machine.  A failing call leaves the view as it was. *)
From S2P Require Import Prelude Common Gpu.
Open Scope Z_scope.

(** A mapping of a physical allocation at an address. *)
Record mapping := MkMap { vm_size : Z; vm_handle : Z; vm_rw : bool }.

(** A physical allocation: its size and the device it is on. *)
Record phys := MkPhys { ph_size : Z; ph_dev : Z }.

Record dview := MkDView {
  dv_host : mem;
  dv_dev : mem;
  dv_queue : list xfer;
  dv_mark : nat;
  dv_reserved : gmap Z Z;         (* address to size *)
  dv_maps : gmap Z mapping;       (* address to mapping *)
  dv_handles : gmap Z phys;       (* live physical allocations *)
  dv_free : gmap Z Z;             (* device to its free physical memory *)
  dv_current : Z                  (* the device of the current context *)
}.

Definition set_vmm (r : gmap Z Z) (m : gmap Z mapping) (h : gmap Z phys) (f : gmap Z Z) (v : dview) : dview :=
  MkDView (dv_host v) (dv_dev v) (dv_queue v) (dv_mark v) r m h f (dv_current v).
Definition set_dmem (d : mem) (v : dview) : dview :=
  MkDView (dv_host v) d (dv_queue v) (dv_mark v) (dv_reserved v) (dv_maps v) (dv_handles v) (dv_free v) (dv_current v).
Definition set_current (c : Z) (v : dview) : dview :=
  MkDView (dv_host v) (dv_dev v) (dv_queue v) (dv_mark v) (dv_reserved v) (dv_maps v) (dv_handles v) (dv_free v) c.

(** Physical memory is taken from the device it is created on, and given back to it. *)
Definition take_from (dev sz : Z) (f : gmap Z Z) : gmap Z Z := alter (λ n, n - sz) dev f.
Definition give_back (h : phys) (f : gmap Z Z) : gmap Z Z := alter (λ n, n + ph_size h) (ph_dev h) f.

(** The accessible mappings. *)
Definition backed_of (m : gmap Z mapping) : gmap Z Z :=
  omap (λ x, if vm_rw x then Some (vm_size x) else None) m.

(** The view of the [GPU] interface for an object that works on device [dev], with the allocation
    table [am]: the free memory is that of [dev]. *)
Definition to_gview (dev : Z) (am : gmap Z Z) (v : dview) : gview :=
  MkView (dv_host v) (dv_dev v) (dv_queue v) (dv_mark v) am (backed_of (dv_maps v)) (default 0 (dv_free v !! dev)).

(** Memories, queue and mark taken from [g], the rest from [v]. *)
Definition put (g : gview) (v : dview) : dview :=
  MkDView (g_host g) (g_dev g) (g_queue g) (g_mark g) (dv_reserved v) (dv_maps v) (dv_handles v)
    (dv_free v) (dv_current v).

Definition drive (f : gview → gview) (v : dview) : dview := put (f (to_gview 0 ∅ v)) v.

Class Driver (D : Type) := {
  drv_view : D → dview;
  drv_store : mem → D → D;                       (* the CPU writes host memory *)
  drv_reliable : Prop;      (* valid requests to map and to set access never fail *)
  memAddressReserve : Z → M D (Z * Z);           (* error and address *)
  memAddressFree : Z → Z → M D Z;
  memCreate : Z → Z → M D (Z * Z);               (* size, device: error and handle *)
  memMap : Z → Z → Z → M D Z;                    (* address size handle *)
  memUnmap : Z → Z → M D Z;
  memRelease : Z → M D Z;
  memSetAccess : Z → Z → Z → M D Z;              (* address size device *)
  streamCreate : M D Z;
  streamDestroy : M D Z;
  streamSynchronize : M D Z;
  eventCreate : M D Z;
  eventDestroy : M D Z;
  eventRecord : M D Z;
  eventSynchronize : M D Z;
  memcpyAsync_ : Z → Z → Z → GPUMemcpyKind → M D Z;
  deviceSynchronize : M D Z;
  hostRegister : Z → Z → M D Z;
  real_free : Z → M D Z;                         (* the allocator behind the hook *)
  init_ : M D Z;
  ctxGetCurrent : M D (Z * Z);
  ctxGetDevice : M D (Z * Z);
  deviceGet : Z → M D (Z * Z);
  primaryCtxRetain : Z → M D (Z * Z);
  ctxPushCurrent : Z → M D Z;
  ctxPopCurrent : M D (Z * Z)
}.

(** A call that returns an error code: on 0 the effect, otherwise no effect; it
    returns 0 under [cond]. *)
Definition call {D} `{Driver D} (m : M D Z) (d : D) (cond : Prop) (eff : dview → Prop) : Prop :=
  ∃ r d', m d = Ret r d' ∧ (r = 0 → eff (drv_view d')) ∧ (r ≠ 0 → drv_view d' = drv_view d) ∧
          (cond → r = 0).

(** A call that also returns a value. *)
Definition call2 {D} `{Driver D} (m : M D (Z * Z)) (d : D) (cond : Prop) (eff : Z → dview → Prop)
    : Prop :=
  ∃ r x d', m d = Ret (r, x) d' ∧ (r = 0 → eff x (drv_view d')) ∧
            (r ≠ 0 → drv_view d' = drv_view d) ∧ (cond → r = 0).

(** A call that the view does not show. *)
Definition pure_call {D} `{Driver D} {A} (m : M D A) (d : D) : Prop :=
  ∃ r d', m d = Ret r d' ∧ drv_view d' = drv_view d.

(** A call on the context stack: the current device may be another one. *)
Definition ctx_call {D} `{Driver D} {A} (m : M D A) (d : D) : Prop :=
  ∃ r d' c, m d = Ret r d' ∧ drv_view d' = set_current c (drv_view d).

(** The clients that cannot undo a failed mapping need a reliable driver. *)
Class Reliable (D : Type) `{Driver D} := reliable : drv_reliable.

Definition unmapped_handle (v : dview) (h : Z) : Prop :=
  ∀ p m, dv_maps v !! p = Some m → vm_handle m ≠ h.

Class DriverLaws (D : Type) `{Driver D} := {
  drv_store_law : ∀ h d, drv_view (drv_store h d) = put (set_host h (to_gview 0 ∅ (drv_view d))) (drv_view d);
  memAddressReserve_law : ∀ d sz, 0 < sz →
    call2 (memAddressReserve sz) d False (λ p v,
      0 < p ∧ p mod VMM_GRANULE_SIZE = 0 ∧ dv_reserved (drv_view d) !! p = None ∧
      dv_maps (drv_view d) !! p = None ∧
      (∀ q n, dv_reserved (drv_view d) !! q = Some n → disjoint_ranges p sz q n) ∧
      v = set_vmm (<[p := sz]> (dv_reserved (drv_view d))) (dv_maps (drv_view d))
            (dv_handles (drv_view d)) (dv_free (drv_view d)) (drv_view d));
  memAddressFree_law : ∀ d p sz,
    call (memAddressFree p sz) d
      (dv_reserved (drv_view d) !! p = Some sz ∧ dv_maps (drv_view d) !! p = None)
      (λ v, v = set_vmm (delete p (dv_reserved (drv_view d))) (dv_maps (drv_view d))
                  (dv_handles (drv_view d)) (dv_free (drv_view d)) (drv_view d));
  memCreate_law : ∀ d sz dev, 0 < sz →
    call2 (memCreate sz dev) d
      (sz mod VMM_GRANULE_SIZE = 0 ∧ ∃ free, dv_free (drv_view d) !! dev = Some free ∧ sz ≤ free) (λ h v,
      is_Some (dv_free (drv_view d) !! dev) ∧
      dv_handles (drv_view d) !! h = None ∧ unmapped_handle (drv_view d) h ∧
      v = set_vmm (dv_reserved (drv_view d)) (dv_maps (drv_view d))
            (<[h := MkPhys sz dev]> (dv_handles (drv_view d))) (take_from dev sz (dv_free (drv_view d))) (drv_view d));
  memMap_law : ∀ d p sz h,
    call (memMap p sz h) d
      (drv_reliable ∧ dv_reserved (drv_view d) !! p = Some sz ∧ dv_maps (drv_view d) !! p = None ∧
       ph_size <$> dv_handles (drv_view d) !! h = Some sz)
      (λ v, ∃ m, dev_outside p sz (dv_dev (drv_view d)) m ∧ dv_maps (drv_view d) !! p = None ∧
        v = set_dmem m (set_vmm (dv_reserved (drv_view d))
              (<[p := MkMap sz h false]> (dv_maps (drv_view d)))
              (dv_handles (drv_view d)) (dv_free (drv_view d)) (drv_view d)));
  memSetAccess_law : ∀ d p sz dev h b,
    dv_maps (drv_view d) !! p = Some (MkMap sz h b) →
    call (memSetAccess p sz dev) d (drv_reliable ∧ is_Some (dv_free (drv_view d) !! dev))
      (λ v, v = set_vmm (dv_reserved (drv_view d)) (<[p := MkMap sz h true]> (dv_maps (drv_view d)))
                  (dv_handles (drv_view d)) (dv_free (drv_view d)) (drv_view d));
  memUnmap_law : ∀ d p sz h b,
    dv_maps (drv_view d) !! p = Some (MkMap sz h b) → dv_queue (drv_view d) = [] →
    call (memUnmap p sz) d True
      (λ v, ∃ m, dev_outside p sz (dv_dev (drv_view d)) m ∧
        v = set_dmem m (set_vmm (dv_reserved (drv_view d)) (delete p (dv_maps (drv_view d)))
              (dv_handles (drv_view d)) (dv_free (drv_view d)) (drv_view d)));
  memRelease_law : ∀ d h ph, dv_handles (drv_view d) !! h = Some ph → unmapped_handle (drv_view d) h →
    call (memRelease h) d True
      (λ v, v = set_vmm (dv_reserved (drv_view d)) (dv_maps (drv_view d))
                  (delete h (dv_handles (drv_view d))) (give_back ph (dv_free (drv_view d))) (drv_view d));
  streamCreate_law : ∀ d, call streamCreate d True (λ v, v = drv_view d);
  streamDestroy_law : ∀ d, call streamDestroy d (dv_queue (drv_view d) = []) (λ v, v = drv_view d);
  streamSynchronize_law : ∀ d, call streamSynchronize d True
    (λ v, v = drive (progress (length (dv_queue (drv_view d)))) (drv_view d));
  eventCreate_law : ∀ d, call eventCreate d True (λ v, v = drv_view d);
  eventDestroy_law : ∀ d, call eventDestroy d True (λ v, v = drv_view d);
  eventRecord_law : ∀ d, call eventRecord d True
    (λ v, ∃ k, v = drive (λ g, progress k (mark_all g)) (drv_view d));
  eventSynchronize_law : ∀ d, call eventSynchronize d True
    (λ v, ∃ k, (dv_mark (drv_view d) ≤ k)%nat ∧ v = drive (progress k) (drv_view d));
  memcpyAsync__law : ∀ d dst src n k,
    call (memcpyAsync_ dst src n k) d (xfer_ok (to_gview 0 ∅ (drv_view d)) (MkXfer dst src n k))
      (λ v, ∃ j, v = drive (λ g, progress j (enqueue (MkXfer dst src n k) g)) (drv_view d));
  deviceSynchronize_law : ∀ d, call deviceSynchronize d (dv_queue (drv_view d) = [])
    (λ v, v = drive (progress (length (dv_queue (drv_view d)))) (drv_view d));
  hostRegister_law : ∀ d p n, pure_call (hostRegister p n) d;
  real_free_law : ∀ d p, pure_call (real_free p) d;
  init__law : ∀ d, pure_call init_ d;
  ctxGetCurrent_law : ∀ d, pure_call ctxGetCurrent d;
  ctxGetDevice_law : ∀ d, ∃ r x d', ctxGetDevice d = Ret (r, x) d' ∧ drv_view d' = drv_view d ∧
    (r = 0 → x = dv_current (drv_view d) ∧ 0 ≤ x);
  deviceGet_law : ∀ d n, ∃ r x d', deviceGet n d = Ret (r, x) d' ∧ drv_view d' = drv_view d ∧ (r = 0 → x = n);
  primaryCtxRetain_law : ∀ d n, pure_call (primaryCtxRetain n) d;
  ctxPushCurrent_law : ∀ d c, ctx_call (ctxPushCurrent c) d;
  ctxPopCurrent_law : ∀ d, ctx_call ctxPopCurrent d
}.

(** ** Facts *)


Lemma lookup_backed_of m p : backed_of m !! p = (x ← m !! p; if vm_rw x then Some (vm_size x) else None).
Proof. unfold backed_of. by rewrite lookup_omap. Qed.

Lemma backed_of_delete m p : backed_of (delete p m) = delete p (backed_of m).
Proof. unfold backed_of. by rewrite omap_delete. Qed.

Lemma backed_of_insert m p sz h : backed_of (<[p := MkMap sz h true]> m) = <[p := sz]> (backed_of m).
Proof. unfold backed_of. by apply omap_insert_Some. Qed.

Lemma put_to_gview dev am v : put (to_gview dev am v) v = v.
Proof. by destruct v. Qed.

(** Driver effects that act on memories and the queue, seen through the [GPU] view. *)
Lemma to_gview_drive dev am f v :
  to_gview dev am (drive f v) =
  MkView (g_host (f (to_gview 0 ∅ v))) (g_dev (f (to_gview 0 ∅ v))) (g_queue (f (to_gview 0 ∅ v)))
    (g_mark (f (to_gview 0 ∅ v))) am (backed_of (dv_maps v)) (default 0 (dv_free v !! dev)).
Proof. done. Qed.

(** The pools of the devices. *)
Lemma give_take sz dev f : give_back (MkPhys sz dev) (take_from dev sz f) = f.
Proof.
  unfold give_back, take_from. cbn. apply map_eq. intros i. destruct (decide (dev = i)) as [<-|Hne].
  - rewrite !lookup_alter_eq. destruct (f !! dev); [|done]. cbn. f_equal. lia.
  - by rewrite !lookup_alter_ne.
Qed.
Lemma take_from_free dev sz f : is_Some (f !! dev) →
  default 0 (take_from dev sz f !! dev) = default 0 (f !! dev) - sz ∧ is_Some (take_from dev sz f !! dev).
Proof. intros [n Hn]. unfold take_from. rewrite lookup_alter_eq, Hn. by split; [|eexists]. Qed.
Lemma give_back_free sz dev f : is_Some (f !! dev) →
  default 0 (give_back (MkPhys sz dev) f !! dev) = default 0 (f !! dev) + sz ∧ is_Some (give_back (MkPhys sz dev) f !! dev).
Proof. intros [n Hn]. unfold give_back. cbn. rewrite lookup_alter_eq, Hn. by split; [|eexists]. Qed.
(** A device with room for something exists. *)
Lemma room_exists dev sz (f : gmap Z Z) : 0 < sz ≤ default 0 (f !! dev) → ∃ free, f !! dev = Some free ∧ sz ≤ free.
Proof. destruct (f !! dev) as [n|]; cbn; [intros ?; exists n; split; [done|lia]|lia]. Qed.

(** A successful call. *)
Lemma call_wp {D} `{Driver D} (m : M D Z) d (cond : Prop) eff :
  call m d cond eff → cond → wp m (λ r d', r = 0 ∧ eff (drv_view d')) d.
Proof. intros (r & d' & Hm & He & _ & Hc) HC. eapply wp_intro; [done|]. specialize (Hc HC). auto. Qed.
