(* ===== verification/Vmm.v ===== *)
(** One block of device memory in the driver.

    Both vendor hooks take a block in four steps, undone in reverse order when one fails,
    and give it back in three.  The steps are the same calls, under the names of the two
    drivers, in [cudaMalloc]/[cudaFree] of [nv.cpp] and [hipMalloc]/[hipFree] of [amd.cpp]. *)
From S2P Require Import Prelude Common Gpu Driver.
Open Scope Z_scope.

Section Vmm.
Context {D : Type} `{Driver D}.

(** Reserve, create, map, set access: the error of the failed step, or the address
    and the physical allocation. *)
Definition vmm_block (aligned_size device : Z) : M D (Z + Z * Z) :=
  va ← memAddressReserve aligned_size;
  if bool_decide (va.1 ≠ 0) then mret (inl va.1) else
  h ← memCreate aligned_size device;
  if bool_decide (h.1 ≠ 0) then
    _ ← memAddressFree va.2 aligned_size;
    mret (inl h.1)
  else
  res ← memMap va.2 aligned_size h.2;
  if bool_decide (res ≠ 0) then
    _ ← memRelease h.2;
    _ ← memAddressFree va.2 aligned_size;
    mret (inl res)
  else
  res ← memSetAccess va.2 aligned_size device;
  if bool_decide (res ≠ 0) then
    _ ← memUnmap va.2 aligned_size;
    _ ← memRelease h.2;
    _ ← memAddressFree va.2 aligned_size;
    mret (inl res)
  else mret (inr (va.2, h.2)).

(** Unmap, release, free the addresses; the results are not looked at. *)
Definition vmm_drop (ptr aligned_size handle : Z) : M D unit :=
  _ ← memUnmap ptr aligned_size;
  _ ← memRelease handle;
  _ ← memAddressFree ptr aligned_size;
  mret tt.
End Vmm.

(** ** Rules *)

(** The resources a process holds in the driver. *)
Definition resources (v : dview) : gmap Z Z * gmap Z mapping * gmap Z phys * gmap Z Z :=
  (dv_reserved v, dv_maps v, dv_handles v, dv_free v).

(** Nothing is held that was not held before. *)
Definition none_kept (v v' : dview) : Prop :=
  resources v' = resources v ∧ dv_queue v' = [] ∧ dv_current v' = dv_current v.

(** A new block: reserved, mapped read-write, with a fresh physical allocation on device [dev]. *)
Record new_block (v : dview) (dev sz p h : Z) (v' : dview) : Prop := {
  nb_dev : is_Some (dv_free v !! dev);
  nb_pos : 0 < p ∧ p mod VMM_GRANULE_SIZE = 0;
  nb_fresh : dv_reserved v !! p = None ∧ dv_maps v !! p = None ∧
             dv_handles v !! h = None ∧ unmapped_handle v h;
  nb_disj : ∀ q n, dv_reserved v !! q = Some n → disjoint_ranges p sz q n;
  nb_view : ∃ m, dev_outside p sz (dv_dev v) m ∧
    v' = set_dmem m (set_vmm (<[p := sz]> (dv_reserved v)) (<[p := MkMap sz h true]> (dv_maps v))
           (<[h := MkPhys sz dev]> (dv_handles v)) (take_from dev sz (dv_free v)) v)
}.

(** A block that is held: what the hooks need to give it back. *)
Record held (v : dview) (dev p sz h : Z) : Prop := {
  hd_reserved : dv_reserved v !! p = Some sz;
  hd_mapped : dv_maps v !! p = Some (MkMap sz h true);
  hd_handle : dv_handles v !! h = Some (MkPhys sz dev);
  hd_owned : ∀ q m, dv_maps v !! q = Some m → vm_handle m = h → q = p
}.

(** The view without a block. *)
Definition dropped (v : dview) (dev p sz h : Z) (m : mem) : dview :=
  set_vmm (delete p (dv_reserved v)) (delete p (dv_maps v)) (delete h (dv_handles v))
    (give_back (MkPhys sz dev) (dv_free v)) (set_dmem m v).

Section Rules.
Context {D : Type} `{DriverLaws D}.

(** Both outcomes of a call. *)
Lemma call_cases (m : M D Z) (d : D) cond eff (Q : Z → D → Prop) :
  call m d cond eff →
  (∀ d', eff (drv_view d') → Q 0 d') →
  (∀ r d', r ≠ 0 → ¬ cond → drv_view d' = drv_view d → Q r d') → wp m Q d.
Proof.
  intros (r & d' & Hm & He & Hne & Hc) HQ0 HQ1. eapply wp_intro; [exact Hm|].
  destruct (decide (r = 0)) as [->|Hr]; [by apply HQ0, He|].
  apply HQ1; [done| |by apply Hne]. intros HC. by apply Hr, Hc.
Qed.

Lemma call2_cases (m : M D (Z * Z)) (d : D) cond eff (Q : Z * Z → D → Prop) :
  call2 m d cond eff →
  (∀ x d', eff x (drv_view d') → Q (0, x) d') →
  (∀ r x d', r ≠ 0 → drv_view d' = drv_view d → Q (r, x) d') → wp m Q d.
Proof.
  intros (r & x & d' & Hm & He & Hne & Hc) HQ0 HQ1. eapply wp_intro; [exact Hm|].
  destruct (decide (r = 0)) as [->|Hr]; [by apply HQ0, He|]. apply HQ1; [done|by apply Hne].
Qed.

(** A call that can not fail. *)
Lemma call_done (m : M D Z) (d : D) cond eff (Q : Z → D → Prop) :
  call m d cond eff → cond → (∀ d', eff (drv_view d') → Q 0 d') → wp m Q d.
Proof. intros Hc HC HQ. eapply wp_mono; [by eapply call_wp|]. intros r d' [-> He]. by apply HQ. Qed.

(** The undo steps: the physical allocation, then the reservation. *)
Lemma undo_create_wp {A} (v : dview) (d : D) dev sz p h m (k : M D A) (Q : A → D → Prop) :
  dv_queue v = [] → dv_reserved v !! p = None → dv_maps v !! p = None →
  dv_handles v !! h = None → unmapped_handle v h →
  drv_view d = set_dmem m (set_vmm (<[p := sz]> (dv_reserved v)) (dv_maps v)
                 (<[h := MkPhys sz dev]> (dv_handles v)) (take_from dev sz (dv_free v)) v) →
  (∀ d', none_kept v (drv_view d') → wp k Q d') →
  wp (_ ← memRelease h; _ ← memAddressFree p sz; k) Q d.
Proof.
  intros Hq Hp Hmp Hh Hun Hv HQ. apply wp_bind. eapply call_done; [eapply (memRelease_law _ h (MkPhys sz dev))|done|].
  { rewrite Hv. simpl. apply lookup_insert_eq. }
  { intros q mq. rewrite Hv. apply Hun. }
  intros d1 Hv1. rewrite Hv in Hv1. simpl in Hv1. rewrite delete_insert_id, give_take in Hv1 by done.
  apply wp_bind. eapply call_done; [apply memAddressFree_law| |].
  { rewrite Hv1. simpl. by rewrite lookup_insert_eq. }
  intros d2 Hv2. rewrite Hv1 in Hv2. apply HQ. unfold none_kept, resources. rewrite Hv2. simpl.
  by rewrite delete_insert_id.
Qed.

(** Either everything succeeded, or everything was given back. *)
Lemma vmm_block_wp (d : D) sz device (Q : Z + Z * Z → D → Prop) :
  0 < sz → dv_queue (drv_view d) = [] →
  (∀ p h d', new_block (drv_view d) device sz p h (drv_view d') → Q (inr (p, h)) d') →
  (∀ err d', err ≠ 0 → none_kept (drv_view d) (drv_view d') → Q (inl err) d') →
  wp (vmm_block sz device) Q d.
Proof.
  intros Hsz Hq HQ HE. unfold vmm_block. apply wp_bind. eapply call2_cases; [by apply memAddressReserve_law| |].
  2: { intros r x d1 Hr Hv. rewrite bool_decide_eq_true_2 by done. apply wp_ret, HE; [done|]. by rewrite Hv. }
  intros p d1 (Hp0 & Hpm & Hpr & Hpmap & Hpd & Hv1).
  rewrite bool_decide_eq_false_2 by (intros Hx; by apply Hx). apply wp_bind.
  eapply call2_cases; [by apply memCreate_law| |].
  2: { intros r x d2 Hr Hv2. rewrite bool_decide_eq_true_2 by done. rewrite Hv1 in Hv2.
       apply wp_bind. eapply call_done; [apply memAddressFree_law| |].
       - rewrite Hv2. simpl. by rewrite lookup_insert_eq.
       - intros d3 Hv3. rewrite Hv2 in Hv3. apply wp_ret, HE; [done|].
         unfold none_kept, resources. rewrite Hv3. simpl. by rewrite delete_insert_id. }
  intros h d2 (Hpool & Hfresh & Hun & Hv2). rewrite Hv1 in Hpool, Hfresh, Hun, Hv2. simpl in Hpool, Hfresh, Hv2.
  rewrite bool_decide_eq_false_2 by (intros Hx; by apply Hx). apply wp_bind. eapply call_cases; [apply memMap_law| |].
  2: { intros r d3 Hr _ Hv3. rewrite bool_decide_eq_true_2 by done. rewrite Hv2 in Hv3.
       eapply (undo_create_wp (drv_view d) d3 device sz p h (dv_dev (drv_view d))); try done. intros d4 Hn. by apply wp_ret, HE. }
  intros d3 (m & Hm & _ & Hv3). rewrite Hv2 in Hm, Hv3. simpl in Hm, Hv3.
  rewrite bool_decide_eq_false_2 by (intros Hx; by apply Hx). apply wp_bind.
  eapply call_cases; [eapply memSetAccess_law; rewrite Hv3; simpl; apply lookup_insert_eq| |].
  2: { intros r d4 Hr _ Hv4. rewrite bool_decide_eq_true_2 by done. rewrite Hv3 in Hv4.
       apply wp_bind. eapply call_done; [eapply memUnmap_law| |]; [..|done|].
       - rewrite Hv4. simpl. apply lookup_insert_eq.
       - by rewrite Hv4.
       - intros d5 (m5 & _ & Hv5). rewrite Hv4 in Hv5. simpl in Hv5. rewrite delete_insert_id in Hv5 by done.
         eapply (undo_create_wp (drv_view d) d5 device sz p h m5); try done. intros d6 Hn. by apply wp_ret, HE. }
  intros d4 Hv4. rewrite Hv3 in Hv4. simpl in Hv4. rewrite insert_insert_eq in Hv4.
  rewrite bool_decide_eq_false_2 by (intros Hx; by apply Hx). apply wp_ret, HQ. split; [done..|].
  exists m. split; [done|]. exact Hv4.
Qed.

Lemma vmm_drop_wp (d : D) dev p sz h (Q : unit → D → Prop) :
  held (drv_view d) dev p sz h → dv_queue (drv_view d) = [] →
  (∀ d' m, dev_outside p sz (dv_dev (drv_view d)) m → drv_view d' = dropped (drv_view d) dev p sz h m → Q tt d') →
  wp (vmm_drop p sz h) Q d.
Proof.
  intros [Hr Hmp Hh Ho] Hq HQ. unfold vmm_drop. apply wp_bind. eapply call_done; [by eapply memUnmap_law|done|].
  intros d1 (m1 & Hd1 & Hv1). apply wp_bind. eapply call_done; [eapply (memRelease_law _ h (MkPhys sz dev))|done|].
  { by rewrite Hv1. }
  { intros q mq Hmq He. rewrite Hv1 in Hmq. simpl in Hmq. apply lookup_delete_Some in Hmq as [Hne Hmq].
    apply Hne. symmetry. by eapply Ho. }
  intros d2 Hv2. rewrite Hv1 in Hv2. apply wp_bind. eapply call_done; [apply memAddressFree_law| |].
  { rewrite Hv2. simpl. by rewrite lookup_delete_eq. }
  intros d3 Hv3. rewrite Hv2 in Hv3. apply wp_ret. eapply HQ; [exact Hd1|]. rewrite Hv3. done.
Qed.
End Rules.
