(* ===== verification/Nv.v ===== *)
(** The NVIDIA backend, [src/src/GPUs/NVIDIA/nv.cpp].

    The class [nv] and the [cudaMalloc]/[cudaFree] hooks over the driver interface:
    the allocation tables, the context captured from the application, and every
    early return.  The last section proves that the class implements the [GPU]
    interface ([nv_laws]), the invariant being that the tables describe the
    mappings of the driver. *)
From S2P Require Import Prelude Common Gpu Driver Vmm.
Open Scope Z_scope.

Definition cudaSuccess : Z := 0.
Definition cudaErrorMemoryAllocation : Z := 2.
Definition cudaErrorInitializationError : Z := 3.

(** The global maps of the backend. *)
Record tables := MkTables {
  am : gmap Z Z;            (* allocated_memory *)
  am_type : gmap Z Z;       (* allocated_memory_type: 0=cudaMalloc, 1=VMM *)
  handle_map : gmap Z Z     (* global_handle_map *)
}.

(** The members of the object. *)
Record nv_object := MkObj { device_ : Z; context_ : Z; cuda_initialized_ : bool }.

(** The function-local statics of the [cudaMalloc] hook. *)
Record hook_statics := MkHook { h_device : Z; h_context : Z; cuda_inited : bool }.

Record nv (D : Type) := MkNv {
  drv : D;
  tabs : tables;
  obj : nv_object;
  hook : hook_statics;
  g_pytorch_context : Z     (* 0 is nullptr *)
}.
Arguments MkNv {D}. Arguments drv {D}. Arguments tabs {D}. Arguments obj {D}.
Arguments hook {D}. Arguments g_pytorch_context {D}.

(** The process start-up values. *)
Definition nv_start {D} (d : D) : nv D :=
  MkNv d (MkTables ∅ ∅ ∅) (MkObj (-1) 0 false) (MkHook (-1) 0 false) 0.

Section Nv.
Context {D : Type} `{Driver D}.

Definition set_drv (d : D) (w : nv D) : nv D := MkNv d (tabs w) (obj w) (hook w) (g_pytorch_context w).
Definition set_tabs (t : tables) (w : nv D) : nv D :=
  MkNv (drv w) t (obj w) (hook w) (g_pytorch_context w).
Definition set_obj (o : nv_object) (w : nv D) : nv D :=
  MkNv (drv w) (tabs w) o (hook w) (g_pytorch_context w).
Definition set_hook (h : hook_statics) (w : nv D) : nv D :=
  MkNv (drv w) (tabs w) (obj w) h (g_pytorch_context w).
Definition set_ctx (c : Z) (w : nv D) : nv D := MkNv (drv w) (tabs w) (obj w) (hook w) c.

Definition dcall {A} (m : M D A) : M (nv D) A := zoom drv set_drv m.

(** [CU_CHECK] and [CUDA_CHECK_RET]: exit on an error. *)
Definition cu_check (m : M D Z) : M (nv D) unit :=
  r ← dcall m; if bool_decide (r = 0) then mret tt else exit EXIT_FAILURE.
Definition cu_check2 (m : M D (Z * Z)) : M (nv D) Z :=
  r ← dcall m; if bool_decide (r.1 = 0) then mret r.2 else exit EXIT_FAILURE.

Definition ensureCudaInitialized : M (nv D) unit :=
  o ← get obj;
  if cuda_initialized_ o then mret tt else
  _ ← cu_check init_;
  ctx ← cu_check2 ctxGetCurrent;
  _ ← (if bool_decide (ctx = 0) then
         dev ← cu_check2 (deviceGet 0);
         ctx ← cu_check2 (primaryCtxRetain dev);
         modify (set_obj (MkObj dev ctx (cuda_initialized_ o)))
       else
         dev ← cu_check2 ctxGetDevice;
         modify (set_obj (MkObj dev ctx (cuda_initialized_ o))));
  o ← get obj;
  modify (set_obj (MkObj (device_ o) (context_ o) true)).

(** The synchronisation calls: all exit on an error and return 0. *)
Definition checked (m : M D Z) : M (nv D) Z := _ ← cu_check m; mret 0.

Definition nv_createStream : M (nv D) Z := checked streamCreate.
Definition nv_destroyStream : M (nv D) Z := checked streamDestroy.
Definition nv_createEvent : M (nv D) Z := checked eventCreate.
Definition nv_destroyEvent : M (nv D) Z := checked eventDestroy.
Definition nv_recordEvent : M (nv D) Z := checked eventRecord.
Definition nv_synchronizeEvent : M (nv D) Z := checked eventSynchronize.
Definition nv_memcpyAsync (dst src size : Z) (kind : GPUMemcpyKind) : M (nv D) Z :=
  checked (memcpyAsync_ dst src size kind).
Definition nv_synchronizeStream : M (nv D) Z := checked streamSynchronize.
Definition nv_syncAllKernels : M (nv D) Z := checked deviceSynchronize.

Definition registerHostMemory (ptr size : Z) : M (nv D) Z :=
  _ ← ensureCudaInitialized;
  err ← dcall (hostRegister ptr size);
  if bool_decide (err = cudaSuccess) then mret 0 else mret (-1).

Definition nv_releasePhysicalMemory (ptr : Z) : M (nv D) Z :=
  t ← get tabs;
  match am t !! ptr with
  | None => mret (-1)
  | Some size =>
      let aligned_size := ROUND_UP_2MB size in
      res ← dcall (memUnmap ptr aligned_size);
      if bool_decide (res ≠ 0) then mret (-1) else
      match handle_map t !! ptr with
      | Some h =>
          res ← dcall (memRelease h);
          if bool_decide (res ≠ 0) then mret (-1) else
          _ ← modify (set_tabs (MkTables (am t) (am_type t) (delete ptr (handle_map t))));
          mret 0
      | None => mret 0
      end
  end.

(** The first half of [remapPhysicalMemory]: drop a mapping that is still there. *)
Definition drop_old_mapping (ptr old_size : Z) : M (nv D) Z :=
  t ← get tabs;
  match handle_map t !! ptr with
  | None => mret 0
  | Some h =>
      res ← dcall (memUnmap ptr (ROUND_UP_2MB old_size));
      if bool_decide (res ≠ 0) then mret (-1) else
      res ← dcall (memRelease h);
      if bool_decide (res ≠ 0) then mret (-1) else
      _ ← modify (set_tabs (MkTables (am t) (am_type t) (delete ptr (handle_map t))));
      mret 0
  end.

Definition nv_remapPhysicalMemory (ptr size : Z) : M (nv D) Z :=
  t ← get tabs;
  match am t !! ptr with
  | None => mret (-1)
  | Some old_size =>
      r ← drop_old_mapping ptr old_size;
      if bool_decide (r ≠ 0) then mret (-1) else
      let aligned_size := ROUND_UP_2MB size in
      o ← get obj;
      memHandle ← cu_check2 (memCreate aligned_size (device_ o));
      _ ← cu_check (memMap ptr aligned_size memHandle);
      _ ← cu_check (memSetAccess ptr aligned_size (device_ o));
      t ← get tabs;
      _ ← modify (set_tabs (MkTables (am t) (am_type t) (<[ptr := memHandle]> (handle_map t))));
      mret 0
  end.

(** [pushContext]: the captured context of the application, else our own. *)
Definition pushContext : M (nv D) Z :=
  _ ← ensureCudaInitialized;
  w ← get (λ w, w);
  let target := if bool_decide (g_pytorch_context w ≠ 0) then g_pytorch_context w
                else context_ (obj w) in
  res ← dcall (ctxPushCurrent target);
  mret (if bool_decide (res = 0) then 0 else -1).

Definition popContext : M (nv D) Z :=
  r ← dcall ctxPopCurrent;
  mret (if bool_decide (r.1 = 0) then 0 else -1).

(** ** The [cudaMalloc] hook, under [gpu_mem_mutex] *)

(** The context and device the hook allocates in, found once. *)
Definition hook_device : M (nv D) (Z + Z) :=
  w ← get (λ w, w);
  if bool_decide (h_device (hook w) ≠ -1) then mret (inr (h_device (hook w))) else
  cur ← dcall ctxGetCurrent;
  let context := if bool_decide (cur.1 = 0) then cur.2 else h_context (hook w) in
  _ ← modify (set_hook (MkHook (-1) context (cuda_inited (hook w))));
  if bool_decide (cur.1 = 0 ∧ context ≠ 0) then
    dev ← dcall ctxGetDevice;
    if bool_decide (dev.1 ≠ 0) then mret (inl cudaErrorInitializationError) else
    _ ← modify (λ w, set_ctx context (set_hook (MkHook dev.2 context (cuda_inited (hook w))) w));
    mret (inr dev.2)
  else
    dev ← dcall (deviceGet 0);
    if bool_decide (dev.1 ≠ 0) then mret (inl cudaErrorInitializationError) else
    _ ← modify (λ w, set_hook (MkHook dev.2 context (cuda_inited (hook w))) w);
    ctx ← dcall (primaryCtxRetain dev.2);
    if bool_decide (ctx.1 ≠ 0) then mret (inl cudaErrorInitializationError) else
    _ ← modify (λ w, set_ctx ctx.2 (set_hook (MkHook dev.2 ctx.2 (cuda_inited (hook w))) w));
    mret (inr dev.2).

(** The VMM steps; every error is reported as one. *)
Definition vmm_alloc (aligned_size device : Z) : M (nv D) (Z + Z * Z) :=
  r ← dcall (vmm_block aligned_size device);
  mret (match r with inl _ => inl cudaErrorMemoryAllocation | inr x => inr x end).

(** [if (g_pytorch_context == nullptr && curr_ctx != nullptr) capture it] *)
Definition capture_context : M (nv D) unit :=
  cur ← dcall ctxGetCurrent;
  let curr_ctx := if bool_decide (cur.1 = 0) then cur.2 else 0 in
  w ← get (λ w, w);
  if bool_decide (g_pytorch_context w = 0 ∧ curr_ctx ≠ 0) then modify (set_ctx curr_ctx)
  else mret tt.

(** [cuInit], once per process. *)
Definition hook_init : M (nv D) Z :=
  w ← get (λ w, w);
  if cuda_inited (hook w) then mret 0 else
  res ← dcall init_;
  if bool_decide (res ≠ 0) then mret cudaErrorInitializationError else
  _ ← modify (set_hook (MkHook (h_device (hook w)) (h_context (hook w)) true));
  mret 0.

(** Error code and the pointer stored in [*devPtr] ([None]: not written). *)
Definition cudaMalloc (size : Z) : M (nv D) (Z * option Z) :=
  _ ← capture_context;
  if bool_decide (size = 0) then mret (cudaSuccess, Some 0) else
  let aligned_size := ROUND_UP_2MB size in
  r ← hook_init;
  if bool_decide (r ≠ 0) then mret (r, None) else
  dev ← hook_device;
  match dev with
  | inl err => mret (err, None)
  | inr device =>
      r ← vmm_alloc aligned_size device;
      match r with
      | inl err => mret (err, None)
      | inr (ptr, memHandle) =>
          t ← get tabs;
          _ ← modify (set_tabs (MkTables (<[ptr := size]> (am t)) (<[ptr := 1]> (am_type t))
                (<[ptr := memHandle]> (handle_map t))));
          mret (cudaSuccess, Some ptr)
      end
  end.

Definition cudaFree (ptr : Z) : M (nv D) Z :=
  t ← get tabs;
  match am t !! ptr with
  | None => dcall (real_free ptr)
  | Some size =>
      let aligned_size := ROUND_UP_2MB size in
      _ ← (if bool_decide (am_type t !! ptr = Some 1) then
             _ ← match handle_map t !! ptr with
                 | Some h =>
                     _ ← dcall (vmm_drop ptr aligned_size h);
                     modify (λ w, set_tabs (MkTables (am (tabs w)) (am_type (tabs w))
                               (delete ptr (handle_map (tabs w)))) w)
                 | None => mret tt
                 end;
             modify (λ w, set_tabs (MkTables (am (tabs w)) (delete ptr (am_type (tabs w)))
                       (handle_map (tabs w))) w)
           else mret tt);
      _ ← modify (λ w, set_tabs (MkTables (delete ptr (am (tabs w))) (am_type (tabs w))
                (handle_map (tabs w))) w);
      mret cudaSuccess
  end.
End Nv.

(** ** The invariant: tables and driver agree *)

(** Every tracked block has its physical memory on device [dev]. *)
Record tables_wf (dev : Z) (t : tables) (v : dview) : Prop := {
  tw_handle : ∀ p h, handle_map t !! p = Some h → ∃ sz, am t !! p = Some sz ∧
    dv_maps v !! p = Some (MkMap (ROUND_UP_2MB sz) h true) ∧
    dv_handles v !! h = Some (MkPhys (ROUND_UP_2MB sz) dev) ∧ is_Some (dv_free v !! dev);
  tw_mapped : ∀ p sz, am t !! p = Some sz → is_Some (dv_maps v !! p) → is_Some (handle_map t !! p);
  tw_owned : ∀ p h q m, handle_map t !! p = Some h → dv_maps v !! q = Some m → vm_handle m = h → q = p;
  tw_reserved : ∀ p sz, am t !! p = Some sz → dv_reserved v !! p = Some (ROUND_UP_2MB sz);
  tw_type : ∀ p sz, am t !! p = Some sz → am_type t !! p = Some 1
}.

(** Only reservations, mappings, handles and pools matter. *)
Lemma tables_wf_same dev t v v' :
  dv_reserved v' = dv_reserved v → dv_maps v' = dv_maps v → dv_handles v' = dv_handles v → dv_free v' = dv_free v →
  tables_wf dev t v → tables_wf dev t v'.
Proof. intros Hr Hm Hh Hf []. split; rewrite ?Hr, ?Hm, ?Hh, ?Hf; done. Qed.

(** Dropping the mapping and the handle of [p], in the order of the code. *)
Lemma tables_wf_drop dev t v p h r' f' d' :
  tables_wf dev t v → handle_map t !! p = Some h → r' = dv_reserved v → is_Some (f' !! dev) →
  tables_wf dev (MkTables (am t) (am_type t) (delete p (handle_map t)))
    (set_vmm r' (delete p (dv_maps v)) (delete h (dv_handles v)) f' (set_dmem d' v)).
Proof.
  intros [Hh Hm Ho Hr Ht] Hp -> Hpool. split; simpl; try done.
  - intros q h' Hq. apply lookup_delete_Some in Hq as [Hne Hq].
    destruct (Hh q h' Hq) as (sz & ? & Hmq & ? & _). exists sz. split; [done|].
    rewrite lookup_delete_ne by done. split; [done|]. split; [|done].
    rewrite lookup_delete_ne; [done|]. intros ->. apply Hne. symmetry. by eapply (Ho p h' q); simplify_eq.
  - intros q sz Hq [m Hmq]. apply lookup_delete_Some in Hmq as [Hne Hmq].
    rewrite lookup_delete_ne by done. eapply Hm; [done|by eexists].
  - intros q h' q' m Hq Hmq Hv. apply lookup_delete_Some in Hq as [_ Hq].
    apply lookup_delete_Some in Hmq as [_ Hmq]. by eapply Ho.
Qed.

(** Adding a mapping with a fresh handle. *)
Lemma tables_wf_add dev t v p sz h f' d' :
  tables_wf dev t v → is_Some (f' !! dev) → am t !! p = Some sz → handle_map t !! p = None →
  dv_handles v !! h = None → unmapped_handle v h →
  tables_wf dev (MkTables (am t) (am_type t) (<[p := h]> (handle_map t)))
    (set_dmem d' (set_vmm (dv_reserved v)
       (<[p := MkMap (ROUND_UP_2MB sz) h true]> (dv_maps v))
       (<[h := MkPhys (ROUND_UP_2MB sz) dev]> (dv_handles v)) f' v)).
Proof.
  intros [Hh Hm Ho Hr Ht] Hpool Hsz Hnone Hfresh Hun. split; simpl; try done.
  - intros q h' Hq. apply lookup_insert_Some in Hq as [[<- <-]|[Hne Hq]].
    + exists sz. split; [done|]. by rewrite !lookup_insert_eq.
    + destruct (Hh q h' Hq) as (sz' & ? & Hmq & Hhq & _). exists sz'. split; [done|].
      rewrite lookup_insert_ne by done. split; [done|]. split; [|done]. rewrite lookup_insert_ne; [done|].
      intros ->. by rewrite Hfresh in Hhq.
  - intros q sz' Hq [m Hmq]. destruct (decide (p = q)) as [<-|Hne].
    + rewrite lookup_insert_eq. by eexists.
    + rewrite lookup_insert_ne in Hmq by done. rewrite lookup_insert_ne by done. eapply Hm; [done|by eexists].
  - intros q h' q' m Hq Hmq Hv.
    apply lookup_insert_Some in Hq as [[<- <-]|[Hne Hq]];
      apply lookup_insert_Some in Hmq as [[<- <-]|[Hne' Hmq]]; try done.
    + exfalso. by eapply Hun.
    + destruct (Hh q h' Hq) as (sz' & _ & Hmq' & _). simpl in Hv. subst h'.
      exfalso. by eapply (Hun q _ Hmq').
    + by eapply Ho.
Qed.

Section NvLaws.
Context {D : Type} `{DriverLaws D}.

(** The object is initialised, and its device is the one the blocks are on. *)
Record nv_wf (w : nv D) : Prop := {
  nw_inited : cuda_initialized_ (obj w) = true;
  nw_tables : tables_wf (device_ (obj w)) (tabs w) (drv_view (drv w))
}.

#[export] Instance nv_gpu : GPU (nv D) := {|
  gpu_view w := to_gview (device_ (obj w)) (am (tabs w)) (drv_view (drv w));
  gpu_wf := nv_wf;
  store_host h w := set_drv (drv_store h (drv w)) w;
  createStream := nv_createStream;
  destroyStream := nv_destroyStream;
  createEvent := nv_createEvent;
  destroyEvent := nv_destroyEvent;
  recordEvent := nv_recordEvent;
  synchronizeEvent := nv_synchronizeEvent;
  synchronizeStream := nv_synchronizeStream;
  syncAllKernels := nv_syncAllKernels;
  memcpyAsync := nv_memcpyAsync;
  releasePhysicalMemory := nv_releasePhysicalMemory;
  remapPhysicalMemory := nv_remapPhysicalMemory
|}.

Lemma dcall_wp (m : M D Z) (w : nv D) cond eff (Q : Z → nv D → Prop) :
  call m (drv w) cond eff → cond →
  (∀ d', eff (drv_view d') → Q 0 (set_drv d' w)) → wp (dcall m) Q w.
Proof.
  intros Hc HC HQ. apply wp_zoom. eapply wp_mono; [by eapply call_wp|].
  intros r d' [-> He]. by apply HQ.
Qed.

Lemma cu_check_wp (m : M D Z) (w : nv D) cond eff (Q : unit → nv D → Prop) :
  call m (drv w) cond eff → cond →
  (∀ d', eff (drv_view d') → Q tt (set_drv d' w)) → wp (cu_check m) Q w.
Proof.
  intros Hc HC HQ. apply wp_bind. eapply dcall_wp; [done..|]. intros d' He.
  rewrite bool_decide_eq_true_2 by done. apply wp_ret. by apply HQ.
Qed.

Lemma cu_check2_wp (m : M D (Z * Z)) (w : nv D) cond eff (Q : Z → nv D → Prop) :
  call2 m (drv w) cond eff → cond →
  (∀ x d', eff x (drv_view d') → Q x (set_drv d' w)) → wp (cu_check2 m) Q w.
Proof.
  intros (r & x & d' & Hm & He & _ & Hc) HC HQ. specialize (Hc HC).
  apply wp_bind, wp_zoom. eapply wp_intro; [exact Hm|]. simpl. subst r.
  rewrite bool_decide_eq_true_2 by done. apply wp_ret. apply HQ. by apply He.
Qed.

(** A method that only makes one checked call. *)
Lemma checked_succeeds (m : M D Z) (w : nv D) cond eff P :
  call m (drv w) cond eff → cond →
  (∀ v, eff v → (nv_wf w → tables_wf (device_ (obj w)) (tabs w) v) ∧ P (to_gview (device_ (obj w)) (am (tabs w)) v)) →
  succeeds (checked m) w P.
Proof.
  intros Hc HC HP Hwf. destruct (wp_elim (checked m)
    (λ r w', r = 0 ∧ nv_wf w' ∧ P (gpu_view w')) w) as (r & w' & Hm & -> & ? & ?).
  - apply wp_bind. eapply cu_check_wp; [done..|]. intros d' He. apply wp_ret.
    destruct (HP _ He) as [Hw Hp]. split; [done|]. split; [split; [apply Hwf|exact (Hw Hwf)]|exact Hp].
  - by exists w'.
Qed.

(** From a total-correctness proof to the form of the laws. *)
Lemma wp_succeeds (m : M (nv D) Z) (w : nv D) P :
  (nv_wf w → wp m (λ r w', r = 0 ∧ nv_wf w' ∧ P (gpu_view w')) w) → succeeds m w P.
Proof. intros Hm Hwf. destruct (wp_elim _ _ _ (Hm Hwf)) as (r & w' & ? & -> & ? & ?). by exists w'. Qed.

Lemma nv_release_ok (w : nv D) p sz :
  g_queue (gpu_view w) = [] → am (tabs w) !! p = Some sz →
  g_backed (gpu_view w) !! p = Some (ROUND_UP_2MB sz) →
  succeeds (nv_releasePhysicalMemory p) w
    (λ v, ∃ d, dev_outside p (ROUND_UP_2MB sz) (g_dev (gpu_view w)) d ∧
               v = set_dev d (set_backed (delete p (g_backed (gpu_view w)))
                     (g_free (gpu_view w) + ROUND_UP_2MB sz) (gpu_view w))).
Proof.
  intros Hq Hsz Hb. apply wp_succeeds. intros Hwf. pose proof Hwf as [Hi [Hh Hm Ho Hr Ht]].
  simpl in Hb. rewrite lookup_backed_of in Hb.
  destruct (dv_maps (drv_view (drv w)) !! p) as [m0|] eqn:Hmp; [|done].
  destruct (Hm p sz Hsz ltac:(by eexists)) as [h Hhp].
  destruct (Hh p h Hhp) as (sz' & Hsz' & Hmp' & Hhs & Hpool).
  assert (sz' = sz) as -> by congruence.
  unfold nv_releasePhysicalMemory. apply wp_bind, wp_get. rewrite Hsz.
  apply wp_bind. eapply dcall_wp; [by eapply memUnmap_law|done|]. intros d1 (m1 & Hd1 & Hv1).
  rewrite bool_decide_eq_false_2 by (intros Hx; by apply Hx). rewrite Hhp.
  apply wp_bind. eapply dcall_wp; [eapply (memRelease_law _ _ (MkPhys (ROUND_UP_2MB sz) (device_ (obj w))))|done|].
  { simpl. by rewrite Hv1. }
  { intros q mq Hmq He. simpl in Hmq. rewrite Hv1 in Hmq. simpl in Hmq.
    apply lookup_delete_Some in Hmq as [Hne Hmq]. apply Hne. symmetry. by eapply Ho. }
  intros d2 Hv2. rewrite bool_decide_eq_false_2 by (intros Hx; by apply Hx).
  apply wp_bind, wp_modify, wp_ret. simpl in Hv2. rewrite Hv1 in Hv2.
  split; [done|]. split.
  - split; [done|]. simpl. rewrite Hv2.
    apply (tables_wf_drop _ (tabs w) (drv_view (drv w)) p h _ _ m1); [apply Hwf|done|done|by apply give_back_free].
  - exists m1. split; [done|]. simpl. rewrite Hv2. unfold to_gview. simpl.
    by rewrite backed_of_delete, (proj1 (give_back_free _ _ _ Hpool)).
Qed.

(** The VMM steps of a remap, on an address that is reserved and not mapped. *)
Lemma nv_remap_ok `{!Reliable D} (w : nv D) p sz0 sz :
  block_ok p sz0 → sz = sz0 ∨ sz = ROUND_UP_2MB sz0 →
  am (tabs w) !! p = Some sz0 → g_backed (gpu_view w) !! p = None →
  ROUND_UP_2MB sz ≤ g_free (gpu_view w) →
  succeeds (nv_remapPhysicalMemory p sz) w
    (λ v, ∃ d, dev_outside p (ROUND_UP_2MB sz) (g_dev (gpu_view w)) d ∧
               v = set_dev d (set_backed (<[p := ROUND_UP_2MB sz]> (g_backed (gpu_view w)))
                     (g_free (gpu_view w) - ROUND_UP_2MB sz) (gpu_view w))).
Proof.
  intros Hok Hor Hsz Hb Hroom. apply wp_succeeds. intros Hwf. pose proof Hwf as [Hi [Hh Hm Ho Hr Ht]].
  destruct (block_ok_round p sz0 Hok) as (Hrb & Hrm & Hrr). pose proof Hok as (? & ? & ?).
  assert (Hrs : ROUND_UP_2MB sz = ROUND_UP_2MB sz0) by (destruct Hor as [-> | ->]; done).
  rewrite Hrs in *. 
  assert (Hnone : handle_map (tabs w) !! p = None).
  { destruct (handle_map (tabs w) !! p) as [h|] eqn:Hp; [|done].
    destruct (Hh p h Hp) as (s' & _ & Hmp & _ & _).
    simpl in Hb. by rewrite lookup_backed_of, Hmp in Hb. }
  assert (Hmnone : dv_maps (drv_view (drv w)) !! p = None).
  { destruct (dv_maps (drv_view (drv w)) !! p) as [m|] eqn:Hp; [|done].
    destruct (Hm p sz0 Hsz ltac:(by eexists)). congruence. }
  unfold nv_remapPhysicalMemory. apply wp_bind, wp_get. rewrite Hsz.
  unfold drop_old_mapping. apply wp_bind, wp_bind, wp_get. rewrite Hnone. apply wp_ret.
  rewrite bool_decide_eq_false_2 by (intros Hx; by apply Hx). apply wp_bind, wp_get. rewrite Hrs.
  apply wp_bind. eapply cu_check2_wp; [apply memCreate_law; lia| |].
  { split; [done|]. apply room_exists. simpl in Hroom. lia. }
  intros h d1 (Hpool & Hfresh & Hun & Hv1).
  apply wp_bind. eapply cu_check_wp; [apply memMap_law| |].
  { simpl. rewrite Hv1. simpl. rewrite lookup_insert_eq. split; [done|]. split; [by apply Hr|done]. }
  intros d2 (m2 & Hd2 & _ & Hv2).
  apply wp_bind. eapply cu_check_wp; [eapply memSetAccess_law| |].
  { simpl. rewrite Hv2. simpl. apply lookup_insert_eq. }
  { simpl. rewrite Hv2. simpl. rewrite Hv1. simpl. split; [done|]. by apply take_from_free. }
  intros d3 Hv3. apply wp_bind, wp_get, wp_bind, wp_modify, wp_ret.
  simpl in Hv3, Hv2, Hd2. rewrite Hv2, Hv1 in Hv3. rewrite Hv1 in Hd2. simpl in Hv3, Hd2.
  rewrite insert_insert_eq in Hv3.
  split; [done|]. split.
  - split; [done|]. simpl. rewrite Hv3.
    apply (tables_wf_add _ (tabs w) (drv_view (drv w)) p sz0 h _ m2); first [done|apply Hwf|by apply take_from_free].
  - exists m2. split; [done|]. simpl. rewrite Hv3. unfold to_gview. simpl.
    by rewrite backed_of_insert, (proj1 (take_from_free _ _ _ Hpool)).
Qed.

(** The class implements the interface. *)
#[export] Instance nv_laws `{!Reliable D} : GPULaws (nv D).
Proof.
  split.
  - intros h w. simpl. rewrite drv_store_law. done.
  - intros h w [Hi Hwf]. split; [done|]. simpl. rewrite drv_store_law.
    by apply (tables_wf_same _ _ (drv_view (drv w))).
  - intros w Hq. eapply checked_succeeds; [apply streamCreate_law|done|]. intros v ->. by split; [intros []|].
  - intros w Hq. eapply checked_succeeds; [apply eventCreate_law|done|]. intros v ->. by split; [intros []|].
  - intros w Hq. eapply checked_succeeds; [apply streamDestroy_law|done|]. intros v ->. by split; [intros []|].
  - intros w Hq. eapply checked_succeeds; [apply eventDestroy_law|done|]. intros v ->. by split; [intros []|].
  - intros w. eapply checked_succeeds; [apply eventRecord_law|done|].
    intros v [k ->]. split; [intros [_ Hwf]; by apply (tables_wf_same _ _ (drv_view (drv w)))|]. by exists k.
  - intros w. eapply checked_succeeds; [apply eventSynchronize_law|done|].
    intros v (k & Hk & ->). split; [intros [_ Hwf]; by apply (tables_wf_same _ _ (drv_view (drv w)))|]. by exists k.
  - intros w. eapply checked_succeeds; [apply streamSynchronize_law|done|].
    intros v ->. split; [intros [_ Hwf]; by apply (tables_wf_same _ _ (drv_view (drv w)))|done].
  - intros w Hq. eapply checked_succeeds; [apply deviceSynchronize_law|done|].
    intros v ->. simpl in Hq. rewrite Hq. split; [intros [_ Hwf]; by apply (tables_wf_same _ _ (drv_view (drv w)))|].
    simpl. rewrite to_gview_drive. unfold progress. simpl. rewrite Hq. simpl. unfold to_gview. by rewrite Hq, Nat.sub_0_r.
  - intros w dst src n k Hok. eapply checked_succeeds; [apply memcpyAsync__law|done|].
    intros v (j & ->). split; [intros [_ Hwf]; by apply (tables_wf_same _ _ (drv_view (drv w)))|]. by exists j.
  - intros w p sz Hq _ Hsz Hb. by apply nv_release_ok.
  - intros w p sz0 sz Hq Hok Hor Hsz Hb Hroom. by apply (nv_remap_ok w p sz0 sz).
Qed.
End NvLaws.
