(* ===== verification/Amd.v ===== *)
(** The AMD backend, [src/src/GPUs/AMD/amd.cpp].

    The class [amd] and the [hipMalloc]/[hipFree] hooks over the same driver
    interface.  It differs from the NVIDIA backend in what it records: the table
    holds the aligned size, a released block keeps its (stale) entry in the handle
    map, errors are returned instead of ending the process, and a block that is
    not tracked is released without an error. *)
From S2P Require Import Prelude Common Gpu Driver Vmm Nv.
Open Scope Z_scope.

Record amd (D : Type) := MkAmd {
  a_drv : D;
  a_tabs : tables;
  a_device : Z;
  hip_initialized_ : bool
}.
Arguments MkAmd {D}. Arguments a_drv {D}. Arguments a_tabs {D}. Arguments a_device {D}.
Arguments hip_initialized_ {D}.

Definition hipSuccess : Z := 0.

Section Amd.
Context {D : Type} `{Driver D}.

Definition set_adrv (d : D) (w : amd D) : amd D := MkAmd d (a_tabs w) (a_device w) (hip_initialized_ w).
Definition set_atabs (t : tables) (w : amd D) : amd D :=
  MkAmd (a_drv w) t (a_device w) (hip_initialized_ w).

Definition hcall {A} (m : M D A) : M (amd D) A := zoom a_drv set_adrv m.

(** [if (err != hipSuccess) return -1; return 0;] *)
Definition returned (m : M D Z) : M (amd D) Z :=
  err ← hcall m; mret (if bool_decide (err = hipSuccess) then 0 else -1).

Definition ensureHipInitialized : M (amd D) unit :=
  w ← get (λ w, w);
  if hip_initialized_ w then mret tt else
  _ ← hcall init_;
  modify (λ w, MkAmd (a_drv w) (a_tabs w) (a_device w) true).

Definition amd_releasePhysicalMemory (ptr : Z) : M (amd D) Z :=
  t ← get a_tabs;
  match am t !! ptr with
  | None => mret 0
  | Some size =>
      match handle_map t !! ptr with
      | None => mret (-1)
      | Some handle =>
          err ← hcall (memUnmap ptr size);
          if bool_decide (err ≠ hipSuccess) then mret (-1) else
          err ← hcall (memRelease handle);
          if bool_decide (err ≠ hipSuccess) then mret (-1) else mret 0
      end
  end.

Definition amd_remapPhysicalMemory (ptr size : Z) : M (amd D) Z :=
  w ← get (λ w, w);
  h ← hcall (memCreate size (a_device w));
  if bool_decide (h.1 ≠ hipSuccess) then mret (-1) else
  err ← hcall (memMap ptr size h.2);
  if bool_decide (err ≠ hipSuccess) then
    _ ← hcall (memRelease h.2);
    mret (-1)
  else
  err ← hcall (memSetAccess ptr size (a_device w));
  if bool_decide (err ≠ hipSuccess) then
    _ ← hcall (memUnmap ptr size);
    _ ← hcall (memRelease h.2);
    mret (-1)
  else
  t ← get a_tabs;
  _ ← modify (set_atabs (MkTables (<[ptr := size]> (am t)) (<[ptr := 1]> (am_type t))
        (<[ptr := h.2]> (handle_map t))));
  mret 0.

Definition amd_createStream : M (amd D) Z := returned streamCreate.
Definition amd_destroyStream : M (amd D) Z := returned streamDestroy.
Definition amd_createEvent : M (amd D) Z := returned eventCreate.
Definition amd_destroyEvent : M (amd D) Z := returned eventDestroy.
Definition amd_recordEvent : M (amd D) Z := returned eventRecord.
Definition amd_synchronizeEvent : M (amd D) Z := returned eventSynchronize.
Definition amd_memcpyAsync (dst src size : Z) (kind : GPUMemcpyKind) : M (amd D) Z :=
  returned (memcpyAsync_ dst src size kind).
Definition amd_synchronizeStream : M (amd D) Z := returned streamSynchronize.
Definition amd_syncAllKernels : M (amd D) Z := returned deviceSynchronize.
Definition amd_registerHostMemory (ptr size : Z) : M (amd D) Z := returned (hostRegister ptr size).

(** ** The hooks *)

Definition hipMalloc (size : Z) : M (amd D) (Z * option Z) :=
  if bool_decide (size = 0) then mret (hipSuccess, Some 0) else
  dev ← hcall ctxGetDevice;
  let device := if bool_decide (dev.1 = hipSuccess) then dev.2 else 0 in
  let aligned_size := ROUND_UP_2MB size in
  r ← hcall (vmm_block aligned_size device);
  match r with
  | inl err => mret (err, None)
  | inr (ptr, memHandle) =>
      t ← get a_tabs;
      _ ← modify (set_atabs (MkTables (<[ptr := aligned_size]> (am t)) (<[ptr := 1]> (am_type t))
            (<[ptr := memHandle]> (handle_map t))));
      mret (hipSuccess, Some ptr)
  end.

Definition hipFree (devPtr : Z) : M (amd D) Z :=
  if bool_decide (devPtr = 0) then mret hipSuccess else
  t ← get a_tabs;
  match am t !! devPtr with
  | Some size =>
      _ ← match handle_map t !! devPtr with
          | Some handle =>
              _ ← hcall (vmm_drop devPtr size handle);
              modify (λ w, set_atabs (MkTables (am (a_tabs w)) (am_type (a_tabs w))
                        (delete devPtr (handle_map (a_tabs w)))) w)
          | None => _ ← hcall (real_free devPtr); mret tt
          end;
      _ ← modify (λ w, set_atabs (MkTables (delete devPtr (am (a_tabs w)))
                (delete devPtr (am_type (a_tabs w))) (handle_map (a_tabs w))) w);
      mret hipSuccess
  | None => hcall (real_free devPtr)
  end.
End Amd.

(** ** The class implements the interface *)

(** A tracked block is reserved with its aligned size; if it is mapped, the handle
    map names its physical allocation on device [dev], mapped nowhere else. *)
Record amd_tables_wf (dev : Z) (t : tables) (v : dview) : Prop := {
  aw_size : ∀ p sz, am t !! p = Some sz → 0 < sz ≤ 2 ^ 62 ∧ sz mod VMM_GRANULE_SIZE = 0;
  aw_reserved : ∀ p sz, am t !! p = Some sz → dv_reserved v !! p = Some sz;
  aw_type : ∀ p sz, am t !! p = Some sz → am_type t !! p = Some 1;
  aw_mapped : ∀ p sz m, am t !! p = Some sz → dv_maps v !! p = Some m →
    ∃ h, handle_map t !! p = Some h ∧ m = MkMap sz h true ∧ dv_handles v !! h = Some (MkPhys sz dev) ∧
         is_Some (dv_free v !! dev) ∧ ∀ q m', dv_maps v !! q = Some m' → vm_handle m' = h → q = p
}.

Section AmdLaws.
Context {D : Type} `{DriverLaws D}.

Definition amd_wf (w : amd D) : Prop := amd_tables_wf (a_device w) (a_tabs w) (drv_view (a_drv w)).

#[export] Instance amd_gpu : GPU (amd D) := {|
  gpu_view w := to_gview (a_device w) (am (a_tabs w)) (drv_view (a_drv w));
  gpu_wf := amd_wf;
  store_host h w := set_adrv (drv_store h (a_drv w)) w;
  createStream := amd_createStream;
  destroyStream := amd_destroyStream;
  createEvent := amd_createEvent;
  destroyEvent := amd_destroyEvent;
  recordEvent := amd_recordEvent;
  synchronizeEvent := amd_synchronizeEvent;
  synchronizeStream := amd_synchronizeStream;
  syncAllKernels := amd_syncAllKernels;
  memcpyAsync := amd_memcpyAsync;
  releasePhysicalMemory := amd_releasePhysicalMemory;
  remapPhysicalMemory := amd_remapPhysicalMemory
|}.

Lemma amd_wf_same dev t v v' :
  dv_reserved v' = dv_reserved v → dv_maps v' = dv_maps v → dv_handles v' = dv_handles v → dv_free v' = dv_free v →
  amd_tables_wf dev t v → amd_tables_wf dev t v'.
Proof. intros Hr Hm Hh Hf []. split; rewrite ?Hr, ?Hm, ?Hh, ?Hf; done. Qed.

Lemma hcall_wp (m : M D Z) (w : amd D) cond eff (Q : Z → amd D → Prop) :
  call m (a_drv w) cond eff → cond →
  (∀ d', eff (drv_view d') → Q 0 (set_adrv d' w)) → wp (hcall m) Q w.
Proof.
  intros Hc HC HQ. apply wp_zoom. eapply wp_mono; [by eapply call_wp|].
  intros r d' [-> He]. by apply HQ.
Qed.

Lemma hcall2_wp (m : M D (Z * Z)) (w : amd D) cond eff (Q : Z * Z → amd D → Prop) :
  call2 m (a_drv w) cond eff → cond →
  (∀ x d', eff x (drv_view d') → Q (0, x) (set_adrv d' w)) → wp (hcall m) Q w.
Proof.
  intros (r & x & d' & Hm & He & _ & Hc) HC HQ. specialize (Hc HC). subst r.
  apply wp_zoom. eapply wp_intro; [exact Hm|]. apply HQ. by apply He.
Qed.

Lemma amd_wp_succeeds (m : M (amd D) Z) (w : amd D) P :
  (amd_wf w → wp m (λ r w', r = 0 ∧ amd_wf w' ∧ P (gpu_view w')) w) → succeeds m w P.
Proof. intros Hm Hwf. destruct (wp_elim _ _ _ (Hm Hwf)) as (r & w' & ? & -> & ? & ?). by exists w'. Qed.

Lemma returned_succeeds (m : M D Z) (w : amd D) cond eff P :
  call m (a_drv w) cond eff → cond →
  (∀ v, eff v → (amd_wf w → amd_tables_wf (a_device w) (a_tabs w) v) ∧ P (to_gview (a_device w) (am (a_tabs w)) v)) →
  succeeds (returned m) w P.
Proof.
  intros Hc HC HP. apply amd_wp_succeeds. intros Hwf. apply wp_bind. eapply hcall_wp; [done..|].
  intros d' He. apply wp_ret. destruct (HP _ He) as [Hw Hp]. split; [done|].
  split; [exact (Hw Hwf)|exact Hp].
Qed.

Lemma amd_round (w : amd D) p sz : amd_wf w → am (a_tabs w) !! p = Some sz → ROUND_UP_2MB sz = sz.
Proof.
  intros Hwf Hp. destruct (aw_size _ _ _ Hwf p sz Hp). apply ROUND_UP_2MB_multiple; [lia|done].
Qed.

Lemma amd_release_ok (w : amd D) p sz :
  g_queue (gpu_view w) = [] → am (a_tabs w) !! p = Some sz →
  g_backed (gpu_view w) !! p = Some (ROUND_UP_2MB sz) →
  succeeds (amd_releasePhysicalMemory p) w
    (λ v, ∃ d, dev_outside p (ROUND_UP_2MB sz) (g_dev (gpu_view w)) d ∧
               v = set_dev d (set_backed (delete p (g_backed (gpu_view w)))
                     (g_free (gpu_view w) + ROUND_UP_2MB sz) (gpu_view w))).
Proof.
  intros Hq Hsz Hb. apply amd_wp_succeeds. intros Hwf. rewrite (amd_round w p sz Hwf Hsz) in *.
  pose proof Hwf as [Hs Hr Ht Hm]. simpl in Hb. rewrite lookup_backed_of in Hb.
  destruct (dv_maps (drv_view (a_drv w)) !! p) as [m0|] eqn:Hmp; [|done].
  destruct (Hm p sz m0 Hsz Hmp) as (h & Hh & -> & Hhs & Hpool & Ho).
  unfold amd_releasePhysicalMemory. apply wp_bind, wp_get. rewrite Hsz, Hh.
  apply wp_bind. eapply hcall_wp; [by eapply memUnmap_law|done|]. intros d1 (m1 & Hd1 & Hv1).
  rewrite bool_decide_eq_false_2 by (intros Hx; by apply Hx).
  apply wp_bind. eapply hcall_wp; [eapply (memRelease_law _ _ (MkPhys sz (a_device w)))|done|].
  { simpl. by rewrite Hv1. }
  { intros q mq Hmq He. simpl in Hmq. rewrite Hv1 in Hmq. simpl in Hmq.
    apply lookup_delete_Some in Hmq as [Hne Hmq]. apply Hne. symmetry. by eapply Ho. }
  intros d2 Hv2. rewrite bool_decide_eq_false_2 by (intros Hx; by apply Hx).
  simpl in Hv2. rewrite Hv1 in Hv2. apply wp_ret. split; [done|]. split.
  - unfold amd_wf. simpl. rewrite Hv2. split; simpl; try done.
    intros q sq mq Hsq Hmq. apply lookup_delete_Some in Hmq as [Hne Hmq].
    destruct (Hm q sq mq Hsq Hmq) as (hq & Hhq & -> & Hhsq & _ & Hoq). exists hq.
    assert (hq ≠ h) as Hneh by (intros ->; apply Hne; by eapply (Hoq p)).
    rewrite lookup_delete_ne by done. split_and!; try done; [by apply give_back_free|].
    intros q' m' Hm' He'. apply lookup_delete_Some in Hm' as [_ Hm']. by eapply Hoq.
  - exists m1. split; [done|]. simpl. rewrite Hv2. unfold to_gview. simpl.
    by rewrite backed_of_delete, (proj1 (give_back_free _ _ _ Hpool)).
Qed.

Lemma amd_remap_ok `{!Reliable D} (w : amd D) p sz0 sz :
  sz = sz0 ∨ sz = ROUND_UP_2MB sz0 →
  am (a_tabs w) !! p = Some sz0 → g_backed (gpu_view w) !! p = None →
  ROUND_UP_2MB sz ≤ g_free (gpu_view w) →
  succeeds (amd_remapPhysicalMemory p sz) w
    (λ v, ∃ d, dev_outside p (ROUND_UP_2MB sz) (g_dev (gpu_view w)) d ∧
               v = set_dev d (set_backed (<[p := ROUND_UP_2MB sz]> (g_backed (gpu_view w)))
                     (g_free (gpu_view w) - ROUND_UP_2MB sz) (gpu_view w))).
Proof.
  intros Hor Hsz Hb Hroom. apply amd_wp_succeeds. intros Hwf. pose proof Hwf as [Hs Hr Ht Hm].
  assert (sz = sz0) as -> by (rewrite (amd_round w p sz0 Hwf Hsz) in Hor; tauto).
  rewrite (amd_round w p sz0 Hwf Hsz) in *. destruct (Hs p sz0 Hsz) as [? Hmod].
  assert (Hmnone : dv_maps (drv_view (a_drv w)) !! p = None).
  { destruct (dv_maps (drv_view (a_drv w)) !! p) as [m|] eqn:Hp; [|done].
    destruct (Hm p sz0 m Hsz Hp) as (h & _ & -> & _).
    simpl in Hb. by rewrite lookup_backed_of, Hp in Hb. }
  unfold amd_remapPhysicalMemory. apply wp_bind, wp_get.
  apply wp_bind. eapply hcall2_wp; [apply memCreate_law; lia| |].
  { split; [done|]. apply room_exists. simpl in Hroom. lia. }
  intros h d1 (Hpool & Hfresh & Hun & Hv1). rewrite bool_decide_eq_false_2 by (intros Hx; by apply Hx).
  apply wp_bind. eapply hcall_wp; [apply memMap_law| |].
  { simpl. rewrite Hv1. simpl. rewrite lookup_insert_eq. split; [done|]. split; [by apply Hr|done]. }
  intros d2 (m2 & Hd2 & _ & Hv2). rewrite bool_decide_eq_false_2 by (intros Hx; by apply Hx).
  apply wp_bind. eapply hcall_wp; [eapply memSetAccess_law| |].
  { simpl. rewrite Hv2. simpl. apply lookup_insert_eq. }
  { simpl. rewrite Hv2. simpl. rewrite Hv1. simpl. split; [done|]. by apply take_from_free. }
  intros d3 Hv3. rewrite bool_decide_eq_false_2 by (intros Hx; by apply Hx).
  apply wp_bind, wp_get, wp_bind, wp_modify, wp_ret.
  simpl in Hv3, Hv2, Hd2. rewrite Hv2, Hv1 in Hv3. rewrite Hv1 in Hd2. simpl in Hv3, Hd2.
  rewrite insert_insert_eq in Hv3.
  split; [done|]. split.
  - unfold amd_wf. simpl. rewrite Hv3. rewrite (insert_id (am (a_tabs w))) by done.
    rewrite (insert_id (am_type (a_tabs w))) by (by eapply Ht). split; simpl; try done.
    intros q sq mq Hsq Hmq. apply lookup_insert_Some in Hmq as [[<- <-]|[Hne Hmq]].
    + assert (sq = sz0) as -> by congruence. exists h. rewrite !lookup_insert_eq. split_and!; try done; [by apply take_from_free|].
      intros q m' Hm' He'. apply lookup_insert_Some in Hm' as [[<- <-]|[_ Hm']]; [done|].
      exfalso. by eapply Hun.
    + destruct (Hm q sq mq Hsq Hmq) as (hq & Hhq & -> & Hhsq & _ & Hoq). exists hq.
      rewrite lookup_insert_ne by done.
      rewrite lookup_insert_ne by (intros ->; by rewrite Hfresh in Hhsq).
      split_and!; try done; [by apply take_from_free|].
      intros q' m' Hm' He'. apply lookup_insert_Some in Hm' as [[<- <-]|[_ Hm']]; [|by eapply Hoq].
      simpl in He'. subst hq. by rewrite Hfresh in Hhsq.
  - exists m2. split; [done|]. simpl. rewrite Hv3. unfold to_gview. simpl.
    by rewrite backed_of_insert, (insert_id (am (a_tabs w))), (proj1 (take_from_free _ _ _ Hpool)).
Qed.

#[export] Instance amd_laws `{!Reliable D} : GPULaws (amd D).
Proof.
  assert (Hsame : ∀ (w : amd D) v, dv_reserved v = dv_reserved (drv_view (a_drv w)) →
    dv_maps v = dv_maps (drv_view (a_drv w)) → dv_handles v = dv_handles (drv_view (a_drv w)) →
    dv_free v = dv_free (drv_view (a_drv w)) → amd_wf w → amd_tables_wf (a_device w) (a_tabs w) v).
  { intros w v ? ? ? ? Hwf. by apply (amd_wf_same _ _ (drv_view (a_drv w))). }
  split.
  - intros h w. simpl. rewrite drv_store_law. done.
  - intros h w Hwf. unfold gpu_wf, amd_gpu, amd_wf. simpl. rewrite drv_store_law. by apply Hsame.
  - intros w Hq. eapply returned_succeeds; [apply streamCreate_law|done|]. by intros v ->.
  - intros w Hq. eapply returned_succeeds; [apply eventCreate_law|done|]. by intros v ->.
  - intros w Hq. eapply returned_succeeds; [apply streamDestroy_law|done|]. by intros v ->.
  - intros w Hq. eapply returned_succeeds; [apply eventDestroy_law|done|]. by intros v ->.
  - intros w. eapply returned_succeeds; [apply eventRecord_law|done|].
    intros v [k ->]. split; [by apply Hsame|]. by exists k.
  - intros w. eapply returned_succeeds; [apply eventSynchronize_law|done|].
    intros v (k & Hk & ->). split; [by apply Hsame|]. by exists k.
  - intros w. eapply returned_succeeds; [apply streamSynchronize_law|done|].
    intros v ->. split; [by apply Hsame|done].
  - intros w Hq. eapply returned_succeeds; [apply deviceSynchronize_law|done|].
    intros v ->. simpl in Hq. rewrite Hq. split; [by apply Hsame|].
    simpl. rewrite to_gview_drive. unfold progress. simpl. rewrite Hq. simpl. unfold to_gview.
    by rewrite Hq, Nat.sub_0_r.
  - intros w dst src n k Hok. eapply returned_succeeds; [apply memcpyAsync__law|done|].
    intros v (j & ->). split; [by apply Hsame|]. by exists j.
  - intros w p sz Hq _ Hsz Hb. by apply amd_release_ok.
  - intros w p sz0 sz Hq _ Hor Hsz Hb Hroom. by apply (amd_remap_ok w p sz0 sz).
Qed.
End AmdLaws.
