(* ===== verification/Sim.v ===== *)
(** A reference driver.

    [sim] is a concrete [Driver]: the state is the abstract view itself, copies are
    executed when something waits for them, addresses and handles are fresh.  It
    satisfies [DriverLaws], which shows the laws can hold, and it is what the
    concrete instances of the theorems run on. *)
From S2P Require Import Prelude Common Gpu Driver.
Open Scope Z_scope.

Definition sim : Type := dview.

(** An address above every reservation and mapping, and an unused handle. *)
Definition fresh_addr (v : dview) : Z :=
  VMM_GRANULE_SIZE *
    (2 + sum_by (λ b, Z.abs b.1 + Z.abs b.2) (map_to_list (dv_reserved v)) / VMM_GRANULE_SIZE
       + sum_by (λ b, Z.abs b.1) (map_to_list (dv_maps v)) / VMM_GRANULE_SIZE).

Definition fresh_handle (v : dview) : Z :=
  1 + sum_by (λ b, Z.abs b.1) (map_to_list (dv_handles v))
    + sum_by (λ b, Z.abs (vm_handle b.2)) (map_to_list (dv_maps v)).

Definition sim_ok (f : dview → dview) : M sim Z := λ v, Ret 0 (f v).
Definition sim_err : M sim Z := λ v, Ret 1 v.

Definition sim_reserve (sz : Z) : M sim (Z * Z) := λ v,
  let p := fresh_addr v in
  Ret (0, p) (set_vmm (<[p := sz]> (dv_reserved v)) (dv_maps v) (dv_handles v) (dv_free v) v).

Definition sim_address_free (p sz : Z) : M sim Z :=
  sim_ok (λ v, set_vmm (delete p (dv_reserved v)) (dv_maps v) (dv_handles v) (dv_free v) v).

Definition sim_create (sz dev : Z) : M sim (Z * Z) := λ v,
  match dv_free v !! dev with
  | Some free =>
      if bool_decide (sz ≤ free) then
        let h := fresh_handle v in
        Ret (0, h) (set_vmm (dv_reserved v) (dv_maps v) (<[h := MkPhys sz dev]> (dv_handles v))
                      (take_from dev sz (dv_free v)) v)
      else Ret (2, 0) v
  | None => Ret (101, 0) v
  end.

Definition sim_map (p sz h : Z) : M sim Z := λ v,
  if bool_decide (dv_maps v !! p = None) then
    Ret 0 (set_vmm (dv_reserved v) (<[p := MkMap sz h false]> (dv_maps v)) (dv_handles v) (dv_free v) v)
  else Ret 1 v.

Definition sim_unmap (p sz : Z) : M sim Z :=
  sim_ok (λ v, set_vmm (dv_reserved v) (delete p (dv_maps v)) (dv_handles v) (dv_free v) v).

Definition sim_release (h : Z) : M sim Z := λ v,
  match dv_handles v !! h with
  | Some ph => Ret 0 (set_vmm (dv_reserved v) (dv_maps v) (delete h (dv_handles v)) (give_back ph (dv_free v)) v)
  | None => Ret 1 v
  end.

Definition sim_set_access (p sz dev : Z) : M sim Z := λ v,
  match dv_maps v !! p with
  | Some m => Ret 0 (set_vmm (dv_reserved v) (<[p := MkMap (vm_size m) (vm_handle m) true]> (dv_maps v))
                       (dv_handles v) (dv_free v) v)
  | None => Ret 1 v
  end.

Definition sim_ctx {A} (a : A) : M sim A := λ v, Ret a v.

#[export] Instance sim_driver : Driver sim := {|
  drv_view v := v;
  drv_store h v := put (set_host h (to_gview 0 ∅ v)) v;
  drv_reliable := True;
  memAddressReserve := sim_reserve;
  memAddressFree := sim_address_free;
  memCreate := sim_create;
  memMap := sim_map;
  memUnmap := sim_unmap;
  memRelease := sim_release;
  memSetAccess := sim_set_access;
  streamCreate := sim_ok (λ v, v);
  streamDestroy := sim_ok (λ v, v);
  streamSynchronize := sim_ok (λ v, drive (progress (length (dv_queue v))) v);
  eventCreate := sim_ok (λ v, v);
  eventDestroy := sim_ok (λ v, v);
  eventRecord := sim_ok (drive (λ g, progress 0 (mark_all g)));
  eventSynchronize := sim_ok (λ v, drive (progress (dv_mark v)) v);
  memcpyAsync_ dst src n k :=
    sim_ok (drive (λ g, progress 0 (enqueue (MkXfer dst src n k) g)));
  deviceSynchronize := sim_ok (λ v, drive (progress (length (dv_queue v))) v);
  hostRegister _ _ := sim_ctx 0;
  real_free _ := sim_ctx 0;
  init_ := sim_ctx 0;
  ctxGetCurrent := sim_ctx (0, 1);
  ctxGetDevice := λ v, Ret (if bool_decide (0 ≤ dv_current v) then (0, dv_current v) else (201, 0)) v;
  deviceGet n := sim_ctx (0, n);
  primaryCtxRetain _ := sim_ctx (0, 1);
  ctxPushCurrent _ := sim_ctx 0;
  ctxPopCurrent := sim_ctx (0, 1)
|}.

(** A machine with one device that has [free] bytes of memory, host memory [h]. *)
Definition sim_start (free : Z) (h dev : mem) : sim := MkDView h dev [] 0 ∅ ∅ ∅ {[0 := free]} 0.

(** A machine with two devices, the second one current. *)
Definition sim_two (free0 free1 : Z) (h dev : mem) : sim := MkDView h dev [] 0 ∅ ∅ ∅ {[0 := free0; 1 := free1]} 1.

Lemma fresh_addr_spec v :
  0 < fresh_addr v ∧ fresh_addr v mod VMM_GRANULE_SIZE = 0 ∧
  (∀ q n, dv_reserved v !! q = Some n → q < fresh_addr v ∧ q + n ≤ fresh_addr v) ∧
  (∀ q m, dv_maps v !! q = Some m → q < fresh_addr v).
Proof.
  unfold fresh_addr. rewrite granule_eq.
  pose proof (sum_by_nonneg (λ b : Z * Z, Z.abs b.1 + Z.abs b.2) (map_to_list (dv_reserved v))
    ltac:(intros; lia)).
  pose proof (sum_by_nonneg (λ b : Z * mapping, Z.abs b.1) (map_to_list (dv_maps v)) ltac:(intros; lia)).
  pose proof (Z.mul_succ_div_gt (sum_by (λ b : Z * Z, Z.abs b.1 + Z.abs b.2) (map_to_list (dv_reserved v)))
    2097152 ltac:(lia)).
  pose proof (Z.mul_succ_div_gt (sum_by (λ b : Z * mapping, Z.abs b.1) (map_to_list (dv_maps v)))
    2097152 ltac:(lia)).
  split; [lia|]. split; [rewrite Z.mul_comm; apply Z.mod_mul; lia|]. split.
  - intros q n Hq%elem_of_map_to_list.
    pose proof (sum_by_ge (λ b : Z * Z, Z.abs b.1 + Z.abs b.2) _ _ ltac:(intros; lia) Hq) as Hs.
    simpl in Hs. lia.
  - intros q m Hq%elem_of_map_to_list.
    pose proof (sum_by_ge (λ b : Z * mapping, Z.abs b.1) _ _ ltac:(intros; lia) Hq) as Hs.
    simpl in Hs. lia.
Qed.

Lemma fresh_handle_spec v : dv_handles v !! fresh_handle v = None ∧ unmapped_handle v (fresh_handle v).
Proof.
  unfold fresh_handle.
  pose proof (sum_by_nonneg (λ b : Z * phys, Z.abs b.1) (map_to_list (dv_handles v)) ltac:(intros; lia)).
  pose proof (sum_by_nonneg (λ b : Z * mapping, Z.abs (vm_handle b.2)) (map_to_list (dv_maps v))
    ltac:(intros; lia)).
  split.
  - apply eq_None_not_Some. intros [n Hn%elem_of_map_to_list].
    pose proof (sum_by_ge (λ b : Z * phys, Z.abs b.1) _ _ ltac:(intros; lia) Hn) as Hs. simpl in Hs. lia.
  - intros q m Hq%elem_of_map_to_list Hh.
    pose proof (sum_by_ge (λ b : Z * mapping, Z.abs (vm_handle b.2)) _ _ ltac:(intros; lia) Hq) as Hs.
    simpl in Hs. lia.
Qed.

Lemma sim_ok_call (f : dview → dview) (v : sim) (cond : Prop) (eff : dview → Prop) :
  eff (f v) → call (sim_ok f) v cond eff.
Proof. intros He. by exists 0, (f v). Qed.

#[export] Instance sim_laws : DriverLaws sim.
Proof.
  split; try done; try (intros; by eapply sim_ok_call); try (intros; by eexists _, _).
  - intros v sz Hsz. exists 0, (fresh_addr v). eexists. split; [done|].
    destruct (fresh_addr_spec v) as (? & ? & Hr & Hm). split; [|split; [done|done]].
    intros _. split; [done|]. split; [done|]. split_and!; [| | |done].
    + apply eq_None_not_Some. intros [n Hn]. apply Hr in Hn. simpl in *. lia.
    + apply eq_None_not_Some. intros [n Hn]. apply Hm in Hn. simpl in *. lia.
    + intros q n Hn. apply Hr in Hn. unfold disjoint_ranges. lia.
  - intros v sz dev Hsz. destruct (fresh_handle_spec v) as [Hf Hu]. simpl.
    assert (Hrun : sim_create sz dev v = sim_create sz dev v) by done. unfold sim_create at 2 in Hrun.
    destruct (dv_free v !! dev) as [free|] eqn:Hpool.
    2:{ exists 101, 0, v. split; [exact Hrun|]. split; [done|]. split; [done|]. intros (_ & free & Hx & _). congruence. }
    case_bool_decide as Hle.
    + exists 0, (fresh_handle v). eexists. split; [exact Hrun|]. split; [|done].
      intros _. split; [by eexists|done].
    + exists 2, 0, v. split; [exact Hrun|]. split; [done|]. split; [done|].
      intros (_ & free' & Hx & ?). injection Hx as <-. by destruct Hle.
  - intros v p sz h. simpl. unfold sim_map.
    destruct (decide (dv_maps v !! p = None)) as [Hn|Hs].
    + eexists 0, _. rewrite bool_decide_eq_true_2 by done. split_and!; try done.
      intros _. exists (dv_dev v). by split.
    + eexists 1, _. rewrite bool_decide_eq_false_2 by done. split_and!; try done.
      by intros (_ & _ & ? & _).
  - intros v p sz dev h b Hp. eexists 0, _. simpl in *. unfold sim_set_access. rewrite Hp.
    by split_and!.
  - intros v p sz h b Hp Hq. apply sim_ok_call. exists (dv_dev v). split; [done|]. by destruct v.
  - intros v h sz Hh Hu. eexists 0, _. simpl in *. unfold sim_release. rewrite Hh. by split_and!.
  - intros v. apply sim_ok_call. by exists 0%nat.
  - intros v. apply sim_ok_call. exists (dv_mark v). by split.
  - intros v dst src n k. apply sim_ok_call. by exists 0%nat.
  - intros v. simpl. case_bool_decide; [by exists 0, (dv_current v), v|by exists 201, 0, v].
  - intros v n. by exists 0, n, v.
  - intros v c. eexists _, v, (dv_current v). split; [done|by destruct v].
  - intros v. eexists _, v, (dv_current v). split; [done|by destruct v].
Qed.

#[export] Instance sim_reliable : Reliable sim.
Proof. exact I. Qed.
