(* ===== verification/NvFacts.v ===== *)
(** The allocation hooks of the NVIDIA backend keep a process checkpointable.

    [hook_inv] is the invariant of the hooks: the tables agree with the driver,
    every tracked block is aligned, fully backed on the device the hook found, and reserved; reservations do not
    overlap.  [cudaMalloc] and [cudaFree] preserve it on every branch, and a failed
    [cudaMalloc] gives back whatever it had taken. *)
From S2P Require Import Prelude Common Gpu Driver Vmm Nv.
Open Scope Z_scope.

Section NvFacts.
Context {D : Type} `{DriverLaws D}.

Definition view (w : nv D) : dview := drv_view (drv w).

(** The device the hook allocates on; -1 as long as it has not looked. *)
Definition hook_dev (w : nv D) : Z := h_device (hook w).

Record hook_inv (w : nv D) : Prop := {
  hi_wf : tables_wf (hook_dev w) (tabs w) (drv_view (drv w));
  hi_device : ∀ p h, handle_map (tabs w) !! p = Some h → hook_dev w ≠ -1;
  hi_blocks : ∀ p sz, am (tabs w) !! p = Some sz →
    block_ok p sz ∧ is_Some (handle_map (tabs w) !! p);
  hi_disj : ∀ p q n m, dv_reserved (view w) !! p = Some n → dv_reserved (view w) !! q = Some m →
    p ≠ q → disjoint_ranges p n q m;
  hi_queue : dv_queue (view w) = []
}.

Lemma dcall_pure {A} (m : M D A) (w : nv D) (Q : A → nv D → Prop) :
  pure_call m (drv w) →
  (∀ r d', drv_view d' = drv_view (drv w) → Q r (set_drv d' w)) → wp (dcall m) Q w.
Proof. intros (r & d' & Hm & Hv) HQ. apply wp_zoom. eapply wp_intro; [exact Hm|]. by apply HQ. Qed.

(** What the context bookkeeping leaves alone. *)
Definition same_memory (w w' : nv D) : Prop :=
  tabs w' = tabs w ∧ view w' = view w ∧ (hook_dev w ≠ -1 → hook_dev w' = hook_dev w).

Lemma same_memory_trans w w1 w2 : same_memory w w1 → same_memory w1 w2 → same_memory w w2.
Proof.
  intros (? & ? & E1) (? & ? & E2). split_and!; [congruence..|]. intros Hd. rewrite E2; [by apply E1|by rewrite E1].
Qed.

Lemma capture_context_wp (w : nv D) (Q : unit → nv D → Prop) :
  (∀ w', same_memory w w' → Q tt w') → wp capture_context Q w.
Proof.
  intros HQ. apply wp_bind. apply dcall_pure; [apply ctxGetCurrent_law|]. intros r d Hd.
  apply wp_bind, wp_get. destruct (bool_decide _).
  - apply wp_modify. by apply HQ.
  - apply wp_ret. by apply HQ.
Qed.

Lemma hook_init_wp (w : nv D) (Q : Z → nv D → Prop) :
  (∀ r w', same_memory w w' → Q r w') → wp hook_init Q w.
Proof.
  intros HQ. apply wp_bind, wp_get. destruct (cuda_inited _); [by apply wp_ret, HQ|].
  apply wp_bind. apply dcall_pure; [apply init__law|]. intros r d Hd.
  destruct (bool_decide _); [by apply wp_ret, HQ|].
  apply wp_bind, wp_modify, wp_ret. by apply HQ.
Qed.

(** The hook keeps the device it has found. *)
Lemma hook_device_wp (w : nv D) (Q : Z + Z → nv D → Prop) :
  (∀ w' dev, same_memory w w' → hook_dev w' = dev → dev ≠ -1 → Q (inr dev) w') →
  (∀ w' err, err ≠ 0 → same_memory w w' → Q (inl err) w') → wp hook_device Q w.
Proof.
  intros HQ HE. apply wp_bind, wp_get. case_bool_decide as Hdev; [by apply wp_ret, (HQ w)|].
  assert (Hno : ∀ x : Z, hook_dev w ≠ -1 → x = hook_dev w) by (intros x Hx; unfold hook_dev in Hx; by destruct Hdev).
  apply wp_bind. apply dcall_pure; [apply ctxGetCurrent_law|]. intros cur d1 Hd1.
  apply wp_bind, wp_modify. destruct (bool_decide (cur.1 = 0 ∧ _)).
  - apply wp_bind. destruct (ctxGetDevice_law d1) as (r & x & d2 & Hm & Hd2 & Hx).
    apply wp_zoom. eapply wp_intro; [exact Hm|].
    case_bool_decide as Hr; simpl in Hr.
    + apply wp_ret. apply HE; [done|]. split_and!; [done| |by apply Hno]. unfold view. simpl in *. congruence.
    + apply wp_bind, wp_modify, wp_ret. apply HQ; [|done|simpl; lia]. split_and!; [done| |by apply Hno]. unfold view. simpl in *. congruence.
  - apply wp_bind. destruct (deviceGet_law d1 0) as (r & x & d2 & Hm & Hd2 & Hx).
    apply wp_zoom. eapply wp_intro; [exact Hm|].
    case_bool_decide as Hr; simpl in Hr.
    + apply wp_ret. apply HE; [done|]. split_and!; [done| |by apply Hno]. unfold view. simpl in *. congruence.
    + apply wp_bind, wp_modify, wp_bind. apply dcall_pure; [apply primaryCtxRetain_law|].
      intros ctx d3 Hd3. simpl in Hd3. destruct (bool_decide (ctx.1 ≠ 0)).
      * apply wp_ret. apply HE; [done|]. split_and!; [done| |by apply Hno]. unfold view. simpl in *. congruence.
      * apply wp_bind, wp_modify, wp_ret. apply HQ; [|done|simpl; lia]. split_and!; [done| |by apply Hno]. unfold view. simpl in *. congruence.
Qed.

Definition given_back (w w' : nv D) : Prop :=
  tabs w' = tabs w ∧ none_kept (view w) (view w') ∧ (hook_dev w ≠ -1 → hook_dev w' = hook_dev w).

(** Either everything succeeded, or everything was given back. *)
Lemma vmm_alloc_wp (w : nv D) sz device (Q : Z + Z * Z → nv D → Prop) :
  0 < sz → dv_queue (view w) = [] →
  (∀ p h w', tabs w' = tabs w → hook w' = hook w → new_block (view w) device sz p h (view w') → Q (inr (p, h)) w') →
  (∀ w', given_back w w' → Q (inl cudaErrorMemoryAllocation) w') →
  wp (vmm_alloc sz device) Q w.
Proof.
  intros Hsz Hq HQ HE. apply wp_bind, wp_zoom, vmm_block_wp; [done..| |].
  - intros p h d' Hn. by apply wp_ret, HQ.
  - intros err d' _ Hn. apply wp_ret, HE. by split.
Qed.

(** Without blocks the device does not matter. *)
Lemma tables_wf_dev dev dev' t v : tables_wf dev t v → (∀ p h, handle_map t !! p = Some h → dev' = dev) → tables_wf dev' t v.
Proof.
  intros [Hh Hm Ho Hr Ht] Hd. split; try done. intros p h Hp. rewrite (Hd p h Hp). by apply Hh.
Qed.

Lemma hook_inv_given_back w w' : hook_inv w → given_back w w' → hook_inv w'.
Proof.
  intros [Hwf Hdv Hb Hd Hq] (Ht & (Hr & Hq' & _) & Hdev). injection Hr as Hr1 Hr2 Hr3 Hr4.
  split; [| |by rewrite Ht|by rewrite Hr1|done].
  - rewrite Ht. apply (tables_wf_dev (hook_dev w)); [by apply (tables_wf_same _ _ (drv_view (drv w)))|].
    intros p h Hp. by eapply Hdev, Hdv.
  - rewrite Ht. intros p h Hp. rewrite Hdev; by eapply Hdv.
Qed.

Lemma given_back_same w w' : same_memory w w' → dv_queue (view w) = [] → given_back w w'.
Proof. intros (Ht & Hv & Hd) Hq. unfold given_back. by rewrite Ht, Hv. Qed.

Lemma given_back_trans w w1 w2 : given_back w w1 → given_back w1 w2 → given_back w w2.
Proof.
  intros (? & (? & ? & ?) & E1) (? & (? & ? & ?) & E2). split_and!; [congruence|split_and!; congruence|].
  intros Hd. rewrite E2; [by apply E1|by rewrite E1].
Qed.

(** Registering a new block. *)
Definition register (p size h : Z) (t : tables) : tables :=
  MkTables (<[p := size]> (am t)) (<[p := 1]> (am_type t)) (<[p := h]> (handle_map t)).

Lemma hook_inv_new w w' p h size :
  hook_inv w → 0 < size ≤ 2 ^ 62 → new_block (view w) (hook_dev w) (ROUND_UP_2MB size) p h (view w') →
  hook w' = hook w → hook_dev w ≠ -1 → hook_inv (set_tabs (register p size h (tabs w)) w').
Proof.
  intros [Hwf Hdv Hb Hd Hq] Hsz [Hpool [Hp Hpm] (Hpr & Hpmap & Hph & Hun) Hdj (m & Hm & Hv)] Hhook Hset.
  assert (Hsame : hook_dev (set_tabs (register p size h (tabs w)) w') = hook_dev w) by (unfold hook_dev; simpl; by rewrite Hhook).
  destruct (ROUND_UP_2MB_bounds size ltac:(lia)) as [Hrb _].
  pose proof Hwf as [Hh Hmp Ho Hr Ht].
  assert (Ham : am (tabs w) !! p = None).
  { destruct (am (tabs w) !! p) as [sz|] eqn:E; [|done]. apply Hr in E. unfold view in Hpr. congruence. }
  assert (Hnone : handle_map (tabs w) !! p = None).
  { destruct (handle_map (tabs w) !! p) as [h'|] eqn:E; [|done].
    destruct (Hh p h' E) as (? & ? & _). congruence. }
  split.
  - rewrite Hsame. unfold view in *. simpl. rewrite Hv.
    pose proof (tables_wf_add (hook_dev w) (MkTables (<[p := size]> (am (tabs w))) (<[p := 1]> (am_type (tabs w)))
             (handle_map (tabs w)))
             (set_vmm (<[p := ROUND_UP_2MB size]> (dv_reserved (drv_view (drv w))))
                (dv_maps (drv_view (drv w))) (dv_handles (drv_view (drv w))) (dv_free (drv_view (drv w))) (drv_view (drv w)))
             p size h (take_from (hook_dev w) (ROUND_UP_2MB size) (dv_free (drv_view (drv w)))) m) as Hadd.
    cbn -[lookup insert] in Hadd. unfold set_dmem, set_vmm in *. cbn -[lookup insert] in *.
    apply Hadd; try done; [|by apply take_from_free|by apply lookup_insert_eq].
    split; simpl; try done.
    + intros q h' Hq'. destruct (Hh q h' Hq') as (sz & ? & ?). exists sz.
      rewrite lookup_insert_ne by (intros ->; congruence). done.
    + intros q sz Hsz' [m' Hm']. apply lookup_insert_Some in Hsz' as [[<- _]|[_ Hsz']]; [congruence|].
      by eapply Hmp.
    + intros q sz Hsz'. apply lookup_insert_Some in Hsz' as [[<- <-]|[Hne Hsz']].
      * by rewrite lookup_insert_eq.
      * rewrite lookup_insert_ne by done. by apply Hr.
    + intros q sz Hsz'. apply lookup_insert_Some in Hsz' as [[<- <-]|[Hne Hsz']].
      * by rewrite lookup_insert_eq.
      * rewrite lookup_insert_ne by done. by eapply Ht.
  - by rewrite Hsame.
  - simpl. intros q sz Hsz'. apply lookup_insert_Some in Hsz' as [[<- <-]|[Hne Hsz']].
    + rewrite lookup_insert_eq. split; [split_and!; lia|by eexists].
    + rewrite lookup_insert_ne by done. by apply Hb.
  - unfold view in *. simpl. rewrite Hv. simpl. intros q q' n n' Hn Hn' Hne.
    apply lookup_insert_Some in Hn as [[<- <-]|[Hne1 Hn]];
      apply lookup_insert_Some in Hn' as [[<- <-]|[Hne2 Hn']]; try done.
    + by apply (Hdj q').
    + destruct (Hdj q n Hn); [by right|by left].
    + by eapply (Hd q q').
  - unfold view in *. simpl. by rewrite Hv.
Qed.

(** What [cudaMalloc] does to the process: on an error nothing is kept, on success
    exactly one block is added and the contents of the others stay. *)
Definition malloc_result (w : nv D) (size : Z) (r : Z * option Z) (w' : nv D) : Prop :=
  hook_inv w' ∧
  (r.1 ≠ cudaSuccess → r.2 = None ∧ given_back w w') ∧
  (r.1 = cudaSuccess → size = 0 → r.2 = Some 0 ∧ given_back w w') ∧
  (r.1 = cudaSuccess → size ≠ 0 → ∃ p, r.2 = Some p ∧ am (tabs w) !! p = None ∧
     am (tabs w') = <[p := size]> (am (tabs w)) ∧
     dv_free (view w') = take_from (hook_dev w') (ROUND_UP_2MB size) (dv_free (view w)) ∧
     dev_outside p (ROUND_UP_2MB size) (dv_dev (view w)) (dv_dev (view w'))).

Lemma cudaMalloc_wp w size : hook_inv w → 0 ≤ size ≤ 2 ^ 62 →
  wp (cudaMalloc size) (malloc_result w size) w.
Proof.
  intros Hinv Hsz. pose proof (hi_queue _ Hinv) as Hq. unfold cudaMalloc.
  apply wp_bind, capture_context_wp. intros w1 S1. pose proof (given_back_same _ _ S1 Hq) as G1.
  destruct (decide (size = 0)) as [->|Hne].
  { rewrite bool_decide_eq_true_2 by done. apply wp_ret. split; [by eapply hook_inv_given_back|].
    split_and!; done. }
  rewrite bool_decide_eq_false_2 by done.
  assert (Herr : ∀ err w', err ≠ 0 → given_back w w' → malloc_result w size (err, None) w').
  { intros err w' He G. split; [by eapply hook_inv_given_back|]. by split_and!; intros. }
  destruct (ROUND_UP_2MB_bounds size ltac:(lia)) as [Hrb _].
  apply wp_bind, hook_init_wp. intros r w2 S2. pose proof (same_memory_trans _ _ _ S1 S2) as G2.
  destruct (decide (r = 0)) as [->|Hr].
  2: { rewrite bool_decide_eq_true_2 by done. apply wp_ret, Herr; [done|by apply given_back_same]. }
  rewrite bool_decide_eq_false_2 by (intros Hx; by apply Hx).
  apply wp_bind, hook_device_wp.
  - intros w3 dev S3' <- Hset. pose proof (same_memory_trans _ _ _ G2 S3') as S3.
    pose proof (given_back_same _ _ S3 Hq) as G3. apply wp_bind, vmm_alloc_wp; [lia|apply G3| |].
    + intros p h w4 Ht4 Hh4 Hnb. apply wp_bind, wp_get, wp_bind, wp_modify, wp_ret.
      pose proof (hook_inv_given_back _ _ Hinv G3) as I3.
      pose proof (hook_inv_new w3 w4 p h size I3 ltac:(lia) Hnb Hh4 Hset) as I4.
      destruct Hnb as [_ _ (Hpr & _) _ (m & Hm & Hv)]. destruct S3 as (St & Sv & _).
      split; [by rewrite Ht4|]. split_and!; [done|done|].
      intros _ _. exists p. rewrite Ht4, St. split; [done|].
      assert (am (tabs w) !! p = None).
      { destruct (am (tabs w) !! p) as [sz|] eqn:E; [|done].
        apply (tw_reserved _ _ _ (hi_wf _ Hinv)) in E. unfold view in *. rewrite Sv in Hpr. congruence. }
      unfold view, hook_dev in *. simpl. rewrite Hh4, Hv, Sv in *. by split_and!.
    + intros w4 G4. apply wp_ret, Herr; [done|]. by eapply given_back_trans.
  - intros w3 err He S3. apply wp_ret, Herr; [done|]. apply given_back_same; [|done].
    by eapply same_memory_trans.
Qed.

(** What [cudaFree] does: a tracked block disappears with everything it held. *)
Definition free_result (w : nv D) (p : Z) (r : Z) (w' : nv D) : Prop :=
  hook_inv w' ∧
  (am (tabs w) !! p = None → same_memory w w') ∧
  (∀ sz, am (tabs w) !! p = Some sz → r = cudaSuccess ∧
     am (tabs w') = delete p (am (tabs w)) ∧
     dv_reserved (view w') = delete p (dv_reserved (view w)) ∧
     dv_free (view w') = give_back (MkPhys (ROUND_UP_2MB sz) (hook_dev w)) (dv_free (view w)) ∧
     dev_outside p (ROUND_UP_2MB sz) (dv_dev (view w)) (dv_dev (view w'))).

(** The view after the three driver calls of [cudaFree]. *)
Lemma hook_inv_freed w w' p h sz m :
  hook_inv w → am (tabs w) !! p = Some sz → handle_map (tabs w) !! p = Some h →
  tabs w' = MkTables (delete p (am (tabs w))) (delete p (am_type (tabs w)))
              (delete p (handle_map (tabs w))) →
  view w' = set_vmm (delete p (dv_reserved (view w))) (delete p (dv_maps (view w)))
              (delete h (dv_handles (view w))) (give_back (MkPhys (ROUND_UP_2MB sz) (hook_dev w)) (dv_free (view w)))
              (set_dmem m (view w)) →
  hook_dev w' = hook_dev w → hook_inv w'.
Proof.
  intros [Hwf Hdv Hb Hd Hq] Hsz Hh Ht Hv Hdev. unfold view in *.
  destruct (tw_handle _ _ _ Hwf p h Hh) as (_ & _ & _ & _ & Hpool).
  pose proof (tables_wf_drop _ _ _ p h (dv_reserved (drv_view (drv w)))
    (give_back (MkPhys (ROUND_UP_2MB sz) (hook_dev w)) (dv_free (drv_view (drv w)))) m Hwf Hh eq_refl
    (proj2 (give_back_free _ _ _ Hpool))) as [Wh Wm Wo Wr Wt].
  cbn -[lookup delete] in *. split.
  - rewrite Ht, Hv, Hdev. split; cbn -[lookup delete].
    + intros q h' Hq'. destruct (Wh q h' Hq') as (s' & ? & ? & ?). exists s'.
      apply lookup_delete_Some in Hq' as [Hne _]. by rewrite lookup_delete_ne.
    + intros q s' [Hne Hs]%lookup_delete_Some. by apply (Wm q s').
    + done.
    + intros q s' [Hne Hs]%lookup_delete_Some. rewrite lookup_delete_ne by done. by apply Wr.
    + intros q s' [Hne Hs]%lookup_delete_Some. rewrite lookup_delete_ne by done. by eapply Wt.
  - rewrite Ht, Hdev. simpl. intros q h' [_ Hq']%lookup_delete_Some. by eapply Hdv.
  - rewrite Ht. simpl. intros q s' [Hne Hs]%lookup_delete_Some.
    rewrite lookup_delete_ne by done. by apply Hb.
  - unfold view. rewrite Hv. simpl. intros q q' n n' [Hne1 Hn]%lookup_delete_Some [Hne2 Hn']%lookup_delete_Some.
    by apply Hd.
  - unfold view. by rewrite Hv.
Qed.

Lemma cudaFree_wp w p : hook_inv w → wp (cudaFree p) (free_result w p) w.
Proof.
  intros Hinv. pose proof Hinv as [Hwf _ Hb Hd Hq]. unfold cudaFree. apply wp_bind, wp_get.
  destruct (am (tabs w) !! p) as [sz|] eqn:Hsz.
  - destruct (Hb p sz Hsz) as (Hok & h & Hh).
    rewrite bool_decide_eq_true_2 by (by eapply (tw_type _ _ _ Hwf)). rewrite Hh.
    destruct (tw_handle _ _ _ Hwf p h Hh) as (sz' & Hsz' & Hmp & Hhs & _). assert (sz' = sz) as -> by congruence.
    apply wp_bind, wp_bind, wp_bind, wp_zoom. apply (vmm_drop_wp _ (hook_dev w)); [|done|].
    { split; [by apply (tw_reserved _ _ _ Hwf)|done..|]. intros q mq Hmq He. by eapply (tw_owned _ _ _ Hwf). }
    intros d1 m1 Hd1 Hv1. apply wp_modify, wp_modify, wp_bind, wp_modify, wp_ret. split; [|split].
    + eapply (hook_inv_freed w _ p h sz m1); done.
    + simpl. congruence.
    + intros s' Hs'. assert (s' = sz) as -> by congruence. unfold view. simpl. rewrite Hv1.
      by split_and!.
  - eapply wp_mono; [apply dcall_pure; [apply real_free_law|]|].
    + intros r d Hv. instantiate (1 := λ r w', same_memory w w'). by split.
    + intros r w' S. split; [|split; [done|congruence]].
      eapply hook_inv_given_back; [done|by apply given_back_same].
Qed.

(** ** Any sequence of hook calls *)

Inductive hook_call := Malloc (size : Z) | Free (ptr : Z).

Definition run_call (c : hook_call) : M (nv D) unit :=
  match c with
  | Malloc size => _ ← cudaMalloc size; mret tt
  | Free ptr => _ ← cudaFree ptr; mret tt
  end.

Definition run_calls (cs : list hook_call) : M (nv D) unit := foldM (λ _ c, run_call c) tt cs.

Definition call_valid (c : hook_call) : Prop :=
  match c with Malloc size => 0 ≤ size ≤ 2 ^ 62 | Free _ => True end.

Lemma run_calls_wp cs w : Forall call_valid cs → hook_inv w →
  wp (run_calls cs) (λ _, hook_inv) w.
Proof.
  intros Hv Hinv. eapply (wp_foldM (λ _ _, hook_inv)); [done|].
  intros pre c post [] w1 -> I1. apply Forall_app in Hv as [_ Hv]. apply Forall_cons in Hv as [Hc _].
  destruct c as [size|ptr]; simpl; apply wp_bind.
  - eapply wp_mono; [by apply cudaMalloc_wp|]. intros r w2 [I2 _]. by apply wp_ret.
  - eapply wp_mono; [by apply cudaFree_wp|]. intros r w2 [I2 _]. by apply wp_ret.
Qed.

Lemma hook_inv_start d : drv_view d = MkDView (dv_host (drv_view d)) (dv_dev (drv_view d)) [] 0 ∅ ∅ ∅
                                       (dv_free (drv_view d)) (dv_current (drv_view d)) →
  hook_inv (nv_start d).
Proof.
  intros Hv. split; unfold view; simpl.
  - split; simpl; intros *; by rewrite lookup_empty.
  - intros *. by rewrite lookup_empty.
  - intros *. by rewrite lookup_empty.
  - rewrite Hv. simpl. intros *. by rewrite lookup_empty.
  - by rewrite Hv.
Qed.
End NvFacts.
