(* ===== verification/CrTheorems.v ===== *)
(** Checkpoint and restore: the theorems.

    What [ckpt], [ckpt_selective] and the two restore functions promise together,
    for any implementation of the [GPU] interface: the data of every saved block
    comes back, the physical memory is given up in between, and a checkpoint that
    does not fit fails before it gives anything up.  The concrete instances run the
    NVIDIA backend on the reference driver. *)
From S2P Require Import Prelude Common Gpu Layout Ckpt SaveFacts CkptFacts Restore RestoreFacts.
From S2P Require Import CkptErrors Driver Vmm Nv Sim NvFacts.
Open Scope Z_scope.

(** The process between a checkpoint and the restore: same tables, same dump; the
    device contents are arbitrary. *)
Record resumed {W} `{GPU W} (e : env) (s1 s2 : vstate W) : Prop := {
  rm_ready : ready s2;
  rm_alloc : g_alloc (gpu_view (vgpu s2)) = g_alloc (gpu_view (vgpu s1));
  rm_backed : g_backed (gpu_view (vgpu s2)) = g_backed (gpu_view (vgpu s1));
  rm_free : g_free (gpu_view (vgpu s2)) = g_free (gpu_view (vgpu s1));
  rm_fs : fs s2 = fs s1;
  rm_host : ∀ i, payload_base ≤ i < SHM_SIZE (shm_size_gb e) →
    g_host (gpu_view (vgpu s2)) (tmp_buf e + i) = g_host (gpu_view (vgpu s1)) (tmp_buf e + i)
}.

(** ** Helpers *)

Section Helpers.
Context {W : Type} `{GPULaws W} (e : env) (Henv : env_ok e).

Lemma ckpt_blocks_fst (am : gmap Z Z) : (ckpt_blocks am).*1 = (map_entries am).*1.
Proof. unfold ckpt_blocks. rewrite <- list_fmap_compose. by apply list_fmap_ext. Qed.

Lemma elem_of_keys (am : gmap Z Z) p : p ∈ (map_entries am).*1 ↔ is_Some (am !! p).
Proof.
  rewrite list_elem_of_fmap. split.
  - intros ([q sz] & -> & Hq%elem_of_map_entries). by eexists.
  - intros [sz Hsz%elem_of_map_entries]. by exists (p, sz).
Qed.

(** Blocks that were released by [parked] and are to be restored. *)
Lemma parked_restorable bs ps s s1 s2 :
  allocs_ok (gpu_view (vgpu s)) → parked ps s s1 → resumed e s1 s2 → bs.*1 = ps →
  fits e bs → dump_holds e bs (g_dev (gpu_view (vgpu s))) (fs s1) (g_host (gpu_view (vgpu s1))) →
  (∀ p sz, (p, sz) ∈ bs → ∃ sz0, g_alloc (gpu_view (vgpu s)) !! p = Some sz0 ∧
     (sz = sz0 ∨ sz = ROUND_UP_2MB sz0)) →
  NoDup ps → blocks_disjoint bs → sizes_nonneg bs → 0 ≤ g_free (gpu_view (vgpu s)) →
  restorable e bs (g_dev (gpu_view (vgpu s))) s2.
Proof.
  intros Hal [Hr1 Ha1 Hb1 Hf1 _] [Hr2 Ha2 Hb2 Hf2 Hfs2 Hh2] Hps Hfit [Hfs Hd] Hbs Hnd Hdj Hnn Hfree.
  assert (Hblk : ∀ p sz, (p, sz) ∈ bs → ∃ sz0, g_alloc (gpu_view (vgpu s)) !! p = Some sz0 ∧
    block_ok p sz0 ∧ (sz = sz0 ∨ sz = ROUND_UP_2MB sz0)).
  { intros p sz Hin. destruct (Hbs p sz Hin) as (sz0 & Hsz0 & Hor). exists sz0.
    destruct (Hal p sz0 Hsz0). done. }
  split; [done|done| | |by rewrite Hps|done|].
  - split; [by rewrite Hfs2|]. intros i Hi. pose proof (ft_size _ _ Hfit). pose proof payload_base_eq.
    rewrite <- Z.add_assoc, Hh2, Z.add_assoc by lia. by apply Hd.
  - intros p sz Hin. destruct (Hblk p sz Hin) as (sz0 & Hsz0 & Hok & Hor). exists sz0.
    rewrite Ha2, Ha1, Hb2, Hb1. split_and!; try done.
    rewrite lookup_unback, decide_True; [done|]. rewrite <- Hps.
    by apply (list_elem_of_fmap_2 fst _ (p, sz)).
  - rewrite Hf2, Hf1. unfold freed. rewrite <- Hps, sum_by_fmap.
    rewrite (sum_by_ext _ (λ b, ROUND_UP_2MB (g_alloc (gpu_view (vgpu s)) !!! b.1))); [lia|].
    intros [p sz] Hin. destruct (Hblk p sz Hin) as (sz0 & Hsz0 & Hok & Hor). simpl.
    rewrite (lookup_total_correct _ _ _ Hsz0).
    destruct (block_ok_round p sz0 Hok) as (_ & _ & Hrr). destruct Hor as [-> | ->]; done.
Qed.

Lemma restore_full_wp bs dev s : restorable e bs dev s →
  (∀ p sz, (p, sz) ∈ bs → p mod VMM_GRANULE_SIZE = 0 ∧ sz mod VMM_GRANULE_SIZE = 0) →
  wp (restore_ptr_and_content e) (λ t s', t = payload_size bs ∧ reloaded bs dev s s') s.
Proof.
  intros R Hal. apply (restore_with_wp e Henv bs dev true); [done|done|].
  intros; by apply no_clamp_ok.
Qed.

Lemma restore_selective_wp bs dev s : restorable e bs dev s →
  wp (restore_ptr_and_content_selective e) (λ t s', t = payload_size bs ∧ reloaded bs dev s s') s.
Proof.
  intros R. apply (restore_with_wp e Henv bs dev false); [done|done|].
  intros; by apply granule_clamp_ok.
Qed.
End Helpers.

(** Blocks with distinct reservations do not overlap. *)
Lemma blocks_disjoint_keys (bs : list (Z * Z)) :
  NoDup bs.*1 →
  (∀ p s p' s', (p, s) ∈ bs → (p', s') ∈ bs → p ≠ p' → disjoint_ranges p s p' s') →
  blocks_disjoint bs.
Proof.
  intros Hnd Hd i j p s p' s' Hi Hj Hij. apply Hd.
  - by eapply list_elem_of_lookup_2.
  - by eapply list_elem_of_lookup_2.
  - intros ->. apply Hij. eapply (NoDup_lookup bs.*1); [done|..]; rewrite list_lookup_fmap.
    + by rewrite Hi.
    + by rewrite Hj.
Qed.

(** ** What must hold before a checkpoint *)

Record checkpointable {W} `{GPU W} (e : env) (bs : list (Z * Z)) (s : vstate W) : Prop := {
  cp_env : env_ok e;
  cp_ready : ready s;
  cp_allocs : allocs_ok (gpu_view (vgpu s));
  cp_fits : fits e bs;
  cp_disj : blocks_disjoint bs;
  cp_free : 0 ≤ g_free (gpu_view (vgpu s))
}.

Lemma ckpt_blocks_aligned (v : gview) p s0 : allocs_ok v → (p, s0) ∈ ckpt_blocks (g_alloc v) →
  0 ≤ s0 ∧ p mod VMM_GRANULE_SIZE = 0 ∧ s0 mod VMM_GRANULE_SIZE = 0.
Proof.
  intros Hal (sz & Hsz & ->)%elem_of_ckpt_blocks. destruct (Hal p sz Hsz) as [Hok _].
  pose proof Hok as (? & ? & ?). destruct (block_ok_round p sz Hok) as (? & ? & ?).
  split_and!; [lia|done|done].
Qed.

Section Roundtrip.
Context {W : Type} `{GPULaws W} (e : env).

Lemma roundtrip_full s : checkpointable e (ckpt_blocks (g_alloc (gpu_view (vgpu s)))) s →
  ∃ s1, ckpt e s = Ret (payload_size (ckpt_blocks (g_alloc (gpu_view (vgpu s))))) s1 ∧
    parked (map_entries (g_alloc (gpu_view (vgpu s)))).*1 s s1 ∧
    ∀ s2, resumed e s1 s2 →
      ∃ s3, restore_ptr_and_content e s2 =
              Ret (payload_size (ckpt_blocks (g_alloc (gpu_view (vgpu s))))) s3 ∧
        reloaded (ckpt_blocks (g_alloc (gpu_view (vgpu s)))) (g_dev (gpu_view (vgpu s))) s2 s3.
Proof.
  intros [Henv Hr Hal Hfit Hdj Hfree].
  destruct (wp_elim _ _ _ (ckpt_wp e Henv s Hr Hal Hfit)) as (t & s1 & Hck & -> & Hp & Hd).
  exists s1. split; [done|]. split; [done|]. intros s2 Hrm.
  assert (R : restorable e (ckpt_blocks (g_alloc (gpu_view (vgpu s)))) (g_dev (gpu_view (vgpu s))) s2).
  { eapply parked_restorable; try done.
    - apply ckpt_blocks_fst.
    - intros p s0 (sz & Hsz & ->)%elem_of_ckpt_blocks. exists sz. auto.
    - apply NoDup_map_entries.
    - intros p s0 Hin. by destruct (ckpt_blocks_aligned _ p s0 Hal Hin). }
  destruct (wp_elim _ _ _ (restore_full_wp e Henv _ _ _ R ltac:(intros p s0 Hin;
    by destruct (ckpt_blocks_aligned _ p s0 Hal Hin)))) as (t' & s3 & Hrs & -> & Hre).
  by exists s3.
Qed.

Lemma sel_blocks_fst (m : gmap Z Z) ps : (sel_blocks m ps).*1 = ps.
Proof.
  unfold sel_blocks. rewrite <- list_fmap_compose. rewrite <- (list_fmap_id ps) at 2.
  by apply list_fmap_ext.
Qed.

Lemma roundtrip_selective req s :
  checkpointable e (sel_blocks (g_alloc (gpu_view (vgpu s))) (selected (g_alloc (gpu_view (vgpu s))) req)) s →
  ∃ t s1, ckpt_selective e req s = Ret t s1 ∧
    parked (selected (g_alloc (gpu_view (vgpu s))) req) s s1 ∧
    ∀ s2, resumed e s1 s2 →
      ∃ s3, restore_ptr_and_content_selective e s2 = Ret t s3 ∧
        reloaded (sel_blocks (g_alloc (gpu_view (vgpu s))) (selected (g_alloc (gpu_view (vgpu s))) req))
          (g_dev (gpu_view (vgpu s))) s2 s3.
Proof.
  intros [Henv Hr Hal Hfit Hdj Hfree].
  destruct (wp_elim _ _ _ (ckpt_selective_wp e Henv req s Hr Hal Hfit)) as (t & s1 & Hck & -> & Hp & Hd).
  eexists _, s1. split; [done|]. split; [done|]. intros s2 Hrm.
  set (am := g_alloc (gpu_view (vgpu s))) in *. set (ps := selected am req) in *.
  assert (Hblk : ∀ p sz, (p, sz) ∈ sel_blocks am ps → am !! p = Some sz).
  { intros p sz (q & [= -> ->] & Hq)%list_elem_of_fmap.
    destruct (elem_of_selected am req q Hq) as [sz Hsz]. by rewrite (lookup_total_correct _ _ _ Hsz). }
  assert (R : restorable e (sel_blocks am ps) (g_dev (gpu_view (vgpu s))) s2).
  { eapply parked_restorable; try done.
    - apply sel_blocks_fst.
    - intros p sz Hin. exists sz. split; [by apply Hblk|by left].
    - apply NoDup_selected.
    - intros p sz Hin. destruct (Hal p sz (Hblk p sz Hin)) as [(? & ? & ?) _]. lia. }
  destruct (wp_elim _ _ _ (restore_selective_wp e Henv _ _ _ R)) as (t' & s3 & Hrs & -> & Hre).
  by exists s3.
Qed.
End Roundtrip.

(** ** Processes whose allocations come from the hooks *)

Section Hooks.
Context {D : Type} `{DriverLaws D}.

Definition process (w : nv D) (f : shared_mem_fs) : vstate (nv D) := MkV w f false false.

(** The object is initialised and works on the device the hook allocates on. *)
Definition at_home (w : nv D) : Prop := cuda_initialized_ (obj w) = true ∧ device_ (obj w) = hook_dev w.

Lemma hook_wf (w : nv D) : hook_inv w → at_home w → gpu_wf w.
Proof. intros Hinv [Hi Hd]. split; [done|]. rewrite Hd. apply Hinv. Qed.

Lemma hook_allocs_ok (w : nv D) : hook_inv w → allocs_ok (gpu_view w).
Proof.
  intros [Hwf _ Hb _ _] p sz Hsz. destruct (Hb p sz Hsz) as (Hok & h & Hh). split; [done|].
  destruct (tw_handle _ _ _ Hwf p h Hh) as (sz' & Hsz' & Hm & _). simpl in *.
  assert (sz' = sz) as -> by congruence. by rewrite lookup_backed_of, Hm.
Qed.

(** Any list of distinct tracked blocks, saved with at most their rounded size. *)
Lemma hook_disjoint (w : nv D) bs : hook_inv w → NoDup bs.*1 →
  (∀ p s, (p, s) ∈ bs → ∃ sz, am (tabs w) !! p = Some sz ∧ s ≤ ROUND_UP_2MB sz) →
  blocks_disjoint bs.
Proof.
  intros Hinv Hnd Hbs. apply blocks_disjoint_keys; [done|].
  intros p s p' s' Hin Hin' Hne. destruct (Hbs p s Hin) as (sz & Hsz & Hs).
  destruct (Hbs p' s' Hin') as (sz' & Hsz' & Hs').
  apply (tw_reserved _ _ _ (hi_wf _ Hinv)) in Hsz, Hsz'.
  pose proof (hi_disj _ Hinv p p' _ _ Hsz Hsz' Hne) as Hd. unfold disjoint_ranges in *. lia.
Qed.

Lemma hook_checkpointable e (w : nv D) f bs :
  env_ok e → hook_inv w → at_home w → 0 ≤ g_free (gpu_view w) → length (files f) = Z.to_nat MAX_FILE_NUM →
  fits e bs → NoDup bs.*1 →
  (∀ p s, (p, s) ∈ bs → ∃ sz, am (tabs w) !! p = Some sz ∧ s ≤ ROUND_UP_2MB sz) →
  checkpointable e bs (process w f).
Proof.
  intros He Hinv Hhome Hfree Hlen Hfit Hnd Hbs. split; try done.
  - split; simpl; [by apply hook_wf|apply Hinv|done|by split].
  - by apply hook_allocs_ok.
  - by eapply hook_disjoint.
Qed.

Lemma hook_checkpointable_full e (w : nv D) f :
  env_ok e → hook_inv w → at_home w → 0 ≤ g_free (gpu_view w) → length (files f) = Z.to_nat MAX_FILE_NUM →
  fits e (ckpt_blocks (am (tabs w))) →
  checkpointable e (ckpt_blocks (am (tabs w))) (process w f).
Proof.
  intros. apply hook_checkpointable; try done.
  - rewrite ckpt_blocks_fst. apply NoDup_map_entries.
  - intros p s (sz & Hsz & ->)%elem_of_ckpt_blocks. by exists sz.
Qed.

Lemma hook_checkpointable_sel e (w : nv D) f req :
  env_ok e → hook_inv w → at_home w → 0 ≤ g_free (gpu_view w) → length (files f) = Z.to_nat MAX_FILE_NUM →
  fits e (sel_blocks (am (tabs w)) (selected (am (tabs w)) req)) →
  checkpointable e (sel_blocks (am (tabs w)) (selected (am (tabs w)) req)) (process w f).
Proof.
  intros He Hinv ? ? ? ?. apply hook_checkpointable; try done.
  - rewrite sel_blocks_fst. apply NoDup_selected.
  - intros p s (q & [= -> ->] & Hq)%list_elem_of_fmap.
    destruct (elem_of_selected _ _ q Hq) as [sz Hsz]. exists sz. split; [done|].
    rewrite (lookup_total_correct _ _ _ Hsz).
    destruct (hi_blocks _ Hinv q sz Hsz) as [Hok _]. by destruct (block_ok_round q sz Hok) as [? _]; lia.
Qed.
End Hooks.

(** ** A concrete process *)

Definition ex_env : env := MkEnv SHM_SIZE_GB_DEFAULT (2 ^ 45) (2 ^ 46).

Definition ex_calls : list hook_call := [Malloc 3000000; Malloc 100; Malloc 5000000; Free 4194304].

Definition final {S A} (o : outcome S A) : S := match o with Ret _ s | Exit _ s | Stuck _ s => s end.

Definition ex_driver : sim := sim_start (2 ^ 36) (λ _, 0) (λ a, a mod 256).

(** The object that [init_CR] creates, initialised on device 0. *)
Definition with_object {D} (w : nv D) : nv D := set_obj (MkObj 0 1 true) w.

Definition ex_nv : nv sim := with_object (final (run_calls ex_calls (nv_start ex_driver))).

Definition ex_fs : shared_mem_fs := MkFs 0 0 (replicate (Z.to_nat MAX_FILE_NUM) (MkFile 0 0 0)).

Definition ex_state : vstate (nv sim) := process ex_nv ex_fs.

(** One region inside the third allocation. *)
Definition ex_req : selective_cr_request :=
  MkReq 1 [MkRegion (fst (default (0, 0) (last (map_entries (am (tabs ex_nv))))) + 4096) 64].

Lemma ex_env_ok : env_ok ex_env.
Proof. split; [vm_compute; split; congruence|]. left. vm_compute. congruence. Qed.

Lemma ex_calls_valid : Forall call_valid ex_calls.
Proof. repeat constructor; vm_compute; congruence. Qed.

(** The hooks do not look at the object. *)
Lemma with_object_inv {D} `{DriverLaws D} (w : nv D) : hook_inv w → hook_inv (with_object w).
Proof. by intros []. Qed.

Lemma ex_home : at_home ex_nv.
Proof. by split; vm_compute. Qed.

Lemma ex_start : hook_inv (nv_start ex_driver).
Proof. apply hook_inv_start. reflexivity. Qed.

Lemma ex_inv : hook_inv ex_nv.
Proof.
  destruct (wp_elim _ _ _ (run_calls_wp ex_calls (nv_start ex_driver) ex_calls_valid ex_start)) as (u & w & Hr & Hw).
  unfold ex_nv. rewrite Hr. by apply with_object_inv.
Qed.

Lemma ex_fits : fits ex_env (ckpt_blocks (am (tabs ex_nv))).
Proof. split; vm_compute; congruence. Qed.

Lemma ex_sel_fits : fits ex_env (sel_blocks (am (tabs ex_nv)) (selected (am (tabs ex_nv)) ex_req)).
Proof. split; vm_compute; congruence. Qed.

Lemma ex_free : 0 ≤ g_free (gpu_view ex_nv).
Proof. vm_compute. congruence. Qed.

Lemma ex_files : length (files ex_fs) = Z.to_nat MAX_FILE_NUM.
Proof. apply length_replicate. Qed.

Lemma ex_checkpointable : checkpointable ex_env (ckpt_blocks (am (tabs ex_nv))) ex_state.
Proof.
  exact (hook_checkpointable_full ex_env ex_nv ex_fs ex_env_ok ex_inv ex_home ex_free ex_files ex_fits).
Qed.

Lemma ex_selectable :
  checkpointable ex_env (sel_blocks (am (tabs ex_nv)) (selected (am (tabs ex_nv)) ex_req)) ex_state.
Proof.
  exact (hook_checkpointable_sel ex_env ex_nv ex_fs ex_req ex_env_ok ex_inv ex_home ex_free ex_files ex_sel_fits).
Qed.

(** ** Theorems *)

(** C1: a full checkpoint followed by a restore is the identity on GPU memory.
    [ckpt] always terminates normally; after it no allocation holds physical
    memory and the device has that much more free memory; then, whatever the
    device memory contains, [restore_ptr_and_content] terminates normally, backs
    every allocation again and puts back every byte of every allocation (its
    padding included). *)
Theorem checkpoint_restore_roundtrip {W} `{GPULaws W} (e : env) (s : vstate W) :
  let am := g_alloc (gpu_view (vgpu s)) in
  checkpointable e (ckpt_blocks am) s →
  ∃ t s1, ckpt e s = Ret t s1 ∧
    (∀ p, is_Some (am !! p) → g_backed (gpu_view (vgpu s1)) !! p = None) ∧
    g_free (gpu_view (vgpu s1)) = g_free (gpu_view (vgpu s)) + t ∧
    ∀ s2, resumed e s1 s2 →
      ∃ s3, restore_ptr_and_content e s2 = Ret t s3 ∧ ready s3 ∧
        g_alloc (gpu_view (vgpu s3)) = am ∧
        ∀ p sz, am !! p = Some sz →
          g_backed (gpu_view (vgpu s3)) !! p = Some (ROUND_UP_2MB sz) ∧
          ∀ a, p ≤ a < p + ROUND_UP_2MB sz →
            g_dev (gpu_view (vgpu s3)) a = g_dev (gpu_view (vgpu s)) a.
Proof.
  intros am Hc. destruct (roundtrip_full e s Hc) as (s1 & Hck & Hp & Hres).
  eexists _, s1. split; [done|]. destruct Hp as [_ Ha1 Hb1 Hf1 _]. split; [|split].
  - intros p Hin. rewrite Hb1, lookup_unback, decide_True; [done|]. by apply elem_of_keys.
  - by rewrite Hf1, freed_ckpt.
  - intros s2 Hrm. destruct (Hres s2 Hrm) as (s3 & Hrs & [Hr3 Ha3 Hb3 _ Hd3 _ _]).
    exists s3. split; [done|]. split; [done|]. split; [by rewrite Ha3, (rm_alloc _ _ _ Hrm), Ha1|].
    intros p sz Hsz. assert (Hin : (p, ROUND_UP_2MB sz) ∈ ckpt_blocks am).
    { apply elem_of_ckpt_blocks. by exists sz. }
    split; [|intros a; by apply Hd3].
    rewrite Hb3, (lookup_reback _ _ p (ROUND_UP_2MB sz)); [|rewrite ckpt_blocks_fst; apply NoDup_map_entries|done].
    destruct (cp_allocs _ _ _ Hc p sz Hsz) as [Hok _].
    by destruct (block_ok_round p sz Hok) as (_ & _ & ->).
Qed.

(** C8: a selective checkpoint saves the blocks its regions point into and nothing
    else.  The blocks it does not select keep their physical memory and contents
    throughout; each selected block is given up by the checkpoint and comes back
    from the restore with every byte of its allocated size. *)
Theorem selective_roundtrip {W} `{GPULaws W} (e : env) (req : selective_cr_request) (s : vstate W) :
  let am := g_alloc (gpu_view (vgpu s)) in
  let ps := selected am req in
  checkpointable e (sel_blocks am ps) s →
  ∃ t s1, ckpt_selective e req s = Ret t s1 ∧
    (∀ p, g_backed (gpu_view (vgpu s1)) !! p =
          if decide (p ∈ ps) then None else g_backed (gpu_view (vgpu s)) !! p) ∧
    (∀ a, ¬ in_extent am ps a → g_dev (gpu_view (vgpu s1)) a = g_dev (gpu_view (vgpu s)) a) ∧
    ∀ s2, resumed e s1 s2 →
      ∃ s3, restore_ptr_and_content_selective e s2 = Ret t s3 ∧ ready s3 ∧
        (∀ p sz a, p ∈ ps → am !! p = Some sz → p ≤ a < p + sz →
           g_dev (gpu_view (vgpu s3)) a = g_dev (gpu_view (vgpu s)) a) ∧
        (∀ p, p ∈ ps → is_Some (g_backed (gpu_view (vgpu s3)) !! p)) ∧
        (∀ a, ¬ in_extents (sel_blocks am ps) a →
           g_dev (gpu_view (vgpu s3)) a = g_dev (gpu_view (vgpu s2)) a).
Proof.
  intros am ps Hc. destruct (roundtrip_selective e req s Hc) as (t & s1 & Hck & [_ Ha1 Hb1 _ Hd1] & Hres).
  exists t, s1. split; [done|]. split; [|split; [done|]].
  - intros p. by rewrite Hb1, lookup_unback.
  - intros s2 Hrm. destruct (Hres s2 Hrm) as (s3 & Hrs & [Hr3 _ Hb3 _ Hd3 Hrest _]).
    exists s3. split; [done|]. split; [done|]. split; [|split; [|done]].
    + intros p sz a Hp Hsz Ha. apply (Hd3 p sz); [|done]. apply list_elem_of_fmap.
      exists p. by rewrite (lookup_total_correct _ _ _ Hsz).
    + intros p Hp. rewrite Hb3, (lookup_reback _ _ p (am !!! p)); [by eexists| |].
      * rewrite sel_blocks_fst. apply NoDup_selected.
      * apply list_elem_of_fmap. by exists p.
Qed.

(** C31: a checkpoint that does not fit in the dump file (in bytes, or 4096 blocks
    and more) ends the process with exit code -1 and gives up nothing: no block is
    released, the device contents are untouched, [fs_mutex] is free again. *)
Theorem ckpt_too_big {W} `{GPULaws W} (e : env) (s : vstate W) :
  env_ok e → ready s → allocs_ok (gpu_view (vgpu s)) →
  ¬ fits e (ckpt_blocks (g_alloc (gpu_view (vgpu s)))) →
  ∃ s', ckpt e s = Exit (-1) s' ∧
    g_alloc (gpu_view (vgpu s')) = g_alloc (gpu_view (vgpu s)) ∧
    g_backed (gpu_view (vgpu s')) = g_backed (gpu_view (vgpu s)) ∧
    g_free (gpu_view (vgpu s')) = g_free (gpu_view (vgpu s)) ∧
    g_dev (gpu_view (vgpu s')) = g_dev (gpu_view (vgpu s)) ∧ fs_mutex s' = false.
Proof. intros He Hr Hal Hno. by apply ckpt_misfit. Qed.

(** C17: whatever the application allocates and frees through the hooks, from the
    start of the process on, in any order and with any failures of the driver, the
    process stays in a state a checkpoint accepts: every tracked block is aligned
    and backed in full, all on one device, no two blocks overlap, and an object that is initialised on
    that device is well formed. *)
Theorem hooks_keep_checkpointable {D} `{DriverLaws D} (d : D) (cs : list hook_call) :
  dv_queue (drv_view d) = [] → dv_reserved (drv_view d) = ∅ → dv_maps (drv_view d) = ∅ →
  Forall call_valid cs →
  ∃ w, run_calls cs (nv_start d) = Ret tt w ∧
       (∀ ctx, gpu_wf (set_obj (MkObj (hook_dev w) ctx true) w)) ∧ allocs_ok (gpu_view w) ∧
       blocks_disjoint (ckpt_blocks (g_alloc (gpu_view w))) ∧ g_queue (gpu_view w) = [].
Proof.
  intros Hq Hr Hm Hv.
  assert (Hs : hook_inv (nv_start d)).
  { split; unfold view; simpl; rewrite ?Hr; done. }
  destruct (wp_elim _ _ _ (run_calls_wp cs _ Hv Hs)) as ([] & w & Hrun & Hw).
  exists w. split; [done|]. split; [intros ctx; split; [done|apply Hw]|]. split; [by apply hook_allocs_ok|].
  split; [|apply Hw]. apply (hook_disjoint w); [done| |].
  - rewrite ckpt_blocks_fst. apply NoDup_map_entries.
  - intros p s (sz & Hsz & ->)%elem_of_ckpt_blocks. by exists sz.
Qed.

(** C30: [cudaMalloc] either adds exactly one block, fully backed, with the contents
    of the others unchanged and its memory taken from the device of the hook, or returns an error with every
    reservation, mapping and physical allocation it had made given back. *)
Theorem cudaMalloc_all_or_nothing {D} `{DriverLaws D} (w : nv D) (size : Z) :
  hook_inv w → 0 ≤ size ≤ 2 ^ 62 →
  ∃ r w', cudaMalloc size w = Ret r w' ∧ hook_inv w' ∧
    (r.1 ≠ cudaSuccess → r.2 = None ∧ tabs w' = tabs w ∧ resources (view w') = resources (view w)) ∧
    (r.1 = cudaSuccess → size ≠ 0 → ∃ p, r.2 = Some p ∧ am (tabs w) !! p = None ∧
       am (tabs w') = <[p := size]> (am (tabs w)) ∧
       dv_free (view w') = take_from (hook_dev w') (ROUND_UP_2MB size) (dv_free (view w)) ∧
       dev_outside p (ROUND_UP_2MB size) (dv_dev (view w)) (dv_dev (view w'))).
Proof.
  intros Hinv Hsz. destruct (wp_elim _ _ _ (cudaMalloc_wp w size Hinv Hsz))
    as (r & w' & Hm & (Hi & He & _ & Hs)).
  exists r, w'. split; [done|]. split; [done|]. split; [|done].
  intros Hr. destruct (He Hr) as [? (? & [? _] & _)]. done.
Qed.

(** [cudaFree] of a tracked block forgets it in every table, returns its address
    range and its physical memory to the driver and leaves the other blocks alone;
    any other pointer goes to the real allocator and changes nothing here. *)
Theorem cudaFree_releases {D} `{DriverLaws D} (w : nv D) (p : Z) :
  hook_inv w →
  ∃ r w', cudaFree p w = Ret r w' ∧ hook_inv w' ∧
    (am (tabs w) !! p = None → tabs w' = tabs w ∧ view w' = view w) ∧
    (∀ sz, am (tabs w) !! p = Some sz → r = cudaSuccess ∧
       am (tabs w') = delete p (am (tabs w)) ∧
       dv_reserved (view w') = delete p (dv_reserved (view w)) ∧
       dv_free (view w') = give_back (MkPhys (ROUND_UP_2MB sz) (hook_dev w)) (dv_free (view w)) ∧
       dev_outside p (ROUND_UP_2MB sz) (dv_dev (view w)) (dv_dev (view w'))).
Proof.
  intros Hinv. destruct (wp_elim _ _ _ (cudaFree_wp w p Hinv)) as (r & w' & Hm & (Hi & Hn & Hs)).
  exists r, w'. split; [done|]. split; [done|]. split; [|done]. intros Hnone. by destruct (Hn Hnone) as (? & ? & _).
Qed.

(** C14: the NVIDIA backend implements the [GPU] interface the checkpoint relies on,
    on any driver that honours valid mapping requests. *)
Theorem nv_implements_GPU {D} `{DriverLaws D} : Reliable D → GPULaws (nv D).
Proof. intros Hr. apply nv_laws. Qed.

(** ** Instances *)

Lemma checkpoint_restore_roundtrip_witness :
  ∃ t s1, ckpt ex_env ex_state = Ret t s1 ∧
    g_free (gpu_view (vgpu s1)) = g_free (gpu_view (vgpu ex_state)) + t.
Proof.
  destruct (checkpoint_restore_roundtrip ex_env ex_state ex_checkpointable) as (t & s1 & Hc & _ & Hf & _).
  exists t, s1. split; [exact Hc|exact Hf].
Defined.

Lemma selective_roundtrip_witness :
  ∃ t s1, ckpt_selective ex_env ex_req ex_state = Ret t s1 ∧
    g_backed (gpu_view (vgpu s1)) !! 52428800 = None.
Proof.
  destruct (selective_roundtrip ex_env ex_req ex_state ex_selectable) as (t & s1 & Hc & Hb & _).
  exists t, s1. split; [exact Hc|]. rewrite (Hb 52428800). vm_compute. reflexivity.
Defined.

(** The same process with a dump file of 1 GB and a 5 GB allocation. *)
Definition ex_big_nv : nv sim := with_object (final (run_calls [Malloc 5000000000] (nv_start ex_driver))).

Lemma ex_big_inv : hook_inv ex_big_nv.
Proof.
  assert (Hv : Forall call_valid [Malloc 5000000000]).
  { repeat constructor; vm_compute; congruence. }
  destruct (wp_elim _ _ _ (run_calls_wp _ (nv_start ex_driver) Hv ex_start)) as (u & w & Hr & Hw).
  unfold ex_big_nv. rewrite Hr. by apply with_object_inv.
Qed.

Definition ex_small_env : env := MkEnv 1 (2 ^ 45) (2 ^ 46).

Lemma ex_small_env_ok : env_ok ex_small_env.
Proof. split; [vm_compute; split; congruence|]. left. vm_compute. congruence. Qed.

Lemma hook_ready {D} `{DriverLaws D} (w : nv D) : hook_inv w → at_home w → ready (process w ex_fs).
Proof. intros Hinv Hhome. split; [by apply hook_wf|apply Hinv|done|done]. Qed.

Lemma ckpt_too_big_witness :
  ∃ s', ckpt ex_small_env (process ex_big_nv ex_fs) = Exit (-1) s' ∧ fs_mutex s' = false.
Proof.
  destruct (ckpt_too_big ex_small_env (process ex_big_nv ex_fs)) as (s' & Hc & _ & _ & _ & _ & Hl).
  - exact ex_small_env_ok.
  - exact (hook_ready ex_big_nv ex_big_inv ltac:(by split; vm_compute)).
  - exact (hook_allocs_ok ex_big_nv ex_big_inv).
  - intros [Hsz _]. vm_compute in Hsz. congruence.
  - exists s'. split; [exact Hc|exact Hl].
Defined.

Lemma hooks_keep_checkpointable_witness :
  ∃ w, run_calls ex_calls (nv_start ex_driver) = Ret tt w ∧ allocs_ok (gpu_view w).
Proof.
  destruct (hooks_keep_checkpointable ex_driver ex_calls) as (w & Hr & _ & Ha & _).
  - reflexivity.
  - reflexivity.
  - reflexivity.
  - exact ex_calls_valid.
  - exists w. split; [exact Hr|exact Ha].
Defined.

Lemma cudaMalloc_all_or_nothing_witness :
  ∃ r w', cudaMalloc (2 ^ 40) ex_nv = Ret r w' ∧ hook_inv w'.
Proof.
  destruct (cudaMalloc_all_or_nothing ex_nv (2 ^ 40) ex_inv) as (r & w' & Hm & Hi & _).
  - vm_compute. split; congruence.
  - exists r, w'. split; [exact Hm|exact Hi].
Defined.

Lemma cudaFree_releases_witness :
  ∃ r w', cudaFree 16777216 ex_nv = Ret r w' ∧ am (tabs w') = delete 16777216 (am (tabs ex_nv)).
Proof.
  destruct (cudaFree_releases ex_nv 16777216 ex_inv) as (r & w' & Hm & _ & _ & Hs).
  exists r, w'. split; [exact Hm|]. apply (Hs 100). vm_compute. reflexivity.
Defined.

Lemma nv_implements_GPU_witness : GPULaws (nv sim).
Proof. exact (nv_implements_GPU sim_reliable). Defined.

(** The hook allocates on the device that is current at the first [cudaMalloc], the object restores on its own: when
    the two differ, and there is no room on the object's device, the restore ends the process. *)
Definition wrong_device_nv : nv sim :=
  with_object (final (run_calls [Malloc 100] (nv_start (sim_two 0 (2 ^ 30) (λ _, 0) (λ a, a mod 256))))).

Theorem nv_wrong_device : hook_dev wrong_device_nv = 1 ∧ device_ (obj wrong_device_nv) = 0 ∧
  ∃ s, (_ ← ckpt ex_env; restore_ptr_and_content ex_env) (process wrong_device_nv ex_fs) = Exit EXIT_FAILURE s.
Proof.
  split; [vm_compute; reflexivity|]. split; [reflexivity|].
  assert (H : match (_ ← ckpt ex_env; restore_ptr_and_content ex_env) (process wrong_device_nv ex_fs) with
              | Exit c _ => bool_decide (c = EXIT_FAILURE) | _ => false end = true) by (vm_compute; reflexivity).
  destruct ((_ ← ckpt ex_env; restore_ptr_and_content ex_env) (process wrong_device_nv ex_fs)) as [t s|c s|why s]; [done| |done].
  apply bool_decide_eq_true in H as ->. by exists s.
Qed.
