(* ===== verification/AmdTheorems.v ===== *)
(** The allocation hooks of the AMD backend, and a checkpoint of what they allocated.

    [amd_inv] is the invariant of [hipMalloc] and [hipFree]: every tracked block is held
    in the driver on the device of the object, which is the current one, reservations do not overlap, nothing is queued.  Handles of blocks that
    are gone may stay in the handle map. *)
From S2P Require Import Prelude Common Gpu Driver Vmm Nv Amd Layout Ckpt SaveFacts CkptFacts Restore RestoreFacts Sim CrTheorems.
Open Scope Z_scope.

Section AmdHooks.
Context {D : Type} `{DriverLaws D}.

Definition aview (w : amd D) : dview := drv_view (a_drv w).

(** The application works on device 0, the one the constructor sets. *)
Definition on_device_0 (w : amd D) : Prop := a_device w = 0 ∧ dv_current (aview w) = 0.

Record amd_inv (w : amd D) : Prop := {
  ai_wf : amd_wf w;
  ai_home : on_device_0 w;
  ai_held : ∀ p sz, am (a_tabs w) !! p = Some sz → 0 < p ∧ p mod VMM_GRANULE_SIZE = 0 ∧
    ∃ h, handle_map (a_tabs w) !! p = Some h ∧ held (aview w) 0 p sz h ∧ is_Some (dv_free (aview w) !! 0);
  ai_disj : ∀ p q n m, dv_reserved (aview w) !! p = Some n → dv_reserved (aview w) !! q = Some m →
    p ≠ q → disjoint_ranges p n q m;
  ai_queue : dv_queue (aview w) = []
}.

Definition amd_given_back (w w' : amd D) : Prop :=
  a_tabs w' = a_tabs w ∧ none_kept (aview w) (aview w') ∧ (on_device_0 w → on_device_0 w').

Lemma held_same v v' dev p sz h : dv_reserved v' = dv_reserved v → dv_maps v' = dv_maps v → dv_handles v' = dv_handles v →
  held v dev p sz h → held v' dev p sz h.
Proof. intros Hr Hm Hh []. split; rewrite ?Hr, ?Hm, ?Hh; done. Qed.

Lemma amd_inv_given_back w w' : amd_inv w → amd_given_back w w' → amd_inv w'.
Proof.
  intros [Hwf Hhm Hh Hd Hq] (Ht & (Hr & Hq' & _) & Hhome). injection Hr as Hr1 Hr2 Hr3 Hr4.
  specialize (Hhome Hhm). split; [|done| |by rewrite Hr1|done].
  - unfold amd_wf. rewrite Ht, (proj1 Hhome), <- (proj1 Hhm). by apply (amd_wf_same _ _ (drv_view (a_drv w))).
  - rewrite Ht, Hr4. intros p sz Hp. destruct (Hh p sz Hp) as (? & ? & h & ? & Hhd & ?). split_and!; [done..|].
    exists h. split; [done|]. split; [by eapply held_same|done].
Qed.

(** Two blocks do not share a handle. *)
Lemma held_apart v dev p q sz sz' h h' : held v dev p sz h → held v dev q sz' h' → p ≠ q → h ≠ h'.
Proof. intros [_ Hp _ _] [_ Hq _ Ho] Hne <-. apply Hne. by eapply Ho. Qed.

(** From blocks that are all held to the class invariant. *)
Lemma amd_wf_held dev t v :
  (∀ p sz, am t !! p = Some sz → 0 < sz ≤ 2 ^ 62 ∧ sz mod VMM_GRANULE_SIZE = 0 ∧ am_type t !! p = Some 1) →
  (∀ p sz, am t !! p = Some sz → ∃ h, handle_map t !! p = Some h ∧ held v dev p sz h ∧ is_Some (dv_free v !! dev)) →
  amd_tables_wf dev t v.
Proof.
  intros Hs Hh. split; intros p sz.
  - intros Hp. by destruct (Hs p sz Hp) as (? & ? & ?).
  - intros Hp. by destruct (Hh p sz Hp) as (h & _ & [? _ _ _] & _).
  - intros Hp. by destruct (Hs p sz Hp) as (? & ? & ?).
  - intros m Hp Hm. destruct (Hh p sz Hp) as (h & ? & [_ Hm' ? ?] & ?). exists h. split_and!; [done|congruence|done|done|done].
Qed.

Definition amd_register (p size h : Z) (t : tables) : tables :=
  MkTables (<[p := size]> (am t)) (<[p := 1]> (am_type t)) (<[p := h]> (handle_map t)).

Lemma amd_inv_new w w' p h sz : amd_inv w → 0 < sz ≤ 2 ^ 62 → sz mod VMM_GRANULE_SIZE = 0 →
  a_tabs w' = a_tabs w → a_device w' = a_device w → new_block (aview w) 0 sz p h (aview w') →
  amd_inv (set_atabs (amd_register p sz h (a_tabs w)) w').
Proof.
  intros [Hwf Hhm Hh Hd Hq] Hsz Hmod Ht Hdev [Hpool [Hp Hpm] (Hpr & Hpmap & Hph & Hun) Hdj (m & Hm & Hv)].
  destruct (take_from_free 0 sz _ Hpool) as [_ Hpool'].
  assert (Hheld : ∀ q n, am (amd_register p sz h (a_tabs w)) !! q = Some n → 0 < q ∧ q mod VMM_GRANULE_SIZE = 0 ∧
    ∃ k, handle_map (amd_register p sz h (a_tabs w)) !! q = Some k ∧ held (aview w') 0 q n k ∧
      is_Some (dv_free (aview w') !! 0)).
  { simpl. intros q n Hq'. rewrite Hv. apply lookup_insert_Some in Hq' as [[<- <-]|[Hne Hq']].
    - split_and!; [done|done|]. exists h. rewrite lookup_insert_eq. split; [done|]. split; [|done].
      split; simpl; rewrite ?lookup_insert_eq; try done. intros q m' [[? ?]|[_ Hm']]%lookup_insert_Some He; [done|].
      exfalso. by eapply Hun.
    - destruct (Hh q n Hq') as (? & ? & k & Hk & [R1 R2 R3 R4] & _). split_and!; [done|done|]. exists k.
      assert (Hkh : k ≠ h) by (intros ->; congruence). rewrite lookup_insert_ne by done. split; [done|]. split; [|done].
      split; simpl; rewrite ?lookup_insert_ne by done; try done.
      intros q' m' [[<- <-]|[_ Hm']]%lookup_insert_Some He; [by simpl in He|by eapply R4]. }
  assert (Hhome : on_device_0 (set_atabs (amd_register p sz h (a_tabs w)) w')).
  { split; simpl; [rewrite Hdev; apply Hhm|]. unfold aview in *. simpl. rewrite Hv. apply Hhm. }
  split; simpl.
  - unfold amd_wf. rewrite (proj1 Hhome). apply amd_wf_held.
    + simpl. intros q n [[<- <-]|[Hne Hq']]%lookup_insert_Some; [by rewrite lookup_insert_eq|].
      rewrite lookup_insert_ne by done. destruct (aw_size _ _ _ Hwf q n Hq'). pose proof (aw_type _ _ _ Hwf q n Hq'). done.
    + intros q n Hq'. by destruct (Hheld q n Hq') as (_ & _ & ?).
  - exact Hhome.
  - exact Hheld.
  - unfold aview in *. simpl. rewrite Hv. simpl. intros q q' n n' Hn Hn' Hne.
    apply lookup_insert_Some in Hn as [[<- <-]|[Hne1 Hn]];
      apply lookup_insert_Some in Hn' as [[<- <-]|[Hne2 Hn']]; try done.
    + by apply (Hdj q').
    + destruct (Hdj q n Hn); [by right|by left].
    + by eapply (Hd q q').
  - unfold aview in *. simpl. by rewrite Hv.
Qed.

Lemma amd_inv_freed w w' p h sz m : amd_inv w → held (aview w) 0 p sz h → is_Some (dv_free (aview w) !! 0) → am (a_tabs w) !! p = Some sz →
  a_tabs w' = MkTables (delete p (am (a_tabs w))) (delete p (am_type (a_tabs w))) (delete p (handle_map (a_tabs w))) →
  a_device w' = a_device w → aview w' = dropped (aview w) 0 p sz h m → amd_inv w'.
Proof.
  intros [Hwf Hhm Hh Hd Hq] Hp Hpool Hsz Ht Hdev Hv. destruct (give_back_free sz 0 _ Hpool) as [_ Hpool'].
  assert (Hhome : on_device_0 w') by (split; [rewrite Hdev; apply Hhm|rewrite Hv; apply Hhm]).
  assert (Hheld : ∀ q n, am (a_tabs w') !! q = Some n → 0 < q ∧ q mod VMM_GRANULE_SIZE = 0 ∧
    ∃ k, handle_map (a_tabs w') !! q = Some k ∧ held (aview w') 0 q n k ∧ is_Some (dv_free (aview w') !! 0)).
  { rewrite Ht, Hv. simpl. intros q n [Hne Hq']%lookup_delete_Some. destruct (Hh q n Hq') as (? & ? & k & Hk & Hhd & _).
    pose proof (held_apart _ _ _ _ _ _ _ _ Hp Hhd Hne) as Hhk. destruct Hhd as [R1 R2 R3 R4].
    split_and!; [done|done|]. exists k. rewrite lookup_delete_ne by done. split; [done|]. split; [|done].
    split; simpl; rewrite ?lookup_delete_ne by done; try done. intros q' m' [_ Hm']%lookup_delete_Some. by apply R4. }
  split.
  - unfold amd_wf. rewrite (proj1 Hhome). apply amd_wf_held; [|intros q n Hq'; by destruct (Hheld q n Hq') as (_ & _ & ?)].
    rewrite Ht. simpl. intros q n [Hne Hq']%lookup_delete_Some. rewrite lookup_delete_ne by done.
    destruct (aw_size _ _ _ Hwf q n Hq'). pose proof (aw_type _ _ _ Hwf q n Hq'). done.
  - exact Hhome.
  - exact Hheld.
  - rewrite Hv. simpl. intros q q' n n' [_ Hn]%lookup_delete_Some [_ Hn']%lookup_delete_Some. by apply Hd.
  - by rewrite Hv.
Qed.

Lemma hcall_pure {A} (m : M D A) (w : amd D) (Q : A → amd D → Prop) : pure_call m (a_drv w) →
  (∀ r d', drv_view d' = drv_view (a_drv w) → Q r (set_adrv d' w)) → wp (hcall m) Q w.
Proof. intros (r & d' & Hm & Hv) HQ. apply wp_zoom. eapply wp_intro; [exact Hm|]. by apply HQ. Qed.

(** What [hipMalloc] does: on an error nothing is kept; on success one block of the aligned
    size is added and the contents of the others stay. *)
Definition hip_malloc_result (w : amd D) (size : Z) (r : Z * option Z) (w' : amd D) : Prop :=
  amd_inv w' ∧
  (r.1 ≠ hipSuccess → r.2 = None ∧ amd_given_back w w') ∧
  (r.1 = hipSuccess → size = 0 → r.2 = Some 0 ∧ w' = w) ∧
  (r.1 = hipSuccess → size ≠ 0 → ∃ p, r.2 = Some p ∧ am (a_tabs w) !! p = None ∧
     am (a_tabs w') = <[p := ROUND_UP_2MB size]> (am (a_tabs w)) ∧
     dev_outside p (ROUND_UP_2MB size) (dv_dev (aview w)) (dv_dev (aview w'))).

Lemma hipMalloc_wp w size : amd_inv w → 0 ≤ size ≤ 2 ^ 62 → wp (hipMalloc size) (hip_malloc_result w size) w.
Proof.
  intros Hinv Hsz. unfold hipMalloc. destruct (decide (size = 0)) as [->|Hne].
  { rewrite bool_decide_eq_true_2 by done. apply wp_ret. by split_and!. }
  rewrite bool_decide_eq_false_2 by done. destruct (ROUND_UP_2MB_bounds size ltac:(lia)) as [Hrb Hrm].
  pose proof Hinv as [Hwf [Hdv Hcur] Hh Hd Hq].
  destruct (ctxGetDevice_law (a_drv w)) as (e & x & d1 & Hget & Hv1 & Hx).
  apply wp_bind, wp_zoom. eapply wp_intro; [exact Hget|].
  assert (Hdev : (if bool_decide ((e, x).1 = hipSuccess) then (e, x).2 else 0) = 0).
  { case_bool_decide as He; simpl in *; [|done]. destruct (Hx He) as [-> _]. exact Hcur. }
  rewrite Hdev. clear Hdev. apply wp_bind, wp_zoom, vmm_block_wp; [lia|simpl; by rewrite Hv1| |].
  - intros p h d2 Hnb. apply wp_bind, wp_get, wp_bind, wp_modify, wp_ret. simpl in Hnb. rewrite Hv1 in Hnb.
    pose proof Hnb as [_ _ (Hpr & _) _ (m & Hm & Hv2)].
    assert (Hnone : am (a_tabs w) !! p = None).
    { destruct (am (a_tabs w) !! p) as [sz|] eqn:E; [|done]. apply (aw_reserved _ _ _ Hwf) in E. congruence. }
    split; [|split_and!; [done|done|]].
    + apply (amd_inv_new w (set_adrv d2 w) p h); [done| |done..].
      change VMM_GRANULE_SIZE with 2097152 in *. pose proof (Z.div_mod (ROUND_UP_2MB size) 2097152 ltac:(lia)). lia.
    + intros _ _. exists p. split; [done|]. split; [done|]. split; [done|]. unfold aview. simpl. by rewrite Hv2.
  - intros err d2 He Hn. apply wp_ret. simpl in Hn. rewrite Hv1 in Hn.
    assert (G : amd_given_back w (set_adrv d2 (set_adrv d1 w))).
    { split; [done|]. split; [exact Hn|]. intros _. split; [done|]. destruct Hn as (_ & _ & Hcur').
      unfold aview. simpl. by rewrite Hcur'. }
    split; [by eapply amd_inv_given_back|]. by split_and!; intros.
Qed.

Lemma hipFree_wp w p : amd_inv w →
  wp (hipFree p) (λ r w', amd_inv w' ∧ (p ≠ 0 → am (a_tabs w') = delete p (am (a_tabs w))) ∧
    ∀ q sz a, q ≠ p → am (a_tabs w) !! q = Some sz → q ≤ a < q + sz → dv_dev (aview w') a = dv_dev (aview w) a) w.
Proof.
  intros Hinv. pose proof Hinv as [Hwf Hhm Hh Hd Hq]. unfold hipFree.
  destruct (decide (p = 0)) as [->|Hp]; [rewrite bool_decide_eq_true_2 by done; by apply wp_ret|].
  rewrite bool_decide_eq_false_2 by done. apply wp_bind, wp_get. destruct (am (a_tabs w) !! p) as [sz|] eqn:Hsz.
  - destruct (Hh p sz Hsz) as (_ & _ & h & Hhp & Hhd & Hpool). rewrite Hhp.
    apply wp_bind, wp_bind, wp_zoom, (vmm_drop_wp _ 0); [exact Hhd|exact Hq|]. intros d1 m Hm Hv.
    apply wp_modify, wp_bind, wp_modify, wp_ret. split; [|split; [done|]].
    + by eapply (amd_inv_freed w _ p h sz m).
    + intros q n a Hne Hn Ha. unfold aview. simpl. rewrite Hv. simpl. apply Hm.
      pose proof (Hd p q _ _ (hd_reserved _ _ _ _ _ Hhd) (aw_reserved _ _ _ Hwf q n Hn) ltac:(done)) as Hdj.
      unfold disjoint_ranges in Hdj. lia.
  - apply hcall_pure; [apply real_free_law|]. intros r d Hv. split; [|split].
    + apply (amd_inv_given_back w); [done|]. split; [done|].
      unfold on_device_0, aview, none_kept. simpl. by rewrite Hv.
    + intros _. simpl. by rewrite delete_id.
    + intros. unfold aview. simpl. by rewrite Hv.
Qed.

(** Any sequence of hook calls. *)
Inductive hip_call := HipMalloc (size : Z) | HipFree (ptr : Z).

Definition run_hip (c : hip_call) : M (amd D) unit :=
  match c with
  | HipMalloc size => _ ← hipMalloc size; mret tt
  | HipFree ptr => _ ← hipFree ptr; mret tt
  end.
Definition run_hips (cs : list hip_call) : M (amd D) unit := foldM (λ _ c, run_hip c) tt cs.

Definition hip_valid (c : hip_call) : Prop := match c with HipMalloc size => 0 ≤ size ≤ 2 ^ 62 | HipFree _ => True end.

Lemma run_hips_wp cs w : Forall hip_valid cs → amd_inv w → wp (run_hips cs) (λ _, amd_inv) w.
Proof.
  intros Hv Hinv. eapply (wp_foldM (λ _ _, amd_inv)); [done|].
  intros pre c post [] w1 -> I1. apply Forall_app in Hv as [_ Hv]. apply Forall_cons in Hv as [Hc _].
  destruct c as [size|ptr]; simpl; apply wp_bind.
  - eapply wp_mono; [by apply hipMalloc_wp|]. intros r w2 [I2 _]. by apply wp_ret.
  - eapply wp_mono; [by apply hipFree_wp|]. intros r w2 [I2 _]. by apply wp_ret.
Qed.

(** A process that has not allocated anything. *)
Definition amd_start (d : D) : amd D := MkAmd d (MkTables ∅ ∅ ∅) 0 false.

Lemma amd_inv_start d : dv_queue (drv_view d) = [] → dv_reserved (drv_view d) = ∅ → dv_current (drv_view d) = 0 →
  amd_inv (amd_start d).
Proof.
  intros Hq Hr Hc. split; [split|done| | |done]; unfold aview; simpl; intros *; by rewrite ?Hr, lookup_empty.
Qed.

(** ** A checkpoint of such a process *)

Definition amd_process (w : amd D) (f : shared_mem_fs) : vstate (amd D) := MkV w f false false.

Lemma amd_allocs_ok w : amd_inv w → allocs_ok (gpu_view w).
Proof.
  intros [Hwf _ Hh _ _] p sz Hsz. destruct (Hh p sz Hsz) as (? & ? & h & _ & [_ Hm _ _] & _).
  destruct (aw_size _ _ _ Hwf p sz Hsz) as [Hs Hmod]. split; [split_and!; [lia|done|lia..]|].
  simpl in *. rewrite lookup_backed_of. unfold aview in Hm. rewrite Hm. simpl.
  f_equal. symmetry. apply ROUND_UP_2MB_multiple; [lia|exact Hmod].
Qed.

Lemma amd_checkpointable e w f : env_ok e → amd_inv w → 0 ≤ g_free (gpu_view w) →
  length (files f) = Z.to_nat MAX_FILE_NUM → fits e (ckpt_blocks (am (a_tabs w))) →
  checkpointable e (ckpt_blocks (am (a_tabs w))) (amd_process w f).
Proof.
  intros He Hinv Hfree Hlen Hfit. pose proof Hinv as [Hwf _ Hh Hd Hq].
  split; [done|by split|by apply amd_allocs_ok|done| |done].
  apply blocks_disjoint_keys; [rewrite ckpt_blocks_fst; apply NoDup_map_entries|].
  intros p s q t (sz & Hsz & ->)%elem_of_ckpt_blocks (sz' & Hsz' & ->)%elem_of_ckpt_blocks Hne.
  assert (Hal : ∀ p sz, am (a_tabs w) !! p = Some sz → ROUND_UP_2MB sz = sz) by (intros *; by apply amd_round).
  rewrite (Hal p sz Hsz), (Hal q sz' Hsz'). apply (Hd p q); [by apply (aw_reserved _ _ _ Hwf)..|done].
Qed.
End AmdHooks.

(** ** Theorems *)

(** C15: the AMD class implements the interface of the checkpointer. On a driver that maps and sets access
    without failing, every operation of [amd] does what [GPULaws] promises: in particular a released
    block keeps its addresses, a remapped one is backed again by its aligned size, and the tables agree
    with the driver after each of them. *)
Theorem amd_implements_GPU {D} `{DriverLaws D} : Reliable D → GPULaws (amd D).
Proof. intros HR. exact amd_laws. Qed.

(** C16: a process on the AMD backend gets its memory back. Whatever [hipMalloc] and [hipFree] calls a fresh
    process makes, they all return, the blocks it is left with are aligned, held and apart, and if they
    fit, a checkpoint gives all physical memory up and a restore puts every byte of every
    block back.  The application works on device 0: the class creates memory on its [device_], which is 0, and the
    hook on the current device, see [amd_wrong_device]. *)
Theorem amd_process_roundtrip {D} `{DriverLaws D} {HR : Reliable D} (d : D) (cs : list hip_call) (f : shared_mem_fs) (e : env) :
  dv_queue (drv_view d) = [] → dv_reserved (drv_view d) = ∅ → dv_current (drv_view d) = 0 → Forall hip_valid cs →
  env_ok e → length (files f) = Z.to_nat MAX_FILE_NUM →
  ∃ w, run_hips cs (amd_start d) = Ret tt w ∧ amd_inv w ∧
    (0 ≤ g_free (gpu_view w) → fits e (ckpt_blocks (am (a_tabs w))) →
     ∃ t s1, ckpt e (amd_process w f) = Ret t s1 ∧
       (∀ p, is_Some (am (a_tabs w) !! p) → g_backed (gpu_view (vgpu s1)) !! p = None) ∧
       ∀ s2, resumed e s1 s2 →
         ∃ s3, restore_ptr_and_content e s2 = Ret t s3 ∧
           ∀ p sz a, am (a_tabs w) !! p = Some sz → p ≤ a < p + sz →
             g_dev (gpu_view (vgpu s3)) a = dv_dev (aview w) a).
Proof.
  intros Hq Hr Hc Hv He Hlen.
  destruct (wp_elim _ _ _ (run_hips_wp cs (amd_start d) Hv (amd_inv_start d Hq Hr Hc))) as ([] & w & Hrun & Hinv).
  exists w. split; [done|]. split; [done|]. intros Hfree Hfit.
  destruct (roundtrip_full e (amd_process w f) (amd_checkpointable e w f He Hinv Hfree Hlen Hfit)) as (s1 & Hck & Hp & Hres).
  eexists _, s1. split; [exact Hck|]. split.
  - intros p Hin. rewrite (pk_backed _ _ _ Hp), lookup_unback, decide_True; [done|]. by apply elem_of_keys.
  - intros s2 Hrm. destruct (Hres s2 Hrm) as (s3 & Hrs & Hre). exists s3. split; [exact Hrs|].
    intros p sz a Hsz Ha. rewrite (rd_data _ _ _ _ Hre p (ROUND_UP_2MB sz) a); [done| |].
    + apply elem_of_ckpt_blocks. by exists sz.
    + by rewrite (amd_round w p sz (ai_wf _ Hinv) Hsz).
Qed.

(** ** Concrete instances *)

Lemma amd_implements_GPU_witness : GPULaws (amd sim).
Proof. exact (amd_implements_GPU sim_reliable). Defined.

Definition ex_hips : list hip_call := [HipMalloc 3000000; HipMalloc 100; HipMalloc 0; HipFree 7; HipMalloc 5000000; HipFree 4194304].

(** Two blocks are left. *)
Example ex_hips_blocks : match run_hips ex_hips (amd_start ex_driver) with
  | Ret _ w => map_entries (am (a_tabs w))
  | _ => []
  end = [(16777216, 2097152); (52428800, 6291456)].
Proof. vm_compute. reflexivity. Qed.

(** What the blocks of the example take fits the default dump file. *)
Lemma ex_hips_fit : match run_hips ex_hips (amd_start ex_driver) with
  | Ret _ w => am (a_tabs w) !! 16777216 = Some 2097152 ∧ 0 ≤ g_free (gpu_view w) ∧ fits ex_env (ckpt_blocks (am (a_tabs w)))
  | _ => False
  end.
Proof. cut (fits ex_env [(16777216, 2097152); (52428800, 6291456)]); [vm_compute; intros H; split_and!; [done|congruence|exact H]|].
  split; vm_compute; congruence.
Qed.

Lemma amd_process_roundtrip_witness : ∃ w t s1, run_hips ex_hips (amd_start ex_driver) = Ret tt w ∧
  ckpt ex_env (amd_process w ex_fs) = Ret t s1 ∧ g_backed (gpu_view (vgpu s1)) !! 16777216 = None.
Proof.
  destruct (amd_process_roundtrip (HR:=sim_reliable) ex_driver ex_hips ex_fs ex_env) as (w & Hr & _ & Hrt);
    [done|done|done|repeat constructor; vm_compute; congruence|exact ex_env_ok|exact ex_files|].
  pose proof ex_hips_fit as Hf. rewrite Hr in Hf. destruct Hf as (H1 & H2 & H3).
  destruct (Hrt H2 H3) as (t & s1 & Hck & Hb & _). exists w, t, s1. split; [exact Hr|]. split; [exact Hck|].
  apply Hb. by exists 2097152.
Defined.

(** ** The wrong device *)

(** The devices that hold the physical memory of a process. *)
Definition devices_used (v : dview) : list Z := (λ x, ph_dev x.2) <$> map_entries (dv_handles v).

(** An application that works on device 1 gets its memory there.  The restore creates it on device 0: without room there
    it ends the process, with room the block comes back on the other device. *)
Definition wrong_device_run (free0 : Z) : list Z * outcome (vstate (amd sim)) Z :=
  match run_hips [HipMalloc 100] (amd_start (sim_two free0 (2 ^ 30) (λ _, 0) (λ a, a mod 256))) with
  | Ret _ w => (devices_used (aview w), (
     _ ← ckpt ex_env; restore_ptr_and_content ex_env) (amd_process w ex_fs))
  | _ => ([], Exit 0 (amd_process (amd_start ex_driver) ex_fs))
  end.

Theorem amd_wrong_device :
  (∃ s, wrong_device_run 0 = ([1], Exit (-1) s)) ∧
  (∃ t s, wrong_device_run (2 ^ 30) = ([1], Ret t s) ∧ devices_used (aview (vgpu s)) = [0]).
Proof.
  split.
  - assert (H : match wrong_device_run 0 with (l, Exit c _) => bool_decide (l = [1] ∧ c = -1) | _ => false end = true)
      by (vm_compute; reflexivity).
    destruct (wrong_device_run 0) as [l [t s|c s|why s]]; [done| |done].
    apply bool_decide_eq_true in H as [-> ->]. by exists s.
  - assert (H : match wrong_device_run (2 ^ 30) with
                | (l, Ret _ s) => bool_decide (l = [1] ∧ devices_used (aview (vgpu s)) = [0])
                | _ => false end = true) by (vm_compute; reflexivity).
    destruct (wrong_device_run (2 ^ 30)) as [l [t s|c s|why s]]; [|done|done].
    apply bool_decide_eq_true in H as [-> Hs]. by exists t, s.
Qed.
