(* ===== verification/Copies.v ===== *)
(** Batches of copies between the host and the device.

    What a list of device-to-host (or host-to-device) copies leaves in memory when
    the destination ranges of different copies do not meet, and why a batch out
    followed by a batch in, in any order, gives the device its bytes back. *)
From S2P Require Import Prelude Common Gpu.
Open Scope Z_scope.

Abbreviation run_all hd xs := (foldl run_xfer hd xs).

Definition all_kind (k : GPUMemcpyKind) (xs : list xfer) : Prop := ∀ x, x ∈ xs → x_kind x = k.

(** Different copies write to different places. *)
Definition apart (xs : list xfer) : Prop :=
  ∀ x y, x ∈ xs → y ∈ xs → x = y ∨ disjoint_ranges (x_dst x) (x_n x) (x_dst y) (x_n y).

Lemma all_kind_app k xs ys : all_kind k (xs ++ ys) ↔ all_kind k xs ∧ all_kind k ys.
Proof. unfold all_kind. set_solver. Qed.

Lemma apart_app_l xs ys : apart (xs ++ ys) → apart xs.
Proof. intros H x y Hx Hy. apply H; set_solver. Qed.

(** ** Device to host *)

Lemma run_out_dev xs : ∀ hd, all_kind DeviceToHost xs → (run_all hd xs).2 = hd.2.
Proof.
  induction xs as [|x xs IH]; intros [h d] Hk; [done|]. simpl.
  rewrite IH by (intros y Hy; apply Hk; set_solver).
  unfold run_xfer. by rewrite (Hk x) by set_solver.
Qed.

Lemma run_out_frame xs hd a : all_kind DeviceToHost xs →
  (∀ x, x ∈ xs → ¬ (x_dst x ≤ a < x_dst x + x_n x)) → (run_all hd xs).1 a = hd.1 a.
Proof.
  revert hd. induction xs as [|x xs IH]; intros [h d] Hk Ha; [done|]. simpl.
  rewrite IH; [|intros y Hy; apply Hk; set_solver|intros y Hy; apply Ha; set_solver].
  unfold run_xfer. rewrite (Hk x) by set_solver. simpl. apply copy_out, Ha. set_solver.
Qed.

Lemma run_out_at xs hd x j : all_kind DeviceToHost xs → apart xs → x ∈ xs → 0 ≤ j < x_n x →
  (run_all hd xs).1 (x_dst x + j) = hd.2 (x_src x + j).
Proof.
  induction xs as [|y xs IH] using rev_ind; intros Hk Hs Hx Hj; [by apply elem_of_nil in Hx|].
  rewrite foldl_app. simpl. apply all_kind_app in Hk as [Hk Hy].
  pose proof (run_out_dev xs hd Hk) as Hdev.
  destruct (run_all hd xs) as [h d] eqn:Hr. simpl in Hdev. subst d.
  unfold run_xfer. rewrite (Hy y) by set_solver. simpl.
  destruct (decide (x_dst y ≤ x_dst x + j < x_dst y + x_n y)) as [Hin|Hout].
  - rewrite copy_in by done.
    destruct (Hs x y ltac:(set_solver) ltac:(set_solver)) as [->|Hd]; [f_equal; lia|].
    unfold disjoint_ranges in Hd. lia.
  - rewrite copy_out by done. apply elem_of_app in Hx as [Hx|Hx%list_elem_of_singleton].
    + apply IH; [done|by eapply apart_app_l|done|done].
    + subst. lia.
Qed.

(** ** Host to device *)

Lemma run_in_host xs : ∀ hd, all_kind HostToDevice xs → (run_all hd xs).1 = hd.1.
Proof.
  induction xs as [|x xs IH]; intros [h d] Hk; [done|]. simpl.
  rewrite IH by (intros y Hy; apply Hk; set_solver).
  unfold run_xfer. by rewrite (Hk x) by set_solver.
Qed.

Lemma run_in_frame xs hd a : all_kind HostToDevice xs →
  (∀ x, x ∈ xs → ¬ (x_dst x ≤ a < x_dst x + x_n x)) → (run_all hd xs).2 a = hd.2 a.
Proof.
  revert hd. induction xs as [|x xs IH]; intros [h d] Hk Ha; [done|]. simpl.
  rewrite IH; [|intros y Hy; apply Hk; set_solver|intros y Hy; apply Ha; set_solver].
  unfold run_xfer. rewrite (Hk x) by set_solver. simpl. apply copy_out, Ha. set_solver.
Qed.

Lemma run_in_at xs hd x j : all_kind HostToDevice xs → apart xs → x ∈ xs → 0 ≤ j < x_n x →
  (run_all hd xs).2 (x_dst x + j) = hd.1 (x_src x + j).
Proof.
  induction xs as [|y xs IH] using rev_ind; intros Hk Hs Hx Hj; [by apply elem_of_nil in Hx|].
  rewrite foldl_app. simpl. apply all_kind_app in Hk as [Hk Hy].
  pose proof (run_in_host xs hd Hk) as Hhost.
  destruct (run_all hd xs) as [h d] eqn:Hr. simpl in Hhost. subst h.
  unfold run_xfer. rewrite (Hy y) by set_solver. simpl.
  destruct (decide (x_dst y ≤ x_dst x + j < x_dst y + x_n y)) as [Hin|Hout].
  - rewrite copy_in by done.
    destruct (Hs x y ltac:(set_solver) ltac:(set_solver)) as [->|Hd]; [f_equal; lia|].
    unfold disjoint_ranges in Hd. lia.
  - rewrite copy_out by done. apply elem_of_app in Hx as [Hx|Hx%list_elem_of_singleton].
    + apply IH; [done|by eapply apart_app_l|done|done].
    + subst. lia.
Qed.

(** ** Consecutive offsets *)

(** The elements with the offset each gets when they are laid out one after the
    other from [o]. *)
Fixpoint with_offsets {A} (size : A → Z) (o : Z) (xs : list A) : list (A * Z) :=
  match xs with
  | [] => []
  | x :: xs' => (x, o) :: with_offsets size (o + size x) xs'
  end.

Section Offsets.
Context {A : Type} (size : A → Z).

Lemma with_offsets_app o xs ys :
  with_offsets size o (xs ++ ys) = with_offsets size o xs ++ with_offsets size (o + sum_by size xs) ys.
Proof.
  revert o. induction xs as [|x xs IH]; intros o; simpl; [by rewrite Z.add_0_r|].
  rewrite IH, Z.add_assoc. done.
Qed.

Lemma with_offsets_fst o xs : fst <$> with_offsets size o xs = xs.
Proof. revert o. induction xs as [|x xs IH]; intros o; [done|]. cbn. f_equal. apply IH. Qed.

(** Every range is inside the laid-out data, and two of them do not meet. *)
Lemma with_offsets_bounds o xs x p : (∀ x, x ∈ xs → 0 ≤ size x) → (x, p) ∈ with_offsets size o xs →
  o ≤ p ∧ p + size x ≤ o + sum_by size xs.
Proof.
  revert o. induction xs as [|y xs IH]; intros o Hs Hx; [by apply elem_of_nil in Hx|]. simpl in *.
  pose proof (sum_by_nonneg size xs ltac:(intros; apply Hs; set_solver)).
  pose proof (Hs y ltac:(set_solver)).
  apply elem_of_cons in Hx as [Heq|Hx]; [injection Heq as -> ->; unfold sum_by in *; lia|].
  specialize (IH (o + size y) ltac:(intros; apply Hs; set_solver) Hx). unfold sum_by in *. lia.
Qed.

Lemma with_offsets_apart o xs x p y q : (∀ x, x ∈ xs → 0 ≤ size x) →
  (x, p) ∈ with_offsets size o xs → (y, q) ∈ with_offsets size o xs →
  (x, p) = (y, q) ∨ disjoint_ranges p (size x) q (size y).
Proof.
  revert o. induction xs as [|z xs IH]; intros o Hs Hx Hy; [by apply elem_of_nil in Hx|]. simpl in *.
  assert (Hs' : ∀ x, x ∈ xs → 0 ≤ size x) by (intros; apply Hs; set_solver).
  pose proof (Hs z ltac:(set_solver)) as Hz. unfold disjoint_ranges.
  apply elem_of_cons in Hx as [Hx|Hx]; apply elem_of_cons in Hy as [Hy|Hy].
  - left. congruence.
  - injection Hx as -> ->. apply with_offsets_bounds in Hy; [|done]. lia.
  - injection Hy as -> ->. apply with_offsets_bounds in Hx; [|done]. lia.
  - by apply (IH (o + size z)).
Qed.

Lemma with_offsets_lookup o xs x : x ∈ xs → ∃ p, (x, p) ∈ with_offsets size o xs.
Proof.
  revert o. induction xs as [|y xs IH]; intros o Hx; [by apply elem_of_nil in Hx|]. simpl.
  apply elem_of_cons in Hx as [->|Hx]; [exists o; set_solver|].
  destruct (IH (o + size y) Hx) as [p Hp]. exists p. set_solver.
Qed.

Lemma with_offsets_elem o xs x p : (x, p) ∈ with_offsets size o xs → x ∈ xs.
Proof. intros Hx. rewrite <- (with_offsets_fst o xs). apply list_elem_of_fmap. by exists (x, p). Qed.

(** Summing on [size_t] is exact while the total fits. *)
Lemma foldl_wrap64 o xs : 0 ≤ o → (∀ x, x ∈ xs → 0 ≤ size x) → o + sum_by size xs < 2 ^ 64 →
  foldl (λ t x, wrap64 (t + size x)) o xs = o + sum_by size xs.
Proof.
  revert o. induction xs as [|x xs IH]; intros o Ho Hs Hb; simpl in *; [lia|].
  pose proof (Hs x ltac:(set_solver)).
  pose proof (sum_by_nonneg size xs ltac:(intros; apply Hs; set_solver)).
  unfold sum_by in *. rewrite wrap64_small by lia.
  rewrite IH; [lia|lia|intros; apply Hs; set_solver|lia].
Qed.

End Offsets.
