(* ===== verification/FdExchange.v ===== *)
(** Transfer of file descriptors between processes: [src/src/ipc_fd_exchange.cpp].

    The socket calls are parameters ([Sockets]); the messages on a connection are
    sequences of [int]s of four bytes and one batch of descriptors.  First the
    importing side ([uds_receive_fds]), then the exporting side: one connection
    ([serve]), the thread that accepts connections ([thread_step]) and the start
    and the stop of the server.  A call that waits for ever is [Blocked].  One round of the thread's loop is
    up to three steps; an [accept] that is under way when the server is stopped is the step that comes after the
    stop, with whatever it answers. *)
From stdpp Require Import pretty.
From S2P Require Import Prelude.
Open Scope Z_scope.

Definition UDS_MAX_FDS : Z := 64.
Definition EAGAIN : Z := 11.

Class Sockets (D : Type) := {
  socket : M D Z;                              (* the descriptor or a negative error *)
  connect : Z → string → M D Z;
  bind : Z → string → M D Z;
  listen : Z → Z → M D Z;
  accept : Z → M D (Z * Z);                    (* descriptor and errno *)
  setsockopt : Z → M D Z;                      (* the receive timeout *)
  send : Z → list Z → M D Z;                   (* bytes sent *)
  recv : Z → nat → M D (Z * list Z);           (* bytes and ints received *)
  sendmsg : Z → list Z → M D Z;                (* descriptors, as [SCM_RIGHTS] *)
  recvmsg : Z → Z → M D (Z * option (list Z)); (* bytes, and the descriptors if any *)
  fcntl_getfd : Z → M D Z;
  sclose : Z → M D unit;
  unlink : string → M D unit;
  chmod : string → Z → M D Z;
  pthread_create : M D Z
}.

Definition make_sock_path (pid : Z) : string := "/tmp/cr_ipc_fd_" +:+ pretty pid +:+ ".sock".

Section Client.
Context {D : Type} {S : Sockets D}.

(** At most [attempts] connections are tried; [None] when there is no socket. *)
Fixpoint connect_retry (attempts : nat) (path : string) : M D (option Z) :=
  match attempts with
  | O => mret None
  | Datatypes.S attempts' =>
      sock_fd ← socket;
      if bool_decide (sock_fd < 0) then mret None else
      r ← connect sock_fd path;
      if bool_decide (r = 0) then mret (Some sock_fd) else
      _ ← sclose sock_fd;
      connect_retry attempts' path
  end.

(** The descriptors of the message go to the buffer [fds] of the caller. *)
Definition recv_fds (conn_fd : Z) (fds : list Z) (num_fds : Z) : M D (Z * list Z) :=
  r ← recvmsg conn_fd num_fds;
  if bool_decide (r.1 < 0) then mret (-1, fds) else
  match r.2 with
  | None => mret (-1, fds)
  | Some got =>
      let copy_count := Nat.min (length got) (Z.to_nat num_fds) in
      if bool_decide (length fds < copy_count)%nat then fail OutOfBounds else
      mret (Z.of_nat copy_count, take copy_count got ++ drop copy_count fds)
  end.

Definition uds_receive_fds (peer_pid : Z) (peer_fds local_fds : list Z) : M D (Z * list Z) :=
  let num_fds := Z.of_nat (length peer_fds) in
  if bool_decide (num_fds ≤ 0 ∨ UDS_MAX_FDS < num_fds) then mret (-1, local_fds) else
  c ← connect_retry 20 (make_sock_path peer_pid);
  match c with
  | None => mret (-1, local_fds)
  | Some sock_fd =>
      n ← send sock_fd [num_fds];
      if bool_decide (n ≠ 4) then _ ← sclose sock_fd; mret (-1, local_fds) else
      n ← send sock_fd peer_fds;
      if bool_decide (n ≠ 4 * num_fds) then _ ← sclose sock_fd; mret (-1, local_fds) else
      r ← recv sock_fd 1;
      let send_count := default 0 (head r.2) in
      if bool_decide (r.1 ≠ 4 ∨ send_count ≤ 0) then _ ← sclose sock_fd; mret (-1, local_fds) else
      received ← recv_fds sock_fd local_fds send_count;
      _ ← sclose sock_fd;
      mret received
  end.

End Client.

Section Server.
Context {D : Type} {S : Sockets D}.

(** One accepted connection: the request, the count, the descriptors. *)
Definition serve (conn_fd : Z) : M D unit :=
  r ← recv conn_fd 1;
  let num_fds := default 0 (head r.2) in
  if bool_decide (r.1 ≠ 4 ∨ num_fds ≤ 0 ∨ UDS_MAX_FDS < num_fds) then sclose conn_fd else
  q ← recv conn_fd (Z.to_nat num_fds);
  if bool_decide (q.1 ≠ 4 * num_fds) then sclose conn_fd else
  let requested_fds := q.2 in
  _ ← foldM (λ _ fd, _ ← fcntl_getfd fd; mret tt) tt requested_fds;
  _ ← send conn_fd [num_fds];
  _ ← sendmsg conn_fd requested_fds;
  sclose conn_fd.

Record UdsServerCtx := MkServer { listen_fd : Z; running : bool; sock_path : string }.

(** Where the server thread is: at the head of its loop, after [accept] returned a
    connection, or gone.  [None] in the state: it was never created. *)
Inductive thread_pc := AtHead | Accepting | Accepted (conn_fd : Z) | Exited.

Record fdx := MkFdx { kern : D; g_server : UdsServerCtx; thread : option thread_pc }.

Definition sys {A} (m : M D A) : M fdx A := zoom kern (λ d s, MkFdx d (g_server s) (thread s)) m.
Definition set_server (g : UdsServerCtx → UdsServerCtx) : M fdx unit :=
  modify (λ s, MkFdx (kern s) (g (g_server s)) (thread s)).
Definition set_thread (t : option thread_pc) : M fdx unit :=
  modify (λ s, MkFdx (kern s) (g_server s) t).

(** One step of [uds_server_thread]: it reads [running] at the head of the loop and
    after a failed [accept]. *)
Definition thread_step : M fdx unit :=
  t ← get thread;
  match t with
  | None | Some Exited => mret tt
  | Some AtHead =>
      r ← get (λ s, running (g_server s));
      set_thread (Some (if r : bool then Accepting else Exited))
  | Some Accepting =>
      fd ← get (λ s, listen_fd (g_server s));
      _ ← sys (setsockopt fd);
      r ← sys (accept fd);
      if bool_decide (0 ≤ r.1) then set_thread (Some (Accepted r.1)) else
      if bool_decide (r.2 = EAGAIN) then set_thread (Some AtHead) else
      run ← get (λ s, running (g_server s));
      set_thread (Some (if run : bool then AtHead else Exited))
  | Some (Accepted conn_fd) =>
      _ ← sys (serve conn_fd);
      set_thread (Some AtHead)
  end.

Definition with_listen (fd : Z) (g : UdsServerCtx) := MkServer fd (running g) (sock_path g).
Definition with_running (b : bool) (g : UdsServerCtx) := MkServer (listen_fd g) b (sock_path g).
Definition with_path (p : string) (g : UdsServerCtx) := MkServer (listen_fd g) (running g) p.

Definition uds_fd_server_start (my_pid : Z) : M fdx Z :=
  g ← get g_server;
  if running g then mret 0 else
  let path := make_sock_path my_pid in
  _ ← set_server (with_path path);
  _ ← sys (unlink path);
  fd ← sys socket;
  _ ← set_server (with_listen fd);
  if bool_decide (fd < 0) then mret (-1) else
  r ← sys (bind fd path);
  if bool_decide (r < 0) then
    _ ← sys (sclose fd); _ ← set_server (with_listen (-1)); mret (-1)
  else
  r ← sys (listen fd 8);
  if bool_decide (r < 0) then
    _ ← sys (sclose fd); _ ← sys (unlink path); _ ← set_server (with_listen (-1)); mret (-1)
  else
  _ ← sys (chmod path 511);
  _ ← set_server (with_running true);
  r ← sys pthread_create;
  if bool_decide (r ≠ 0) then
    _ ← set_server (with_running false);
    _ ← sys (sclose fd); _ ← sys (unlink path); _ ← set_server (with_listen (-1)); mret (-1)
  else
  _ ← set_thread (Some AtHead);
  mret 0.

(** [pthread_join]: the other thread runs until it is gone. *)
Definition pthread_join (fuel : nat) : M fdx unit :=
  iter fuel (λ _, t ← get thread;
                  match t with
                  | None | Some Exited => mret (inr tt)
                  | _ => _ ← thread_step; mret (inl tt)
                  end) tt.

Definition uds_fd_server_stop (fuel : nat) : M fdx unit :=
  g ← get g_server;
  if negb (running g) then mret tt else
  _ ← set_server (with_running false);
  _ ← (if bool_decide (0 ≤ listen_fd g) then
         _ ← sys (sclose (listen_fd g)); set_server (with_listen (-1))
       else mret tt);
  _ ← pthread_join fuel;
  path ← get (λ s, sock_path (g_server s));
  if bool_decide (path = ""%string) then mret tt else
  _ ← sys (unlink path);
  set_server (with_path "").

End Server.
Arguments fdx : clear implicits.
