(* ===== verification/FdFacts.v ===== *)
(** Correctness of the descriptor exchange.

    [net] is the kernel between an importing and an exporting process: two
    descriptor tables that map descriptors to open files, the socket files, and the bytes and the
    descriptors in flight.  The reader's first [recv] runs the exporter's [serve] on
    what was sent, so both sides of the protocol run against each other.  The importer's table is
    bounded, as [RLIMIT_NOFILE] bounds it: a batch of descriptors that does not fit is cut.

    The second half is the life of the server: what its calls need to come back ([SockReturns],
    [TalkingPeers]) and what they do to the sockets and the socket files ([ServerKernel]). *)
From S2P Require Import Prelude Frames FdExchange.
Open Scope Z_scope.

Record net := MkNet {
  cl : gmap Z Z;              (* the importer: descriptor to file *)
  cl_max : nat;               (* how many descriptors it may have *)
  sv : gmap Z Z;              (* the exporter *)
  sv_files : gset string;     (* the socket files with a listener *)
  to_sv : list Z;
  to_cl : list Z;
  rights : option (list Z);   (* files in flight *)
  served : bool
}.

Definition set_sv (m : gmap Z Z) (n : net) := MkNet (cl n) (cl_max n) m (sv_files n) (to_sv n) (to_cl n) (rights n) (served n).
Definition set_files (f : gset string) (n : net) :=
  MkNet (cl n) (cl_max n) (sv n) f (to_sv n) (to_cl n) (rights n) (served n).
Definition set_to_sv (l : list Z) (n : net) := MkNet (cl n) (cl_max n) (sv n) (sv_files n) l (to_cl n) (rights n) (served n).
Definition set_to_cl (l : list Z) (n : net) := MkNet (cl n) (cl_max n) (sv n) (sv_files n) (to_sv n) l (rights n) (served n).
Definition set_rights (r : option (list Z)) (n : net) :=
  MkNet (cl n) (cl_max n) (sv n) (sv_files n) (to_sv n) (to_cl n) r (served n).


(** A call that is not made on this side. *)
Definition unused : M net Z := λ n, Ret (-1) n.

Definition server_side : Sockets net := {|
  socket := unused; connect _ _ := unused; bind _ _ := unused; listen _ _ := unused;
  setsockopt _ := unused; chmod _ _ := unused; pthread_create := unused; unlink _ := mret tt;
  accept _ := λ n, let fd := fresh_key (sv n) in Ret (fd, 0) (set_sv (<[fd := 0]> (sv n)) n);
  send _ l := λ n, Ret (4 * Z.of_nat (length l)) (set_to_cl (to_cl n ++ l) n);
  recv _ k := λ n, let got := take k (to_sv n) in
                   Ret (4 * Z.of_nat (length got), got) (set_to_sv (drop k (to_sv n)) n);
  sendmsg _ fds := λ n, match mapM (λ fd, sv n !! fd) fds with
                        | Some files => Ret 1 (set_rights (Some files) n)
                        | None => Ret (-1) n
                        end;
  recvmsg _ _ := λ n, Ret (-1, None) n;
  fcntl_getfd fd := λ n, Ret (if bool_decide (is_Some (sv n !! fd)) then 0 else -1) n;
  sclose fd := λ n, Ret tt (set_sv (delete fd (sv n)) n)
|}.





(** ** Facts *)















(** Two of three exported descriptors; a table with room for one of the two; a request with a closed one. *)
Definition net_with (max : nat) : net :=
  MkNet (<[3 := 30]> ∅) max (<[5 := 50]> (<[6 := 60]> (<[7 := 70]> ∅))) {["/tmp/cr_ipc_fd_42.sock"%string]} [] [] None false.
Definition ex_net : net := net_with 16.



(** ** The server *)

Definition returns {S A} (m : M S A) : Prop := ∀ s, wp m (λ _ _, True) s.

(** The socket calls that come back whatever the peers do.  [accept] is not one of them: it comes back
    when [timed] holds of the socket, that is, when it has a receive timeout or is no open
    socket.  [setsockopt] is what makes it hold. *)
Class SockReturns (D : Type) {S : Sockets D} := {
  timed : Z → D → Prop;
  setsockopt_times fd s : wp (setsockopt fd) (λ _ s', timed fd s') s;
  accept_returns fd s : timed fd s → wp (accept fd) (λ _ _, True) s;
  socket_returns : returns socket;
  connect_returns fd p : returns (connect fd p);
  bind_returns fd p : returns (bind fd p);
  listen_returns fd n : returns (listen fd n);
  send_returns fd l : returns (send fd l);
  sendmsg_returns fd l : returns (sendmsg fd l);
  fcntl_returns fd : returns (fcntl_getfd fd);
  sclose_returns fd : returns (sclose fd);
  unlink_returns p : returns (unlink p);
  chmod_returns p m : returns (chmod p m);
  pthread_create_returns : returns pthread_create
}.

(** The peers keep talking: who is at the other end of a connection sends what the protocol says or
    hangs up.  Neither end of a connection has a timeout in the source, so a read waits for that. *)
Class TalkingPeers (D : Type) {S : Sockets D} := {
  recv_returns fd n : returns (recv fd n);
  recvmsg_returns fd n : returns (recvmsg fd n)
}.

Create HintDb sock discriminated.
#[export] Hint Resolve socket_returns connect_returns bind_returns listen_returns
  send_returns recv_returns sendmsg_returns recvmsg_returns fcntl_returns sclose_returns unlink_returns chmod_returns
  pthread_create_returns : sock.

(** No peer announces more descriptors than it was asked for. *)
Definition honest_peers {D} {S : Sockets D} : Prop := ∀ fd l d d1 d2 v d3, l ≠ [] →
  send fd [Z.of_nat (length l)] d = Ret 4 d1 → send fd l d1 = Ret (4 * Z.of_nat (length l)) d2 →
  recv fd 1 d2 = Ret (4, v) d3 → default 0 (head v) ≤ Z.of_nat (length l).

Lemma returns_bind {S A B} (m : M S A) (f : A → M S B) :
  returns m → (∀ a, returns (f a)) → returns (m ≫= f).
Proof. intros Hm Hf s. apply wp_bind. eapply wp_mono; [apply Hm|]. intros a s' _. apply Hf. Qed.
Lemma returns_ret {S A} (a : A) : returns (mret a : M S A).
Proof. done. Qed.
Lemma returns_foldM {S L X} (f : L → X → M S L) xs : (∀ l x, returns (f l x)) → ∀ l, returns (foldM f l xs).
Proof.
  intros Hf. induction xs as [|x xs IH]; intros l; simpl; [apply returns_ret|]. by apply returns_bind.
Qed.
Lemma returns_if {S A} (b : bool) (m1 m2 : M S A) : returns m1 → returns m2 → returns (if b then m1 else m2).
Proof. by destruct b. Qed.

Section Request.
Context {D : Type} {S : Sockets D} {ST : SockReturns D} {TP : TalkingPeers D}.

Lemma connect_retry_returns k path : returns (connect_retry (D:=D) k path).
Proof.
  induction k as [|k IH]; [apply returns_ret|]. cbn. apply returns_bind; [auto with sock|]. intros fd.
  apply returns_if; [apply returns_ret|]. apply returns_bind; [auto with sock|]. intros r.
  apply returns_if; [apply returns_ret|]. apply returns_bind; [auto with sock|done].
Qed.

(** With room for what was announced, reading the descriptors comes back. *)
Lemma recv_fds_returns c fds n : n ≤ Z.of_nat (length fds) → returns (recv_fds (D:=D) c fds n).
Proof.
  intros Hn. apply returns_bind; [auto with sock|]. intros r. apply returns_if; [apply returns_ret|].
  destruct r.2 as [got|]; [|apply returns_ret]. cbv zeta. rewrite bool_decide_eq_false_2 by lia. apply returns_ret.
Qed.

(** A request comes back when the peers talk and are honest. *)
Lemma receive_returns pid fds buf : honest_peers (D:=D) → length buf = length fds →
  returns (uds_receive_fds (D:=D) pid fds buf).
Proof.
  intros Hpeers Hbuf. unfold uds_receive_fds. cbv zeta.
  destruct (bool_decide_reflect (Z.of_nat (length fds) ≤ 0 ∨ UDS_MAX_FDS < Z.of_nat (length fds))) as [Hn|Hn];
    [apply returns_ret|].
  apply returns_bind; [apply connect_retry_returns|]. intros [fd|]; [|apply returns_ret].
  assert (Hclose : ∀ x : Z * list Z, returns (_ ← sclose fd; mret x : M D (Z * list Z)))
    by (intros x; apply returns_bind; [auto with sock|intros; apply returns_ret]).
  intros d. apply wp_bind. destruct (wp_elim _ _ _ (send_returns fd [Z.of_nat (length fds)] d)) as (r1 & d1 & H1 & _).
  eapply wp_intro; [exact H1|]. case_bool_decide as E1; [apply Hclose|].
  apply wp_bind. destruct (wp_elim _ _ _ (send_returns fd fds d1)) as (r2 & d2 & H2 & _).
  eapply wp_intro; [exact H2|]. case_bool_decide as E2; [apply Hclose|].
  apply wp_bind. destruct (wp_elim _ _ _ (recv_returns fd 1%nat d2)) as ([r3 v] & d3 & H3 & _).
  eapply wp_intro; [exact H3|]. case_bool_decide as E3; [apply Hclose|]. cbn in E3.
  assert (Hv : default 0 (head v) ≤ Z.of_nat (length fds)).
  { assert (r1 = 4) as -> by lia. assert (r2 = 4 * Z.of_nat (length fds)) as -> by lia.
    assert (r3 = 4) as -> by lia. eapply Hpeers; [|exact H1|exact H2|exact H3]. intros ->. simpl in Hn. lia. }
  clear H3. revert d3. apply returns_bind; [apply recv_fds_returns; cbn; lia|]. intros x. apply Hclose.
Qed.

End Request.

(** A peer that announces more descriptors than were asked for, and sends them, makes the importer
    write past its array. *)
Theorem oversized_answer_overruns {D} {S : Sockets D} c fds n got r (s s' : D) :
  recvmsg c n s = Ret (r, Some got) s' → 0 ≤ r → (length fds < length got)%nat → Z.of_nat (length fds) < n →
  recv_fds c fds n s = Stuck OutOfBounds s'.
Proof.
  intros Hm Hr Hgot Hn. unfold recv_fds, mbind, M_bind. rewrite Hm. cbn.
  rewrite bool_decide_eq_false_2 by lia. by rewrite bool_decide_eq_true_2 by lia.
Qed.

(** ** What the server does to the sockets and the socket files *)

Record kview := MkKView { open_socks : gset Z; sock_files : gset string }.

(** A call that answers a new socket, or fails. *)
Definition opens (fd : Z) (v v' : kview) : Prop := sock_files v' = sock_files v ∧
  (fd < 0 ∧ open_socks v' = open_socks v ∨ 0 ≤ fd ∧ fd ∉ open_socks v ∧ open_socks v' = {[fd]} ∪ open_socks v).
Definition closed (fd : Z) (v : kview) : kview := MkKView (open_socks v ∖ {[fd]}) (sock_files v).
Definition bound (p : string) (v : kview) : kview := MkKView (open_socks v) ({[p]} ∪ sock_files v).
Definition unlinked (p : string) (v : kview) : kview := MkKView (open_socks v) (sock_files v ∖ {[p]}).

(** The sockets the process has open and the socket files that exist. *)
Class ServerKernel (D : Type) {S : Sockets D} := {
  kernel_view : D → kview;
  k_socket d : post socket (λ fd d', opens fd (kernel_view d) (kernel_view d')) d;
  k_accept fd d : post (accept fd) (λ r d', opens r.1 (kernel_view d) (kernel_view d')) d;
  k_bind fd p d : post (bind fd p) (λ r d',
    kernel_view d' = if bool_decide (r < 0) then kernel_view d else bound p (kernel_view d)) d;
  k_sclose fd d : post (sclose fd) (λ _ d', kernel_view d' = closed fd (kernel_view d)) d;
  k_unlink p d : post (unlink p) (λ _ d', kernel_view d' = unlinked p (kernel_view d)) d;
  k_listen fd n : still kernel_view (listen fd n);
  k_setsockopt fd : still kernel_view (setsockopt fd);
  k_chmod p m : still kernel_view (chmod p m);
  k_pthread_create : still kernel_view pthread_create;
  k_send fd l : still kernel_view (send fd l);
  k_recv fd n : still kernel_view (recv fd n);
  k_sendmsg fd l : still kernel_view (sendmsg fd l);
  k_fcntl fd : still kernel_view (fcntl_getfd fd)
}.
#[export] Hint Resolve k_listen k_setsockopt k_chmod k_pthread_create k_send k_recv k_sendmsg k_fcntl : still.

Section Server.
Context {D : Type} {S : Sockets D} {ST : SockReturns D} {TP : TalkingPeers D}.
Implicit Types (s : fdx D).

Lemma serve_returns c : returns (serve (D:=D) c).
Proof.
  unfold serve. apply returns_bind; [auto with sock|]. intros r. apply returns_if; [auto with sock|].
  apply returns_bind; [auto with sock|]. intros q. apply returns_if; [auto with sock|].
  apply returns_bind; [apply returns_foldM; intros; apply returns_bind; auto with sock; intros; apply returns_ret|].
  intros []. repeat (apply returns_bind; [by auto with sock|intros ?]). auto with sock.
Qed.

(** A system call leaves the server's state alone. *)
Lemma wp_sys_at {A} (m : M D A) (Q : A → fdx D → Prop) s :
  wp m (λ a d, Q a (MkFdx d (g_server s) (thread s))) (kern s) → wp (sys m) Q s.
Proof. intros H. unfold sys. apply wp_zoom. exact H. Qed.
Lemma wp_sys {A} (m : M D A) (Q : A → fdx D → Prop) s : returns m →
  (∀ a d, Q a (MkFdx d (g_server s) (thread s))) → wp (sys m) Q s.
Proof. intros Hm HQ. apply wp_sys_at. eapply wp_mono; [apply Hm|]. intros a d _. apply HQ. Qed.

Lemma wp_set_server g (Q : () → fdx D → Prop) s : Q tt (MkFdx (kern s) (g (g_server s)) (thread s)) → wp (set_server g) Q s.
Proof. done. Qed.
Lemma wp_set_thread t (Q : () → fdx D → Prop) s : Q tt (MkFdx (kern s) (g_server s) t) → wp (set_thread t) Q s.
Proof. done. Qed.

(** Steps the thread may take after [running] has been cleared. *)
Definition rank (t : option thread_pc) : nat :=
  match t with
  | None | Some Exited => 0
  | Some AtHead => 1
  | Some (Accepted _) => 2
  | Some Accepting => 3
  end.

Definition thread_gone s : Prop := thread s = None ∨ thread s = Some Exited.

Ltac sys_step := apply wp_bind, wp_sys; [auto with sock|]; intros ? ?.

Lemma thread_step_spec s : wp thread_step (λ _ s', g_server s' = g_server s ∧
  (thread s = None → thread s' = None) ∧
  (running (g_server s) = false → ¬ thread_gone s → (rank (thread s') < rank (thread s))%nat)) s.
Proof.
  unfold thread_step, thread_gone. apply wp_bind, wp_get. destruct (thread s) as [[| |c|]|] eqn:Ht.
  - apply wp_bind, wp_get, wp_set_thread. split_and!; [done|done|]. intros -> _. simpl. lia.
  - apply wp_bind, wp_get. apply wp_bind, wp_sys_at. eapply wp_mono; [apply setsockopt_times|]. intros ? d Htimed. cbv beta in Htimed.
    apply wp_bind, wp_sys_at. eapply wp_mono; [by apply accept_returns|]. intros r d' _. case_bool_decide.
    { apply wp_set_thread. split_and!; [done|done|]. simpl. lia. }
    case_bool_decide; [apply wp_set_thread; split_and!; [done|done|]; simpl; lia|].
    apply wp_bind, wp_get, wp_set_thread. split_and!; [done|done|]. simpl. intros -> _. simpl. lia.
  - apply wp_bind, wp_sys; [apply serve_returns|]. intros [] d. apply wp_set_thread.
    split_and!; [done|done|]. simpl. lia.
  - apply wp_ret. split_and!; [done|congruence|]. intros _ []. auto.
  - apply wp_ret. split_and!; [done|congruence|]. intros _ []. auto.
Qed.

Lemma pthread_join_spec fuel s : (rank (thread s) < fuel)%nat → running (g_server s) = false →
  wp (pthread_join fuel) (λ _ s', g_server s' = g_server s ∧ thread_gone s') s.
Proof.
  intros Hf Hr. unfold pthread_join.
  apply (wp_iter (λ n _ s', n = rank (thread s') ∧ g_server s' = g_server s)) with (n := rank (thread s));
    [|done|done].
  intros n [] s1 [-> Hg]. apply wp_bind, wp_get. unfold thread_gone.
  destruct (thread s1) as [[| |c|]|] eqn:Ht; try (apply wp_ret; rewrite Ht; by auto);
    (apply wp_bind; eapply wp_mono; [apply thread_step_spec|]; intros [] s2 (Hg2 & _ & Hrank); apply wp_ret;
     exists (rank (thread s2)); rewrite Hg2; split; [|done]; rewrite <- Ht; apply Hrank;
     [congruence|unfold thread_gone; rewrite Ht; by intros []]).
Qed.

Definition server_idle s : Prop :=
  running (g_server s) = false ∧ listen_fd (g_server s) < 0 ∧ thread_gone s.
Definition server_up s : Prop := running (g_server s) = true ∧ 0 ≤ listen_fd (g_server s) ∧ is_Some (thread s).

Lemma start_spec my_pid s : server_idle s →
  wp (uds_fd_server_start my_pid) (λ r s', r = 0 ∧ server_up s' ∨ r = -1 ∧ server_idle s') s.
Proof.
  intros (Hr & Hl & Ht). unfold uds_fd_server_start. apply wp_bind, wp_get. rewrite Hr.
  apply wp_bind, wp_set_server. sys_step. sys_step. apply wp_bind, wp_set_server. simpl.
  case_bool_decide; [apply wp_ret; right; by split_and!|].
  sys_step. case_bool_decide.
  { sys_step. apply wp_bind, wp_set_server, wp_ret. right. by split_and!. }
  sys_step. case_bool_decide.
  { do 2 sys_step. apply wp_bind, wp_set_server, wp_ret. right. by split_and!. }
  sys_step. apply wp_bind, wp_set_server. sys_step. case_bool_decide.
  { apply wp_bind, wp_set_server. do 2 sys_step. apply wp_bind, wp_set_server, wp_ret. right. by split_and!. }
  apply wp_bind, wp_set_thread, wp_ret. left. unfold server_up. simpl. split_and!; [done|done|lia|by eexists].
Qed.

Lemma steps_spec k s :
  wp (foldM (λ _ _, thread_step) tt (seq 0 k)) (λ _ s', g_server s' = g_server s) s.
Proof.
  apply (wp_foldM (λ _ _ s', g_server s' = g_server s)); [done|].
  intros pre x post [] s1 _ H1. eapply wp_mono; [apply thread_step_spec|]. intros [] s2 (-> & _). done.
Qed.

Lemma stop_spec s : running (g_server s) = true → 0 ≤ listen_fd (g_server s) →
  wp (uds_fd_server_stop 4) (λ _ s', server_idle s' ∧ sock_path (g_server s') = ""%string) s.
Proof.
  intros Hr Hl. unfold uds_fd_server_stop. apply wp_bind, wp_get. rewrite Hr. cbn [negb].
  apply wp_bind, wp_set_server. rewrite bool_decide_eq_true_2 by done.
  apply wp_bind, wp_bind, wp_sys; [auto with sock|]. intros [] d. apply wp_set_server. simpl.
  apply wp_bind. eapply wp_mono; [apply pthread_join_spec; [simpl; destruct (thread s) as [[]|]; simpl; lia|done]|].
  intros [] s1 [Hg Hgone]. simpl in Hg. apply wp_bind, wp_get. rewrite Hg. simpl. case_bool_decide as Hp.
  - apply wp_ret. unfold server_idle. rewrite Hg. by split_and!.
  - sys_step. apply wp_set_server. unfold server_idle. simpl. rewrite Hg. by split_and!.
Qed.

End Server.

(** ** Sockets and socket files over the life of the server *)

Section Kernel.
Context {D : Type} {S : Sockets D} {SK : ServerKernel D}.
Implicit Types (s : fdx D).
Abbreviation kv := (λ s, kernel_view (kern s)).

(** The connection the thread is serving. *)
Definition conns (t : option thread_pc) : gset Z := match t with Some (Accepted c) => {[c]} | _ => ∅ end.

(** Besides the connection being served, [O] is open; the files are [F]. *)
Definition holds (O : gset Z) (F : gset string) s : Prop :=
  open_socks (kv s) = conns (thread s) ∪ O ∧ conns (thread s) ## O ∧ sock_files (kv s) = F.

(** A system call in the middle of an operation: the server's record and thread stay. *)
Lemma post_sys {A B} (m : M D A) (R : A → D → Prop) (f : A → M (fdx D) B) (Q : B → fdx D → Prop) s :
  post m R (kern s) → (∀ a d, R a d → post (f a) Q (MkFdx d (g_server s) (thread s))) → post (sys m ≫= f) Q s.
Proof.
  unfold post, mbind, M_bind, sys, zoom. destruct (m (kern s)) as [a d| |]; [|done|done]. intros HR HQ. by apply HQ.
Qed.

Lemma serve_view c d : post (serve c) (λ _ d', kernel_view d' = closed c (kernel_view d)) d.
Proof.
  assert (Hstep : ∀ {A B} (m : M D A) (f : A → M D B) v d, kernel_view d = v → still kernel_view m →
    (∀ a d', kernel_view d' = v → post (f a) (λ _ d', kernel_view d' = closed c v) d') →
    post (m ≫= f) (λ _ d', kernel_view d' = closed c v) d).
  { intros A B m f v d0 <- Hm Hf. eapply post_bind; [apply Hm|]. intros a d' Hd. by apply Hf. }
  assert (Hclose : ∀ v d, kernel_view d = v → post (sclose c) (λ _ d', kernel_view d' = closed c v) d)
    by (intros v d0 <-; apply k_sclose).
  unfold serve. apply Hstep; [done|auto with still|]. intros r d1 H1. apply post_if; intros _; [by apply Hclose|].
  apply Hstep; [done|auto with still|]. intros q d2 H2. apply post_if; intros _; [by apply Hclose|].
  apply Hstep; [done| |].
  { intros d3. apply (post_foldM (λ d', kernel_view d' = kernel_view d3)); [|done]. intros l fd d4 H4.
    eapply post_bind; [apply k_fcntl|]. intros ? d5 H5. apply post_ret. congruence. }
  intros ? d3 H3. do 2 (apply Hstep; [done|auto with still|]; intros ? ? ?). by apply Hclose.
Qed.

Ltac sys_call law := eapply post_sys; [apply law|]; intros ? ? ?; cbn in *.

Lemma thread_step_holds O F s : holds O F s → post thread_step (λ _, holds O F) s.
Proof.
  unfold holds, thread_step. intros (Ho & Hd & Hf). apply post_get_bind.
  destruct (thread s) as [[| |c|]|] eqn:Ht; cbn [conns] in Ho, Hd.
  - apply post_get_bind. unfold post. cbn. by destruct (running _).
  - apply post_get_bind. sys_call k_setsockopt. sys_call k_accept. destruct H0 as [Hf' Hop].
    rewrite H in *. case_bool_decide as Hr.
    + destruct Hop as [[? _]|(_ & Hnew & Hop)]; [lia|]. unfold post. cbn. rewrite Hop, Hf', Ho in *.
      rewrite (left_id_L ∅ (∪)) in *. split_and!; [done| |done]. by apply disjoint_singleton_l.
    + destruct Hop as [[_ Hop]|[? _]]; [|lia]. case_bool_decide; [|apply post_get_bind; cbn; destruct (running _)];
      unfold post; cbn; by rewrite Hop, Hf'.
  - sys_call serve_view. unfold post. cbn. rewrite H. cbn. rewrite Ho. split_and!; [|apply disjoint_empty_l|done].
    apply disjoint_singleton_l in Hd. rewrite (left_id_L ∅ (∪)), difference_union_distr_l_L, difference_diag_L, (left_id_L ∅ (∪)).
    apply difference_disjoint_L. by apply disjoint_singleton_r.
  - unfold post. cbn. by rewrite Ht.
  - unfold post. cbn. by rewrite Ht.
Qed.

Lemma kview_eq v v' : open_socks v = open_socks v' → sock_files v = sock_files v' → v = v'.
Proof. destruct v, v'. cbn. by intros -> ->. Qed.
Lemma opened_eq fd v v' : opens fd v v' → 0 ≤ fd → fd ∉ open_socks v ∧ v' = MkKView ({[fd]} ∪ open_socks v) (sock_files v).
Proof. destruct v'. intros [Hf [[? _]|(_ & ? & Ho)]] ?; cbn in *; [lia|]. subst. done. Qed.
Lemma closed_opened fd p v : fd ∉ open_socks v → p ∉ sock_files v →
  let v' := MkKView ({[fd]} ∪ open_socks v) (sock_files v) in closed fd v' = v ∧ unlinked p (closed fd (bound p v')) = v.
Proof. intros ? ?. destruct v. unfold closed, unlinked, bound. cbn in *. split; f_equal; set_solver. Qed.

(** After a failed start nothing new is open and no file is at the path; after a successful one the listening
    socket and its file are there. *)
Lemma start_view my_pid s : let path := make_sock_path my_pid in let v := unlinked path (kv s) in running (g_server s) = false →
  thread_gone s → post (uds_fd_server_start my_pid) (λ r s', (r ≠ 0 → kv s' = v) ∧
    (r = 0 → let l := listen_fd (g_server s') in sock_path (g_server s') = path ∧ l ∉ open_socks v ∧
       kv s' = bound path (MkKView ({[l]} ∪ open_socks v) (sock_files v)) ∧ thread s' = Some AtHead)) s.
Proof.
  intros path v Hrun Ht. unfold uds_fd_server_start. apply post_get_bind. rewrite Hrun.
  cbv zeta. fold path. apply post_modify_bind. sys_call k_unlink. sys_call k_socket. rename a0 into l, H0 into Hop.
  rewrite H in *. fold v in Hop. apply post_modify_bind. cbn. clear H d.
  case_bool_decide as Hl.
  { apply post_ret. split; [intros _|done]. destruct Hop as [Hf [[_ Ho]|[? _]]]; [|lia]. cbn.
    by apply kview_eq. }
  apply opened_eq in Hop as [Hnew Hop]; [|lia].
  destruct (closed_opened l path v Hnew ltac:(unfold v; cbn; set_solver)) as [Hc Hu].
  sys_call k_bind. rewrite Hop in *. clear Hop d0. case_bool_decide as Hb.
  { sys_call k_sclose. apply post_modify_bind, post_ret. cbn.
    split; [intros _|done]. congruence. }
  sys_call k_listen. apply post_if; intros _.
  { sys_call k_sclose. sys_call k_unlink. apply post_modify_bind, post_ret. cbn. split; [intros _|done]. congruence. }
  sys_call k_chmod. apply post_modify_bind. cbn. sys_call k_pthread_create. apply post_if; intros _.
  { apply post_modify_bind. cbn. sys_call k_sclose. sys_call k_unlink. apply post_modify_bind, post_ret. cbn.
    split; [intros _|done]. congruence. }
  apply post_modify_bind, post_ret. cbn. split; [done|]. intros _. split_and!; [done|done|congruence|done].
Qed.

Lemma thread_step_server : still g_server (thread_step (D:=D)).
Proof.
  unfold thread_step, sys, set_thread. apply still_bind; [auto with still|].
  intros [[| |c|]|]; eauto 20 with still.
Qed.

Lemma stop_view fuel O F s : running (g_server s) = true → 0 ≤ listen_fd (g_server s) →
  listen_fd (g_server s) ∉ O → sock_path (g_server s) ≠ ""%string → holds ({[listen_fd (g_server s)]} ∪ O) F s →
  post (uds_fd_server_stop fuel) (λ _ s', holds O (F ∖ {[sock_path (g_server s)]}) s') s.
Proof.
  intros Hr Hl HO Hp Hh. unfold uds_fd_server_stop. apply post_get_bind. rewrite Hr. cbn [negb].
  set (p := sock_path (g_server s)) in *. apply post_modify_bind. rewrite bool_decide_eq_true_2 by done.
  apply (post_bind _ _ (λ _ s', sock_path (g_server s') = p ∧ holds O F s')).
  { sys_call k_sclose. unfold post, holds in *. cbn. rewrite H. cbn. destruct Hh as (-> & Hd & HF).
    split_and!; [done|set_solver|set_solver|done]. }
  intros [] s1 H1. apply (post_bind _ _ (λ _ s', sock_path (g_server s') = p ∧ holds O F s')).
  { apply (post_iter (λ s', sock_path (g_server s') = p ∧ holds O F s')); [|done]. intros [] s2 H2.
    apply post_get_bind. destruct (thread s2) as [[]|]; try (apply post_ret; exact H2);
      (eapply post_bind; [apply post_and; [apply thread_step_server|apply (thread_step_holds O F), H2]|];
       intros ? s3 [Hg H3]; apply post_ret; rewrite Hg; by split; [apply H2|]). }
  intros [] s2 [Hp2 (Ho & Hd & HF)]. apply post_get_bind. rewrite Hp2, bool_decide_eq_false_2 by done.
  sys_call k_unlink. unfold post, holds. cbn. rewrite H. cbn. by rewrite Ho, HF.
Qed.

(** While the thread runs. *)
Lemma steps_view k O F s : holds O F s → post (foldM (λ _ _, thread_step) tt (seq 0 k)) (λ _, holds O F) s.
Proof. intros H. apply (post_foldM (holds O F)); [|done]. intros. by apply thread_step_holds. Qed.
End Kernel.

Lemma make_sock_path_nonempty pid : make_sock_path pid ≠ ""%string.
Proof. discriminate. Qed.

(** C24: the life of the descriptor server.  A start either fails and leaves nothing
    running, nothing more open and no file at its path, or creates the thread, the listening socket and its
    file.  However far that thread has got when the process
    calls [uds_fd_server_stop], before its [accept] or in the middle of a connection, the stop
    returns: the thread is gone after at most three more steps, no socket is open that was not open before the start
    (the listening socket and the connection are closed), the socket file is removed, and the server can be started again.
    [accept] is only assumed to come back on a socket whose receive timeout was set; a client that is being
    served is assumed to talk or to hang up ([TalkingPeers]), see [silent_client_blocks_stop]. *)
Theorem server_lifecycle {D} {S : Sockets D} {ST : SockReturns D} {TP : TalkingPeers D} {SK : ServerKernel D}
    (s : fdx D) my_pid : server_idle s →
  let path := make_sock_path my_pid in
  let before := kernel_view (kern s) in
  ∃ r s1, uds_fd_server_start my_pid s = Ret r s1 ∧
    (r = -1 ∧ server_idle s1 ∧ kernel_view (kern s1) = unlinked path before ∨
     r = 0 ∧ server_up s1 ∧ path ∈ sock_files (kernel_view (kern s1)) ∧
       listen_fd (g_server s1) ∉ open_socks before ∧
       open_socks (kernel_view (kern s1)) = {[listen_fd (g_server s1)]} ∪ open_socks before ∧
       ∀ k, ∃ s2, foldM (λ _ _, thread_step) tt (seq 0 k) s1 = Ret tt s2 ∧
         ∃ s3, uds_fd_server_stop 4 s2 = Ret tt s3 ∧ server_idle s3 ∧ sock_path (g_server s3) = ""%string ∧
           kernel_view (kern s3) = unlinked path before).
Proof.
  intros Hi path before. pose proof Hi as (Hrun & _ & Hgone).
  destruct (wp_elim _ _ _ (wp_post _ _ _ _ (start_spec my_pid s Hi) (start_view my_pid s Hrun Hgone)))
    as (r & s1 & Hr & Hs & Hfail & Hok). exists r, s1.
  split; [done|]. destruct Hs as [[-> Hup]|[-> Hid]]; [right|left; split_and!; [done|done|by apply Hfail]].
  destruct (Hok eq_refl) as (Hpath & Hnew & Hv & Ht). cbn in Hnew, Hv.
  split_and!; [done|done|rewrite Hv; cbn; set_solver|done|by rewrite Hv|]. intros k.
  assert (Hh : holds ({[listen_fd (g_server s1)]} ∪ open_socks before) ({[path]} ∪ sock_files before) s1).
  { unfold holds. rewrite Hv, Ht. cbn. split_and!; [set_solver|set_solver|]. fold before path.
    rewrite union_comm_L, difference_union_L, union_comm_L. done. }
  destruct (wp_elim _ _ _ (wp_post _ _ _ _ (steps_spec k s1) (steps_view k _ _ s1 Hh))) as ([] & s2 & Hk & Hg & Hh2).
  exists s2. split; [done|]. destruct Hup as (Hr1 & Hl1 & _). rewrite <- Hg in *.
  assert (Hp2 : sock_path (g_server s2) ≠ ""%string) by (rewrite Hpath; apply make_sock_path_nonempty).
  destruct (wp_elim _ _ _ (wp_post _ _ _ _ (stop_spec s2 Hr1 Hl1) (stop_view 4 _ _ s2 Hr1 Hl1 Hnew Hp2 Hh2)))
    as ([] & s3 & H3 & (Hid & Hp) & Ho & Hd & HF).
  exists s3. split_and!; [done|done|done|]. apply kview_eq; cbn.
  - rewrite Ho. destruct Hid as (_ & _ & [-> | ->]); apply (left_id_L ∅ (∪)).
  - rewrite HF, Hpath. fold path. set_solver.
Qed.

(** The exporter of [net] as a server: a client is always waiting at the listening socket. *)
Definition serving_with (recv_call : Z → nat → M net (Z * list Z)) : Sockets net := {|
  socket := λ n, Ret (fresh_key (sv n)) (set_sv (<[fresh_key (sv n) := 0]> (sv n)) n);
  bind _ p := λ n, Ret 0 (set_files ({[p]} ∪ sv_files n) n); listen _ _ := λ n, Ret 0 n; connect _ _ := unused;
  setsockopt _ := λ n, Ret 0 n; chmod _ _ := unused; pthread_create := λ n, Ret 0 n;
  unlink p := λ n, Ret tt (set_files (sv_files n ∖ {[p]}) n);
  accept := @accept net server_side; send := @send net server_side; recv := recv_call;
  sendmsg := @sendmsg net server_side; recvmsg := @recvmsg net server_side;
  fcntl_getfd := @fcntl_getfd net server_side; sclose := @sclose net server_side
|}.

(** Clients that hang up when they have nothing more to say, and a client that says nothing. *)
Definition listener : Sockets net := serving_with (@recv net server_side).
Definition silent : Sockets net := serving_with (λ _ _, fail Blocked).

#[export] Instance listener_returns : @SockReturns net listener.
Proof.
  refine {| timed _ _ := True |}; try done. intros fd l n. unfold wp. simpl. by destruct (mapM _ _).
Defined.

#[export] Instance listener_talks : @TalkingPeers net listener.
Proof. by split. Qed.

#[export] Instance listener_kernel : @ServerKernel net listener.
Proof.
  refine {| kernel_view n := MkKView (dom (sv n)) (sv_files n) |}; try done.
  - intros n. destruct (fresh_key_spec (sv n)) as [Hk ?]. unfold post, opens. cbn. split; [done|]. right.
    rewrite dom_insert_L. split_and!; [lia|by apply not_elem_of_dom|done].
  - intros fd n. destruct (fresh_key_spec (sv n)) as [Hk ?]. unfold post, opens. cbn. split; [done|]. right.
    rewrite dom_insert_L. split_and!; [lia|by apply not_elem_of_dom|done].
  - intros fd n. unfold post, closed. cbn. by rewrite dom_delete_L.
  - intros fd l n. unfold post. cbn. by destruct (mapM _ _).
Defined.

Definition stopped_server : fdx net := MkFdx ex_net (MkServer (-1) false "") None.

Lemma server_lifecycle_witness : ∃ s1 s2 s3, @uds_fd_server_start net listener 43 stopped_server = Ret 0 s1 ∧
  sv (kern s1) !! 19 = Some 0 ∧
  foldM (λ _ _, @thread_step net listener) tt (seq 0 2) s1 = Ret tt s2 ∧ thread s2 = Some (Accepted 38) ∧
  @uds_fd_server_stop net listener 4 s2 = Ret tt s3 ∧ server_idle s3 ∧ dom (sv (kern s3)) = dom (sv ex_net).
Proof.
  destruct (server_lifecycle (S:=listener) stopped_server 43) as (r & s1 & H1 & [[-> _]|(-> & _ & _ & _ & _ & Hk)]).
  { split_and!; [done|done|by left]. }
  { vm_compute in H1. discriminate. }
  destruct (Hk 2%nat) as (s2 & H2 & s3 & H3 & Hid & _ & Hv). exists s1, s2, s3.
  assert (Hl : sv (kern s1) !! 19 = Some 0).
  { vm_compute in H1. injection H1 as <-. reflexivity. }
  assert (Hs : thread s2 = Some (Accepted 38)).
  { vm_compute in H1. injection H1 as <-. vm_compute in H2. injection H2 as <-. reflexivity. }
  split_and!; [done|done|done|done|done|done|]. exact (f_equal open_socks Hv).
Defined.

(** A computation that waits for ever. *)
Definition blocks {S A} (m : M S A) (s : S) : Prop := ∃ s', m s = Stuck Blocked s'.

Lemma blocks_first {S A B} (m : M S A) (f : A → M S B) s : blocks m s → blocks (m ≫= f) s.
Proof. intros [s' H]. exists s'. unfold mbind, M_bind. by rewrite H. Qed.
Lemma blocks_then {S A B} (m : M S A) (f : A → M S B) s a s' : m s = Ret a s' → blocks (f a) s' → blocks (m ≫= f) s.
Proof. intros H [s'' Hf]. exists s''. unfold mbind, M_bind. by rewrite H. Qed.
Lemma blocks_sys {D A} (m : M D A) (s : fdx D) : blocks m (kern s) → blocks (sys m) s.
Proof. intros [d H]. eexists. unfold sys, zoom. by rewrite H. Qed.

(** The source has no timeout on an accepted connection: while a client that connected says nothing, the stop of the
    server does not return, however long it waits. *)
Theorem silent_client_blocks_stop {D} {S : Sockets D} {ST : SockReturns D} (s : fdx D) c fuel :
  running (g_server s) = true → thread s = Some (Accepted c) → (∀ d, blocks (recv c 1) d) →
  blocks (uds_fd_server_stop (Datatypes.S fuel)) s.
Proof.
  intros Hr Ht Hb. assert (Hjoin : ∀ x, thread x = Some (Accepted c) → blocks (pthread_join (Datatypes.S fuel)) x).
  { intros x Hx. apply blocks_first. eapply blocks_then; [unfold get; by rewrite Hx|]. apply blocks_first.
    eapply blocks_then; [unfold get; by rewrite Hx|]. apply blocks_first, blocks_sys. by apply blocks_first. }
  eapply blocks_then; [reflexivity|]. rewrite Hr. cbn [negb]. eapply blocks_then; [reflexivity|].
  case_bool_decide.
  - destruct (wp_elim _ _ _ (sclose_returns (listen_fd (g_server s)) (kern s))) as ([] & d & Hd & _).
    apply (blocks_then _ _ _ tt (MkFdx d (with_listen (-1) (with_running false (g_server s))) (thread s)));
      [|by apply blocks_first, Hjoin]. unfold sys, zoom, set_server, modify, mbind, M_bind. cbn. by rewrite Hd.
  - eapply blocks_then; [reflexivity|]. apply blocks_first, Hjoin. exact Ht.
Qed.

#[export] Instance silent_returns : @SockReturns net silent.
Proof.
  refine {| timed _ _ := True |}; try done. intros fd l n. unfold wp. simpl. by destruct (mapM _ _).
Defined.

Definition accepted_silent : fdx net := MkFdx ex_net (MkServer 19 true "/tmp/cr_ipc_fd_43.sock") (Some (Accepted 38)).

Lemma silent_client_blocks_stop_witness : blocks (@uds_fd_server_stop net silent 1000) accepted_silent.
Proof.
  apply (silent_client_blocks_stop (S:=silent) accepted_silent 38 999); [reflexivity|reflexivity|].
  intros d. exists d. reflexivity.
Defined.
