(* ===== verification/IpcState.v ===== *)
(** The IPC tracking tables of [src/src/ipc_hooks.cpp].

    The records and global tables, and what the [cuMem*] hooks do to them once the
    real call has succeeded.  The hooks themselves, which call the driver first,
    are in [IpcHooks]. *)
From S2P Require Import Prelude Common.
Open Scope Z_scope.

Definition CUDA_SUCCESS : Z := 0.
Definition CUDA_ERROR_NOT_INITIALIZED : Z := 3.
Definition CU_MEM_HANDLE_TYPE_POSIX_FILE_DESCRIPTOR : Z := 1.
Definition CU_MEM_LOCATION_TYPE_DEVICE : Z := 1.
Definition CU_MEM_ACCESS_FLAGS_PROT_READWRITE : Z := 3.

(** The fields of [CUmemAllocationProp] and [CUmemAccessDesc] the code reads. *)
Record alloc_prop := MkProp { requestedHandleTypes : Z; location_id : Z }.
Record access_desc := MkDesc { loc_type : Z; loc_id : Z; flags : Z }.

Definition zero_prop : alloc_prop := MkProp 0 0.
Definition zero_desc : access_desc := MkDesc 0 0 0.

Record IpcImportRecord := MkImport {
  i_vaddr : Z;
  i_size : Z;
  i_handle : Z;
  i_access_dev : Z;
  i_access_desc : access_desc;
  i_all_access : list access_desc;
  i_torn_down : bool
}.

Record IpcExportRecord := MkExport {
  app_local_handle : Z;
  local_handle : Z;
  exported_fd : Z;
  handle_type : Z;
  e_size : Z;
  mapped_vaddr : Z;
  mapped_size : Z;
  has_mapping : bool;
  e_access_dev : Z;
  e_access_desc : access_desc;
  has_access : bool;
  e_torn_down : bool;
  saved_prop : alloc_prop;
  has_saved_prop : bool;
  saved_data_offset : Z;
  has_saved_data_offset : bool
}.

Record CuMemCreateRecord := MkCreate { c_size : Z; c_prop : alloc_prop }.

Record CuMemLocalAllocRecord := MkLocal {
  l_handle : Z;
  l_vaddr : Z;
  l_size : Z;
  l_prop : alloc_prop;
  l_torn_down : bool
}.

(** The globals under [g_ipc_hook_mutex]. *)
Record ipc_tables := MkIpc {
  g_ipc_imports : list IpcImportRecord;
  g_ipc_exports : list IpcExportRecord;
  g_imported_handles : gset Z;
  g_vaddr_to_import_idx : gmap Z nat;
  g_created_allocs : gmap Z CuMemCreateRecord;
  g_handle_to_va : gmap Z Z;
  g_vaddr_to_export_idx : gmap Z nat;
  g_rebuilt_handle_alias : gmap Z Z;
  g_local_allocs : list CuMemLocalAllocRecord;
  g_va_access_descs : gmap Z (list access_desc)
}.

Definition ipc_start : ipc_tables := MkIpc [] [] ∅ ∅ ∅ ∅ ∅ ∅ [] ∅.

(** Setters, one per table the operations change. *)
Definition set_imports x t := MkIpc x (g_ipc_exports t) (g_imported_handles t)
  (g_vaddr_to_import_idx t) (g_created_allocs t) (g_handle_to_va t) (g_vaddr_to_export_idx t)
  (g_rebuilt_handle_alias t) (g_local_allocs t) (g_va_access_descs t).
Definition set_exports x t := MkIpc (g_ipc_imports t) x (g_imported_handles t)
  (g_vaddr_to_import_idx t) (g_created_allocs t) (g_handle_to_va t) (g_vaddr_to_export_idx t)
  (g_rebuilt_handle_alias t) (g_local_allocs t) (g_va_access_descs t).
Definition set_imported x t := MkIpc (g_ipc_imports t) (g_ipc_exports t) x
  (g_vaddr_to_import_idx t) (g_created_allocs t) (g_handle_to_va t) (g_vaddr_to_export_idx t)
  (g_rebuilt_handle_alias t) (g_local_allocs t) (g_va_access_descs t).
Definition set_import_idx x t := MkIpc (g_ipc_imports t) (g_ipc_exports t) (g_imported_handles t)
  x (g_created_allocs t) (g_handle_to_va t) (g_vaddr_to_export_idx t)
  (g_rebuilt_handle_alias t) (g_local_allocs t) (g_va_access_descs t).
Definition set_created x t := MkIpc (g_ipc_imports t) (g_ipc_exports t) (g_imported_handles t)
  (g_vaddr_to_import_idx t) x (g_handle_to_va t) (g_vaddr_to_export_idx t)
  (g_rebuilt_handle_alias t) (g_local_allocs t) (g_va_access_descs t).
Definition set_handle_va x t := MkIpc (g_ipc_imports t) (g_ipc_exports t) (g_imported_handles t)
  (g_vaddr_to_import_idx t) (g_created_allocs t) x (g_vaddr_to_export_idx t)
  (g_rebuilt_handle_alias t) (g_local_allocs t) (g_va_access_descs t).
Definition set_export_idx x t := MkIpc (g_ipc_imports t) (g_ipc_exports t) (g_imported_handles t)
  (g_vaddr_to_import_idx t) (g_created_allocs t) (g_handle_to_va t) x
  (g_rebuilt_handle_alias t) (g_local_allocs t) (g_va_access_descs t).
Definition set_alias x t := MkIpc (g_ipc_imports t) (g_ipc_exports t) (g_imported_handles t)
  (g_vaddr_to_import_idx t) (g_created_allocs t) (g_handle_to_va t) (g_vaddr_to_export_idx t)
  x (g_local_allocs t) (g_va_access_descs t).
Definition set_local x t := MkIpc (g_ipc_imports t) (g_ipc_exports t) (g_imported_handles t)
  (g_vaddr_to_import_idx t) (g_created_allocs t) (g_handle_to_va t) (g_vaddr_to_export_idx t)
  (g_rebuilt_handle_alias t) x (g_va_access_descs t).
Definition set_descs x t := MkIpc (g_ipc_imports t) (g_ipc_exports t) (g_imported_handles t)
  (g_vaddr_to_import_idx t) (g_created_allocs t) (g_handle_to_va t) (g_vaddr_to_export_idx t)
  (g_rebuilt_handle_alias t) (g_local_allocs t) x.

(** Record updates the operations make. *)
Definition import_torn (r : IpcImportRecord) : IpcImportRecord :=
  MkImport (i_vaddr r) (i_size r) (i_handle r) (i_access_dev r) (i_access_desc r) (i_all_access r) true.
Definition import_handle (h : Z) (r : IpcImportRecord) : IpcImportRecord :=
  MkImport (i_vaddr r) (i_size r) h (i_access_dev r) (i_access_desc r) (i_all_access r) (i_torn_down r).
Definition import_access (d : access_desc) (ds : list access_desc) (r : IpcImportRecord) :=
  MkImport (i_vaddr r) (i_size r) (i_handle r) (loc_id d) d ds (i_torn_down r).
Definition import_live (h : Z) (r : IpcImportRecord) : IpcImportRecord :=
  MkImport (i_vaddr r) (i_size r) h (i_access_dev r) (i_access_desc r) (i_all_access r) false.

Definition export_mapped (va sz : Z) (r : IpcExportRecord) : IpcExportRecord :=
  MkExport (app_local_handle r) (local_handle r) (exported_fd r) (handle_type r) (e_size r) va sz true
    (e_access_dev r) (e_access_desc r) (has_access r) (e_torn_down r) (saved_prop r) (has_saved_prop r)
    (saved_data_offset r) (has_saved_data_offset r).
Definition export_handle (h : Z) (r : IpcExportRecord) : IpcExportRecord :=
  MkExport (app_local_handle r) h (exported_fd r) (handle_type r) (e_size r) (mapped_vaddr r)
    (mapped_size r) (has_mapping r) (e_access_dev r) (e_access_desc r) (has_access r) (e_torn_down r)
    (saved_prop r) (has_saved_prop r) (saved_data_offset r) (has_saved_data_offset r).
Definition export_access (d : access_desc) (r : IpcExportRecord) : IpcExportRecord :=
  MkExport (app_local_handle r) (local_handle r) (exported_fd r) (handle_type r) (e_size r)
    (mapped_vaddr r) (mapped_size r) (has_mapping r) (loc_id d) d true (e_torn_down r) (saved_prop r)
    (has_saved_prop r) (saved_data_offset r) (has_saved_data_offset r).
Definition export_offset (o : Z) (r : IpcExportRecord) : IpcExportRecord :=
  MkExport (app_local_handle r) (local_handle r) (exported_fd r) (handle_type r) (e_size r)
    (mapped_vaddr r) (mapped_size r) (has_mapping r) (e_access_dev r) (e_access_desc r) (has_access r)
    (e_torn_down r) (saved_prop r) (has_saved_prop r) o true.
Definition export_fd (fd : Z) (r : IpcExportRecord) : IpcExportRecord :=
  MkExport (app_local_handle r) (local_handle r) fd (handle_type r) (e_size r)
    (mapped_vaddr r) (mapped_size r) (has_mapping r) (e_access_dev r) (e_access_desc r) (has_access r)
    (e_torn_down r) (saved_prop r) (has_saved_prop r) (saved_data_offset r) (has_saved_data_offset r).
Definition export_torn (b : bool) (r : IpcExportRecord) : IpcExportRecord :=
  MkExport (app_local_handle r) (local_handle r) (exported_fd r) (handle_type r) (e_size r)
    (mapped_vaddr r) (mapped_size r) (has_mapping r) (e_access_dev r) (e_access_desc r) (has_access r)
    b (saved_prop r) (has_saved_prop r) (saved_data_offset r) (has_saved_data_offset r).

Definition local_torn (b : bool) (r : CuMemLocalAllocRecord) : CuMemLocalAllocRecord :=
  MkLocal (l_handle r) (l_vaddr r) (l_size r) (l_prop r) b.

(** ** The tracking of each hook, after a successful call *)

Definition track_create (h size : Z) (prop : alloc_prop) (t : ipc_tables) : ipc_tables :=
  if bool_decide (requestedHandleTypes prop ≠ 0)
  then set_created (<[h := MkCreate size prop]> (g_created_allocs t)) t else t.

(** The record an export starts with. *)
Definition new_export (h handleType fd : Z) (t : ipc_tables) : IpcExportRecord :=
  let size := match g_created_allocs t !! h with Some c => c_size c | None => 0 end in
  MkExport h h (if bool_decide (handleType = CU_MEM_HANDLE_TYPE_POSIX_FILE_DESCRIPTOR) then fd else -1)
    handleType size
    (default 0 (g_handle_to_va t !! h))
    (if bool_decide (is_Some (g_handle_to_va t !! h)) then size else 0)
    (bool_decide (is_Some (g_handle_to_va t !! h)))
    (-1) zero_desc false false
    (match g_created_allocs t !! h with Some c => c_prop c | None => zero_prop end)
    (bool_decide (is_Some (g_created_allocs t !! h)))
    0 false.

Definition track_export (h handleType fd : Z) (t : ipc_tables) : ipc_tables :=
  let rec := new_export h handleType fd t in
  let idx := length (g_ipc_exports t) in
  let t := set_exports (g_ipc_exports t ++ [rec]) t in
  if has_mapping rec then set_export_idx (<[mapped_vaddr rec := idx]> (g_vaddr_to_export_idx t)) t else t.

Definition track_import (h : Z) (t : ipc_tables) : ipc_tables :=
  set_imported ({[h]} ∪ g_imported_handles t) t.

(** The loop over the exports of [hook_cuMemMap]: those of [h] that have no mapping
    yet get this one. *)
Fixpoint map_exports (h ptr size : Z) (i : nat) (es : list IpcExportRecord) (idx : gmap Z nat)
    : list IpcExportRecord * gmap Z nat :=
  match es with
  | [] => ([], idx)
  | e :: es' =>
      if bool_decide (local_handle e = h) && negb (has_mapping e) then
        let r := map_exports h ptr size (S i) es' (<[ptr := i]> idx) in
        (export_mapped ptr size e :: r.1, r.2)
      else
        let r := map_exports h ptr size (S i) es' idx in
        (e :: r.1, r.2)
  end.

Definition track_map (ptr size h : Z) (t : ipc_tables) : ipc_tables :=
  let t := if bool_decide (h ∈ g_imported_handles t) then
             set_import_idx (<[ptr := length (g_ipc_imports t)]> (g_vaddr_to_import_idx t))
               (set_imports (g_ipc_imports t ++ [MkImport ptr size h (-1) zero_desc [] false]) t)
           else t in
  if bool_decide (is_Some (g_created_allocs t !! h)) then
    let r := map_exports h ptr size 0 (g_ipc_exports t) (g_vaddr_to_export_idx t) in
    set_export_idx r.2 (set_exports r.1 (set_handle_va (<[h := ptr]> (g_handle_to_va t)) t))
  else t.

Definition track_unmap (ptr : Z) (t : ipc_tables) : ipc_tables :=
  match g_vaddr_to_import_idx t !! ptr with
  | Some idx => set_imports (alter import_torn idx (g_ipc_imports t)) t
  | None => t
  end.

(** [cleanup_handle] *)
Definition cleanup_handle (h : Z) (t : ipc_tables) : ipc_tables :=
  let t := match g_handle_to_va t !! h with
           | Some va =>
               set_handle_va (delete h (g_handle_to_va t))
                 (set_export_idx (delete va (g_vaddr_to_export_idx t))
                    (set_descs (delete va (g_va_access_descs t)) t))
           | None => t
           end in
  let t := set_created (delete h (g_created_allocs t)) t in
  let t := set_imported (g_imported_handles t ∖ {[h]}) t in
  let t := set_imports ((λ r, if bool_decide (i_handle r = h) then import_handle 0 r else r)
                          <$> g_ipc_imports t) t in
  let t := set_exports ((λ r, if bool_decide (local_handle r = h) then export_handle 0 r else r)
                          <$> g_ipc_exports t) t in
  set_local ((λ r, if bool_decide (l_handle r = h) then local_torn true r else r)
               <$> g_local_allocs t) t.

(** The handle the driver knows for a handle of the application. *)
Definition actual_handle (h : Z) (t : ipc_tables) : Z := default h (g_rebuilt_handle_alias t !! h).

(** After the release of [a], which the application calls [h]. *)
Definition track_release (h a : Z) (t : ipc_tables) : ipc_tables :=
  let t := cleanup_handle h t in
  let t := if bool_decide (a ≠ h) then cleanup_handle a t else t in
  set_alias (filter (λ kv, kv.1 ≠ h ∧ kv.1 ≠ a ∧ kv.2 ≠ h ∧ kv.2 ≠ a) (g_rebuilt_handle_alias t)) t.

(** Update or append one descriptor: same type and same id is the same entry. *)
Fixpoint upsert (d : access_desc) (ds : list access_desc) : list access_desc :=
  match ds with
  | [] => [d]
  | x :: ds' =>
      if bool_decide (loc_type x = loc_type d ∧ loc_id x = loc_id d)
      then MkDesc (loc_type x) (loc_id x) (flags d) :: ds'
      else x :: upsert d ds'
  end.

Definition merge_descs (old new : list access_desc) : list access_desc :=
  foldl (λ ds d, upsert d ds) old new.

Definition track_set_access (ptr : Z) (desc : list access_desc) (t : ipc_tables) : ipc_tables :=
  match desc with
  | [] => t
  | d0 :: _ =>
      let t := set_descs (<[ptr := merge_descs (default [] (g_va_access_descs t !! ptr)) desc]>
                            (g_va_access_descs t)) t in
      let t := match g_vaddr_to_import_idx t !! ptr with
               | Some idx => set_imports (alter (λ r, import_access d0 (merge_descs (i_all_access r) desc) r)
                                            idx (g_ipc_imports t)) t
               | None => t
               end in
      match g_vaddr_to_export_idx t !! ptr with
      | Some idx => set_exports (alter (export_access d0) idx (g_ipc_exports t)) t
      | None => t
      end
  end.
