(* ===== verification/IpcDriver.v ===== *)
(** The driver below the IPC hooks, and how the hooks reach it.

    [CuDriver D] is the part of the CUDA driver API that [src/src/ipc_hooks.cpp]
    calls; its code is not in the repository, it is a parameter, and [CuLaws D]
    states its documented behaviour over an abstract view.  A failing call leaves
    the view as it was.

    The second part is the symbol resolution of [ipc_hooks.cpp]: the function
    pointers, the hook table, the interposed [dlsym] and [resolve_helper_fns].  A
    pointer is [Real] (the driver's function) or [Ours] (a function of this
    library), which is what decides whether a call ends in the driver. *)
From S2P Require Import Prelude Common Gpu IpcState.
Open Scope Z_scope.

(** ** The driver *)

Record cmapping := MkCMap { cm_size : Z; cm_handle : Z; cm_access : list access_desc }.

Record cview := MkCView {
  cv_host : mem;
  cv_dev : mem;
  cv_queue : list xfer;            (* copies issued and not executed *)
  cv_maps : gmap Z cmapping;       (* address to mapping *)
  cv_handles : gmap Z Z;           (* live allocation handle to size *)
  cv_fds : gmap Z Z;               (* open shareable fd to allocation size *)
  cv_ctx : list Z                  (* context stack of the thread *)
}.

Definition with_maps (m : gmap Z cmapping) (v : cview) : cview :=
  MkCView (cv_host v) (cv_dev v) (cv_queue v) m (cv_handles v) (cv_fds v) (cv_ctx v).
Definition with_handles (h : gmap Z Z) (v : cview) : cview :=
  MkCView (cv_host v) (cv_dev v) (cv_queue v) (cv_maps v) h (cv_fds v) (cv_ctx v).
Definition with_fds (f : gmap Z Z) (v : cview) : cview :=
  MkCView (cv_host v) (cv_dev v) (cv_queue v) (cv_maps v) (cv_handles v) f (cv_ctx v).
Definition with_ctx (c : list Z) (v : cview) : cview :=
  MkCView (cv_host v) (cv_dev v) (cv_queue v) (cv_maps v) (cv_handles v) (cv_fds v) c.
Definition with_dev (d : mem) (v : cview) : cview :=
  MkCView (cv_host v) d (cv_queue v) (cv_maps v) (cv_handles v) (cv_fds v) (cv_ctx v).
Definition with_mems (hd : mem * mem) (q : list xfer) (v : cview) : cview :=
  MkCView hd.1 hd.2 q (cv_maps v) (cv_handles v) (cv_fds v) (cv_ctx v).

(** Memories once every pending copy has been executed. *)
Definition drained (v : cview) : mem * mem := foldl run_xfer (cv_host v, cv_dev v) (cv_queue v).

(** The device executes the [k] oldest pending copies. *)
Definition advance (k : nat) (v : cview) : cview :=
  with_mems (foldl run_xfer (cv_host v, cv_dev v) (take k (cv_queue v))) (drop k (cv_queue v)) v.

Definition push_copy (x : xfer) (v : cview) : cview :=
  with_mems (cv_host v, cv_dev v) (cv_queue v ++ [x]) v.

(** The range is one accessible mapping. *)
Definition accessible (v : cview) (p n : Z) : Prop :=
  ∃ m, cv_maps v !! p = Some m ∧ cm_size m = n ∧ cm_access m ≠ [].

Class CuDriver (D : Type) := {
  cu_view : D → cview;
  cu_reliable : Prop;              (* valid requests never fail *)
  cuMemCreate : Z → alloc_prop → M D (Z * Z);
  cuMemMap : Z → Z → Z → M D Z;
  cuMemUnmap : Z → Z → M D Z;
  cuMemRelease : Z → M D Z;
  cuMemSetAccess : Z → Z → list access_desc → M D Z;
  cuMemExportToShareableHandle : Z → Z → M D (Z * Z);
  cuMemImportFromShareableHandle : Z → Z → M D (Z * Z);
  close : Z → M D unit;
  cuDevicePrimaryCtxRetain : Z → M D (Z * Z);
  cuDevicePrimaryCtxRelease : Z → M D Z;
  cuCtxCreate : Z → Z → M D (Z * Z);
  cuCtxDestroy : Z → M D Z;
  cuCtxGetCurrent : M D (Z * Z);
  cuCtxPushCurrent : Z → M D Z;
  cuCtxPopCurrent : M D (Z * Z);
  cuMemHostRegister : Z → Z → M D Z;
  cuMemHostUnregister : Z → M D Z;
  cuStreamCreate : M D (Z * Z);
  cuStreamSynchronize : Z → M D Z;
  cuStreamDestroy : Z → M D Z;
  cuMemcpyDtoHAsync : Z → Z → Z → Z → M D Z;   (* host device size stream *)
  cuMemcpyHtoDAsync : Z → Z → Z → Z → M D Z;   (* device host size stream *)
  cuMemcpyDtoH : Z → Z → Z → M D Z;            (* host device size *)
  cuMemcpyHtoD : Z → Z → Z → M D Z;            (* device host size *)
  cudaDeviceEnablePeerAccess : Z → Z → M D Z;
  cudaDeviceDisablePeerAccess : Z → M D Z;
  cudaGetLastError : M D Z;
  cudaPeekAtLastError : M D Z;
  cudaStreamSynchronize : Z → M D Z;
  cudaEventDestroy : Z → M D Z;
  cudaIpcGetEventHandle : Z → M D (Z * Z);     (* event: error and handle *)
  cudaIpcOpenEventHandle : Z → M D (Z * Z);    (* handle: error and event *)
  launch : string → Z → M D Z                  (* the launch functions, by name; packed arguments *)
}.

(** A call that returns an error code (and a value): on 0 the effect, otherwise no
    effect; it returns 0 under [cond]. *)
Definition ccall {D} `{CuDriver D} (m : M D Z) (d : D) (cond : Prop) (eff : cview → Prop) : Prop :=
  ∃ r d', m d = Ret r d' ∧ (r = 0 → eff (cu_view d')) ∧ (r ≠ 0 → cu_view d' = cu_view d) ∧
          (cond → r = 0).
Definition ccall2 {D} `{CuDriver D} (m : M D (Z * Z)) (d : D) (cond : Prop)
    (eff : Z → cview → Prop) : Prop :=
  ∃ r x d', m d = Ret (r, x) d' ∧ (r = 0 → eff x (cu_view d')) ∧
            (r ≠ 0 → cu_view d' = cu_view d) ∧ (cond → r = 0).

Class CuReliable (D : Type) `{CuDriver D} := cu_is_reliable : cu_reliable.

Class CuLaws (D : Type) `{CuDriver D} := {
  cuMemCreate_law : ∀ d sz prop,
    ccall2 (cuMemCreate sz prop) d cu_reliable (λ h v,
      h ≠ 0 ∧ cv_handles (cu_view d) !! h = None ∧
      v = with_handles (<[h := sz]> (cv_handles (cu_view d))) (cu_view d));
  cuMemMap_law : ∀ d p sz h, cv_queue (cu_view d) = [] →
    ccall (cuMemMap p sz h) d
      (cu_reliable ∧ cv_maps (cu_view d) !! p = None ∧ cv_handles (cu_view d) !! h = Some sz)
      (λ v, ∃ m, dev_outside p sz (cv_dev (cu_view d)) m ∧ cv_maps (cu_view d) !! p = None ∧
        v = with_dev m (with_maps (<[p := MkCMap sz h []]> (cv_maps (cu_view d))) (cu_view d)));
  cuMemUnmap_law : ∀ d p sz, cv_queue (cu_view d) = [] →
    ccall (cuMemUnmap p sz) d (∃ m, cv_maps (cu_view d) !! p = Some m ∧ cm_size m = sz)
      (λ v, ∃ m, dev_outside p sz (cv_dev (cu_view d)) m ∧ is_Some (cv_maps (cu_view d) !! p) ∧
        v = with_dev m (with_maps (delete p (cv_maps (cu_view d))) (cu_view d)));
  cuMemRelease_law : ∀ d h,
    ccall (cuMemRelease h) d (is_Some (cv_handles (cu_view d) !! h))
      (λ v, is_Some (cv_handles (cu_view d) !! h) ∧
            v = with_handles (delete h (cv_handles (cu_view d))) (cu_view d));
  cuMemSetAccess_law : ∀ d p sz ds,
    ccall (cuMemSetAccess p sz ds) d
      (cu_reliable ∧ ∃ m, cv_maps (cu_view d) !! p = Some m ∧ cm_size m = sz)
      (λ v, ∃ m, cv_maps (cu_view d) !! p = Some m ∧
        v = with_maps (<[p := MkCMap (cm_size m) (cm_handle m) (merge_descs (cm_access m) ds)]>
                         (cv_maps (cu_view d))) (cu_view d));
  cuMemExport_law : ∀ d h ty,
    ccall2 (cuMemExportToShareableHandle h ty) d
      (cu_reliable ∧ is_Some (cv_handles (cu_view d) !! h))
      (λ fd v, ∃ sz, cv_handles (cu_view d) !! h = Some sz ∧ 0 ≤ fd ∧
        cv_fds (cu_view d) !! fd = None ∧
        v = with_fds (<[fd := sz]> (cv_fds (cu_view d))) (cu_view d));
  cuMemImport_law : ∀ d fd ty,
    ccall2 (cuMemImportFromShareableHandle fd ty) d
      (cu_reliable ∧ is_Some (cv_fds (cu_view d) !! fd))
      (λ h v, ∃ sz, cv_fds (cu_view d) !! fd = Some sz ∧ h ≠ 0 ∧ cv_handles (cu_view d) !! h = None ∧
        v = with_handles (<[h := sz]> (cv_handles (cu_view d))) (cu_view d));
  close_law : ∀ d fd, ∃ d', close fd d = Ret tt d' ∧
    cu_view d' = with_fds (delete fd (cv_fds (cu_view d))) (cu_view d);
  cuDevicePrimaryCtxRetain_law : ∀ d n,
    ccall2 (cuDevicePrimaryCtxRetain n) d False (λ _ v, v = cu_view d);
  cuDevicePrimaryCtxRelease_law : ∀ d n,
    ccall (cuDevicePrimaryCtxRelease n) d False (λ v, v = cu_view d);
  cuCtxGetCurrent_law : ∀ d, ccall2 cuCtxGetCurrent d True (λ c v,
    c = default 0 (head (cv_ctx (cu_view d))) ∧ v = cu_view d);
  cuCtxPushCurrent_law : ∀ d c, ccall (cuCtxPushCurrent c) d cu_reliable
    (λ v, v = with_ctx (c :: cv_ctx (cu_view d)) (cu_view d));
  cuCtxPopCurrent_law : ∀ d, ccall2 cuCtxPopCurrent d (cv_ctx (cu_view d) ≠ [])
    (λ c v, v = with_ctx (tail (cv_ctx (cu_view d))) (cu_view d));
  launch_law : ∀ d name args, ∃ r d', launch name args d = Ret r d' ∧
    cv_ctx (cu_view d') = cv_ctx (cu_view d);
  cuMemHostRegister_law : ∀ d p n, ccall (cuMemHostRegister p n) d False (λ v, v = cu_view d);
  cuMemHostUnregister_law : ∀ d p, ccall (cuMemHostUnregister p) d False (λ v, v = cu_view d);
  cuStreamCreate_law : ∀ d, ccall2 cuStreamCreate d cu_reliable (λ _ v, v = cu_view d);
  cuStreamSynchronize_law : ∀ d s, ccall (cuStreamSynchronize s) d cu_reliable
    (λ v, v = with_mems (drained (cu_view d)) [] (cu_view d));
  cuStreamDestroy_law : ∀ d s, ccall (cuStreamDestroy s) d False (λ v, v = cu_view d);
  cuMemcpyDtoHAsync_law : ∀ d hst p n s,
    ccall (cuMemcpyDtoHAsync hst p n s) d (cu_reliable ∧ accessible (cu_view d) p n)
      (λ v, ∃ k, v = advance k (push_copy (MkXfer hst p n DeviceToHost) (cu_view d)));
  cuMemcpyHtoDAsync_law : ∀ d p hst n s,
    ccall (cuMemcpyHtoDAsync p hst n s) d (cu_reliable ∧ accessible (cu_view d) p n)
      (λ v, ∃ k, v = advance k (push_copy (MkXfer p hst n HostToDevice) (cu_view d)));
  cuMemcpyDtoH_law : ∀ d hst p n, cv_queue (cu_view d) = [] →
    ccall (cuMemcpyDtoH hst p n) d (cu_reliable ∧ accessible (cu_view d) p n)
      (λ v, v = with_mems (copy (cv_host (cu_view d)) hst (cv_dev (cu_view d)) p n,
                           cv_dev (cu_view d)) [] (cu_view d));
  cuMemcpyHtoD_law : ∀ d p hst n, cv_queue (cu_view d) = [] →
    ccall (cuMemcpyHtoD p hst n) d (cu_reliable ∧ accessible (cu_view d) p n)
      (λ v, v = with_mems (cv_host (cu_view d),
                           copy (cv_dev (cu_view d)) p (cv_host (cu_view d)) hst n) [] (cu_view d))
}.

(** ** Function pointers *)

(** The driver's function, or one of this library's hooks and wrappers. *)
Inductive fnptr := Real | Ours.

#[export] Instance fnptr_eq_dec : EqDecision fnptr.
Proof. solve_decision. Defined.

Inductive dl_handle := RTLD_DEFAULT | RTLD_NEXT | DlHandle (n : Z).

#[export] Instance dl_handle_eq_dec : EqDecision dl_handle.
Proof. solve_decision. Defined.

(** [g_hook_table]: the symbols that are intercepted, and the variable that keeps
    the real function of each. *)
Definition g_hook_table : list (string * string) :=
  [("cuMemCreate", "real_cuMemCreate");
   ("cuMemExportToShareableHandle", "real_cuMemExportToShareableHandle");
   ("cuMemImportFromShareableHandle", "real_cuMemImportFromShareableHandle");
   ("cuMemMap", "real_cuMemMap");
   ("cuMemUnmap", "real_cuMemUnmap");
   ("cuMemRelease", "fn_cuMemRelease");
   ("cuMemSetAccess", "real_cuMemSetAccess");
   ("cudaLaunchKernel", "real_cudaLaunchKernel");
   ("cuLaunchKernel", "real_cuLaunchKernel");
   ("cudaLaunchKernel_ptsz", "real_cudaLaunchKernel_ptsz");
   ("cuLaunchKernel_ptsz", "real_cuLaunchKernel_ptsz");
   ("cuLaunchKernelEx", "real_cuLaunchKernelEx");
   ("cudaLaunchKernelExC", "real_cudaLaunchKernelExC");
   ("cudaLaunchKernelExC_ptsz", "real_cudaLaunchKernelExC_ptsz");
   ("__cudaLaunchKernel", "real___cudaLaunchKernel");
   ("__cudaLaunchKernel_ptsz", "real___cudaLaunchKernel_ptsz");
   ("cudaGetLastError", "real_cudaGetLastError");
   ("cudaPeekAtLastError", "real_cudaPeekAtLastError");
   ("cudaStreamSynchronize", "real_cudaStreamSynchronize");
   ("cudaStreamSynchronize_ptsz", "real_cudaStreamSynchronize_ptsz");
   ("cuCtxCreate", "real_cuCtxCreate");
   ("cuCtxDestroy", "real_cuCtxDestroy");
   ("cuDevicePrimaryCtxRetain", "real_cuDevicePrimaryCtxRetain");
   ("cuDevicePrimaryCtxRelease", "real_cuDevicePrimaryCtxRelease")]%string.

Definition hook_storage (symbol : string) : option string :=
  snd <$> find (λ e, bool_decide (e.1 = symbol)) g_hook_table.

(** The entry points that [dlsym] answers with a function of this library. *)
Definition entry_symbols : list string :=
  ["cuGetProcAddress"; "cuGetProcAddress_v2"; "cudaGetDriverEntryPoint";
   "cudaGetDriverEntryPointByVersion"]%string.

(** The pointers [resolve_helper_fns] fills, each with the symbols it tries. *)
Definition helper_symbols : list (string * string) :=
  [("fn_cuMemRelease", "cuMemRelease");
   ("fn_cuMemAddressReserve", "cuMemAddressReserve");
   ("fn_cuMemAddressFree", "cuMemAddressFree");
   ("fn_cuMemRetainAllocationHandle", "cuMemRetainAllocationHandle");
   ("fn_cuMemcpyDtoH", "cuMemcpyDtoH_v2");
   ("fn_cuMemcpyDtoH", "cuMemcpyDtoH");
   ("fn_cuMemcpyHtoD", "cuMemcpyHtoD_v2");
   ("fn_cuMemcpyHtoD", "cuMemcpyHtoD");
   ("real_cuMemCreate", "cuMemCreate");
   ("fn_cuCtxSetCurrent", "cuCtxSetCurrent");
   ("fn_cuCtxGetCurrent", "cuCtxGetCurrent");
   ("fn_cuDevicePrimaryCtxRetain", "cuDevicePrimaryCtxRetain");
   ("fn_cuDevicePrimaryCtxRelease", "cuDevicePrimaryCtxRelease_v2");
   ("fn_cuDevicePrimaryCtxRelease", "cuDevicePrimaryCtxRelease");
   ("fn_cuCtxPushCurrent", "cuCtxPushCurrent_v2");
   ("fn_cuCtxPushCurrent", "cuCtxPushCurrent");
   ("fn_cuCtxPopCurrent", "cuCtxPopCurrent_v2");
   ("fn_cuCtxPopCurrent", "cuCtxPopCurrent");
   ("fn_cuStreamCreate", "cuStreamCreate");
   ("fn_cuStreamSynchronize", "cuStreamSynchronize");
   ("fn_cuStreamDestroy", "cuStreamDestroy_v2");
   ("fn_cuStreamDestroy", "cuStreamDestroy");
   ("fn_cuMemcpyDtoHAsync", "cuMemcpyDtoHAsync_v2");
   ("fn_cuMemcpyDtoHAsync", "cuMemcpyDtoHAsync");
   ("fn_cuMemcpyHtoDAsync", "cuMemcpyHtoDAsync_v2");
   ("fn_cuMemcpyHtoDAsync", "cuMemcpyHtoDAsync");
   ("fn_cuMemHostRegister", "cuMemHostRegister_v2");
   ("fn_cuMemHostRegister", "cuMemHostRegister");
   ("fn_cuMemHostUnregister", "cuMemHostUnregister")]%string.

(** ** The state of the module *)

Record IpcEventRecord := MkEvent { ev_event : Z; is_opened : bool; ev_torn_down : bool }.

Record ipc (D : Type) := MkIpcSt {
  cu : D;
  tb : ipc_tables;
  fns : gmap string fnptr;              (* the non-null function pointers *)
  g_peer_access_devices : gset Z;
  g_saved_peer_access_devices : gset Z;
  g_ipc_events : list IpcEventRecord;
  captured : Z                          (* g_pytorch_context of nv.cpp *)
}.
Arguments MkIpcSt {D}. Arguments cu {D}. Arguments tb {D}. Arguments fns {D}.
Arguments g_peer_access_devices {D}. Arguments g_saved_peer_access_devices {D}.
Arguments g_ipc_events {D}. Arguments captured {D}.

(** The dynamic linker, the depth of the call stack and the process id. *)
Class Platform := {
  real_dlsym : dl_handle → string → option fnptr;
  stack_depth : nat;
  getpid : Z
}.

Section Ipc.
Context {D : Type} `{CuDriver D} `{Platform}.

Definition set_cu (d : D) (s : ipc D) : ipc D :=
  MkIpcSt d (tb s) (fns s) (g_peer_access_devices s) (g_saved_peer_access_devices s)
    (g_ipc_events s) (captured s).
Definition set_tb (t : ipc_tables) (s : ipc D) : ipc D :=
  MkIpcSt (cu s) t (fns s) (g_peer_access_devices s) (g_saved_peer_access_devices s)
    (g_ipc_events s) (captured s).
Definition set_fns (f : gmap string fnptr) (s : ipc D) : ipc D :=
  MkIpcSt (cu s) (tb s) f (g_peer_access_devices s) (g_saved_peer_access_devices s)
    (g_ipc_events s) (captured s).
Definition set_peers (p q : gset Z) (s : ipc D) : ipc D :=
  MkIpcSt (cu s) (tb s) (fns s) p q (g_ipc_events s) (captured s).
Definition set_events (e : list IpcEventRecord) (s : ipc D) : ipc D :=
  MkIpcSt (cu s) (tb s) (fns s) (g_peer_access_devices s) (g_saved_peer_access_devices s) e (captured s).

(** A call that reaches the driver; a change of the tables. *)
Definition drv {A} (m : M D A) : M (ipc D) A := zoom cu set_cu m.
Definition track (f : ipc_tables → ipc_tables) : M (ipc D) unit := modify (λ s, set_tb (f (tb s)) s).

(** [if (p)] on a function pointer, and on several. *)
Definition non_null (s : ipc D) (p : string) : bool := bool_decide (is_Some (fns s !! p)).
Definition if_has {A} (ps : list string) (yes no : M (ipc D) A) : M (ipc D) A := λ s,
  if forallb (non_null s) ps then yes s else no s.
Definition store_fn (p : string) (q : fnptr) : M (ipc D) unit :=
  modify (λ s, set_fns (<[p := q]> (fns s)) s).

(** A call through pointer [p]: [real] if it is the driver's function, [ours] if it
    is the hook of that name. *)
Definition call_fn {A} (p : string) (real ours : M (ipc D) A) : M (ipc D) A :=
  q ← get (λ s, fns s !! p);
  match q with
  | None => fail NullCall
  | Some Real => real
  | Some Ours => ours
  end.
Definition call_real {A} (p : string) (m : M D A) : M (ipc D) A := call_fn p (drv m) (drv m).

(** The interposed [dlsym]. *)
Definition dlsym (handle : dl_handle) (symbol : string) : M (ipc D) (option fnptr) :=
  if bool_decide (handle = RTLD_NEXT) then mret (real_dlsym handle symbol) else
  if bool_decide (symbol ∈ entry_symbols) then mret (Some Ours) else
  match hook_storage symbol, real_dlsym handle symbol with
  | Some storage, Some real_symbol => _ ← store_fn storage real_symbol; mret (Some Ours)
  | _, q => mret q
  end.

(** [if (!p) p = dlsym(handle, symbol)] *)
Definition resolve (handle : dl_handle) (p symbol : string) : M (ipc D) unit :=
  if_has [p] (mret tt)
    (q ← dlsym handle symbol;
     match q with
     | Some q => store_fn p q
     | None => mret tt
     end).

Lemma resolve_resolved h p symbol s : is_Some (fns s !! p) → resolve h p symbol s = Ret tt s.
Proof.
  intros Hp. unfold resolve, if_has, non_null. cbn [forallb]. by rewrite bool_decide_eq_true_2.
Qed.

Definition resolve_helper_fns : M (ipc D) unit :=
  foldM (λ _ e, resolve RTLD_DEFAULT e.1 e.2) tt helper_symbols.

(** [try_intercept] on the pointer found for [symbol]: what it becomes. *)
Definition try_intercept (symbol : string) (funcPtr : option fnptr) : M (ipc D) (option fnptr) :=
  match funcPtr, hook_storage symbol with
  | Some p, Some storage => _ ← store_fn storage p; mret (Some Ours)
  | _, _ => mret funcPtr
  end.

Definition cudaErrorNotSupported : Z := 801.
Definition CUDA_ERROR_NOT_FOUND : Z := 500.

(** The four entry-point hooks: the real lookup, then [try_intercept] on success.
    [real_fn] answers an error and a pointer; it is looked up with [RTLD_NEXT]. *)
Definition entry_point (name : string) (not_found : Z) (real_fn : string → M D (Z * option fnptr))
    (symbol : string) : M (ipc D) (Z * option fnptr) :=
  match real_dlsym RTLD_NEXT name with
  | None => mret (not_found, None)
  | Some _ =>
      r ← drv (real_fn symbol);
      if bool_decide (r.1 = 0) then p ← try_intercept symbol r.2; mret (0, p) else mret r
  end.

Definition cudaGetDriverEntryPoint := entry_point "cudaGetDriverEntryPoint" cudaErrorNotSupported.
Definition cudaGetDriverEntryPointByVersion :=
  entry_point "cudaGetDriverEntryPointByVersion" cudaErrorNotSupported.
Definition cuGetProcAddress := entry_point "cuGetProcAddress" CUDA_ERROR_NOT_FOUND.
Definition cuGetProcAddress_v2 := entry_point "cuGetProcAddress_v2" CUDA_ERROR_NOT_FOUND.
End Ipc.
