(* ===== verification/IpcHooks.v ===== *)
(** The [cuMem*] hooks and the import side of [src/src/ipc_hooks.cpp].

    A hook calls the driver through its function pointer and, on success, records
    the call in the tables ([IpcState]).  When the pointer is one of this library's
    own functions the hook calls itself: [stack_depth] bounds that recursion.  Then:
    peer access, IPC events, the teardown of imports, the publication of export
    records in shared memory and the rebuild of imports from a peer's block. *)
From S2P Require Import Prelude Common Gpu IpcState IpcDriver FdExchange.
Open Scope Z_scope.

Definition cudaErrorUnknown : Z := 999.

Section Hooks.
Context {D : Type} `{CuDriver D} `{Platform}.

(** A hook on pointer [p]: [null] if it is null. *)
Fixpoint hooked {A} (fuel : nat) (p : string) (real : M D A) (post : A → M (ipc D) unit) (null : A)
    : M (ipc D) A :=
  q ← get (λ s, fns s !! p);
  match q with
  | None => mret null
  | Some Real => r ← drv real; _ ← post r; mret r
  | Some Ours =>
      match fuel with
      | O => fail OutOfFuel
      | S fuel' => r ← hooked fuel' p real post null; _ ← post r; mret r
      end
  end.

(** Track on [CUDA_SUCCESS] only. *)
Definition on_success (err : Z) (f : ipc_tables → ipc_tables) : M (ipc D) unit :=
  if bool_decide (err = CUDA_SUCCESS) then track f else mret tt.

Definition hook_cuMemCreate (size : Z) (prop : alloc_prop) : M (ipc D) (Z * Z) :=
  hooked stack_depth "real_cuMemCreate" (cuMemCreate size prop)
    (λ r, on_success r.1 (track_create r.2 size prop)) (CUDA_ERROR_NOT_INITIALIZED, 0).

Definition hook_cuMemExportToShareableHandle (handle handleType : Z) : M (ipc D) (Z * Z) :=
  hooked stack_depth "real_cuMemExportToShareableHandle" (cuMemExportToShareableHandle handle handleType)
    (λ r, on_success r.1 (track_export handle handleType r.2)) (CUDA_ERROR_NOT_INITIALIZED, 0).

Definition hook_cuMemImportFromShareableHandle (osHandle shHandleType : Z) : M (ipc D) (Z * Z) :=
  hooked stack_depth "real_cuMemImportFromShareableHandle"
    (cuMemImportFromShareableHandle osHandle shHandleType)
    (λ r, on_success r.1 (track_import r.2)) (CUDA_ERROR_NOT_INITIALIZED, 0).

Definition hook_cuMemMap (ptr size handle : Z) : M (ipc D) Z :=
  hooked stack_depth "real_cuMemMap" (cuMemMap ptr size handle)
    (λ r, on_success r (track_map ptr size handle)) CUDA_ERROR_NOT_INITIALIZED.

Definition hook_cuMemUnmap (ptr size : Z) : M (ipc D) Z :=
  hooked stack_depth "real_cuMemUnmap" (cuMemUnmap ptr size)
    (λ r, on_success r (track_unmap ptr)) CUDA_ERROR_NOT_INITIALIZED.

Definition hook_cuMemSetAccess (ptr size : Z) (desc : list access_desc) : M (ipc D) Z :=
  hooked stack_depth "real_cuMemSetAccess" (cuMemSetAccess ptr size desc)
    (λ r, on_success r (track_set_access ptr desc)) CUDA_ERROR_NOT_INITIALIZED.

(** [hook_cuMemRelease]: the alias of a rebuilt handle is looked up first; when the
    pointer is our own hook the actual handle goes round again. *)
Fixpoint release_hook (fuel : nat) (handle : Z) : M (ipc D) Z :=
  _ ← if_has ["fn_cuMemRelease"%string] (mret tt) resolve_helper_fns;
  q ← get (λ s, fns s !! "fn_cuMemRelease"%string);
  match q with
  | None => mret CUDA_ERROR_NOT_INITIALIZED
  | Some q =>
      a ← get (λ s, actual_handle handle (tb s));
      res ← (match q, fuel with
             | Real, _ => drv (cuMemRelease a)
             | Ours, O => fail OutOfFuel
             | Ours, S fuel' => release_hook fuel' a
             end : M (ipc D) Z);
      _ ← (if bool_decide (res = CUDA_SUCCESS) then track (track_release handle a) else mret tt);
      mret res
  end.
Definition hook_cuMemRelease (handle : Z) : M (ipc D) Z := release_hook stack_depth handle.

(** ** The exported wrappers: resolve the real function, call the hook *)

Definition cuMemCreate_ (size : Z) (prop : alloc_prop) : M (ipc D) (Z * Z) :=
  _ ← resolve RTLD_NEXT "real_cuMemCreate" "cuMemCreate"; hook_cuMemCreate size prop.
Definition cuMemExportToShareableHandle_ (handle ty : Z) : M (ipc D) (Z * Z) :=
  _ ← resolve RTLD_NEXT "real_cuMemExportToShareableHandle" "cuMemExportToShareableHandle";
  hook_cuMemExportToShareableHandle handle ty.
Definition cuMemImportFromShareableHandle_ (os ty : Z) : M (ipc D) (Z * Z) :=
  _ ← resolve RTLD_NEXT "real_cuMemImportFromShareableHandle" "cuMemImportFromShareableHandle";
  hook_cuMemImportFromShareableHandle os ty.
Definition cuMemMap_ (ptr size handle : Z) : M (ipc D) Z :=
  _ ← resolve RTLD_NEXT "real_cuMemMap" "cuMemMap"; hook_cuMemMap ptr size handle.
Definition cuMemUnmap_ (ptr size : Z) : M (ipc D) Z :=
  _ ← resolve RTLD_NEXT "real_cuMemUnmap" "cuMemUnmap"; hook_cuMemUnmap ptr size.
Definition cuMemRelease_ (handle : Z) : M (ipc D) Z :=
  _ ← resolve RTLD_NEXT "fn_cuMemRelease" "cuMemRelease"; hook_cuMemRelease handle.
Definition cuMemSetAccess_ (ptr size : Z) (desc : list access_desc) : M (ipc D) Z :=
  _ ← resolve RTLD_NEXT "real_cuMemSetAccess" "cuMemSetAccess"; hook_cuMemSetAccess ptr size desc.

(** Hooks that only forward: resolve, call, report. *)
Definition forward (name storage : string) (real : M D Z) : M (ipc D) Z :=
  _ ← resolve RTLD_NEXT storage name;
  hooked stack_depth storage real (λ _, mret tt) cudaErrorUnknown.

Definition cudaGetLastError_ : M (ipc D) Z := forward "cudaGetLastError" "real_cudaGetLastError" cudaGetLastError.

(** ** Peer access *)

Definition cudaErrorPeerAccessAlreadyEnabled : Z := 704.
Definition cudaErrorPeerAccessNotEnabled : Z := 705.

Definition note_peer (dev : Z) : M (ipc D) unit :=
  modify (λ s, set_peers ({[dev]} ∪ g_peer_access_devices s) (g_saved_peer_access_devices s) s).
Definition forget_peer (dev : Z) : M (ipc D) unit :=
  modify (λ s, set_peers (g_peer_access_devices s ∖ {[dev]}) (g_saved_peer_access_devices s) s).

(** The hooked [cudaDeviceEnablePeerAccess]. *)
Definition enable_peer (peerDevice flags : Z) : M (ipc D) Z :=
  _ ← resolve RTLD_NEXT "real_cudaDeviceEnablePeerAccess" "cudaDeviceEnablePeerAccess";
  if_has ["real_cudaDeviceEnablePeerAccess"%string]
    (err ← drv (cudaDeviceEnablePeerAccess peerDevice flags);
     if bool_decide (err = 0) then _ ← note_peer peerDevice; mret err
     else if bool_decide (err = cudaErrorPeerAccessAlreadyEnabled) then
       _ ← note_peer peerDevice;
       _ ← cudaGetLastError_;
       mret 0
     else mret err)
    (mret 0).

(** The hooked [cudaDeviceDisablePeerAccess]. *)
Definition disable_peer (peerDevice : Z) : M (ipc D) Z :=
  _ ← resolve RTLD_NEXT "real_cudaDeviceDisablePeerAccess" "cudaDeviceDisablePeerAccess";
  if_has ["real_cudaDeviceDisablePeerAccess"%string]
    (err ← drv (cudaDeviceDisablePeerAccess peerDevice);
     _ ← (if bool_decide (err = 0) then forget_peer peerDevice else mret tt);
     mret err)
    (mret 0).

(** A [std::set<int>] is iterated in increasing order. *)
Definition set_entries_ (s : gset Z) : list Z := merge_sort Z.le (elements s).

Definition disable_one (disabled dev : Z) : M (ipc D) Z :=
  err ← drv (cudaDeviceDisablePeerAccess dev);
  _ ← cudaGetLastError_;
  mret (if bool_decide (err = 0 ∨ err = cudaErrorPeerAccessNotEnabled) then disabled + 1 else disabled).

Definition ipc_disable_all_peer_access : M (ipc D) Z :=
  _ ← resolve RTLD_NEXT "real_cudaDeviceDisablePeerAccess" "cudaDeviceDisablePeerAccess";
  if_has ["real_cudaDeviceDisablePeerAccess"%string]
    (_ ← modify (λ s, set_peers (g_peer_access_devices s) (g_peer_access_devices s) s);
     devs ← get (λ s, set_entries_ (g_peer_access_devices s));
     disabled ← foldM disable_one 0 devs;
     _ ← modify (λ s, set_peers ∅ (g_saved_peer_access_devices s) s);
     mret disabled)
    (mret 0).

Definition enable_one (enabled dev : Z) : M (ipc D) Z :=
  err ← drv (cudaDeviceEnablePeerAccess dev 0);
  let ok := bool_decide (err = 0 ∨ err = cudaErrorPeerAccessAlreadyEnabled) in
  _ ← (if ok then note_peer dev else mret tt);
  _ ← cudaGetLastError_;
  mret (if ok then enabled + 1 else enabled).

Definition ipc_reenable_all_peer_access : M (ipc D) Z :=
  _ ← resolve RTLD_NEXT "real_cudaDeviceEnablePeerAccess" "cudaDeviceEnablePeerAccess";
  if_has ["real_cudaDeviceEnablePeerAccess"%string]
    (devs ← get (λ s, set_entries_ (g_saved_peer_access_devices s));
     enabled ← foldM enable_one 0 devs;
     _ ← modify (λ s, set_peers (g_peer_access_devices s) ∅ s);
     mret enabled)
    (mret 0).

(** ** IPC events *)

Definition add_event (r : IpcEventRecord) : M (ipc D) unit :=
  modify (λ s, set_events (g_ipc_events s ++ [r]) s).

(** The hooked [cudaIpcGetEventHandle]: error and handle. *)
Definition get_event_handle (event : Z) : M (ipc D) (Z * Z) :=
  match real_dlsym RTLD_NEXT "cudaIpcGetEventHandle" with
  | None => mret (cudaErrorNotSupported, 0)
  | Some _ =>
      r ← drv (cudaIpcGetEventHandle event);
      _ ← (if bool_decide (r.1 = 0) then add_event (MkEvent event false false) else mret tt);
      mret r
  end.

(** The hooked [cudaIpcOpenEventHandle]: error and event. *)
Definition open_event_handle (handle : Z) : M (ipc D) (Z * Z) :=
  match real_dlsym RTLD_NEXT "cudaIpcOpenEventHandle" with
  | None => mret (cudaErrorNotSupported, 0)
  | Some _ =>
      r ← drv (cudaIpcOpenEventHandle handle);
      _ ← (if bool_decide (r.1 = 0 ∧ r.2 ≠ 0) then add_event (MkEvent r.2 true false) else mret tt);
      mret r
  end.

Definition tear_event (torn : Z) (i : nat) : M (ipc D) Z :=
  e ← get (λ s, g_ipc_events s !! i);
  match e with
  | None => fail OutOfBounds
  | Some e =>
      if ev_torn_down e then mret torn else
      _ ← (if is_opened e then _ ← drv (cudaEventDestroy (ev_event e)); mret tt else mret tt);
      _ ← modify (λ s, set_events (alter (λ e, MkEvent (ev_event e) (is_opened e) true) i
                                     (g_ipc_events s)) s);
      mret (torn + 1)
  end.

Definition ipc_teardown_all_events : M (ipc D) Z :=
  n ← get (λ s, length (g_ipc_events s));
  match n with
  | O => mret 0
  | _ =>
      match real_dlsym RTLD_NEXT "cudaEventDestroy" with
      | None => mret (-1)
      | Some _ => foldM tear_event 0 (seq 0 n)
      end
  end.

Definition ipc_get_event_count : M (ipc D) Z :=
  get (λ s, Z.of_nat (length (filter (λ e, ev_torn_down e = false) (g_ipc_events s)))).

(** ** Imports *)

Definition import_at (i : nat) : M (ipc D) IpcImportRecord := λ s,
  match g_ipc_imports (tb s) !! i with Some r => Ret r s | None => Stuck OutOfBounds s end.
Definition set_import (i : nat) (f : IpcImportRecord → IpcImportRecord) : M (ipc D) unit :=
  track (λ t, set_imports (alter f i (g_ipc_imports t)) t).

(** Calls of the code through the pointers that can be our own hooks. *)
Definition real_unmap (p n : Z) : M (ipc D) Z :=
  call_fn "real_cuMemUnmap" (drv (cuMemUnmap p n)) (hook_cuMemUnmap p n).
Definition real_release (h : Z) : M (ipc D) Z :=
  call_fn "fn_cuMemRelease" (drv (cuMemRelease h)) (hook_cuMemRelease h).
Definition real_create (n : Z) (prop : alloc_prop) : M (ipc D) (Z * Z) :=
  call_fn "real_cuMemCreate" (drv (cuMemCreate n prop)) (hook_cuMemCreate n prop).
Definition real_map (p n h : Z) : M (ipc D) Z :=
  call_fn "real_cuMemMap" (drv (cuMemMap p n h)) (hook_cuMemMap p n h).
Definition real_set_access (p n : Z) (d : access_desc) : M (ipc D) Z :=
  call_fn "real_cuMemSetAccess" (drv (cuMemSetAccess p n [d])) (hook_cuMemSetAccess p n [d]).
Definition real_export (h ty : Z) : M (ipc D) (Z * Z) :=
  call_fn "real_cuMemExportToShareableHandle" (drv (cuMemExportToShareableHandle h ty))
    (hook_cuMemExportToShareableHandle h ty).
Definition real_import (fd ty : Z) : M (ipc D) (Z * Z) :=
  call_fn "real_cuMemImportFromShareableHandle" (drv (cuMemImportFromShareableHandle fd ty))
    (hook_cuMemImportFromShareableHandle fd ty).

(** [if (real_cuMemUnmap) real_cuMemUnmap(...)], the result only reported. *)
Definition try_unmap (p n : Z) : M (ipc D) unit :=
  if_has ["real_cuMemUnmap"%string] (_ ← real_unmap p n; mret tt) (mret tt).

Definition tear_import (torn : Z) (i : nat) : M (ipc D) Z :=
  r ← import_at i;
  if i_torn_down r then mret torn else
  _ ← try_unmap (i_vaddr r) (i_size r);
  _ ← (if bool_decide (i_handle r ≠ 0) then _ ← real_release (i_handle r); mret tt else mret tt);
  _ ← set_import i (λ r, import_handle 0 (import_torn r));
  mret (torn + 1).

Definition ipc_teardown_all_imports : M (ipc D) Z :=
  _ ← resolve_helper_fns;
  _ ← resolve RTLD_DEFAULT "real_cuMemUnmap" "cuMemUnmap";
  if_has ["fn_cuMemRelease"%string]
    (n ← get (λ s, length (g_ipc_imports (tb s))); foldM tear_import 0 (seq 0 n))
    (mret (-1)).

(** ** Publication of the exports *)

Record IpcExportShmEntry := MkEntry {
  owner_pid : Z;
  ent_fd : Z;
  local_ptr : Z;
  ent_size : Z;
  valid : Z
}.

(** [IpcRebuildShmBlock]: the entries past [num_exports] are stale. *)
Record IpcRebuildShmBlock := MkBlock { num_exports : Z; entries : list IpcExportShmEntry }.

Definition export_entry (r : IpcExportRecord) : IpcExportShmEntry :=
  MkEntry getpid (exported_fd r) (mapped_vaddr r) (e_size r) 1.

(** One round of the loop of [ipc_write_export_info_to_shm]. *)
Definition write_entry (b : IpcRebuildShmBlock) (r : IpcExportRecord) : IpcRebuildShmBlock :=
  if bool_decide (exported_fd r < 0) then b else
  MkBlock (num_exports b + 1) (<[Z.to_nat (num_exports b) := export_entry r]> (entries b)).

Definition ipc_write_export_info_to_shm (block : IpcRebuildShmBlock)
    : M (ipc D) (Z * IpcRebuildShmBlock) :=
  es ← get (λ s, g_ipc_exports (tb s));
  let b := foldl write_entry (MkBlock 0 (entries block))
             (take (Z.to_nat IPC_MAX_EXPORTS_PER_PROC) es) in
  mret (num_exports b, b).

(** ** Rebuild of the imports from a block *)

Context {SK : Sockets D}.

(** The valid entries with their index, and the entry count bounded by the array. *)
Definition block_entries (block : IpcRebuildShmBlock) : M (ipc D) (list (nat * IpcExportShmEntry)) :=
  if bool_decide (Z.of_nat (length (entries block)) < num_exports block) then fail OutOfBounds else
  mret (filter (λ ie, valid ie.2 ≠ 0) (imap pair (take (Z.to_nat (num_exports block)) (entries block)))).

(** One peer: [entry_to_local_fd] after its fds have been requested. *)
Definition request_peer (fds : gmap nat Z) (req : Z * list (nat * IpcExportShmEntry))
    : M (ipc D) (gmap nat Z) :=
  r ← drv (uds_receive_fds req.1 ((λ ie, ent_fd ie.2) <$> req.2) (replicate (length req.2) (-1)));
  if bool_decide (r.1 ≤ 0) then mret fds else
  mret (foldl (λ m jf, <[jf.1 := jf.2]> m) fds
          (take (Z.to_nat r.1) (zip (fst <$> req.2) r.2))).

(** The entries a local fd was received for, in block order. *)
Definition valid_exports (fds : gmap nat Z) (es : list (nat * IpcExportShmEntry)) : list Z :=
  omap (λ ie, match fds !! ie.1 with Some fd => if bool_decide (fd < 0) then None else Some fd
                                   | None => None end) es.

(** The torn-down imports, in creation order. *)
Definition torn_imports (imps : list IpcImportRecord) : list nat :=
  fst <$> filter (λ ir, i_torn_down ir.2 = true) (imap pair imps).

(** The access descriptors replayed on a rebuilt import. *)
Definition replay_import (r : IpcImportRecord) : M (ipc D) unit :=
  let fallback := if bool_decide (0 ≤ i_access_dev r) then
      if_has ["real_cuMemSetAccess"%string]
        (_ ← real_set_access (i_vaddr r) (i_size r) (i_access_desc r); mret tt) (mret tt)
    else mret tt in
  match i_all_access r with
  | [] => fallback
  | ds => if_has ["real_cuMemSetAccess"%string]
            (foldM (λ _ d, _ ← real_set_access (i_vaddr r) (i_size r) d; mret tt) tt ds) fallback
  end.

Definition rebuild_import (rebuilt : Z) (m : Z * nat) : M (ipc D) Z :=
  target ← import_at m.2;
  r ← real_import m.1 CU_MEM_HANDLE_TYPE_POSIX_FILE_DESCRIPTOR;
  _ ← drv (close m.1);
  if bool_decide (r.1 ≠ CUDA_SUCCESS) then mret rebuilt else
  res ← real_map (i_vaddr target) (i_size target) r.2;
  if bool_decide (res ≠ CUDA_SUCCESS) then _ ← real_release r.2; mret rebuilt else
  _ ← replay_import target;
  _ ← set_import m.2 (import_live r.2);
  mret (rebuilt + 1).

Definition ipc_import_from_shm_block (block : IpcRebuildShmBlock) : M (ipc D) Z :=
  if bool_decide (num_exports block = 0) then mret 0 else
  _ ← if_has ["real_cuMemImportFromShareableHandle"; "real_cuMemMap"; "real_cuMemSetAccess"]%string
        (mret tt)
        (_ ← resolve RTLD_DEFAULT "real_cuMemImportFromShareableHandle" "cuMemImportFromShareableHandle";
         _ ← resolve RTLD_DEFAULT "real_cuMemMap" "cuMemMap";
         resolve RTLD_DEFAULT "real_cuMemSetAccess" "cuMemSetAccess");
  if_has ["real_cuMemImportFromShareableHandle"; "real_cuMemMap"]%string
    (es ← block_entries block;
     fds ← foldM request_peer ∅ (group_by (λ ie, owner_pid ie.2) es);
     torn ← get (λ s, torn_imports (g_ipc_imports (tb s)));
     let ves := valid_exports fds es in
     rebuilt ← foldM rebuild_import 0 (zip ves torn);
     _ ← foldM (λ _ fd, drv (close fd)) tt (drop (length torn) ves);
     mret rebuilt)
    (mret (-1)).

(** ** Counts and validation *)

Definition ipc_get_import_count : M (ipc D) Z := get (λ s, Z.of_nat (length (g_ipc_imports (tb s)))).
Definition ipc_get_export_count : M (ipc D) Z := get (λ s, Z.of_nat (length (g_ipc_exports (tb s)))).

(** Push the primary context of a device around a body: whether it was pushed. *)
Definition push_ctx (guard : bool) (dev : Z) : M (ipc D) bool :=
  if negb guard then mret false else
  if_has ["fn_cuDevicePrimaryCtxRetain"; "fn_cuCtxPushCurrent"; "fn_cuCtxPopCurrent"]%string
    (r ← call_real "fn_cuDevicePrimaryCtxRetain" (cuDevicePrimaryCtxRetain dev);
     if bool_decide (r.1 = CUDA_SUCCESS ∧ r.2 ≠ 0) then
       _ ← call_real "fn_cuCtxPushCurrent" (cuCtxPushCurrent r.2); mret true
     else mret false)
    (mret false).

Definition pop_ctx (pushed : bool) (dev : Z) : M (ipc D) unit :=
  if pushed then
    _ ← call_real "fn_cuCtxPopCurrent" cuCtxPopCurrent;
    if_has ["fn_cuDevicePrimaryCtxRelease"%string]
      (_ ← call_real "fn_cuDevicePrimaryCtxRelease" (cuDevicePrimaryCtxRelease dev); mret tt) (mret tt)
  else mret tt.

(** Read four bytes of a mapping into the local [probe] at [probe_addr]. *)
Definition probe_one (probe_addr dev_id : Z) (push : bool) (acc : Z * Z) (vaddr : Z)
    : M (ipc D) (Z * Z) :=
  pushed ← push_ctx push dev_id;
  res ← call_real "fn_cuMemcpyDtoH" (cuMemcpyDtoH probe_addr vaddr 4);
  _ ← pop_ctx pushed dev_id;
  mret (acc.1 + 1, if bool_decide (res ≠ CUDA_SUCCESS) then acc.2 + 1 else acc.2).

Definition ipc_validate_all_mappings (probe_addr : Z) : M (ipc D) Z :=
  _ ← resolve_helper_fns;
  t ← get tb;
  acc ← foldM (λ acc r, probe_one probe_addr (location_id (saved_prop r)) true acc (mapped_vaddr r)) (0, 0)
          (filter (λ r, e_torn_down r = false ∧ has_mapping r = true ∧ mapped_size r ≠ 0)
             (g_ipc_exports t));
  acc ← foldM (λ acc r, probe_one probe_addr 0 false acc (i_vaddr r)) acc
          (filter (λ r, i_torn_down r = false ∧ i_size r ≠ 0) (g_ipc_imports t));
  acc ← foldM (λ acc r, probe_one probe_addr (location_id (l_prop r)) true acc (l_vaddr r)) acc
          (filter (λ r, l_torn_down r = false ∧ l_size r ≠ 0) (g_local_allocs t));
  mret acc.2.

End Hooks.
