(* ===== verification/LaunchHooks.v ===== *)
(** The kernel launch, error and context hooks of [src/src/ipc_hooks.cpp].

    Every launch hook runs the real launch in the context captured from the
    application: it pushes that context when another one is current and pops it
    again afterwards.  The remaining hooks forward to the real function. *)
From S2P Require Import Prelude Common Gpu IpcState IpcDriver IpcHooks.
Open Scope Z_scope.

Definition CUDA_ERROR_UNKNOWN : Z := 999.

Section Launch.
Context {D : Type} `{CuDriver D} `{Platform}.

(** The context current on this thread, 0 when there is none. *)
Definition current_ctx : M (ipc D) Z :=
  r ← drv cuCtxGetCurrent; mret (if bool_decide (r.1 = CUDA_SUCCESS) then r.2 else 0).

(** Push the captured context when it is not the current one: whether it was pushed. *)
Definition push_captured : M (ipc D) bool :=
  ctx ← current_ctx;
  c ← get captured;
  if bool_decide (c ≠ 0 ∧ ctx ≠ c) then
    res ← drv (cuCtxPushCurrent c); mret (bool_decide (res = CUDA_SUCCESS))
  else mret false.

(** A launch hook on [name]: when the pointer is this library's own function the hook
    calls itself, at most [fuel] deep. *)
Fixpoint launch_loop (fuel : nat) (name storage : string) (unknown args : Z) : M (ipc D) Z :=
  pushed ← push_captured;
  _ ← resolve RTLD_NEXT storage name;
  q ← get (λ s, fns s !! storage);
  result ← (match q, fuel with
            | None, _ => mret unknown
            | Some Real, _ => drv (launch name args)
            | Some Ours, O => fail OutOfFuel
            | Some Ours, S fuel' => launch_loop fuel' name storage unknown args
            end : M (ipc D) Z);
  _ ← (if pushed : bool then _ ← drv cuCtxPopCurrent; mret tt else mret tt);
  mret result.

Definition launch_hook := launch_loop stack_depth.

Definition cudaLaunchKernel := launch_hook "cudaLaunchKernel" "real_cudaLaunchKernel" cudaErrorUnknown.
Definition cuLaunchKernel := launch_hook "cuLaunchKernel" "real_cuLaunchKernel" CUDA_ERROR_UNKNOWN.
Definition cudaLaunchKernel_ptsz :=
  launch_hook "cudaLaunchKernel_ptsz" "real_cudaLaunchKernel_ptsz" cudaErrorUnknown.
Definition cuLaunchKernel_ptsz :=
  launch_hook "cuLaunchKernel_ptsz" "real_cuLaunchKernel_ptsz" CUDA_ERROR_UNKNOWN.
Definition cuLaunchKernelEx := launch_hook "cuLaunchKernelEx" "real_cuLaunchKernelEx" CUDA_ERROR_UNKNOWN.
Definition cudaLaunchKernelExC :=
  launch_hook "cudaLaunchKernelExC" "real_cudaLaunchKernelExC" cudaErrorUnknown.
Definition cudaLaunchKernelExC_ptsz :=
  launch_hook "cudaLaunchKernelExC_ptsz" "real_cudaLaunchKernelExC_ptsz" cudaErrorUnknown.
Definition __cudaLaunchKernel :=
  launch_hook "__cudaLaunchKernel" "real___cudaLaunchKernel" cudaErrorUnknown.
Definition __cudaLaunchKernel_ptsz :=
  launch_hook "__cudaLaunchKernel_ptsz" "real___cudaLaunchKernel_ptsz" cudaErrorUnknown.

Definition cudaPeekAtLastError_ : M (ipc D) Z :=
  forward "cudaPeekAtLastError" "real_cudaPeekAtLastError" cudaPeekAtLastError.
Definition cudaStreamSynchronize_ (stream : Z) : M (ipc D) Z :=
  forward "cudaStreamSynchronize" "real_cudaStreamSynchronize" (cudaStreamSynchronize stream).
Definition cudaStreamSynchronize_ptsz (stream : Z) : M (ipc D) Z :=
  forward "cudaStreamSynchronize_ptsz" "real_cudaStreamSynchronize_ptsz" (cudaStreamSynchronize stream).

(** The context hooks call through the pointer without a test. *)
Definition forward_ctx {A} (name storage : string) (real : M D A) (null : A) : M (ipc D) A :=
  _ ← resolve RTLD_NEXT storage name;
  if_has [storage] (hooked stack_depth storage real (λ _, mret tt) null) (fail NullCall).

Definition hook_cuCtxCreate (fl dev : Z) : M (ipc D) (Z * Z) :=
  forward_ctx "cuCtxCreate" "real_cuCtxCreate" (cuCtxCreate fl dev) (0, 0).
Definition hook_cuCtxDestroy (ctx : Z) : M (ipc D) Z :=
  forward_ctx "cuCtxDestroy" "real_cuCtxDestroy" (cuCtxDestroy ctx) 0.
Definition hook_cuDevicePrimaryCtxRetain (dev : Z) : M (ipc D) (Z * Z) :=
  forward_ctx "cuDevicePrimaryCtxRetain" "real_cuDevicePrimaryCtxRetain" (cuDevicePrimaryCtxRetain dev) (0, 0).
Definition hook_cuDevicePrimaryCtxRelease (dev : Z) : M (ipc D) Z :=
  forward_ctx "cuDevicePrimaryCtxRelease" "real_cuDevicePrimaryCtxRelease" (cuDevicePrimaryCtxRelease dev) 0.

(** The launch hooks with the function each stands for and its pointer. *)
Definition launch_table (args : Z) : list (M (ipc D) Z * string * string) :=
  [(cudaLaunchKernel args, "cudaLaunchKernel", "real_cudaLaunchKernel");
   (cuLaunchKernel args, "cuLaunchKernel", "real_cuLaunchKernel");
   (cudaLaunchKernel_ptsz args, "cudaLaunchKernel_ptsz", "real_cudaLaunchKernel_ptsz");
   (cuLaunchKernel_ptsz args, "cuLaunchKernel_ptsz", "real_cuLaunchKernel_ptsz");
   (cuLaunchKernelEx args, "cuLaunchKernelEx", "real_cuLaunchKernelEx");
   (cudaLaunchKernelExC args, "cudaLaunchKernelExC", "real_cudaLaunchKernelExC");
   (cudaLaunchKernelExC_ptsz args, "cudaLaunchKernelExC_ptsz", "real_cudaLaunchKernelExC_ptsz");
   (__cudaLaunchKernel args, "__cudaLaunchKernel", "real___cudaLaunchKernel");
   (__cudaLaunchKernel_ptsz args, "__cudaLaunchKernel_ptsz", "real___cudaLaunchKernel_ptsz")]%string.

End Launch.

(** ** Facts *)

Section Facts.
Context {D : Type} {CD : CuDriver D} {CL : CuLaws D} {CR : CuReliable D} {PF : Platform}.
Implicit Types (s : ipc D).

(** The context stack a state shows. *)
Definition stack_of s : list Z := cv_ctx (cu_view (cu s)).

(** The stack a launch runs under. *)
Definition launch_stack (c : Z) (st : list Z) : list Z :=
  if bool_decide (c ≠ 0 ∧ default 0 (head st) ≠ c) then c :: st else st.

Lemma push_captured_spec s : wp push_captured (λ b s',
  stack_of s' = launch_stack (captured s) (stack_of s) ∧ fns s' = fns s ∧ tb s' = tb s ∧
  captured s' = captured s ∧ b = bool_decide (captured s ≠ 0 ∧ default 0 (head (stack_of s)) ≠ captured s)) s.
Proof.
  unfold push_captured, current_ctx. apply wp_bind, wp_bind. unfold drv. apply wp_zoom.
  destruct (cuCtxGetCurrent_law (cu s)) as (r & c & d & Hm & He & _ & Hc).
  eapply wp_intro; [exact Hm|]. specialize (Hc I). destruct (He Hc) as [-> Hd]. subst r. simpl.
  apply wp_ret. apply wp_bind, wp_get. simpl. unfold launch_stack, stack_of.
  destruct (bool_decide _) eqn:Hb.
  - apply wp_bind, wp_zoom. destruct (cuCtxPushCurrent_law d (captured s)) as (r & d' & Hm' & He' & _ & Hc').
    eapply wp_intro; [exact Hm'|]. specialize (Hc' cu_is_reliable). specialize (He' Hc'). subst r.
    apply wp_ret. simpl. rewrite He'. simpl. by rewrite Hd.
  - apply wp_ret. simpl. by rewrite Hd.
Qed.

(** After the launch: pop what was pushed. *)
Lemma launch_pop s s1 (b : bool) r d name args :
  launch name args (cu s1) = Ret r d → cv_ctx (cu_view d) = stack_of s1 →
  stack_of s1 = launch_stack (captured s) (stack_of s) → fns s1 = fns s → tb s1 = tb s →
  b = bool_decide (captured s ≠ 0 ∧ default 0 (head (stack_of s)) ≠ captured s) →
  wp (_ ← (if b then _ ← drv cuCtxPopCurrent; mret tt else mret tt); mret r) (λ r s', ∃ d1 d2,
    launch name args d1 = Ret r d2 ∧ cv_ctx (cu_view d1) = launch_stack (captured s) (stack_of s) ∧
    stack_of s' = stack_of s ∧ fns s' = fns s ∧ tb s' = tb s) (set_cu d s1).
Proof.
  intros Hm Hd Hst Hf Ht ->. unfold launch_stack in Hst |- *. destruct (bool_decide _) eqn:Hb.
  - apply wp_bind, wp_bind, wp_zoom. cbn [cu set_cu].
    destruct (cuCtxPopCurrent_law d) as (e & c & d' & Hm' & He & _ & Hc).
    eapply wp_intro; [exact Hm'|]. specialize (He (Hc ltac:(by rewrite Hd, Hst))).
    apply wp_ret, wp_ret. exists (cu s1), d. split_and!; [done|exact Hst| |done|done].
    unfold stack_of at 1. simpl. rewrite He. simpl. by rewrite Hd, Hst.
  - apply wp_bind, wp_ret, wp_ret. exists (cu s1), d. split_and!; [done|exact Hst| |done|done].
    unfold stack_of at 1. simpl. by rewrite Hd, Hst.
Qed.

(** The launch runs on top of the captured context, and the stack is the caller's
    again afterwards. *)
Lemma launch_loop_spec n name storage unknown args s :
  fns s !! storage = Some Real →
  wp (launch_loop n name storage unknown args) (λ r s', ∃ d1 d2,
    launch name args d1 = Ret r d2 ∧ cv_ctx (cu_view d1) = launch_stack (captured s) (stack_of s) ∧
    stack_of s' = stack_of s ∧ fns s' = fns s ∧ tb s' = tb s) s.
Proof.
  intros Hp. destruct n as [|n]; cbn [launch_loop]; apply wp_bind;
    (eapply wp_mono; [apply push_captured_spec|]); intros b s1 (Hst & Hf & Ht & Hcap & Hb);
    apply wp_bind; (eapply wp_intro; [apply resolve_resolved; by rewrite Hf, Hp|]);
    apply wp_bind, wp_get; rewrite Hf, Hp; apply wp_bind, wp_zoom;
    destruct (launch_law (cu s1) name args) as (r & d & Hm & Hd);
    (eapply wp_intro; [exact Hm|]); by apply (launch_pop s s1 b r d name args).
Qed.

End Facts.
