(* ===== verification/IpcExports.v ===== *)
(** Exported and local IPC allocations: save, tear down, rebuild.

    The export half of [src/src/ipc_hooks.cpp]: before a checkpoint the contents of
    every exported allocation go to a host buffer, grouped by device, and the
    allocation is unmapped and released; after the restore it is created again at
    its address, its bytes are loaded from the offset recorded when it was saved,
    and it is exported again.  The second half does the same for allocations that
    are IPC-capable but never exported, whose offsets are not recorded. *)
From S2P Require Import Prelude Common Gpu IpcState IpcDriver IpcHooks.
Open Scope Z_scope.

Section Exports.
Context {D : Type} `{CuDriver D} `{Platform}.

Definition export_at (i : nat) : M (ipc D) IpcExportRecord := λ s,
  match g_ipc_exports (tb s) !! i with Some r => Ret r s | None => Stuck OutOfBounds s end.
Definition set_export (i : nat) (f : IpcExportRecord → IpcExportRecord) : M (ipc D) unit :=
  track (λ t, set_exports (alter f i (g_ipc_exports t)) t).

(** Exports with live mapped data. *)
Definition saves (r : IpcExportRecord) : bool :=
  negb (e_torn_down r) && has_mapping r && bool_decide (0 < mapped_size r).

Definition ipc_get_export_data_size : M (ipc D) Z :=
  get (λ s, foldl (λ t r, wrap64 (t + mapped_size r)) 0 (filter saves (g_ipc_exports (tb s)))).

(** The device an export is grouped under. *)
Definition save_dev (r : IpcExportRecord) : Z := if has_saved_prop r then location_id (saved_prop r) else -1.

(** [device_exports] *)
Definition device_exports (es : list IpcExportRecord) : list (Z * list (nat * IpcExportRecord)) :=
  group_by (λ ir, save_dev ir.2) (filter (λ ir, saves ir.2) (imap pair es)).

Definition total_needed (g : list (Z * list (nat * IpcExportRecord))) : Z :=
  foldl (λ t dg, foldl (λ t ir, wrap64 (t + mapped_size ir.2)) t dg.2) 0 g.

(** Pin the host buffer: whether it succeeded. *)
Definition pin (host_buf n : Z) : M (ipc D) bool :=
  if_has ["fn_cuMemHostRegister"%string]
    (if bool_decide (0 < n) then
       r ← call_real "fn_cuMemHostRegister" (cuMemHostRegister host_buf n);
       mret (bool_decide (r = CUDA_SUCCESS))
     else mret false)
    (mret false).

Definition unregister (host_buf : Z) : M (ipc D) unit :=
  _ ← call_real "fn_cuMemHostUnregister" (cuMemHostUnregister host_buf); mret tt.
Definition unpin (pinned : bool) (host_buf : Z) : M (ipc D) unit :=
  if pinned then if_has ["fn_cuMemHostUnregister"%string] (unregister host_buf) (mret tt) else mret tt.

(** Whether the copies go through a stream. *)
Definition use_async (pinned : bool) (copy_fn : string) : M (ipc D) bool :=
  if pinned then
    if_has ["fn_cuStreamCreate"; "fn_cuStreamSynchronize"; "fn_cuStreamDestroy"; copy_fn]%string
      (mret true) (mret false)
  else mret false.

Definition new_stream : M (ipc D) Z :=
  r ← call_real "fn_cuStreamCreate" cuStreamCreate;
  mret (if bool_decide (r.1 = 0) then r.2 else 0).
Definition sync_stream (s : Z) : M (ipc D) unit :=
  _ ← call_real "fn_cuStreamSynchronize" (cuStreamSynchronize s); mret tt.
Definition destroy_stream (s : Z) : M (ipc D) unit :=
  _ ← call_real "fn_cuStreamDestroy" (cuStreamDestroy s); mret tt.

(** The copy of one export to [host_buf + offset]; [inr] when it fails. *)
Definition save_one (copy_out : Z → Z → Z → M (ipc D) Z) (host_buf : Z)
    (acc : Z * Z) (ir : nat * IpcExportRecord) : M (ipc D) (Z * Z + unit) :=
  let '(offset, count) := acc in
  _ ← set_export ir.1 (export_offset offset);
  res ← copy_out (host_buf + offset) (mapped_vaddr ir.2) (mapped_size ir.2);
  if bool_decide (res ≠ CUDA_SUCCESS) then mret (inr tt)
  else mret (inl (wrap64 (offset + mapped_size ir.2), count + 1)).

(** One device of the save. *)
Definition save_device (host_buf : Z) (pinned async : bool) (acc : Z * Z)
    (dg : Z * list (nat * IpcExportRecord)) : M (ipc D) (Z * Z + Z) :=
  pushed ← push_ctx (bool_decide (0 ≤ dg.1)) dg.1;
  r ← (if async : bool then
         stream ← new_stream;
         r ← for_ret (save_one (λ h p n, call_real "fn_cuMemcpyDtoHAsync" (cuMemcpyDtoHAsync h p n stream))
                        host_buf) acc dg.2;
         _ ← (match r with inl _ => sync_stream stream | inr _ => mret tt end);
         _ ← destroy_stream stream;
         mret r
       else
         for_ret (save_one (λ h p n, call_real "fn_cuMemcpyDtoH" (cuMemcpyDtoH h p n)) host_buf) acc dg.2);
  match r with
  | inr _ =>
      _ ← (if pushed : bool then
             _ ← call_real "fn_cuCtxPopCurrent" cuCtxPopCurrent;
             _ ← call_real "fn_cuDevicePrimaryCtxRelease" (cuDevicePrimaryCtxRelease dg.1);
             mret tt
           else mret tt);
      _ ← (if pinned then unregister host_buf else mret tt);
      mret (inr (-1))
  | inl acc => _ ← pop_ctx pushed dg.1; mret (inl acc)
  end.

(** Step 2: the exported fds are closed. *)
Definition close_export_fd (i : nat) : M (ipc D) unit :=
  r ← export_at i;
  if e_torn_down r then mret tt else
  if bool_decide (0 ≤ exported_fd r) then
    _ ← drv (close (exported_fd r)); set_export i (export_fd (-1))
  else mret tt.

(** Step 3: unmap and release. *)
Definition tear_export (torn : Z) (i : nat) : M (ipc D) Z :=
  r ← export_at i;
  if e_torn_down r then mret torn else
  if negb (has_mapping r) then mret torn else
  _ ← try_unmap (mapped_vaddr r) (mapped_size r);
  _ ← real_release (local_handle r);
  _ ← set_export i (λ r, export_handle 0 (export_torn true r));
  mret (torn + 1).

Definition ipc_save_and_teardown_all_exports (host_buf buf_size : Z) : M (ipc D) Z :=
  _ ← resolve_helper_fns;
  _ ← resolve RTLD_DEFAULT "real_cuMemUnmap" "cuMemUnmap";
  if_has ["fn_cuMemRelease"; "fn_cuMemcpyDtoH"]%string
    (es ← get (λ s, g_ipc_exports (tb s));
     let groups := device_exports es in
     let need := total_needed groups in
     if bool_decide (buf_size < need) then mret (-1) else
     pinned ← pin host_buf need;
     async ← use_async pinned "fn_cuMemcpyDtoHAsync";
     r ← for_ret (save_device host_buf pinned async) (0, 0) groups;
     match r with
     | inr e => mret e
     | inl _ =>
         _ ← unpin pinned host_buf;
         _ ← foldM (λ _ i, close_export_fd i) tt (seq 0 (length es));
         foldM tear_export 0 (seq 0 (length es))
     end)
    (mret (-1)).

(** ** Rebuild of the exports *)

Record RebuildEntry := MkRebuild { export_idx : nat; new_handle : Z; data_offset : Z; re_dev : Z }.

(** The access descriptors of the address are replayed one by one; without any, the
    record's own, or read-write for the owning device. *)
Definition replay_export (r : IpcExportRecord) : M (ipc D) unit :=
  ds ← get (λ s, default [] (g_va_access_descs (tb s) !! mapped_vaddr r));
  foldM (λ _ d, _ ← real_set_access (mapped_vaddr r) (mapped_size r) d; mret tt) tt
    (match ds with
     | [] => if has_access r then [e_access_desc r]
             else [MkDesc CU_MEM_LOCATION_TYPE_DEVICE (location_id (saved_prop r))
                     CU_MEM_ACCESS_FLAGS_PROT_READWRITE]
     | _ => ds
     end).

(** Phase A for one export: the entries so far and the end of the data. *)
Definition alloc_export (acc : list RebuildEntry * Z) (i : nat) : M (ipc D) (list RebuildEntry * Z) :=
  r ← export_at i;
  if negb (e_torn_down r) then mret acc else
  if negb (has_mapping r) || bool_decide (mapped_size r = 0) then mret acc else
  if negb (has_saved_prop r) then mret acc else
  h ← real_create (mapped_size r) (saved_prop r);
  if bool_decide (h.1 ≠ CUDA_SUCCESS) then mret acc else
  res ← real_map (mapped_vaddr r) (mapped_size r) h.2;
  if bool_decide (res ≠ CUDA_SUCCESS) then _ ← real_release h.2; mret acc else
  _ ← replay_export r;
  let off := if has_saved_data_offset r then saved_data_offset r else acc.2 in
  mret (acc.1 ++ [MkRebuild i h.2 off (location_id (saved_prop r))],
        Z.max acc.2 (wrap64 (off + mapped_size r))).

(** Phase B for one entry: its bytes are loaded when they are inside the buffer. *)
Definition load_one (copy_in : Z → Z → Z → M (ipc D) Z) (host_buf buf_size : Z) (vaddr size off : Z)
    : M (ipc D) unit :=
  if bool_decide (wrap64 (off + size) ≤ buf_size) then
    _ ← copy_in vaddr (host_buf + off) size; mret tt
  else mret tt.

(** Phase B for one device: the entries as address, size and offset. *)
Definition load_device (host_buf buf_size : Z) (async : bool) (dev : Z) (xs : list (Z * Z * Z))
    : M (ipc D) unit :=
  pushed ← push_ctx true dev;
  _ ← (if async then
         stream ← new_stream;
         _ ← foldM (λ _ x, load_one (λ p h n, call_real "fn_cuMemcpyHtoDAsync" (cuMemcpyHtoDAsync p h n stream))
                             host_buf buf_size x.1.1 x.1.2 x.2) tt xs;
         _ ← sync_stream stream;
         destroy_stream stream
       else
         foldM (λ _ x, load_one (λ p h n, call_real "fn_cuMemcpyHtoD" (cuMemcpyHtoD p h n))
                         host_buf buf_size x.1.1 x.1.2 x.2) tt xs);
  pop_ctx pushed dev.

Definition export_range (es : list IpcExportRecord) (e : RebuildEntry) : Z * Z * Z :=
  match es !! export_idx e with
  | Some r => (mapped_vaddr r, mapped_size r, data_offset e)
  | None => (0, 0, 0)
  end.

(** Phase C for one entry: export again and update the tables. *)
Definition reexport (e : RebuildEntry) : M (ipc D) unit :=
  r ← export_at (export_idx e);
  fd ← if_has ["real_cuMemExportToShareableHandle"%string]
         (x ← real_export (new_handle e) (handle_type r);
          mret (if bool_decide (x.1 = CUDA_SUCCESS) then x.2 else -1))
         (mret (-1));
  _ ← (if bool_decide (app_local_handle r ≠ 0 ∧ app_local_handle r ≠ new_handle e) then
         track (λ t, set_alias (<[app_local_handle r := new_handle e]> (g_rebuilt_handle_alias t)) t)
       else mret tt);
  _ ← set_export (export_idx e) (λ r, export_torn false (export_fd fd (export_handle (new_handle e) r)));
  track (λ t, set_handle_va (<[new_handle e := mapped_vaddr r]> (g_handle_to_va t))
               (set_created (<[new_handle e := MkCreate (mapped_size r) (saved_prop r)]>
                               (g_created_allocs t)) t)).

Definition ipc_rebuild_and_restore_all_exports (host_buf buf_size : Z) : M (ipc D) Z :=
  _ ← resolve_helper_fns;
  _ ← if_has ["real_cuMemCreate"; "real_cuMemMap"; "real_cuMemSetAccess";
              "real_cuMemExportToShareableHandle"; "fn_cuMemcpyHtoD"; "fn_cuMemAddressReserve"]%string
        (mret tt)
        (_ ← resolve RTLD_DEFAULT "real_cuMemMap" "cuMemMap";
         _ ← resolve RTLD_DEFAULT "real_cuMemSetAccess" "cuMemSetAccess";
         resolve RTLD_DEFAULT "real_cuMemExportToShareableHandle" "cuMemExportToShareableHandle");
  if_has ["real_cuMemCreate"; "real_cuMemMap"; "fn_cuMemcpyHtoD"; "fn_cuMemAddressReserve"]%string
    (n ← get (λ s, length (g_ipc_exports (tb s)));
     acc ← foldM alloc_export ([], 0) (seq 0 n);
     let groups := group_by re_dev acc.1 in
     pinned ← pin host_buf acc.2;
     async ← use_async pinned "fn_cuMemcpyHtoDAsync";
     es ← get (λ s, g_ipc_exports (tb s));
     _ ← foldM (λ _ dg, load_device host_buf buf_size async dg.1 (export_range es <$> dg.2)) tt groups;
     _ ← unpin pinned host_buf;
     _ ← foldM (λ _ e, reexport e) tt (concat (snd <$> groups));
     mret (Z.of_nat (length acc.1)))
    (mret (-1)).

(** ** Allocations that are IPC-capable but not exported *)

(** The addresses of the exports, and the created allocations mapped elsewhere: handle,
    address, size and properties, in handle order. *)
Definition exported_vas (t : ipc_tables) : gset Z :=
  list_to_set (mapped_vaddr <$> filter (λ r, has_mapping r = true) (g_ipc_exports t)).

Definition local_candidates (t : ipc_tables) : list CuMemLocalAllocRecord :=
  omap (λ kv, match g_handle_to_va t !! kv.1 with
              | Some va => if bool_decide (va ∈ exported_vas t) then None
                           else Some (MkLocal kv.1 va (c_size kv.2) (c_prop kv.2) false)
              | None => None
              end) (map_entries (g_created_allocs t)).

Definition ipc_get_local_alloc_data_size : M (ipc D) Z :=
  get (λ s, foldl (λ t r, wrap64 (t + l_size r)) 0 (local_candidates (tb s))).

(** [LocalAllocEntry]: the record and its offset.  [None] when the buffer is too small. *)
Fixpoint collect_local (buf_size offset : Z) (rs : list CuMemLocalAllocRecord)
    : option (list (CuMemLocalAllocRecord * Z) * Z) :=
  match rs with
  | [] => Some ([], offset)
  | r :: rs' =>
      if bool_decide (buf_size < wrap64 (offset + l_size r)) then None else
      x ← collect_local buf_size (wrap64 (offset + l_size r)) rs';
      Some ((r, offset) :: x.1, x.2)
  end.

Definition local_dev (x : CuMemLocalAllocRecord * Z) : Z := location_id (l_prop x.1).

(** One device of the save.  A failing copy on a stream is only reported. *)
Definition save_local_device (host_buf : Z) (pinned async : bool) (l : unit)
    (dg : Z * list (CuMemLocalAllocRecord * Z)) : M (ipc D) (unit + Z) :=
  pushed ← push_ctx true dg.1;
  r ← (if async : bool then
         stream ← new_stream;
         _ ← foldM (λ _ x, _ ← call_real "fn_cuMemcpyDtoHAsync"
                              (cuMemcpyDtoHAsync (host_buf + x.2) (l_vaddr x.1) (l_size x.1) stream); mret tt)
               tt dg.2;
         _ ← sync_stream stream;
         _ ← destroy_stream stream;
         mret (inl tt)
       else
         for_ret (λ _ x, res ← call_real "fn_cuMemcpyDtoH"
                            (cuMemcpyDtoH (host_buf + x.2) (l_vaddr x.1) (l_size x.1));
                         mret (if bool_decide (res ≠ CUDA_SUCCESS) then inr tt else inl tt)) tt dg.2);
  match r with
  | inr _ =>
      _ ← (if pushed : bool then
             _ ← call_real "fn_cuCtxPopCurrent" cuCtxPopCurrent;
             _ ← call_real "fn_cuDevicePrimaryCtxRelease" (cuDevicePrimaryCtxRelease dg.1);
             mret tt
           else mret tt);
      _ ← (if pinned then unregister host_buf else mret tt);
      mret (inr (-1))
  | inl _ =>
      _ ← pop_ctx pushed dg.1;
      _ ← track (λ t, set_local (g_local_allocs t ++ (fst <$> dg.2)) t);
      mret (inl tt)
  end.

Definition local_at (i : nat) : M (ipc D) CuMemLocalAllocRecord := λ s,
  match g_local_allocs (tb s) !! i with Some r => Ret r s | None => Stuck OutOfBounds s end.
Definition set_local_at (i : nat) (f : CuMemLocalAllocRecord → CuMemLocalAllocRecord) : M (ipc D) unit :=
  track (λ t, set_local (alter f i (g_local_allocs t)) t).

Definition tear_local (torn : Z) (i : nat) : M (ipc D) Z :=
  r ← local_at i;
  _ ← try_unmap (l_vaddr r) (l_size r);
  _ ← real_release (l_handle r);
  _ ← set_local_at i (local_torn true);
  mret (torn + 1).

Definition ipc_save_and_teardown_local_allocs (host_buf buf_size : Z) : M (ipc D) Z :=
  _ ← resolve_helper_fns;
  _ ← resolve RTLD_DEFAULT "real_cuMemUnmap" "cuMemUnmap";
  if_has ["fn_cuMemRelease"; "fn_cuMemcpyDtoH"]%string
    (_ ← track (set_local []);
     rs ← get (λ s, local_candidates (tb s));
     match collect_local buf_size 0 rs with
     | None => mret (-1)
     | Some (xs, offset) =>
         pinned ← pin host_buf offset;
         async ← use_async pinned "fn_cuMemcpyDtoHAsync";
         r ← for_ret (save_local_device host_buf pinned async) tt (group_by local_dev xs);
         match r with
         | inr e => mret e
         | inl _ =>
             _ ← unpin pinned host_buf;
             n ← get (λ s, length (g_local_allocs (tb s)));
             foldM tear_local 0 (seq 0 n)
         end
     end)
    (mret (-1)).

(** Phase A of the rebuild for one local allocation. *)
Definition replay_local (r : CuMemLocalAllocRecord) : M (ipc D) unit :=
  if_has ["real_cuMemSetAccess"%string]
    (ds ← get (λ s, default [] (g_va_access_descs (tb s) !! l_vaddr r));
     foldM (λ _ d, _ ← real_set_access (l_vaddr r) (l_size r) d; mret tt) tt
       (match ds with
        | [] => [MkDesc CU_MEM_LOCATION_TYPE_DEVICE (location_id (l_prop r))
                   CU_MEM_ACCESS_FLAGS_PROT_READWRITE]
        | _ => ds
        end))
    (mret tt).

Definition alloc_local (acc : list RebuildEntry * Z) (i : nat) : M (ipc D) (list RebuildEntry * Z) :=
  r ← local_at i;
  if negb (l_torn_down r) then mret acc else
  h ← real_create (l_size r) (l_prop r);
  if bool_decide (h.1 ≠ CUDA_SUCCESS) then mret acc else
  res ← real_map (l_vaddr r) (l_size r) h.2;
  if bool_decide (res ≠ CUDA_SUCCESS) then _ ← real_release h.2; mret acc else
  _ ← replay_local r;
  mret (acc.1 ++ [MkRebuild i h.2 acc.2 (location_id (l_prop r))], wrap64 (acc.2 + l_size r)).

Definition local_range (rs : list CuMemLocalAllocRecord) (e : RebuildEntry) : Z * Z * Z :=
  match rs !! export_idx e with
  | Some r => (l_vaddr r, l_size r, data_offset e)
  | None => (0, 0, 0)
  end.

(** The tables after one allocation is back. *)
Definition retrack_local (e : RebuildEntry) : M (ipc D) unit :=
  r ← local_at (export_idx e);
  _ ← track (λ t, set_handle_va (delete (l_handle r) (<[new_handle e := l_vaddr r]> (g_handle_to_va t)))
             (set_created (delete (l_handle r)
                (<[new_handle e := MkCreate (l_size r) (l_prop r)]> (g_created_allocs t))) t));
  set_local_at (export_idx e) (λ r, MkLocal (new_handle e) (l_vaddr r) (l_size r) (l_prop r) false).

Definition rebuild_local_device (host_buf buf_size : Z) (async : bool) (dg : Z * list RebuildEntry)
    : M (ipc D) unit :=
  rs ← get (λ s, g_local_allocs (tb s));
  _ ← load_device host_buf buf_size async dg.1 (local_range rs <$> dg.2);
  foldM (λ _ e, retrack_local e) tt dg.2.

Definition ipc_rebuild_local_allocs (host_buf buf_size : Z) : M (ipc D) Z :=
  _ ← resolve_helper_fns;
  if_has ["real_cuMemCreate"; "real_cuMemMap"; "fn_cuMemcpyHtoD"]%string
    (n ← get (λ s, length (g_local_allocs (tb s)));
     acc ← foldM alloc_local ([], 0) (seq 0 n);
     pinned ← pin host_buf acc.2;
     async ← use_async pinned "fn_cuMemcpyHtoDAsync";
     _ ← foldM (λ _ dg, rebuild_local_device host_buf buf_size async dg) tt (group_by re_dev acc.1);
     _ ← unpin pinned host_buf;
     mret (Z.of_nat (length acc.1)))
    (mret (-1)).

End Exports.
