(* ===== verification/IpcRules.v ===== *)
(** Reasoning rules for the IPC module.

    [at_ f t v s]: the function pointers, tables and driver view of state [s], the
    view without its context stack.  One rule per primitive of [IpcHooks] and
    [IpcExports], derived from the driver's laws, for the pointers of [linked]. *)
From S2P Require Import Prelude Common Gpu IpcState IpcDriver IpcHooks IpcExports.
Open Scope Z_scope.

(** The pointers the save and rebuild code needs; those of the seven intercepted
    functions are the driver's. *)
Definition core_ptrs : list string :=
  ["real_cuMemCreate"; "real_cuMemExportToShareableHandle"; "real_cuMemImportFromShareableHandle";
   "real_cuMemMap"; "real_cuMemUnmap"; "fn_cuMemRelease"; "real_cuMemSetAccess";
   "fn_cuMemcpyDtoH"; "fn_cuMemcpyHtoD"; "fn_cuMemAddressReserve"]%string.

Definition linked (f : gmap string fnptr) : Prop := ∀ p, p ∈ core_ptrs → f !! p = Some Real.

Section Rules.
Context {D : Type} {CD : CuDriver D} {CL : CuLaws D} {CR : CuReliable D} {PF : Platform}.
Implicit Types (s : ipc D) (v : cview) (t : ipc_tables) (f : gmap string fnptr).

Definition view s : cview := with_ctx [] (cu_view (cu s)).
Definition at_ f t v s : Prop := fns s = f ∧ tb s = t ∧ view s = v.

Lemma wp_drv_call m (cond : Prop) eff Q s f t v :
  at_ f t v s → ccall m (cu s) cond eff →
  (∀ r s' w, fns s' = f → tb s' = t → view s' = with_ctx [] w → (r = 0 → eff w) →
     (r ≠ 0 → view s' = v) → (cond → r = 0) → Q r s') →
  wp (drv m) Q s.
Proof.
  intros (Hf & Ht & Hv) (r & d' & Hm & He & Hn & Hc) HQ. unfold drv. apply wp_zoom.
  eapply wp_intro; [done|].
  apply (HQ r (set_cu d' s) (cu_view d')); simpl; try done.
  intros Hr. unfold view. simpl. rewrite Hn by done. exact Hv.
Qed.

Lemma wp_drv_call2 m (cond : Prop) eff Q s f t v :
  at_ f t v s → ccall2 m (cu s) cond eff →
  (∀ r x s' w, fns s' = f → tb s' = t → view s' = with_ctx [] w → (r = 0 → eff x w) →
     (r ≠ 0 → view s' = v) → (cond → r = 0) → Q (r, x) s') →
  wp (drv m) Q s.
Proof.
  intros (Hf & Ht & Hv) (r & x & d' & Hm & He & Hn & Hc) HQ. unfold drv. apply wp_zoom.
  eapply wp_intro; [done|].
  apply (HQ r x (set_cu d' s) (cu_view d')); simpl; try done.
  intros Hr. unfold view. simpl. rewrite Hn by done. exact Hv.
Qed.

Lemma wp_call_fn {A} p (real ours : M (ipc D) A) Q s :
  fns s !! p = Some Real → wp real Q s → wp (call_fn p real ours) Q s.
Proof. intros Hp HQ. unfold call_fn. apply wp_bind, wp_get. by rewrite Hp. Qed.

Lemma wp_call_real {A} p (m : M D A) Q s :
  is_Some (fns s !! p) → wp (drv m) Q s → wp (call_real p m) Q s.
Proof.
  intros [q Hp] HQ. unfold call_real, call_fn. apply wp_bind, wp_get. rewrite Hp. by destruct q.
Qed.

Lemma wp_if_has {A} ps (yes no : M (ipc D) A) Q s :
  ((∀ p, p ∈ ps → is_Some (fns s !! p)) → wp yes Q s) → wp no Q s → wp (if_has ps yes no) Q s.
Proof.
  intros Hy Hn. unfold wp, if_has. destruct (forallb (non_null s) ps) eqn:Hb; [|apply Hn].
  apply Hy. intros p Hp. rewrite forallb_forall in Hb. apply list_elem_of_In, Hb in Hp.
  by apply bool_decide_eq_true in Hp.
Qed.

Lemma wp_if_has_yes {A} ps (yes no : M (ipc D) A) Q s :
  (∀ p, p ∈ ps → is_Some (fns s !! p)) → wp yes Q s → wp (if_has ps yes no) Q s.
Proof.
  intros Hp Hy. unfold wp, if_has. rewrite (proj2 (forallb_forall _ _)); [done|].
  intros p Hi. apply bool_decide_eq_true, Hp. by apply list_elem_of_In.
Qed.

Lemma wp_track g Q s : Q tt (set_tb (g (tb s)) s) → wp (track g) Q s.
Proof. done. Qed.

Lemma at_track g f t v s : at_ f t v s → at_ f (g t) v (set_tb (g (tb s)) s).
Proof. intros (? & <- & ?). done. Qed.

Lemma wp_track_at g f t v s Q : at_ f t v s → (∀ s', at_ f (g t) v s' → Q tt s') → wp (track g) Q s.
Proof. intros Hat HQ. apply wp_track, HQ. by apply at_track. Qed.

Lemma linked_some f p : linked f → p ∈ core_ptrs → is_Some (f !! p).
Proof. intros Hl Hp. rewrite Hl by done. done. Qed.

(** ** Symbol resolution keeps the resolved pointers *)

(** The pointers [dlsym] overwrites besides the one being resolved. *)
Definition ctx_storage : list string :=
  ["real_cuDevicePrimaryCtxRetain"; "real_cuDevicePrimaryCtxRelease"]%string.

Definition grows (f g : gmap string fnptr) : Prop :=
  ∀ p x, p ∉ ctx_storage → f !! p = Some x → g !! p = Some x.

Lemma grows_refl f : grows f f.
Proof. by intros p x. Qed.

Lemma grows_trans f g h : grows f g → grows g h → grows f h.
Proof. intros Hfg Hgh p x Hp Hx. by apply Hgh, Hfg. Qed.

Lemma grows_linked f g : grows f g → linked f → linked g.
Proof.
  intros Hg Hl p Hp. apply Hg; [|by apply Hl].
  intros Hc. unfold core_ptrs, ctx_storage in *. set_solver.
Qed.

Lemma grows_insert f p x : (p ∈ ctx_storage ∨ f !! p = None) → grows f (<[p := x]> f).
Proof.
  intros Hp q y Hq Hy. rewrite lookup_insert_ne; [done|]. intros ->. destruct Hp; congruence.
Qed.

(** The pairs for which [dlsym] stores into the pointer itself or a context one. *)
Definition safe_pair (e : string * string) : bool :=
  match hook_storage e.2 with
  | Some st => bool_decide (st = e.1) || bool_decide (st ∈ ctx_storage)
  | None => true
  end.

Lemma resolve_grows h e s f t v :
  safe_pair e = true → at_ f t v s →
  wp (resolve h e.1 e.2) (λ _ s', ∃ g, at_ g t v s' ∧ grows f g) s.
Proof.
  intros Hs Hat. assert (Hf : fns s = f) by apply Hat. unfold resolve, wp, if_has, non_null.
  cbn [forallb]. rewrite andb_true_r.
  destruct (bool_decide (is_Some (fns s !! e.1))) eqn:Hp; [exists f; split; [done|apply grows_refl]|].
  apply bool_decide_eq_false, eq_None_not_Some in Hp. rewrite Hf in Hp.
  assert (Hst : ∀ p x, p = e.1 ∨ p ∈ ctx_storage →
     ∃ g, at_ g t v (set_fns (<[p := x]> (fns s)) s) ∧ grows f g).
  { intros p x Hpx. exists (<[p := x]> f). destruct Hat as (_ & Ht & Hv).
    split; [by unfold at_; simpl; rewrite Hf|]. apply grows_insert. naive_solver. }
  assert (Hst2 : ∀ p x y, p = e.1 ∨ p ∈ ctx_storage →
     ∃ g, at_ g t v (set_fns (<[e.1 := y]> (<[p := x]> (fns s))) (set_fns (<[p := x]> (fns s)) s)) ∧ grows f g).
  { intros p x y Hpx. exists (<[e.1 := y]> (<[p := x]> f)). destruct Hat as (_ & Ht & Hv).
    split; [by unfold at_; simpl; rewrite Hf|].
    intros q z Hq Hz. destruct (decide (q = e.1)) as [->|]; [congruence|].
    rewrite lookup_insert_ne by done. rewrite lookup_insert_ne; [done|]. intros ->. naive_solver. }
  unfold dlsym. unfold mbind, M_bind, mret, M_ret.
  destruct (bool_decide (h = RTLD_NEXT)).
  { destruct (real_dlsym h e.2); cbn; [apply Hst; auto|].
    exists f. split; [done|apply grows_refl]. }
  destruct (bool_decide (e.2 ∈ entry_symbols)); [cbn; apply Hst; auto|].
  unfold safe_pair in Hs. destruct (hook_storage e.2) as [st|].
  - destruct (real_dlsym h e.2); cbn; [|exists f; split; [done|apply grows_refl]].
    apply Hst2. apply orb_prop in Hs as [->%bool_decide_eq_true|?%bool_decide_eq_true]; auto.
  - destruct (real_dlsym h e.2); cbn; [apply Hst; auto|]. exists f. split; [done|apply grows_refl].
Qed.

Lemma resolve_list_grows es s f t v : forallb safe_pair es = true → at_ f t v s →
  wp (foldM (λ _ e, resolve RTLD_DEFAULT e.1 e.2) tt es) (λ _ s', ∃ g, at_ g t v s' ∧ grows f g) s.
Proof.
  intros Hsafe Hat. apply (wp_foldM (λ _ _ s', ∃ g, at_ g t v s' ∧ grows f g)).
  - exists f. split; [done|apply grows_refl].
  - intros pre e post [] s1 Hxs (g & Hg & Hgr). eapply wp_mono.
    + apply resolve_grows; [|exact Hg]. rewrite forallb_forall in Hsafe. apply Hsafe. rewrite Hxs.
      apply in_or_app. right. by left.
    + intros _ s2 (g2 & Hg2 & Hgr2). exists g2. split; [done|]. by eapply grows_trans.
Qed.

Lemma resolve_helper_fns_grows s f t v :
  at_ f t v s → wp resolve_helper_fns (λ _ s', ∃ g, at_ g t v s' ∧ grows f g) s.
Proof. by apply resolve_list_grows. Qed.

(** ** One rule per driver call *)

Lemma wp_try_unmap p n m f t v s : at_ f t v s → linked f → cv_queue v = [] →
  cv_maps v !! p = Some m → cm_size m = n →
  wp (try_unmap p n) (λ _ s', ∃ d, dev_outside p n (cv_dev v) d ∧
      at_ f t (with_dev d (with_maps (delete p (cv_maps v)) v)) s') s.
Proof.
  intros Hat Hl Hq Hm Hn. unfold try_unmap.
  apply wp_if_has_yes.
  { intros q ->%list_elem_of_singleton. rewrite (proj1 Hat). apply linked_some; [done|set_solver]. }
  apply wp_bind, wp_call_fn; [rewrite (proj1 Hat); apply Hl; set_solver|].
  destruct Hat as (<- & <- & <-).
  eapply wp_drv_call; [done|by apply cuMemUnmap_law|].
  intros r s' w Hf' Ht' Hv' He _ Hc. specialize (He (Hc (ex_intro _ m (conj Hm Hn)))).
  destruct He as (d & Hd & _ & ->). exists d. by split; [|split_and!].
Qed.

Lemma wp_real_release h f t v s : at_ f t v s → linked f → is_Some (cv_handles v !! h) →
  wp (real_release h) (λ _ s', at_ f t (with_handles (delete h (cv_handles v)) v) s') s.
Proof.
  intros Hat Hl Hh. apply wp_call_fn; [rewrite (proj1 Hat); apply Hl; set_solver|].
  destruct Hat as (<- & <- & <-). eapply wp_drv_call; [done|apply cuMemRelease_law|].
  intros r s' w Hf' Ht' Hv' He _ Hc. destruct (He (Hc Hh)) as [_ ->]. done.
Qed.

Lemma wp_real_create n prop f t v s : at_ f t v s → linked f →
  wp (real_create n prop) (λ r s', r.1 = 0 ∧ r.2 ≠ 0 ∧ cv_handles v !! r.2 = None ∧
      at_ f t (with_handles (<[r.2 := n]> (cv_handles v)) v) s') s.
Proof.
  intros Hat Hl. apply wp_call_fn; [rewrite (proj1 Hat); apply Hl; set_solver|].
  destruct Hat as (<- & <- & <-). eapply wp_drv_call2; [done|apply cuMemCreate_law|].
  intros r x s' w Hf' Ht' Hv' He _ Hc. specialize (Hc cu_is_reliable).
  destruct (He Hc) as (? & ? & ->). by split_and!.
Qed.

Lemma wp_real_map p n h f t v s : at_ f t v s → linked f → cv_queue v = [] →
  cv_maps v !! p = None → cv_handles v !! h = Some n →
  wp (real_map p n h) (λ r s', r = 0 ∧ ∃ d, dev_outside p n (cv_dev v) d ∧
      at_ f t (with_dev d (with_maps (<[p := MkCMap n h []]> (cv_maps v)) v)) s') s.
Proof.
  intros Hat Hl Hq Hp Hh. apply wp_call_fn; [rewrite (proj1 Hat); apply Hl; set_solver|].
  destruct Hat as (<- & <- & <-). eapply wp_drv_call; [done|by apply cuMemMap_law|].
  intros r s' w Hf' Ht' Hv' He _ Hc. specialize (Hc (conj cu_is_reliable (conj Hp Hh))).
  destruct (He Hc) as (d & ? & _ & ->). split; [done|]. exists d. by split; [|split_and!].
Qed.

Lemma wp_real_set_access p n d m f t v s : at_ f t v s → linked f →
  cv_maps v !! p = Some m → cm_size m = n →
  wp (real_set_access p n d) (λ _ s',
      at_ f t (with_maps (<[p := MkCMap n (cm_handle m) (merge_descs (cm_access m) [d])]> (cv_maps v)) v) s') s.
Proof.
  intros Hat Hl Hm <-. apply wp_call_fn; [rewrite (proj1 Hat); apply Hl; set_solver|].
  destruct Hat as (<- & <- & <-). eapply wp_drv_call; [done|apply cuMemSetAccess_law|].
  intros r s' w Hf' Ht' Hv' He _ Hc.
  specialize (Hc (conj cu_is_reliable (ex_intro _ m (conj Hm eq_refl)))).
  destruct (He Hc) as (m' & Hm' & ->). change (cv_maps (view s) !! p = Some m') in Hm'. by simplify_eq.
Qed.

Lemma wp_real_export h ty n f t v s : at_ f t v s → linked f → cv_handles v !! h = Some n →
  wp (real_export h ty) (λ r s', r.1 = 0 ∧ 0 ≤ r.2 ∧ cv_fds v !! r.2 = None ∧
      at_ f t (with_fds (<[r.2 := n]> (cv_fds v)) v) s') s.
Proof.
  intros Hat Hl Hh. apply wp_call_fn; [rewrite (proj1 Hat); apply Hl; set_solver|].
  destruct Hat as (<- & <- & <-). eapply wp_drv_call2; [done|apply cuMemExport_law|].
  intros r x s' w Hf' Ht' Hv' He _ Hc. specialize (Hc (conj cu_is_reliable (mk_is_Some _ _ Hh))).
  destruct (He Hc) as (sz & Hsz & ? & ? & ->). change (cv_handles (view s) !! h = Some sz) in Hsz.
  simplify_eq. by split_and!.
Qed.

Lemma wp_real_import fd ty n f t v s : at_ f t v s → linked f → cv_fds v !! fd = Some n →
  wp (real_import fd ty) (λ r s', r.1 = 0 ∧ r.2 ≠ 0 ∧ cv_handles v !! r.2 = None ∧
      at_ f t (with_handles (<[r.2 := n]> (cv_handles v)) v) s') s.
Proof.
  intros Hat Hl Hh. apply wp_call_fn; [rewrite (proj1 Hat); apply Hl; set_solver|].
  destruct Hat as (<- & <- & <-). eapply wp_drv_call2; [done|apply cuMemImport_law|].
  intros r x s' w Hf' Ht' Hv' He _ Hc. specialize (Hc (conj cu_is_reliable (mk_is_Some _ _ Hh))).
  destruct (He Hc) as (sz & Hsz & ? & ? & ->). change (cv_fds (view s) !! fd = Some sz) in Hsz.
  simplify_eq. by split_and!.
Qed.

Lemma wp_close fd f t v s : at_ f t v s →
  wp (drv (close fd)) (λ _ s', at_ f t (with_fds (delete fd (cv_fds v)) v) s') s.
Proof.
  intros (<- & <- & <-). unfold drv. apply wp_zoom.
  destruct (close_law (cu s) fd) as (d' & Hd & Hv). eapply wp_intro; [done|].
  split_and!; [done..|]. unfold view. simpl. by rewrite Hv.
Qed.


(** ** Calls that leave the view alone *)

(** A driver call whose effect the view does not show, made through pointer [p]. *)
Lemma wp_quiet p m cond f t v s : at_ f t v s → is_Some (f !! p) →
  ccall m (cu s) cond (λ w, w = cu_view (cu s)) → wp (call_real p m) (λ _ s', at_ f t v s') s.
Proof.
  intros Hat Hp Hc. apply wp_call_real; [by rewrite (proj1 Hat)|].
  destruct Hat as (<- & <- & <-). eapply wp_drv_call; [done|exact Hc|].
  intros r s' w ? ? Hv He Hn _. split_and!; [done..|].
  destruct (decide (r = 0)) as [Hr|Hr]; [|by apply Hn]. by rewrite Hv, (He Hr).
Qed.

Lemma wp_quiet2 p m cond f t v s : at_ f t v s → is_Some (f !! p) →
  ccall2 m (cu s) cond (λ _ w, w = cu_view (cu s)) → wp (call_real p m) (λ _ s', at_ f t v s') s.
Proof.
  intros Hat Hp Hc. apply wp_call_real; [by rewrite (proj1 Hat)|].
  destruct Hat as (<- & <- & <-). eapply wp_drv_call2; [done|exact Hc|].
  intros r x s' w ? ? Hv He Hn _. split_and!; [done..|].
  destruct (decide (r = 0)) as [Hr|Hr]; [|by apply Hn]. by rewrite Hv, (He Hr).
Qed.

(** The context stack is not part of [view]. *)
Lemma wp_push_call p c f t v s : at_ f t v s → is_Some (f !! p) →
  wp (call_real p (cuCtxPushCurrent c)) (λ _ s', at_ f t v s') s.
Proof.
  intros Hat Hp. apply wp_call_real; [by rewrite (proj1 Hat)|].
  destruct Hat as (<- & <- & <-). eapply wp_drv_call; [done|apply cuCtxPushCurrent_law|].
  intros r s' w ? ? Hv He Hn _. split_and!; [done..|].
  destruct (decide (r = 0)) as [Hr|Hr]; [|by apply Hn]. by rewrite Hv, (He Hr).
Qed.

Lemma wp_pop_call p f t v s : at_ f t v s → is_Some (f !! p) →
  wp (call_real p cuCtxPopCurrent) (λ _ s', at_ f t v s') s.
Proof.
  intros Hat Hp. apply wp_call_real; [by rewrite (proj1 Hat)|].
  destruct Hat as (<- & <- & <-). eapply wp_drv_call2; [done|apply cuCtxPopCurrent_law|].
  intros r x s' w ? ? Hv He Hn _. split_and!; [done..|].
  destruct (decide (r = 0)) as [Hr|Hr]; [|by apply Hn]. by rewrite Hv, (He Hr).
Qed.

Lemma wp_push_ctx g dev f t v s : at_ f t v s →
  wp (push_ctx g dev) (λ b s', at_ f t v s' ∧ (b = true → is_Some (f !! "fn_cuCtxPopCurrent"%string))) s.
Proof.
  intros Hat. unfold push_ctx. destruct g; [|by split].
  apply wp_if_has; [|by split]. intros Hps. rewrite (proj1 Hat) in Hps. apply wp_bind.
  eapply wp_mono; [eapply wp_quiet2; [done|apply Hps; set_solver|apply cuDevicePrimaryCtxRetain_law]|].
  intros [e c] s1 HA. simpl. destruct (bool_decide _); [|by split].
  apply wp_bind. eapply wp_mono; [apply wp_push_call; [done|apply Hps; set_solver]|].
  intros ? s2 HB; cbv beta in HB. split; [done|]. intros _. apply Hps. set_solver.
Qed.

Lemma wp_pop_ctx b dev f t v s : at_ f t v s →
  (b = true → is_Some (f !! "fn_cuCtxPopCurrent"%string)) → wp (pop_ctx b dev) (λ _ s', at_ f t v s') s.
Proof.
  intros Hat Hb. unfold pop_ctx. destruct b; [|done]. apply wp_bind.
  eapply wp_mono; [apply wp_pop_call; [done|by apply Hb]|]. intros ? s1 HA; cbv beta in HA.
  apply wp_if_has; [|done]. intros Hps. rewrite (proj1 HA) in Hps. apply wp_bind.
  eapply wp_mono; [eapply wp_quiet; [done|apply Hps; set_solver|apply cuDevicePrimaryCtxRelease_law]|]. done.
Qed.

Lemma wp_pin hb n f t v s : at_ f t v s → wp (pin hb n) (λ _ s', at_ f t v s') s.
Proof.
  intros Hat. unfold pin. apply wp_if_has; [|done]. intros Hps. rewrite (proj1 Hat) in Hps.
  destruct (bool_decide _); [|done]. apply wp_bind.
  eapply wp_mono; [eapply wp_quiet; [done|apply Hps; set_solver|apply cuMemHostRegister_law]|]. done.
Qed.

Lemma wp_unpin b hb f t v s : at_ f t v s → wp (unpin b hb) (λ _ s', at_ f t v s') s.
Proof.
  intros Hat. unfold unpin. destruct b; [|done]. apply wp_if_has; [|done].
  intros Hps. rewrite (proj1 Hat) in Hps. unfold unregister. apply wp_bind.
  eapply wp_mono; [eapply wp_quiet; [done|apply Hps; set_solver|apply cuMemHostUnregister_law]|]. done.
Qed.

(** The pointers of the streamed path. *)
Definition stream_ptrs (c : string) : list string :=
  ["fn_cuStreamCreate"; "fn_cuStreamSynchronize"; "fn_cuStreamDestroy"; c]%string.

Lemma wp_use_async b c f t v s : at_ f t v s →
  wp (use_async b c) (λ a s', at_ f t v s' ∧ (a = true → ∀ p, p ∈ stream_ptrs c → is_Some (f !! p))) s.
Proof.
  intros Hat. unfold use_async. destruct b; [|by split]. apply wp_if_has; [|by split].
  intros Hps. rewrite (proj1 Hat) in Hps. by split.
Qed.

Lemma wp_new_stream f t v s : at_ f t v s → is_Some (f !! "fn_cuStreamCreate"%string) →
  wp new_stream (λ _ s', at_ f t v s') s.
Proof.
  intros Hat Hp. apply wp_bind.
  eapply wp_mono; [eapply wp_quiet2; [done|done|apply cuStreamCreate_law]|]. done.
Qed.

Lemma wp_destroy_stream x f t v s : at_ f t v s → is_Some (f !! "fn_cuStreamDestroy"%string) →
  wp (destroy_stream x) (λ _ s', at_ f t v s') s.
Proof.
  intros Hat Hp. apply wp_bind.
  eapply wp_mono; [eapply wp_quiet; [done|done|apply cuStreamDestroy_law]|]. done.
Qed.

Lemma wp_sync_stream x f t v s : at_ f t v s → is_Some (f !! "fn_cuStreamSynchronize"%string) →
  wp (sync_stream x) (λ _ s', at_ f t (with_mems (drained v) [] v) s') s.
Proof.
  intros Hat Hp. apply wp_bind, wp_call_real; [by rewrite (proj1 Hat)|].
  destruct Hat as (<- & <- & <-). eapply wp_drv_call; [done|apply cuStreamSynchronize_law|].
  intros r s' w ? ? Hv He Hn Hc. rewrite (He (Hc cu_is_reliable)) in Hv. done.
Qed.

(** ** Copies: what they do to the memories once every pending copy has run *)

(** [moved v hd w]: [w] is [v] but for the memories, which drain to [hd]. *)
Definition moved v (hd : mem * mem) (w : cview) : Prop :=
  drained w = hd ∧ with_mems (drained w) [] w = with_mems hd [] v.

Lemma drained_advance k v : drained (advance k v) = drained v.
Proof.
  unfold drained, advance. simpl. rewrite <- surjective_pairing, <- foldl_app. by rewrite take_drop.
Qed.

Lemma drained_push x v : drained (push_copy x v) = run_xfer (drained v) x.
Proof. unfold drained, push_copy. simpl. by rewrite foldl_app. Qed.

Lemma moved_refl v : moved v (drained v) v.
Proof. done. Qed.

Lemma moved_push k x v hd w : moved v hd w → moved v (run_xfer hd x) (advance k (push_copy x w)).
Proof.
  intros [Hd Hw]. unfold moved. rewrite drained_advance, drained_push, Hd. split; [done|].
  unfold with_mems in *. simpl in *. injection Hw as Hh Hv Hm Hhd Hf Hc. congruence.
Qed.


Lemma moved_sync v hd w : moved v hd w → with_mems (drained w) [] w = with_mems hd [] v.
Proof. by intros [_ ?]. Qed.

Lemma accessible_moved v hd w p n : moved v hd w → accessible v p n → accessible w p n.
Proof.
  intros Hm (m & Hmp & Hr). exists m. split; [|done].
  pose proof (moved_sync _ _ _ Hm) as Heq. injection Heq as _ _ Hmaps _ _ _. by rewrite Hmaps.
Qed.

(** The copies of one batch, on a stream or one at a time: what the memories drain to. *)
Lemma wp_dtoh_async hst p n x f t v w hd s : at_ f t w s → moved v hd w → accessible v p n →
  is_Some (f !! "fn_cuMemcpyDtoHAsync"%string) →
  wp (call_real "fn_cuMemcpyDtoHAsync" (cuMemcpyDtoHAsync hst p n x))
    (λ r s', r = 0 ∧ ∃ w', at_ f t w' s' ∧ moved v (run_xfer hd (MkXfer hst p n DeviceToHost)) w') s.
Proof.
  intros Hat Hm Ha Hp. apply wp_call_real; [by rewrite (proj1 Hat)|].
  assert (Hacc : accessible (cu_view (cu s)) p n).
  { destruct Hat as (_ & _ & <-). exact (accessible_moved _ _ _ _ _ Hm Ha). }
  destruct Hat as (<- & <- & <-). eapply wp_drv_call; [done|apply cuMemcpyDtoHAsync_law|].
  intros r s' w' ? ? Hv He _ Hc. specialize (Hc (conj cu_is_reliable Hacc)). split; [done|].
  destruct (He Hc) as (k & ->). eexists. split; [by split_and!|].
  exact (moved_push k _ v hd _ Hm).
Qed.

Lemma wp_htod_async hst p n x f t v w hd s : at_ f t w s → moved v hd w → accessible v p n →
  is_Some (f !! "fn_cuMemcpyHtoDAsync"%string) →
  wp (call_real "fn_cuMemcpyHtoDAsync" (cuMemcpyHtoDAsync p hst n x))
    (λ r s', r = 0 ∧ ∃ w', at_ f t w' s' ∧ moved v (run_xfer hd (MkXfer p hst n HostToDevice)) w') s.
Proof.
  intros Hat Hm Ha Hp. apply wp_call_real; [by rewrite (proj1 Hat)|].
  assert (Hacc : accessible (cu_view (cu s)) p n).
  { destruct Hat as (_ & _ & <-). exact (accessible_moved _ _ _ _ _ Hm Ha). }
  destruct Hat as (<- & <- & <-). eapply wp_drv_call; [done|apply cuMemcpyHtoDAsync_law|].
  intros r s' w' ? ? Hv He _ Hc. specialize (Hc (conj cu_is_reliable Hacc)). split; [done|].
  destruct (He Hc) as (k & ->). eexists. split; [by split_and!|].
  exact (moved_push k _ v hd _ Hm).
Qed.

Lemma wp_dtoh hst p n f t v s : at_ f t v s → cv_queue v = [] → accessible v p n →
  is_Some (f !! "fn_cuMemcpyDtoH"%string) →
  wp (call_real "fn_cuMemcpyDtoH" (cuMemcpyDtoH hst p n))
    (λ r s', r = 0 ∧
       at_ f t (with_mems (run_xfer (cv_host v, cv_dev v) (MkXfer hst p n DeviceToHost)) [] v) s') s.
Proof.
  intros Hat Hq Ha Hp. apply wp_call_real; [by rewrite (proj1 Hat)|].
  destruct Hat as (<- & <- & <-). eapply wp_drv_call; [done|by apply cuMemcpyDtoH_law|].
  intros r s' w ? ? Hv He _ Hc. specialize (Hc (conj cu_is_reliable Ha)). split; [done|].
  rewrite (He Hc) in Hv. done.
Qed.

Lemma wp_htod hst p n f t v s : at_ f t v s → cv_queue v = [] → accessible v p n →
  is_Some (f !! "fn_cuMemcpyHtoD"%string) →
  wp (call_real "fn_cuMemcpyHtoD" (cuMemcpyHtoD p hst n))
    (λ r s', r = 0 ∧
       at_ f t (with_mems (run_xfer (cv_host v, cv_dev v) (MkXfer p hst n HostToDevice)) [] v) s') s.
Proof.
  intros Hat Hq Ha Hp. apply wp_call_real; [by rewrite (proj1 Hat)|].
  destruct Hat as (<- & <- & <-). eapply wp_drv_call; [done|by apply cuMemcpyHtoD_law|].
  intros r s' w ? ? Hv He _ Hc. specialize (Hc (conj cu_is_reliable Ha)). split; [done|].
  rewrite (He Hc) in Hv. done.
Qed.

End Rules.
