(* ===== verification/IpcSave.v ===== *)
(** Saving and tearing down the exports.

    [ipc_save_and_teardown_all_exports] leaves every mapped export parked: its bytes
    are in the host buffer at the offset its record keeps, its mapping is gone, its
    handle released and its fd closed. *)
From S2P Require Import Prelude Common Gpu Copies IpcState IpcDriver IpcHooks IpcExports IpcRules.
Open Scope Z_scope.

Abbreviation indexed := (nat * IpcExportRecord)%type.

Definition isize (ir : indexed) : Z := mapped_size ir.2.

(** The layout of the saved exports, and the copies that produce it. *)
Definition layout (xs : list indexed) : list (indexed * Z) := with_offsets isize 0 xs.
Definition out_copy (hb : Z) (x : indexed * Z) : xfer :=
  MkXfer (hb + x.2) (mapped_vaddr x.1.2) (mapped_size x.1.2) DeviceToHost.
Definition record_offsets (xs : list (indexed * Z)) (t : ipc_tables) : ipc_tables :=
  foldl (λ t x, set_exports (alter (export_offset x.2) x.1.1 (g_ipc_exports t)) t) t xs.

Section Save.
Context {D : Type} {CD : CuDriver D} {CL : CuLaws D} {CR : CuReliable D} {PF : Platform}.
Implicit Types (s : ipc D).

Section Copy.
Context (f : gmap string fnptr) (t0 : ipc_tables) (v0 : cview) (hb : Z) (xs : list indexed).
Context (Hl : linked f) (Hq : cv_queue v0 = []).
Context (Hacc : ∀ ir, ir ∈ xs → accessible v0 (mapped_vaddr ir.2) (mapped_size ir.2)).
Context (Hnn : ∀ ir, ir ∈ xs → 0 ≤ isize ir) (Hsum : sum_by isize xs < 2 ^ 64).

Definition acc_of (pre : list indexed) : Z * Z := (sum_by isize pre, Z.of_nat (length pre)).
Definition tabs_of (pre : list indexed) : ipc_tables := record_offsets (layout pre) t0.
Definition mems_of (pre : list indexed) : mem * mem :=
  run_all (drained v0) (out_copy hb <$> layout pre).

Lemma tabs_of_snoc pre x :
  tabs_of (pre ++ [x]) =
  set_exports (alter (export_offset (sum_by isize pre)) x.1 (g_ipc_exports (tabs_of pre))) (tabs_of pre).
Proof. unfold tabs_of, layout, record_offsets. by rewrite with_offsets_app, foldl_app. Qed.

Lemma mems_of_snoc pre x :
  mems_of (pre ++ [x]) = run_xfer (mems_of pre) (out_copy hb (x, sum_by isize pre)).
Proof. unfold mems_of, layout. by rewrite with_offsets_app, fmap_app, foldl_app. Qed.

Lemma acc_of_snoc pre x post : xs = pre ++ x :: post →
  (wrap64 (sum_by isize pre + mapped_size x.2), Z.of_nat (length pre) + 1) = acc_of (pre ++ [x]).
Proof.
  intros Hxs. unfold acc_of. rewrite sum_by_app, length_app. simpl.
  assert (Hp : 0 ≤ sum_by isize pre) by (apply sum_by_nonneg; intros; apply Hnn; set_solver).
  assert (Hx : 0 ≤ isize x) by (apply Hnn; set_solver).
  assert (Hr : 0 ≤ sum_by isize post) by (apply sum_by_nonneg; intros; apply Hnn; set_solver).
  rewrite Hxs, sum_by_app in Hsum. simpl in Hsum. unfold sum_by, isize in *.
  f_equal; [rewrite wrap64_small; lia|lia].
Qed.

(** Between two devices nothing is pending. *)
Definition saved (pre : list indexed) (acc : Z * Z) s : Prop :=
  acc = acc_of pre ∧ at_ f (tabs_of pre) (with_mems (mems_of pre) [] v0) s.
(** Inside a streamed batch. *)
Definition saving (pre : list indexed) (acc : Z * Z) s : Prop :=
  acc = acc_of pre ∧ ∃ w, at_ f (tabs_of pre) w s ∧ moved v0 (mems_of pre) w.

Lemma saved_accessible pre x post : xs = pre ++ x :: post →
  accessible (with_mems (mems_of pre) [] v0) (mapped_vaddr x.2) (mapped_size x.2).
Proof. intros Hxs. apply Hacc. set_solver. Qed.

Lemma save_one_sync pre x post acc s : xs = pre ++ x :: post → saved pre acc s →
  wp (save_one (λ h p n, call_real "fn_cuMemcpyDtoH" (cuMemcpyDtoH h p n)) hb acc x)
    (λ r s', ∃ acc', r = inl acc' ∧ saved (pre ++ [x]) acc' s') s.
Proof.
  intros Hxs [-> Hat]. unfold save_one, acc_of. apply wp_bind, wp_track.
  apply (at_track (λ t, set_exports (alter (export_offset (sum_by isize pre)) x.1 (g_ipc_exports t)) t)) in Hat.
  rewrite <- tabs_of_snoc in Hat. apply wp_bind.
  eapply wp_mono; [eapply wp_dtoh; [exact Hat|done|by eapply saved_accessible|]|].
  { apply linked_some; [done|set_solver]. }
  intros r s1 [-> H1]. eexists. split; [done|].
  split; [by eapply acc_of_snoc|]. rewrite mems_of_snoc. revert H1. by destruct (mems_of pre).
Qed.

Lemma save_one_async st pre x post acc s : xs = pre ++ x :: post → saving pre acc s →
  is_Some (f !! "fn_cuMemcpyDtoHAsync"%string) →
  wp (save_one (λ h p n, call_real "fn_cuMemcpyDtoHAsync" (cuMemcpyDtoHAsync h p n st)) hb acc x)
    (λ r s', ∃ acc', r = inl acc' ∧ saving (pre ++ [x]) acc' s') s.
Proof.
  intros Hxs [-> (w & Hat & Hm)] Hp. unfold save_one, acc_of. apply wp_bind, wp_track.
  apply (at_track (λ t, set_exports (alter (export_offset (sum_by isize pre)) x.1 (g_ipc_exports t)) t)) in Hat.
  rewrite <- tabs_of_snoc in Hat. apply wp_bind.
  eapply wp_mono; [eapply wp_dtoh_async; [exact Hat|exact Hm|apply Hacc; set_solver|done]|].
  intros r s1 [-> (w' & H1 & H2)]. eexists. split; [done|].
  split; [by eapply acc_of_snoc|]. exists w'. by rewrite mems_of_snoc.
Qed.

Lemma saved_saving pre acc s : saved pre acc s → saving pre acc s.
Proof.
  intros [-> Hat]. split; [done|]. exists (with_mems (mems_of pre) [] v0). split; [done|].
  unfold moved, drained. simpl. by rewrite <- surjective_pairing.
Qed.

Lemma save_device_spec pinned async pre dg post acc s :
  xs = pre ++ dg.2 ++ post → saved pre acc s →
  (async = true → ∀ p, p ∈ stream_ptrs "fn_cuMemcpyDtoHAsync" → is_Some (f !! p)) →
  wp (save_device hb pinned async acc dg)
    (λ r s', ∃ acc', r = inl acc' ∧ saved (pre ++ dg.2) acc' s') s.
Proof.
  intros Hxs Hs Has. unfold save_device. apply wp_bind.
  eapply wp_mono; [eapply wp_push_ctx; apply Hs|]. intros b s1 [H1 Hb]. apply wp_bind.
  assert (Hs1 : saved pre acc s1) by (split; [apply Hs|done]).
  eapply wp_mono with (P := λ r s', ∃ acc', r = inl acc' ∧ saved (pre ++ dg.2) acc' s').
  2: { intros r s2 (acc' & -> & -> & H2). apply wp_bind.
       eapply wp_mono; [apply wp_pop_ctx; done|]. intros ? s3 H3. cbv beta in H3. by exists (acc_of (pre ++ dg.2)). }
  destruct async.
  - specialize (Has eq_refl). apply wp_bind.
    eapply wp_mono; [eapply wp_new_stream; [exact H1|apply Has; set_solver]|].
    intros st s2 H2. cbv beta in H2. apply wp_bind.
    eapply wp_mono.
    { apply (wp_for_ret (λ done_ acc s, saving (pre ++ done_) acc s)).
      - rewrite app_nil_r. apply saved_saving. split; [apply Hs|exact H2].
      - intros pre' x post' acc' s' Hdg Hin.
        eapply wp_mono; [eapply (save_one_async st _ x (post' ++ post)); [|exact Hin|apply Has; set_solver]|].
        + rewrite Hxs, Hdg. by rewrite <- !app_assoc.
        + intros r s3 (acc3 & -> & H3). exists acc3. by rewrite app_assoc. }
    intros r s3 (acc3 & -> & -> & (w & H3 & Hm)). apply wp_bind.
    eapply wp_mono; [eapply wp_sync_stream; [exact H3|apply Has; set_solver]|].
    intros ? s4 H4. cbv beta in H4. rewrite (moved_sync _ _ _ Hm) in H4. apply wp_bind.
    eapply wp_mono; [eapply wp_destroy_stream; [exact H4|apply Has; set_solver]|].
    intros ? s5 H5. cbv beta in H5. by exists (acc_of (pre ++ dg.2)).
  - apply (wp_for_ret (λ done_ acc s, saved (pre ++ done_) acc s)).
    + by rewrite app_nil_r.
    + intros pre' x post' acc' s' Hdg Hin.
      eapply wp_mono; [eapply (save_one_sync _ x (post' ++ post)); [|exact Hin]|].
      * rewrite Hxs, Hdg. by rewrite <- !app_assoc.
      * intros r s3 (acc3 & -> & H3). exists acc3. by rewrite app_assoc.
Qed.

Lemma save_groups groups pinned async s :
  xs = concat (snd <$> groups) → saved [] (0, 0) s →
  (async = true → ∀ p, p ∈ stream_ptrs "fn_cuMemcpyDtoHAsync" → is_Some (f !! p)) →
  wp (for_ret (save_device hb pinned async) (0, 0) groups)
    (λ r s', ∃ acc', r = inl acc' ∧ saved xs acc' s') s.
Proof.
  intros Hxs Hs Has. rewrite Hxs.
  apply (wp_for_ret (λ gs acc s, saved (concat (snd <$> gs)) acc s)); [done|].
  intros pre dg post acc s' Hg Hin.
  eapply wp_mono; [eapply save_device_spec; [|exact Hin|exact Has]|].
  - rewrite Hxs, Hg, fmap_app, concat_app. done.
  - intros r s2 (acc2 & -> & H2). exists acc2. rewrite fmap_app, concat_app. simpl. by rewrite app_nil_r.
Qed.

End Copy.


(** ** Closing the fds *)

Definition closes (r : IpcExportRecord) : bool := negb (e_torn_down r) && bool_decide (0 ≤ exported_fd r).
Definition closed (r : IpcExportRecord) : IpcExportRecord := if closes r then export_fd (-1) r else r.

(** A table part processed, the rest as it was. *)
Definition done_exports (g : IpcExportRecord → IpcExportRecord) (es : list IpcExportRecord)
    (pre : list IpcExportRecord) (t : ipc_tables) : ipc_tables :=
  set_exports ((g <$> pre) ++ drop (length pre) es) t.

Lemma done_exports_nil g t : done_exports g (g_ipc_exports t) [] t = t.
Proof. by destruct t. Qed.

Lemma done_exports_all g es t : done_exports g es es t = set_exports (g <$> es) t.
Proof. unfold done_exports. by rewrite drop_all, app_nil_r. Qed.

Lemma done_exports_at g es pre r post t : es = pre ++ r :: post →
  g_ipc_exports (done_exports g es pre t) !! length pre = Some r.
Proof.
  intros ->. simpl. rewrite drop_app_length. apply list_lookup_middle. by rewrite length_fmap.
Qed.

Lemma done_exports_step g h es pre r post t : es = pre ++ r :: post → g r = h r →
  set_exports (alter h (length pre) (g_ipc_exports (done_exports g es pre t))) (done_exports g es pre t)
  = done_exports g es (pre ++ [r]) t.
Proof.
  intros -> Hg. unfold done_exports. simpl. rewrite drop_app_length.
  assert (Hd : drop (length (pre ++ [r])) (pre ++ r :: post) = post).
  { rewrite (cons_middle r pre post), app_assoc. apply drop_app_length. }
  rewrite Hd, fmap_app, <- app_assoc. simpl. rewrite Hg.
  rewrite <- (length_fmap g pre) at 1. by rewrite alter_middle.
Qed.

Lemma done_exports_keep g es pre r post t : es = pre ++ r :: post → g r = r →
  done_exports g es pre t = done_exports g es (pre ++ [r]) t.
Proof.
  intros -> Hg. unfold done_exports. f_equal. rewrite drop_app_length.
  assert (Hd : drop (length (pre ++ [r])) (pre ++ r :: post) = post).
  { rewrite (cons_middle r pre post), app_assoc. apply drop_app_length. }
  rewrite Hd, fmap_app, <- app_assoc. simpl. by rewrite Hg.
Qed.

Lemma export_at_spec i r Q s : g_ipc_exports (tb s) !! i = Some r → Q r s → wp (export_at i) Q s.
Proof. intros Hr HQ. unfold export_at, wp. by rewrite Hr. Qed.

Lemma close_all f t v s : at_ f t v s →
  wp (foldM (λ _ i, close_export_fd i) tt (seq 0 (length (g_ipc_exports t))))
    (λ _ s', at_ f (set_exports (closed <$> g_ipc_exports t) t)
               (with_fds (delete_all (exported_fd <$> filter closes (g_ipc_exports t)) (cv_fds v)) v) s') s.
Proof.
  intros Hat. set (es := g_ipc_exports t).
  eapply wp_mono.
  - apply (wp_foldM_seq es (λ pre _ s, at_ f (done_exports closed es pre t)
      (with_fds (delete_all (exported_fd <$> filter closes pre) (cv_fds v)) v) s)).
    + unfold es. rewrite done_exports_nil. by destruct v.
    + intros pre r post [] s1 Hes H1. unfold close_export_fd. apply wp_bind.
      eapply export_at_spec; [rewrite (proj1 (proj2 H1)); by eapply done_exports_at|].
      destruct (closes r) eqn:Hc.
      * rewrite filter_snoc_true, fmap_app by done. simpl. rewrite delete_all_snoc.
        pose proof Hc as Hc'. unfold closes in Hc'. apply andb_prop in Hc' as [Ht Hfd].
        apply negb_true_iff in Ht. rewrite Ht, Hfd. apply wp_bind.
        eapply wp_mono; [eapply wp_close; exact H1|].
        intros ? s2 H2. cbv beta in H2. apply wp_track.
        apply (at_track (λ t, set_exports (alter (export_fd (-1)) (length pre) (g_ipc_exports t)) t)) in H2.
        rewrite (done_exports_step _ _ _ _ _ _ _ Hes) in H2; [exact H2|]. unfold closed. by rewrite Hc.
      * rewrite filter_snoc_false by done.
        rewrite <- (done_exports_keep closed es pre r post t Hes) by (unfold closed; by rewrite Hc).
        unfold closes in Hc. destruct (e_torn_down r); simpl in Hc; [exact H1|]. rewrite Hc. exact H1.
  - intros [] s1. by rewrite done_exports_all.
Qed.


(** ** Tearing the exports down *)

Definition torn (r : IpcExportRecord) : IpcExportRecord :=
  if saves r then export_handle 0 (export_torn true r) else r.

Definition in_range (r : IpcExportRecord) (a : Z) : Prop := mapped_vaddr r ≤ a < mapped_vaddr r + mapped_size r.

(** What the teardown needs of the records: live mapped exports have a mapping and a
    handle of their own. *)
Record tearable (es : list IpcExportRecord) (v : cview) : Prop := {
  tr_pos : ∀ r, r ∈ es → has_mapping r = true → 0 < mapped_size r;
  tr_map : ∀ r, r ∈ es → saves r → ∃ m, cv_maps v !! mapped_vaddr r = Some m ∧ cm_size m = mapped_size r;
  tr_handle : ∀ r, r ∈ es → saves r → is_Some (cv_handles v !! local_handle r);
  tr_apart : ∀ i j ri rj, es !! i = Some ri → es !! j = Some rj → i ≠ j → saves ri → saves rj →
    disjoint_ranges (mapped_vaddr ri) (mapped_size ri) (mapped_vaddr rj) (mapped_size rj) ∧
    local_handle ri ≠ local_handle rj
}.

(** The view once the exports [pre] are gone; [d] is the device memory. *)
Definition torn_view (d : mem) (pre : list IpcExportRecord) (v : cview) : cview :=
  with_dev d (with_maps (delete_all (mapped_vaddr <$> filter saves pre) (cv_maps v))
    (with_handles (delete_all (local_handle <$> filter saves pre) (cv_handles v)) v)).

Definition outside_all (pre : list IpcExportRecord) (d d' : mem) : Prop :=
  ∀ a, (∀ r, r ∈ pre → saves r → ¬ in_range r a) → d' a = d a.

Lemma saves_cases r : saves r = true ↔ e_torn_down r = false ∧ has_mapping r = true ∧ 0 < mapped_size r.
Proof. unfold saves. rewrite !andb_true_iff, negb_true_iff, bool_decide_eq_true. tauto. Qed.

(** A live mapped export is not among those before it. *)
Lemma tearable_fresh es v pre r post : tearable es v → es = pre ++ r :: post → saves r →
  mapped_vaddr r ∉ (mapped_vaddr <$> filter saves pre) ∧ local_handle r ∉ (local_handle <$> filter saves pre).
Proof.
  intros Ht -> Hr.
  assert (Hpre : ∀ r', r' ∈ pre → saves r' → mapped_vaddr r' ≠ mapped_vaddr r ∧ local_handle r' ≠ local_handle r).
  { intros r' Hin Hs. pose proof Hin as [i Hi]%list_elem_of_lookup.
    destruct (tr_apart _ _ Ht i (length pre) r' r) as [Hd Hh]; [|by apply list_lookup_middle| |done|done|].
    - rewrite lookup_app_l; [done|]. by eapply lookup_lt_Some.
    - apply lookup_lt_Some in Hi. lia.
    - split; [|done]. apply Is_true_true, saves_cases in Hs as (_ & _ & ?).
      apply Is_true_true, saves_cases in Hr as (_ & _ & ?). unfold disjoint_ranges in Hd. lia. }
  split; intros (r' & Heq & [Hs Hin]%list_elem_of_filter)%list_elem_of_fmap;
    destruct (Hpre r' Hin Hs); congruence.
Qed.

Lemma tear_one es f t v pre r post d n s :
  linked f → cv_queue v = [] → tearable es v → es = pre ++ r :: post →
  at_ f (done_exports torn es pre t) (torn_view d pre v) s → outside_all pre (cv_dev v) d →
  wp (tear_export n (length pre)) (λ n' s', n' = (if saves r then n + 1 else n) ∧
    ∃ d', at_ f (done_exports torn es (pre ++ [r]) t) (torn_view d' (pre ++ [r]) v) s' ∧
          outside_all (pre ++ [r]) (cv_dev v) d') s.
Proof.
  intros Hl Hq Ht Hes Hat Hout. unfold tear_export. apply wp_bind.
  eapply export_at_spec; [rewrite (proj1 (proj2 Hat)); by eapply done_exports_at|].
  assert (Hin : r ∈ es) by (rewrite Hes; set_solver).
  destruct (saves r) eqn:Hs.
  - pose proof Hs as (Htd & Hmp & Hpos)%saves_cases. rewrite Htd, Hmp. simpl.
    destruct (tearable_fresh es v pre r post Ht Hes ltac:(by rewrite Hs)) as [Hfv Hfh].
    destruct (tr_map _ _ Ht r Hin ltac:(by rewrite Hs)) as (m & Hm & Hsz).
    pose proof (tr_handle _ _ Ht r Hin ltac:(by rewrite Hs)) as Hh.
    apply wp_bind. eapply wp_mono.
    { eapply wp_try_unmap; [exact Hat|done|exact Hq| |exact Hsz]. simpl. by rewrite delete_all_out. }
    intros ? s1 (d1 & Hd1 & H1). apply wp_bind. eapply wp_mono.
    { eapply wp_real_release; [exact H1|done|]. simpl. by rewrite delete_all_out. }
    intros ? s2 H2. cbv beta in H2. apply wp_bind, wp_track, wp_ret. split; [done|].
    apply (at_track (λ t, set_exports (alter (λ r, export_handle 0 (export_torn true r)) (length pre)
                                         (g_ipc_exports t)) t)) in H2.
    rewrite (done_exports_step _ _ _ _ _ _ _ Hes) in H2 by (unfold torn; by rewrite Hs).
    exists d1. split.
    + unfold torn_view. rewrite filter_snoc_true, !fmap_app by done. simpl. rewrite !delete_all_snoc. exact H2.
    + intros adr Ha. rewrite Hd1 by (apply Ha; [set_solver|by rewrite Hs]). apply Hout.
      intros r' Hr'. apply Ha. set_solver.
  - assert (Hskip : (if e_torn_down r then mret n else if negb (has_mapping r) then mret n else
       _ ← try_unmap (mapped_vaddr r) (mapped_size r); _ ← real_release (local_handle r);
       _ ← set_export (length pre) (λ r, export_handle 0 (export_torn true r)); mret (n + 1))
       = (mret n : M (ipc D) Z)).
    { destruct (e_torn_down r) eqn:Htd; [done|]. destruct (has_mapping r) eqn:Hmp; [|done].
      pose proof (tr_pos _ _ Ht r Hin Hmp). exfalso.
      assert (saves r = true) by (by apply saves_cases). congruence. }
    rewrite Hskip. apply wp_ret. split; [done|]. exists d. split.
    + rewrite <- (done_exports_keep torn es pre r post t Hes) by (unfold torn; by rewrite Hs).
      unfold torn_view. rewrite filter_snoc_false by done. exact Hat.
    + intros adr Ha. apply Hout. intros r' Hr'. apply Ha. set_solver.
Qed.

Lemma tear_all f t v s :
  linked f → cv_queue v = [] → tearable (g_ipc_exports t) v → at_ f t v s →
  wp (foldM tear_export 0 (seq 0 (length (g_ipc_exports t)))) (λ n s',
    n = Z.of_nat (length (filter saves (g_ipc_exports t))) ∧
    ∃ d, at_ f (set_exports (torn <$> g_ipc_exports t) t) (torn_view d (g_ipc_exports t) v) s' ∧
         outside_all (g_ipc_exports t) (cv_dev v) d) s.
Proof.
  intros Hl Hq Ht Hat. set (es := g_ipc_exports t) in *.
  eapply wp_mono.
  - apply (wp_foldM_seq es (λ pre n s, n = Z.of_nat (length (filter saves pre)) ∧
      ∃ d, at_ f (done_exports torn es pre t) (torn_view d pre v) s ∧ outside_all pre (cv_dev v) d)).
    + split; [done|]. exists (cv_dev v). split; [|done]. unfold es. rewrite done_exports_nil. by destruct v.
    + intros pre r post n s1 Hes (-> & d & H1 & Ho).
      eapply wp_mono; [by eapply tear_one|]. intros n' s2 (-> & Hd). split; [|done].
      destruct (saves r) eqn:Hs; [rewrite filter_snoc_true by done|by rewrite filter_snoc_false].
      rewrite length_app. simpl. lia.
  - intros n s1 (-> & d & H1 & Ho). rewrite done_exports_all in H1. by split; [|exists d].
Qed.


(** ** Indexed records *)

Lemma indexed_elem es i r : (i, r) ∈ imap pair es ↔ (es : list IpcExportRecord) !! i = Some r.
Proof.
  rewrite elem_of_lookup_imap. split.
  - intros (j & y & Heq & Hj). by simplify_eq.
  - intros Hi. by exists i, r.
Qed.

Lemma saved_indexed k es :
  snd <$> filter (λ ir : indexed, saves ir.2) (imap (λ i r, ((k + i)%nat, r)) es) = filter saves es.
Proof.
  revert k. induction es as [|r es IH]; intros k; [done|]. rewrite imap_cons.
  rewrite (imap_ext ((λ i (r : IpcExportRecord), ((k + i)%nat, r)) ∘ S) (λ i r, ((S k + i)%nat, r)))
    by (intros; cbn; f_equal; lia).
  destruct (saves r) eqn:Hs.
  - rewrite !filter_cons_True by (simpl; by rewrite Hs). rewrite fmap_cons, IH. done.
  - rewrite !filter_cons_False by (simpl; rewrite Hs; intros []). by rewrite IH.
Qed.

Lemma indexed_NoDup (P : indexed → bool) k es :
  NoDup (fst <$> filter P (imap (λ i r, ((k + i)%nat, r)) es)) ∧
  ∀ i, i ∈ (fst <$> filter P (imap (λ i r, ((k + i)%nat, r)) es)) → (k ≤ i)%nat.
Proof.
  revert k. induction es as [|r es IH]; intros k.
  { split; [constructor|]. intros i Hi. by apply elem_of_nil in Hi. }
  rewrite imap_cons.
  rewrite (imap_ext ((λ i (r : IpcExportRecord), ((k + i)%nat, r)) ∘ S) (λ i r, ((S k + i)%nat, r)))
    by (intros; cbn; f_equal; lia).
  destruct (IH (S k)) as [Hnd Hge]. rewrite Nat.add_0_r. destruct (P (k, r)) eqn:Hs.
  - rewrite filter_cons_True by (by rewrite Hs). simpl. split.
    + constructor; [|done]. intros Hk%Hge. lia.
    + intros i [->|Hi%Hge]%elem_of_cons; lia.
  - rewrite filter_cons_False by (rewrite Hs; intros []). split; [done|]. intros i Hi%Hge. lia.
Qed.

(** The saved exports in the order they are saved. *)
Definition save_order (es : list IpcExportRecord) : list indexed := concat (snd <$> device_exports es).

Lemma save_order_perm es : save_order es ≡ₚ filter (λ ir : indexed, saves ir.2) (imap pair es).
Proof. apply group_by_perm. Qed.

Lemma save_order_elem es i r : (i, r) ∈ save_order es ↔ es !! i = Some r ∧ saves r.
Proof. rewrite save_order_perm, list_elem_of_filter, indexed_elem. simpl. tauto. Qed.

Lemma save_order_NoDup es : NoDup (fst <$> save_order es).
Proof. rewrite save_order_perm. apply (indexed_NoDup (λ ir, saves ir.2) 0). Qed.

Lemma save_order_length es : length (save_order es) = length (filter saves es).
Proof.
  rewrite save_order_perm. rewrite <- (length_fmap snd). f_equal. apply (saved_indexed 0).
Qed.

Lemma save_order_sum es : sum_by isize (save_order es) = sum_by mapped_size (filter saves es).
Proof.
  rewrite (sum_by_Permutation _ _ _ (save_order_perm es)).
  rewrite <- (saved_indexed 0 es), sum_by_fmap. done.
Qed.

Lemma saves_size r : saves r → 0 < mapped_size r.
Proof. intros Hs. apply Is_true_true, saves_cases in Hs. tauto. Qed.

Lemma total_needed_eq es : sum_by mapped_size (filter saves es) < 2 ^ 64 →
  total_needed (device_exports es) = sum_by mapped_size (filter saves es).
Proof.
  intros Hb. rewrite <- save_order_sum in *. unfold total_needed, save_order in *.
  assert (Hf : ∀ gs t, foldl (λ t (dg : Z * list indexed), foldl (λ t ir, wrap64 (t + mapped_size ir.2)) t dg.2) t gs
     = foldl (λ t ir, wrap64 (t + isize ir)) t (concat (snd <$> gs))).
  { induction gs as [|g gs IH]; intros t; [done|]. simpl. by rewrite IH, foldl_app. }
  rewrite Hf, foldl_wrap64; [done|lia| |done].
  intros [i r] Hin. apply (save_order_elem es i r) in Hin as [_ Hs]. apply saves_size in Hs. unfold isize. simpl. lia.
Qed.

(** The offsets in the records. *)
Lemma record_offsets_frame l t : record_offsets l t = set_exports (g_ipc_exports (record_offsets l t)) t.
Proof.
  revert t. induction l as [|x l IH]; intros t; [by destruct t|]. simpl. rewrite IH. done.
Qed.

Lemma set_exports_saved es l t : set_exports es (record_offsets l t) = set_exports es t.
Proof. by rewrite record_offsets_frame. Qed.

Lemma record_offsets_lookup l t : NoDup ((λ x : indexed * Z, x.1.1) <$> l) →
  (∀ x, x ∈ l → g_ipc_exports t !! x.1.1 = Some x.1.2) →
  (∀ x, x ∈ l → g_ipc_exports (record_offsets l t) !! x.1.1 = Some (export_offset x.2 x.1.2)) ∧
  (∀ i, i ∉ ((λ x : indexed * Z, x.1.1) <$> l) → g_ipc_exports (record_offsets l t) !! i = g_ipc_exports t !! i) ∧
  length (g_ipc_exports (record_offsets l t)) = length (g_ipc_exports t).
Proof.
  revert t. induction l as [|x l IH]; intros t Hnd Hx.
  { split; [|by split]. intros y Hy. by apply elem_of_nil in Hy. }
  apply NoDup_cons in Hnd as [Hni Hnd]. simpl.
  set (t1 := set_exports (alter (export_offset x.2) x.1.1 (g_ipc_exports t)) t).
  destruct (IH t1 Hnd) as (IHin & IHout & IHlen).
  { intros y Hy. simpl. rewrite list_lookup_alter_ne; [apply Hx; set_solver|].
    intros Heq. apply Hni. rewrite Heq. apply list_elem_of_fmap. by exists y. }
  split; [|split].
  - intros y [->|Hy]%elem_of_cons; [|by apply IHin].
    rewrite IHout by done. simpl. rewrite list_lookup_alter_eq, Hx by set_solver. done.
  - intros i [Hne Hi]%not_elem_of_cons. rewrite IHout by done. simpl. by rewrite list_lookup_alter_ne.
  - rewrite IHlen. simpl. apply length_alter.
Qed.


(** ** The whole operation *)

(** Live exports, each mapped one with its own accessible mapping and handle. *)
Record exports_ok (es : list IpcExportRecord) (v : cview) : Prop := {
  xo_live : ∀ r, r ∈ es → e_torn_down r = false;
  xo_tear : tearable es v;
  xo_access : ∀ r m, r ∈ es → saves r → cv_maps v !! mapped_vaddr r = Some m → cm_access m ≠ [];
  xo_prop : ∀ r, r ∈ es → saves r → has_saved_prop r = true;
  xo_total : sum_by mapped_size (filter saves es) < 2 ^ 64
}.

(** The record of a saved export, its data at offset [o]. *)
Definition parked_record (o : Z) (r : IpcExportRecord) : IpcExportRecord :=
  torn (closed (export_offset o r)).

(** The exports [es] are parked in state [t], [v]: their bytes, which were [dev], are
    in the host buffer at [hb]. *)
Record parked_exports (es : list IpcExportRecord) (hb : Z) (dev : mem) (t : ipc_tables) (v : cview)
    : Prop := {
  pk_length : length (g_ipc_exports t) = length es;
  pk_record : ∀ x, x ∈ layout (save_order es) →
    g_ipc_exports t !! x.1.1 = Some (parked_record x.2 x.1.2);
  pk_other : ∀ i r, es !! i = Some r → ¬ saves r → g_ipc_exports t !! i = Some (closed r);
  pk_bytes : ∀ x j, x ∈ layout (save_order es) → 0 ≤ j < mapped_size x.1.2 →
    cv_host v (hb + x.2 + j) = dev (mapped_vaddr x.1.2 + j);
  pk_unmapped : ∀ x, x ∈ layout (save_order es) → cv_maps v !! mapped_vaddr x.1.2 = None;
  pk_idle : cv_queue v = []
}.

(** Record lists that agree on what the teardown looks at. *)
Definition same_range (r r' : IpcExportRecord) : Prop :=
  saves r' = saves r ∧ has_mapping r' = has_mapping r ∧ mapped_vaddr r' = mapped_vaddr r ∧
  mapped_size r' = mapped_size r ∧ local_handle r' = local_handle r.
Definition same_ranges : list IpcExportRecord → list IpcExportRecord → Prop := Forall2 same_range.

Lemma same_ranges_trans es1 es2 es3 : same_ranges es1 es2 → same_ranges es2 es3 → same_ranges es1 es3.
Proof.
  intros HA HB. revert es3 HB. induction HA as [|r1 r2 es1 es2 HA _ IH]; intros es3 HB.
  - apply Forall2_nil_inv_l in HB as ->. constructor.
  - apply Forall2_cons_inv_l in HB as (r3 & es3' & Hr & HB & ->). constructor; [|by apply IH].
    destruct HA as (? & ? & ? & ? & ?), Hr as (? & ? & ? & ? & ?). split_and!; congruence.
Qed.

Lemma closed_same_range r : same_range r (closed r).
Proof. unfold closed. by destruct (closes r). Qed.

Lemma closed_same_ranges es : same_ranges es (closed <$> es).
Proof. unfold same_ranges. rewrite Forall2_fmap_r. apply Forall_Forall2_diag, Forall_true, closed_same_range. Qed.

Lemma same_ranges_elem es es' r' : same_ranges es es' → r' ∈ es' → ∃ r, r ∈ es ∧ same_range r r'.
Proof.
  intros Hs [i Hi]%list_elem_of_lookup.
  destruct (Forall2_lookup_r _ _ _ _ _ Hs Hi) as (r & Hr & ?). exists r.
  split; [by eapply list_elem_of_lookup_2|done].
Qed.

Lemma same_ranges_tearable es es' v : same_ranges es es' → tearable es v → tearable es' v.
Proof.
  intros Hs Ht. split.
  - intros r' (r & Hr & Hsv & Hmp & Hva & Hsz & Hh)%(same_ranges_elem _ _ _ Hs) Hm.
    rewrite Hsz. apply (tr_pos _ _ Ht); congruence.
  - intros r' (r & Hr & Hsv & Hmp & Hva & Hsz & Hh)%(same_ranges_elem _ _ _ Hs).
    rewrite Hsv, Hva, Hsz. by apply (tr_map _ _ Ht).
  - intros r' (r & Hr & Hsv & Hmp & Hva & Hsz & Hh)%(same_ranges_elem _ _ _ Hs).
    rewrite Hsv, Hh. by apply (tr_handle _ _ Ht).
  - intros i j ri rj Hi Hj Hne.
    destruct (Forall2_lookup_r _ _ _ _ _ Hs Hi) as (r & Hr & Hsv & Hmp & Hva & Hsz & Hh).
    destruct (Forall2_lookup_r _ _ _ _ _ Hs Hj) as (r2 & Hr2 & Hsv2 & Hmp2 & Hva2 & Hsz2 & Hh2).
    rewrite Hsv, Hsv2, Hva, Hva2, Hsz, Hsz2, Hh, Hh2. by apply (tr_apart _ _ Ht i j).
Qed.

Lemma same_ranges_filter {A} (g : IpcExportRecord → A) es es' :
  same_ranges es es' → (∀ r r', same_range r r' → g r' = g r) →
  g <$> filter saves es' = g <$> filter saves es.
Proof.
  intros Hs Hg. induction Hs as [|r r' es es' Hr Hs IH]; [done|].
  pose proof (proj1 Hr) as Hsv. destruct (saves r) eqn:He.
  - rewrite !filter_cons_True by (by rewrite ?Hsv, ?He). rewrite !fmap_cons, IH. f_equal. by apply Hg.
  - rewrite !filter_cons_False by (rewrite ?Hsv, ?He; intros []). done.
Qed.

Lemma same_ranges_outside es es' d d' : same_ranges es es' → outside_all es' d d' → outside_all es d d'.
Proof.
  intros Hs Ho adr Ha. apply Ho. intros r' (r & Hr & Hsv & Hmp & Hva & Hsz & Hh)%(same_ranges_elem _ _ _ Hs).
  rewrite Hsv. unfold in_range. rewrite Hva, Hsz. by apply Ha.
Qed.

Lemma layout_elem es x : x ∈ layout (save_order es) → es !! x.1.1 = Some x.1.2 ∧ saves x.1.2.
Proof.
  destruct x as [[i r] o]. intros Hx%with_offsets_elem. by apply save_order_elem in Hx.
Qed.

Lemma layout_NoDup es : NoDup ((λ x : indexed * Z, x.1.1) <$> layout (save_order es)).
Proof.
  pose proof (save_order_NoDup es) as Hnd.
  rewrite <- (with_offsets_fst isize 0 (save_order es)) in Hnd.
  rewrite <- list_fmap_compose in Hnd. exact Hnd.
Qed.

Lemma isize_nonneg es x : x ∈ save_order es → 0 ≤ isize x.
Proof. destruct x as [i r]. intros [_ Hs%saves_size]%save_order_elem. unfold isize. simpl. lia. Qed.

(** The copies of the save do not overlap, and put each export's bytes at its offset. *)
Lemma out_copies_at es hb hd x j : x ∈ layout (save_order es) → 0 ≤ j < mapped_size x.1.2 →
  (run_all hd (out_copy hb <$> layout (save_order es))).1 (hb + x.2 + j) = hd.2 (mapped_vaddr x.1.2 + j).
Proof.
  intros Hx Hj. apply (run_out_at _ hd (out_copy hb x) j); [| | |done].
  - intros y (z & -> & _)%list_elem_of_fmap. done.
  - intros y z (y' & -> & Hy)%list_elem_of_fmap (z' & -> & Hz)%list_elem_of_fmap.
    destruct y' as [y' p], z' as [z' q].
    destruct (with_offsets_apart isize 0 _ y' p z' q (isize_nonneg es) Hy Hz) as [Heq|Hd].
    + left. by rewrite Heq.
    + right. unfold disjoint_ranges, isize in *. simpl. lia.
  - apply list_elem_of_fmap. by exists x.
Qed.


(** The tables and view after the copies. *)
Definition saved_tabs (t : ipc_tables) : ipc_tables :=
  record_offsets (layout (save_order (g_ipc_exports t))) t.
Definition saved_view (hb : Z) (es : list IpcExportRecord) (v : cview) : cview :=
  with_mems (run_all (drained v) (out_copy hb <$> layout (save_order es))) [] v.

Lemma saved_tabs_facts t :
  same_ranges (g_ipc_exports t) (g_ipc_exports (saved_tabs t)) ∧
  (∀ x, x ∈ layout (save_order (g_ipc_exports t)) →
     g_ipc_exports (saved_tabs t) !! x.1.1 = Some (export_offset x.2 x.1.2)) ∧
  (∀ i r, g_ipc_exports t !! i = Some r → ¬ saves r → g_ipc_exports (saved_tabs t) !! i = Some r).
Proof.
  destruct (record_offsets_lookup (layout (save_order (g_ipc_exports t))) t) as (Hin & Hout & Hlen);
    [apply layout_NoDup|intros x Hx; by apply layout_elem|].
  assert (Hother : ∀ i r, g_ipc_exports t !! i = Some r → ¬ saves r →
     g_ipc_exports (saved_tabs t) !! i = Some r).
  { intros i r Hi Hr. unfold saved_tabs. rewrite Hout; [done|].
    intros (x & -> & Hx)%list_elem_of_fmap. apply layout_elem in Hx as [Hx1 Hx2]. congruence. }
  split; [|done]. apply Forall2_same_length_lookup_2; [symmetry; apply Hlen|]. intros i r r' Hi Hi'.
  destruct (saves r) eqn:Hs.
  - assert (Hx : (i, r) ∈ save_order (g_ipc_exports t)) by (apply save_order_elem; by rewrite Hs).
    destruct (with_offsets_lookup isize 0 _ _ Hx) as [o Ho].
    pose proof (Hin ((i, r), o) Ho) as Hr. unfold saved_tabs in Hi'. simpl in Hr. simplify_eq. done.
  - rewrite (Hother i r Hi) in Hi' by (rewrite Hs; intros []). by simplify_eq.
Qed.

Lemma save_copies f t v hb pinned async s :
  at_ f t v s → linked f → cv_queue v = [] → exports_ok (g_ipc_exports t) v →
  (async = true → ∀ p, p ∈ stream_ptrs "fn_cuMemcpyDtoHAsync" → is_Some (f !! p)) →
  wp (for_ret (save_device hb pinned async) (0, 0) (device_exports (g_ipc_exports t)))
    (λ r s', ∃ acc, r = inl acc ∧ at_ f (saved_tabs t) (saved_view hb (g_ipc_exports t) v) s') s.
Proof.
  intros Hat Hl Hq Hok Has. set (es := g_ipc_exports t) in *.
  eapply wp_mono.
  - apply (save_groups f t v hb (save_order es) Hl); [done| | | |done| |done].
    + intros [i r] [Hi Hs]%save_order_elem. simpl.
      pose proof (list_elem_of_lookup_2 _ _ _ Hi) as Hin.
      destruct (tr_map _ _ (xo_tear _ _ Hok) r Hin Hs) as (m & Hm & Hsz). exists m.
      split; [done|]. split; [done|]. by apply (xo_access _ _ Hok r m).
    + apply isize_nonneg.
    + rewrite save_order_sum. apply Hok.
    + split; [done|]. unfold tabs_of, mems_of, layout, drained. simpl. rewrite Hq. simpl.
      destruct v. simpl in *. by subst.
  - intros r s' (acc & -> & _ & H1). by exists acc.
Qed.

Lemma wp_save_exports f t v hb buf_size s :
  at_ f t v s → linked f → cv_queue v = [] → exports_ok (g_ipc_exports t) v →
  sum_by mapped_size (filter saves (g_ipc_exports t)) ≤ buf_size →
  wp (ipc_save_and_teardown_all_exports hb buf_size) (λ n s',
    n = Z.of_nat (length (filter saves (g_ipc_exports t))) ∧
    ∃ g d, grows f g ∧ outside_all (g_ipc_exports t) (cv_dev v) d ∧
    at_ g (set_exports (torn <$> (closed <$> g_ipc_exports (saved_tabs t))) (saved_tabs t))
      (torn_view d (closed <$> g_ipc_exports (saved_tabs t))
        (with_fds (delete_all (exported_fd <$> filter closes (g_ipc_exports (saved_tabs t))) (cv_fds v))
          (saved_view hb (g_ipc_exports t) v))) s') s.
Proof.
  intros Hat Hl Hq Hok Hbuf. set (es := g_ipc_exports t) in *. unfold ipc_save_and_teardown_all_exports.
  apply wp_bind. eapply wp_mono; [by apply resolve_helper_fns_grows|]. intros ? s1 (g1 & H1 & Hg1).
  apply wp_bind. eapply wp_mono.
  { apply (resolve_grows RTLD_DEFAULT ("real_cuMemUnmap", "cuMemUnmap")%string); [done|exact H1]. }
  intros ? s2 (g2 & H2 & Hg2).
  assert (Hgr : grows f g2) by (by eapply grows_trans).
  assert (Hl2 : linked g2) by (by eapply grows_linked).
  apply wp_if_has_yes. { intros p Hp. rewrite (proj1 H2). apply linked_some; [done|set_solver]. }
  apply wp_bind, wp_get. rewrite (proj1 (proj2 H2)). fold es.
  rewrite total_needed_eq by apply Hok. rewrite bool_decide_eq_false_2 by lia.
  apply wp_bind. eapply wp_mono; [by apply wp_pin|]. intros pinned s3 H3. cbv beta in H3.
  apply wp_bind. eapply wp_mono; [by apply wp_use_async|]. intros async s4 [H4 Has].
  apply wp_bind. eapply wp_mono; [by apply (save_copies g2 t v)|]. intros r s5 (acc & -> & H5).
  apply wp_bind. eapply wp_mono; [by apply wp_unpin|]. intros ? s6 H6. cbv beta in H6.
  destruct (saved_tabs_facts t) as (Hsame & _ & _). fold es in Hsame.
  apply wp_bind. rewrite (Forall2_length _ _ _ Hsame).
  eapply wp_mono; [by apply close_all|]. intros ? s7 H7. cbv beta in H7.
  set (v7 := with_fds _ _) in H7.
  pose proof (same_ranges_trans _ _ _ Hsame (closed_same_ranges _)) as Hsame2.
  rewrite <- (length_fmap closed).
  eapply wp_mono.
  { apply (tear_all g2 (set_exports (closed <$> g_ipc_exports (saved_tabs t)) (saved_tabs t)) v7);
      [done|done| |done].
    eapply (same_ranges_tearable es); [exact Hsame2|]. destruct (xo_tear _ _ Hok) as [? ? ? ?]. by split. }
  intros n s8 (-> & d & H8 & Ho). cbn [g_ipc_exports set_exports] in *. split.
  - rewrite <- (length_fmap mapped_vaddr), (same_ranges_filter mapped_vaddr _ _ Hsame2) by (by intros ? ? (? & ? & ? & ?)).
    by rewrite length_fmap.
  - exists g2, d. split_and!; [done| |exact H8].
    eapply (same_ranges_outside es); [exact Hsame2|]. intros adr Ha. rewrite (Ho adr Ha).
    unfold v7, saved_view. simpl. rewrite run_out_dev; [|by intros y (z & -> & _)%list_elem_of_fmap].
    unfold drained. by rewrite Hq.
Qed.


(** After a save every mapped export is parked, its handle released, its fd closed. *)
Lemma save_parks f t v hb buf_size s :
  at_ f t v s → linked f → cv_queue v = [] → exports_ok (g_ipc_exports t) v →
  sum_by mapped_size (filter saves (g_ipc_exports t)) ≤ buf_size →
  wp (ipc_save_and_teardown_all_exports hb buf_size) (λ n s',
    n = Z.of_nat (length (filter saves (g_ipc_exports t))) ∧
    ∃ g t' v', at_ g t' v' s' ∧ grows f g ∧ t' = set_exports (g_ipc_exports t') t ∧
      parked_exports (g_ipc_exports t) hb (cv_dev v) t' v' ∧
      outside_all (g_ipc_exports t) (cv_dev v) (cv_dev v') ∧
      (∀ r, r ∈ g_ipc_exports t → saves r → cv_handles v' !! local_handle r = None) ∧
      (∀ r, r ∈ g_ipc_exports t → 0 ≤ exported_fd r → cv_fds v' !! exported_fd r = None) ∧
      (∀ p, (∀ r, r ∈ g_ipc_exports t → saves r → p ≠ mapped_vaddr r) → cv_maps v' !! p = cv_maps v !! p) ∧
      (∀ h, (∀ r, r ∈ g_ipc_exports t → saves r → h ≠ local_handle r) → cv_handles v' !! h = cv_handles v !! h)) s.
Proof.
  intros Hat Hl Hq Hok Hbuf.
  eapply wp_mono; [by eapply wp_save_exports|]. intros n s1 (-> & g & d & Hg & Ho & H1). split; [done|].
  eexists g, _, _. split; [exact H1|]. split; [done|].
  destruct (saved_tabs_facts t) as (Hsame & Hrec & Hoth).
  pose proof (same_ranges_trans _ _ _ Hsame (closed_same_ranges _)) as Hsame2.
  assert (Hva : mapped_vaddr <$> filter saves (closed <$> g_ipc_exports (saved_tabs t))
                = mapped_vaddr <$> filter saves (g_ipc_exports t)).
  { apply (same_ranges_filter mapped_vaddr _ _ Hsame2). by intros ? ? (? & ? & ? & ?). }
  assert (Hlh : local_handle <$> filter saves (closed <$> g_ipc_exports (saved_tabs t))
                = local_handle <$> filter saves (g_ipc_exports t)).
  { apply (same_ranges_filter local_handle _ _ Hsame2). by intros ? ? (? & ? & ? & ? & ?). }
  split; [apply set_exports_saved|].
  split; [split|split; [done|split; [|split; [|split]]]];
    cbn [g_ipc_exports set_exports cv_maps cv_host cv_queue cv_handles cv_fds torn_view with_dev with_maps
         with_handles with_fds saved_view with_mems].
  - by rewrite !length_fmap, <- (Forall2_length _ _ _ Hsame).
  - intros x Hx. by rewrite !list_lookup_fmap, (Hrec x Hx).
  - intros i r Hi Hr. rewrite !list_lookup_fmap, (Hoth i r Hi Hr). simpl. f_equal. unfold torn.
    destruct (closed_same_range r) as [-> _]. destruct (saves r); [by destruct Hr|done].
  - intros x j Hx Hj. rewrite out_copies_at by done. unfold drained. by rewrite Hq.
  - intros x Hx. rewrite Hva. apply delete_all_in. apply layout_elem in Hx as [Hi Hs].
    apply list_elem_of_fmap. exists x.1.2. split; [done|]. apply list_elem_of_filter.
    split; [done|by eapply list_elem_of_lookup_2].
  - done.
  - intros r Hr Hs. rewrite Hlh. apply delete_all_in, list_elem_of_fmap. exists r.
    split; [done|]. by apply list_elem_of_filter.
  - intros r Hr Hfd. apply delete_all_in, list_elem_of_fmap.
    apply list_elem_of_lookup in Hr as [i Hi].
    assert (∃ r', g_ipc_exports (saved_tabs t) !! i = Some r' ∧ exported_fd r' = exported_fd r ∧
              e_torn_down r' = e_torn_down r) as (r' & Hr' & Hfd' & Htd').
    { destruct (saves r) eqn:Hs; [|exists r; split; [apply Hoth; [done|rewrite Hs; intros []]|done]].
      assert (Hx : (i, r) ∈ save_order (g_ipc_exports t)) by (apply save_order_elem; by rewrite Hs).
      destruct (with_offsets_lookup isize 0 _ _ Hx) as [o Ho']. exists (export_offset o r).
      split; [by apply (Hrec ((i, r), o))|done]. }
    exists r'. split; [done|]. apply list_elem_of_filter. split; [|by eapply list_elem_of_lookup_2].
    unfold closes. rewrite Htd', Hfd', (xo_live _ _ Hok) by (by eapply list_elem_of_lookup_2).
    simpl. by apply bool_decide_pack.
  - intros p Hp. rewrite Hva. apply delete_all_out. intros (r & -> & [Hs Hr]%list_elem_of_filter)%list_elem_of_fmap. by apply (Hp r).
  - intros h Hh. rewrite Hlh. apply delete_all_out. intros (r & -> & [Hs Hr]%list_elem_of_filter)%list_elem_of_fmap. by apply (Hh r).
Qed.

End Save.
