(* ===== verification/IpcRebuild.v ===== *)
(** Rebuilding the exports.

    From a state in which the exports are parked ([IpcSave]),
    [ipc_rebuild_and_restore_all_exports] creates every one of them again at its
    address, replays its access descriptors, loads its bytes from the offset its
    record keeps and publishes a new fd. *)
From S2P Require Import Prelude Common Gpu Copies IpcState IpcDriver IpcHooks IpcExports IpcRules IpcSave.
Open Scope Z_scope.

(** The descriptors [replay_export] applies. *)
Definition replay_descs (t : ipc_tables) (r : IpcExportRecord) : list access_desc :=
  let ds := default [] (g_va_access_descs t !! mapped_vaddr r) in
  match ds with
  | [] => if has_access r then [e_access_desc r]
          else [MkDesc CU_MEM_LOCATION_TYPE_DEVICE (location_id (saved_prop r))
                  CU_MEM_ACCESS_FLAGS_PROT_READWRITE]
  | _ => ds
  end.

(** The records phase A rebuilds. *)
Definition rebuilds (r : IpcExportRecord) : bool :=
  e_torn_down r && has_mapping r && negb (bool_decide (mapped_size r = 0)) && has_saved_prop r.

Lemma upsert_not_nil d ds : upsert d ds ≠ [].
Proof. destruct ds as [|x ds]; simpl; [done|]. by destruct (bool_decide _). Qed.

Lemma merge_descs_not_nil ds : ∀ old, ds ≠ [] ∨ old ≠ [] → merge_descs old ds ≠ [].
Proof.
  induction ds as [|d ds IH]; intros old Hd; simpl; [naive_solver|].
  apply IH. right. apply upsert_not_nil.
Qed.

Lemma replay_descs_not_nil t r : replay_descs t r ≠ [].
Proof. unfold replay_descs. destruct (default _ _); simpl; [|done]. by destruct (has_access r). Qed.

Section Rebuild.
Context {D : Type} {CD : CuDriver D} {CL : CuLaws D} {CR : CuReliable D} {PF : Platform}.
Implicit Types (s : ipc D).

(** ** Access *)

Lemma wp_replay p n m f t v ds : ∀ acc s, linked f →
  at_ f t (with_maps (<[p := MkCMap n m acc]> (cv_maps v)) v) s →
  wp (foldM (λ _ d, _ ← real_set_access p n d; mret tt) tt ds)
    (λ _ s', at_ f t (with_maps (<[p := MkCMap n m (merge_descs acc ds)]> (cv_maps v)) v) s') s.
Proof.
  induction ds as [|d ds IH]; intros acc s Hl Hat; [done|]. simpl.
  apply wp_bind, wp_bind. eapply wp_mono.
  { eapply wp_real_set_access; [exact Hat|done| |]; [apply lookup_insert_eq|done]. }
  intros ? s1 H1. cbv beta in H1. cbn [cv_maps with_maps cm_handle cm_access] in H1.
  rewrite insert_insert_eq in H1. apply wp_ret. by apply IH.
Qed.

(** ** Phase A *)

(** The entries of the rebuilt prefix of [ps], with the mappings and handles they have. *)
Record allocated (t : ipc_tables) (v : cview) (pre : list IpcExportRecord) (acc : list RebuildEntry)
    (d : mem) (m : gmap Z cmapping) (h : gmap Z Z) : Prop := {
  al_idx : export_idx <$> acc = fst <$> filter (λ ir : indexed, rebuilds ir.2) (imap pair pre);
  al_entry : ∀ e, e ∈ acc → ∃ r, pre !! export_idx e = Some r ∧ rebuilds r ∧
    (has_saved_data_offset r → data_offset e = saved_data_offset r) ∧ new_handle e ≠ 0 ∧
    m !! mapped_vaddr r = Some (MkCMap (mapped_size r) (new_handle e) (merge_descs [] (replay_descs t r))) ∧
    h !! new_handle e = Some (mapped_size r);
  al_nodup : NoDup (new_handle <$> acc);
  al_maps : ∀ p, (∀ r, r ∈ pre → rebuilds r → p ≠ mapped_vaddr r) → m !! p = cv_maps v !! p;
  al_dev : ∀ a, (∀ r, r ∈ pre → rebuilds r → ¬ in_range r a) → d a = cv_dev v a
}.

Definition alloc_view (d : mem) (m : gmap Z cmapping) (h : gmap Z Z) (v : cview) : cview :=
  with_dev d (with_maps m (with_handles h v)).

(** What phase A needs: the addresses to rebuild are free and different. *)
Record rebuildable (ps : list IpcExportRecord) (v : cview) : Prop := {
  rb_free : ∀ r, r ∈ ps → rebuilds r → cv_maps v !! mapped_vaddr r = None;
  rb_apart : ∀ i j ri rj, ps !! i = Some ri → ps !! j = Some rj → i ≠ j → rebuilds ri → rebuilds rj →
    mapped_vaddr ri ≠ mapped_vaddr rj
}.

Lemma imap_snoc {A} (pre : list A) x : imap pair (pre ++ [x]) = imap pair pre ++ [(length pre, x)].
Proof. rewrite imap_app. simpl. by rewrite Nat.add_0_r. Qed.

Lemma rebuildable_fresh ps v pre r post r' : rebuildable ps v → ps = pre ++ r :: post →
  rebuilds r → r' ∈ pre → rebuilds r' → mapped_vaddr r ≠ mapped_vaddr r'.
Proof.
  intros Hrb -> Hr [i Hi]%list_elem_of_lookup Hr' Heq.
  apply (rb_apart _ _ Hrb i (length pre) r' r); [|by apply list_lookup_middle| |done|done|done].
  - rewrite lookup_app_l; [done|]. by eapply lookup_lt_Some.
  - apply lookup_lt_Some in Hi. lia.
Qed.

Lemma allocated_skip t v pre r acc d m h : allocated t v pre acc d m h → rebuilds r = false →
  allocated t v (pre ++ [r]) acc d m h.
Proof.
  intros [Hi He Hnd Hm Hd] Hr. split.
  - rewrite imap_snoc, (filter_snoc_false (λ ir : indexed, rebuilds ir.2)) by done. done.
  - intros e (r' & Hr' & Hrest)%He. exists r'. split; [|done].
    rewrite lookup_app_l; [done|]. by eapply lookup_lt_Some.
  - done.
  - intros p Hp. apply Hm. set_solver.
  - intros a Ha. apply Hd. set_solver.
Qed.

Lemma allocated_step t v pre r acc d m h d' hn off dev :
  allocated t v pre acc d m h → rebuilds r = true →
  (∀ r', r' ∈ pre → rebuilds r' → mapped_vaddr r ≠ mapped_vaddr r') →
  h !! hn = None → hn ≠ 0 → dev_outside (mapped_vaddr r) (mapped_size r) d d' →
  (has_saved_data_offset r → off = saved_data_offset r) →
  allocated t v (pre ++ [r]) (acc ++ [MkRebuild (length pre) hn off dev]) d'
    (<[mapped_vaddr r := MkCMap (mapped_size r) hn (merge_descs [] (replay_descs t r))]> m)
    (<[hn := mapped_size r]> h).
Proof.
  intros [Hi He Hnd Hm Hd] Hr Hfresh Hh Hhn Hd' Hoff. split.
  - rewrite imap_snoc, (filter_snoc_true (λ ir : indexed, rebuilds ir.2)) by done.
    rewrite !fmap_app, Hi. done.
  - intros e [Hin|Hin]%elem_of_app.
    + destruct (He e Hin) as (r' & Hr' & Hrb & Ho & Hne & Hmp & Hhd).
      exists r'. split; [rewrite lookup_app_l; [done|by eapply lookup_lt_Some]|].
      split_and!; [done..| |].
      * rewrite lookup_insert_ne; [done|]. apply Hfresh; [by eapply list_elem_of_lookup_2|done].
      * rewrite lookup_insert_ne; [done|]. congruence.
    + apply list_elem_of_singleton in Hin as ->.
      exists r. simpl. rewrite list_lookup_middle by done. rewrite !lookup_insert_eq.
      by rewrite Hr.
  - rewrite fmap_app. apply NoDup_app. split; [done|]. split; [|apply NoDup_singleton].
    intros k (e & -> & (r' & _ & _ & _ & _ & _ & Hhd)%He)%list_elem_of_fmap Heq%list_elem_of_singleton.
    simpl in Heq. congruence.
  - intros p Hp. rewrite lookup_insert_ne; [apply Hm; set_solver|].
    intros Heq. apply (Hp r); [set_solver|by rewrite Hr|done].
  - intros a Ha. rewrite Hd'; [apply Hd; set_solver|]. apply (Ha r); [set_solver|by rewrite Hr].
Qed.

Lemma alloc_one ps f t v pre r post acc o d m h s :
  linked f → cv_queue v = [] → g_ipc_exports t = ps → rebuildable ps v → ps = pre ++ r :: post →
  at_ f t (alloc_view d m h v) s → allocated t v pre acc d m h →
  wp (alloc_export (acc, o) (length pre)) (λ acc' s', ∃ d' m' h',
    at_ f t (alloc_view d' m' h' v) s' ∧ allocated t v (pre ++ [r]) acc'.1 d' m' h') s.
Proof.
  intros Hl Hq Hps Hrb Hsplit Hat Hal. unfold alloc_export. apply wp_bind.
  eapply export_at_spec.
  { rewrite (proj1 (proj2 Hat)), Hps, Hsplit. by apply list_lookup_middle. }
  destruct (rebuilds r) eqn:Hr.
  - pose proof Hr as Hr'. unfold rebuilds in Hr'. rewrite !andb_true_iff in Hr'.
    destruct Hr' as [[[-> ->] Hsz] ->]. apply negb_true_iff in Hsz. rewrite Hsz. simpl.
    assert (Hfresh : ∀ r', r' ∈ pre → rebuilds r' → mapped_vaddr r ≠ mapped_vaddr r').
    { intros r' Hin Hr'. eapply (rebuildable_fresh ps v); try done. by rewrite Hr. }
    apply wp_bind. eapply wp_mono; [by eapply wp_real_create|].
    intros [e hn] s1 (He & Hhn & Hfr & H1). simpl in He, Hhn, Hfr, H1. subst e.
    rewrite bool_decide_eq_false_2 by (intros Hx; by apply Hx).
    apply wp_bind. eapply wp_mono.
    { eapply wp_real_map; [exact H1|done|done| |apply lookup_insert_eq].
      simpl. rewrite (al_maps _ _ _ _ _ _ _ Hal) by (intros; by apply Hfresh).
      apply (rb_free _ _ Hrb); [rewrite Hsplit; set_solver|by rewrite Hr]. }
    intros res s2 (-> & d' & Hd' & H2). rewrite bool_decide_eq_false_2 by (intros Hx; by apply Hx).
    apply wp_bind. unfold replay_export. apply wp_bind, wp_get.
    rewrite (proj1 (proj2 H2)). fold (replay_descs t r).
    eapply wp_mono.
    { apply (wp_replay (mapped_vaddr r) (mapped_size r) hn f t
               (alloc_view d' m (<[hn := mapped_size r]> h) v) (replay_descs t r) []); [done|].
      exact H2. }
    intros ? s3 H3. cbv beta in H3. apply wp_ret. eexists _, _, _. split; [exact H3|].
    apply (allocated_step t v pre r acc d m h d'); try done.
    intros Hs. destruct (has_saved_data_offset r); [done|destruct Hs].
  - assert (Hskip : ∀ rest : M (ipc D) (list RebuildEntry * Z),
      (if negb (e_torn_down r) then mret (acc, o)
       else if negb (has_mapping r) || bool_decide (mapped_size r = 0) then mret (acc, o)
       else if negb (has_saved_prop r) then mret (acc, o) else rest) = mret (acc, o)).
    { intros rest. unfold rebuilds in Hr. destruct (e_torn_down r), (has_mapping r); simpl in *; try done.
      destruct (bool_decide _); simpl in *; [done|]. by rewrite Hr. }
    rewrite Hskip. apply wp_ret. eexists _, _, _. split; [exact Hat|]. by apply allocated_skip.
Qed.

Lemma alloc_all f t v s :
  linked f → cv_queue v = [] → rebuildable (g_ipc_exports t) v → at_ f t v s →
  wp (foldM alloc_export ([], 0) (seq 0 (length (g_ipc_exports t)))) (λ acc s', ∃ d m h,
    at_ f t (alloc_view d m h v) s' ∧ allocated t v (g_ipc_exports t) acc.1 d m h) s.
Proof.
  intros Hl Hq Hrb Hat.
  apply (wp_foldM_seq (g_ipc_exports t) (λ pre acc s, ∃ d m h,
    at_ f t (alloc_view d m h v) s ∧ allocated t v pre acc.1 d m h)).
  - exists (cv_dev v), (cv_maps v), (cv_handles v). split; [by destruct v|].
    split; try done; [|constructor]. intros e He. by apply elem_of_nil in He.
  - intros pre r post [acc o] s1 Hsplit (d & m & h & H1 & Hal).
    exact (alloc_one _ f t v pre r post acc o d m h s1 Hl Hq eq_refl Hrb Hsplit H1 Hal).
Qed.


(** ** Phase B *)

Definition in_copy (hb : Z) (x : Z * Z * Z) : xfer := MkXfer x.1.1 (hb + x.2) x.1.2 HostToDevice.

Lemma load_device_spec f t v hb buf_size async dev xs hd s :
  linked f → cv_queue v = [] →
  (∀ x, x ∈ xs → accessible v x.1.1 x.1.2 ∧ wrap64 (x.2 + x.1.2) ≤ buf_size) →
  (async = true → ∀ p, p ∈ stream_ptrs "fn_cuMemcpyHtoDAsync" → is_Some (f !! p)) →
  at_ f t (with_mems hd [] v) s →
  wp (load_device hb buf_size async dev xs)
    (λ _ s', at_ f t (with_mems (run_all hd (in_copy hb <$> xs)) [] v) s') s.
Proof.
  intros Hl Hq Hx Has Hat. unfold load_device. apply wp_bind.
  eapply wp_mono; [by eapply wp_push_ctx|]. intros b s1 [H1 Hb]. apply wp_bind.
  eapply wp_mono with (P := λ _ s', at_ f t (with_mems (run_all hd (in_copy hb <$> xs)) [] v) s').
  2: { intros [] s2 H2. by apply wp_pop_ctx. }
  destruct async.
  - specialize (Has eq_refl). apply wp_bind.
    eapply wp_mono; [eapply wp_new_stream; [exact H1|apply Has; set_solver]|].
    intros st s2 H2. cbv beta in H2. apply wp_bind. eapply wp_mono.
    { apply (wp_foldM (λ pre _ s, ∃ w, at_ f t w s ∧ moved v (run_all hd (in_copy hb <$> pre)) w)).
      - exists (with_mems hd [] v). split; [exact H2|]. unfold moved, drained. simpl.
        by rewrite <- surjective_pairing.
      - intros pre x post [] s3 Hxs (w & H3 & Hm). destruct (Hx x) as [Ha Hbd]; [rewrite Hxs; set_solver|].
        unfold load_one. rewrite bool_decide_eq_true_2 by done. apply wp_bind.
        eapply wp_mono; [eapply wp_htod_async; [exact H3|exact Hm|exact Ha|apply Has; set_solver]|].
        intros r s4 (_ & w' & H4 & Hm4). apply wp_ret. exists w'. split; [done|].
        by rewrite fmap_app, foldl_app. }
    intros [] s3 (w & H3 & Hm). apply wp_bind.
    eapply wp_mono; [eapply wp_sync_stream; [exact H3|apply Has; set_solver]|].
    intros ? s4 H4. cbv beta in H4. rewrite (moved_sync _ _ _ Hm) in H4.
    eapply wp_destroy_stream; [exact H4|apply Has; set_solver].
  - apply (wp_foldM (λ pre _ s, at_ f t (with_mems (run_all hd (in_copy hb <$> pre)) [] v) s)); [exact H1|].
    intros pre x post [] s3 Hxs H3. destruct (Hx x) as [Ha Hbd]; [rewrite Hxs; set_solver|].
    unfold load_one. rewrite bool_decide_eq_true_2 by done. apply wp_bind.
    eapply wp_mono.
    { eapply wp_htod; [exact H3|done|exact Ha|]. apply linked_some; [done|set_solver]. }
    intros r s4 [-> H4]. apply wp_ret. rewrite fmap_app, foldl_app. simpl. revert H4.
    by destruct (foldl run_xfer hd (in_copy hb <$> pre)).
Qed.

(** All the devices. *)
Lemma load_groups f t v hb buf_size async (range : RebuildEntry → Z * Z * Z)
    (groups : list (Z * list RebuildEntry)) hd s :
  linked f → cv_queue v = [] →
  (∀ e, e ∈ concat (snd <$> groups) → accessible v (range e).1.1 (range e).1.2 ∧
        wrap64 ((range e).2 + (range e).1.2) ≤ buf_size) →
  (async = true → ∀ p, p ∈ stream_ptrs "fn_cuMemcpyHtoDAsync" → is_Some (f !! p)) →
  at_ f t (with_mems hd [] v) s →
  wp (foldM (λ _ dg, load_device hb buf_size async dg.1 (range <$> dg.2)) tt groups)
    (λ _ s', at_ f t (with_mems (run_all hd (in_copy hb <$> (range <$> concat (snd <$> groups)))) [] v) s') s.
Proof.
  intros Hl Hq Hx Has Hat.
  apply (wp_foldM (λ pre _ s,
    at_ f t (with_mems (run_all hd (in_copy hb <$> (range <$> concat (snd <$> pre)))) [] v) s)); [exact Hat|].
  intros pre dg post [] s1 Hg H1. eapply wp_mono.
  - eapply load_device_spec; [done|exact Hq| |exact Has|exact H1].
    intros x (e & -> & He)%list_elem_of_fmap. apply Hx. rewrite Hg, fmap_app, concat_app. set_solver.
  - intros ? s2 H2. cbv beta in H2. rewrite <- foldl_app, <- fmap_app, <- fmap_app in H2.
    rewrite fmap_app, concat_app. simpl. by rewrite app_nil_r.
Qed.

(** ** Phase C *)

Definition rebuilt_record (hn fd : Z) (r : IpcExportRecord) : IpcExportRecord :=
  export_torn false (export_fd fd (export_handle hn r)).

(** After the entries [pre]: their records are live with a new handle and an open fd,
    the others are as they were. *)
Record reexported (t0 : ipc_tables) (fds0 : gmap Z Z) (pre : list RebuildEntry) (t : ipc_tables)
    (fds : gmap Z Z) : Prop := {
  rx_record : ∀ e, e ∈ pre → ∃ r fd, g_ipc_exports t0 !! export_idx e = Some r ∧
    g_ipc_exports t !! export_idx e = Some (rebuilt_record (new_handle e) fd r) ∧
    0 ≤ fd ∧ is_Some (fds !! fd) ∧
    g_created_allocs t !! new_handle e = Some (MkCreate (mapped_size r) (saved_prop r)) ∧
    g_handle_to_va t !! new_handle e = Some (mapped_vaddr r);
  rx_other : ∀ i, i ∉ (export_idx <$> pre) → g_ipc_exports t !! i = g_ipc_exports t0 !! i;
  rx_fds : fds0 ⊆ fds;
  rx_descs : g_va_access_descs t = g_va_access_descs t0;
  rx_imports : g_ipc_imports t = g_ipc_imports t0;
  rx_local : g_local_allocs t = g_local_allocs t0
}.

Lemma reexport_one t0 fds0 f pre e t v r n s :
  linked f → at_ f t v s → reexported t0 fds0 pre t (cv_fds v) →
  export_idx e ∉ (export_idx <$> pre) → new_handle e ∉ (new_handle <$> pre) →
  g_ipc_exports t0 !! export_idx e = Some r → cv_handles v !! new_handle e = Some n →
  wp (reexport e) (λ _ s', ∃ t' fds, at_ f t' (with_fds fds v) s' ∧
    reexported t0 fds0 (pre ++ [e]) t' fds) s.
Proof.
  intros Hl Hat [Hrec Hoth Hfds Hdesc Himp Hloc] Hidx Hnh Hr Hh.
  assert (Hcur : g_ipc_exports t !! export_idx e = Some r) by (by rewrite Hoth).
  unfold reexport. apply wp_bind. eapply export_at_spec; [rewrite (proj1 (proj2 Hat)); exact Hcur|].
  apply wp_bind. apply wp_if_has_yes.
  { intros p ->%list_elem_of_singleton. rewrite (proj1 Hat). apply linked_some; [done|set_solver]. }
  apply wp_bind. eapply wp_mono; [by eapply wp_real_export|].
  intros [er fd] s1 (He & Hfd & Hfresh & H1). simpl in *. subst er.
  rewrite bool_decide_eq_true_2 by done. apply wp_ret.
  set (t1 := if bool_decide (app_local_handle r ≠ 0 ∧ app_local_handle r ≠ new_handle e)
             then set_alias (<[app_local_handle r := new_handle e]> (g_rebuilt_handle_alias t)) t else t).
  apply wp_bind. eapply wp_mono with (P := λ _ s', at_ f t1 (with_fds (<[fd := n]> (cv_fds v)) v) s').
  { unfold t1. destruct (bool_decide _); [|done]. apply wp_track.
    by apply (at_track (λ t, set_alias (<[app_local_handle r := new_handle e]> (g_rebuilt_handle_alias t)) t)) in H1. }
  intros ? s2 H2. cbv beta in H2. apply wp_bind.
  eapply wp_track_at; [exact H2|]. intros s3 H3. eapply wp_track_at; [exact H3|]. intros s4 H4.
  assert (Ht1 : g_ipc_exports t1 = g_ipc_exports t ∧ g_created_allocs t1 = g_created_allocs t ∧
    g_handle_to_va t1 = g_handle_to_va t ∧ g_va_access_descs t1 = g_va_access_descs t ∧
    g_ipc_imports t1 = g_ipc_imports t ∧ g_local_allocs t1 = g_local_allocs t).
  { unfold t1. by destruct (bool_decide _). }
  eexists _, _. split; [exact H4|]. clear H4. destruct Ht1 as (He1 & Hc1 & Hv1 & Hd1 & Hi1 & Hl1).
  split; cbn; rewrite ?He1, ?Hc1, ?Hv1, ?Hd1, ?Hi1, ?Hl1.
  - intros e' [Hin|Heq]%elem_of_app.
    + destruct (Hrec e' Hin) as (r' & fd' & Hr' & Hc' & Hfd' & Hop & Hca & Hva). exists r', fd'.
      assert (export_idx e' ≠ export_idx e) by (intros Heq; apply Hidx; rewrite <- Heq; apply list_elem_of_fmap; by exists e').
      assert (new_handle e' ≠ new_handle e) by (intros Heq; apply Hnh; rewrite <- Heq; apply list_elem_of_fmap; by exists e').
      assert (fd ≠ fd') by (intros ->; destruct Hop; congruence).
      rewrite list_lookup_alter_ne, !lookup_insert_ne by done. by split_and!.
    + apply list_elem_of_singleton in Heq as ->. exists r, fd. rewrite list_lookup_alter_eq, Hcur, !lookup_insert_eq. by split_and!.
  - intros i Hi. rewrite fmap_app in Hi. rewrite list_lookup_alter_ne by set_solver. apply Hoth. set_solver.
  - etrans; [exact Hfds|]. by apply insert_subseteq.
  - done.
  - done.
  - done.
Qed.


(** ** From a parked state *)

Lemma parked_record_same o r : same_range r (closed (export_offset o r)).
Proof. exact (closed_same_range (export_offset o r)). Qed.

(** A parked record: torn down, everything else as it was, the offset recorded. *)
Lemma parked_record_spec o r : saves r →
  e_torn_down (parked_record o r) = true ∧ has_mapping (parked_record o r) = has_mapping r ∧
  mapped_size (parked_record o r) = mapped_size r ∧ mapped_vaddr (parked_record o r) = mapped_vaddr r ∧
  has_saved_prop (parked_record o r) = has_saved_prop r ∧ saved_prop (parked_record o r) = saved_prop r ∧
  has_saved_data_offset (parked_record o r) = true ∧ saved_data_offset (parked_record o r) = o.
Proof.
  intros Hs. unfold parked_record, torn. destruct (parked_record_same o r) as (-> & _).
  destruct (saves r); [|by destruct Hs]. unfold closed. by destruct (closes _).
Qed.

Section Parked.
Context (es : list IpcExportRecord) (hb : Z) (dev : mem) (v0 : cview) (t : ipc_tables) (v : cview).
Context (Hok : exports_ok es v0) (Hpk : parked_exports es hb dev t v).

Lemma parked_saved i r : es !! i = Some r → saves r → ∃ o, ((i, r), o) ∈ layout (save_order es) ∧
  g_ipc_exports t !! i = Some (parked_record o r) ∧ rebuilds (parked_record o r).
Proof.
  intros Hi Hs. destruct (with_offsets_lookup isize 0 (save_order es) (i, r)) as [o Ho];
    [by apply save_order_elem|].
  exists o. split; [done|]. split; [apply (pk_record _ _ _ _ _ Hpk _ Ho)|].
  destruct (parked_record_spec o r Hs) as (H1 & H2 & H3 & _ & H5 & _).
  unfold rebuilds. rewrite H1, H2, H3, H5, (xo_prop _ _ Hok r) by (try done; by eapply list_elem_of_lookup_2).
  pose proof Hs as Hs'. apply Is_true_true, saves_cases in Hs' as (_ & -> & Hp).
  rewrite bool_decide_eq_false_2 by lia. done.
Qed.

Lemma parked_rebuilds i p : g_ipc_exports t !! i = Some p → rebuilds p →
  ∃ r o, es !! i = Some r ∧ saves r ∧ ((i, r), o) ∈ layout (save_order es) ∧ p = parked_record o r.
Proof.
  intros Hi Hp. destruct (lookup_lt_is_Some_2 es i) as [r Hr].
  { rewrite <- (pk_length _ _ _ _ _ Hpk). by eapply lookup_lt_Some. }
  destruct (decide (saves r)) as [Hs|Hs].
  - destruct (parked_saved i r Hr Hs) as (o & Ho & He & _). exists r, o. by simplify_eq.
  - rewrite (pk_other _ _ _ _ _ Hpk i r Hr Hs) in Hi. simplify_eq. exfalso. revert Hp.
    unfold rebuilds, closed. pose proof (xo_live _ _ Hok r (list_elem_of_lookup_2 _ _ _ Hr)) as Hl.
    destruct (closes r); simpl; by rewrite Hl.
Qed.

Lemma parked_rebuildable : rebuildable (g_ipc_exports t) v.
Proof.
  split.
  - intros p [i Hi]%list_elem_of_lookup Hp.
    destruct (parked_rebuilds i p Hi Hp) as (r & o & Hr & Hs & Hx & ->).
    destruct (parked_record_spec o r Hs) as (_ & _ & _ & -> & _). apply (pk_unmapped _ _ _ _ _ Hpk _ Hx).
  - intros i j p q Hi Hj Hne Hp Hq.
    destruct (parked_rebuilds i p Hi Hp) as (r & o & Hr & Hs & Hx & ->).
    destruct (parked_rebuilds j q Hj Hq) as (r2 & o2 & Hr2 & Hs2 & Hx2 & ->).
    destruct (parked_record_spec o r Hs) as (_ & _ & _ & -> & _).
    destruct (parked_record_spec o2 r2 Hs2) as (_ & _ & _ & -> & _).
    destruct (tr_apart _ _ (xo_tear _ _ Hok) i j r r2) as [Hd _]; [done..|].
    apply saves_size in Hs, Hs2. unfold disjoint_ranges in Hd. lia.
Qed.

Lemma filter_indices k (l1 l2 : list IpcExportRecord) :
  Forall2 (λ r p, rebuilds p = saves r) l1 l2 →
  fst <$> filter (λ ir : indexed, rebuilds ir.2) (imap (λ i r, ((k + i)%nat, r)) l2) =
  fst <$> filter (λ ir : indexed, saves ir.2) (imap (λ i r, ((k + i)%nat, r)) l1).
Proof.
  intros Hf. revert k. induction Hf as [|r p l1 l2 Hrp _ IH]; intros k; [done|].
  rewrite !imap_cons.
  rewrite !(imap_ext ((λ i (r : IpcExportRecord), ((k + i)%nat, r)) ∘ S) (λ i r, ((S k + i)%nat, r)))
    by (intros; cbn; f_equal; lia).
  destruct (saves r) eqn:Hs.
  - rewrite !filter_cons_True by (simpl; by rewrite ?Hrp, ?Hs). rewrite !fmap_cons, IH. done.
  - rewrite !filter_cons_False by (simpl; rewrite ?Hrp, ?Hs; intros []). by rewrite IH.
Qed.

Lemma parked_indices :
  fst <$> filter (λ ir : indexed, rebuilds ir.2) (imap pair (g_ipc_exports t)) =
  fst <$> filter (λ ir : indexed, saves ir.2) (imap pair es).
Proof.
  apply (filter_indices 0). apply Forall2_same_length_lookup_2; [symmetry; apply Hpk|].
  intros i r p Hr Hp. destruct (saves r) eqn:Hs.
  - destruct (parked_saved i r Hr ltac:(by rewrite Hs)) as (o & _ & He & Hrb). simplify_eq.
    by apply Is_true_true.
  - apply not_true_is_false. intros Hrb.
    destruct (parked_rebuilds i p Hp ltac:(by rewrite Hrb)) as (r' & o & Hr' & Hs' & _). simplify_eq.
    by rewrite Hs in Hs'.
Qed.

End Parked.

End Rebuild.
