(* ===== verification/IpcRoundtrip.v ===== *)
(** The exports after a save and a rebuild. *)
From S2P Require Import Prelude Common Gpu Copies IpcState IpcDriver IpcHooks IpcExports IpcRules IpcSave IpcRebuild.
Open Scope Z_scope.

(** A mapped export once it is back: the record is live with a new handle and an fd
    that is open, the handle owns physical memory mapped at the old address with the
    tracked access, and the bytes are those of [dev]. *)
Record export_restored (dev : mem) (t0 t : ipc_tables) (v : cview) (i : nat) (r : IpcExportRecord) : Prop := {
  er_record : ∃ h fd o, g_ipc_exports t !! i = Some (rebuilt_record h fd (parked_record o r)) ∧ h ≠ 0 ∧
    0 ≤ fd ∧ is_Some (cv_fds v !! fd) ∧ cv_handles v !! h = Some (mapped_size r) ∧
    cv_maps v !! mapped_vaddr r = Some (MkCMap (mapped_size r) h
      (merge_descs [] (replay_descs t0 (parked_record o r)))) ∧
    g_created_allocs t !! h = Some (MkCreate (mapped_size r) (saved_prop r)) ∧
    g_handle_to_va t !! h = Some (mapped_vaddr r);
  er_bytes : ∀ j, 0 ≤ j < mapped_size r → cv_dev v (mapped_vaddr r + j) = dev (mapped_vaddr r + j)
}.

Section Roundtrip.
Context {D : Type} {CD : CuDriver D} {CL : CuLaws D} {CR : CuReliable D} {PF : Platform}.
Implicit Types (s : ipc D).

Lemma fst_filter_imap (es : list IpcExportRecord) i (P : indexed → bool) :
  i ∈ (fst <$> filter P (imap pair es)) → ∃ r, es !! i = Some r ∧ P (i, r).
Proof.
  intros ([j r] & -> & [HP Hin]%list_elem_of_filter)%list_elem_of_fmap.
  exists r. split; [by apply indexed_elem|done].
Qed.

(** The entries of phase A, seen from the exports that were saved. *)
Lemma entry_origin es hb dev v0 t v acc d m h e :
  exports_ok es v0 → parked_exports es hb dev t v →
  allocated t v (g_ipc_exports t) acc d m h → e ∈ acc →
  ∃ r o, es !! export_idx e = Some r ∧ saves r ∧ ((export_idx e, r), o) ∈ layout (save_order es) ∧
    g_ipc_exports t !! export_idx e = Some (parked_record o r) ∧ data_offset e = o ∧ new_handle e ≠ 0 ∧
    m !! mapped_vaddr r = Some (MkCMap (mapped_size r) (new_handle e)
      (merge_descs [] (replay_descs t (parked_record o r)))) ∧
    h !! new_handle e = Some (mapped_size r).
Proof.
  intros Hok Hpk Hal He. destruct (al_entry _ _ _ _ _ _ _ Hal e He) as (p & Hp & Hrb & Ho & Hne & Hm & Hh).
  destruct (parked_rebuilds es hb dev v0 t v Hok Hpk _ _ Hp Hrb) as (r & o & Hr & Hs & Hx & ->).
  destruct (parked_record_spec o r Hs) as (_ & _ & Hsz & Hva & _ & _ & Hhas & Hoff).
  rewrite Hsz, Hva in Hm. rewrite Hsz in Hh. exists r, o. split_and!; try done.
  rewrite Ho by (by rewrite Hhas). done.
Qed.

Lemma saved_entry es hb dev v0 t v acc d m h i r :
  exports_ok es v0 → parked_exports es hb dev t v →
  allocated t v (g_ipc_exports t) acc d m h → es !! i = Some r → saves r →
  ∃ e, e ∈ acc ∧ export_idx e = i.
Proof.
  intros Hok Hpk Hal Hi Hs.
  assert (Hin : i ∈ (export_idx <$> acc)).
  { rewrite (al_idx _ _ _ _ _ _ _ Hal), (parked_indices es hb dev v0 t v Hok Hpk).
    apply list_elem_of_fmap. exists (i, r). split; [done|]. apply list_elem_of_filter.
    split; [done|by apply indexed_elem]. }
  apply list_elem_of_fmap in Hin as (e & -> & He). by exists e.
Qed.

Lemma export_range_of t e r o : g_ipc_exports t !! export_idx e = Some (parked_record o r) → saves r →
  data_offset e = o → export_range (g_ipc_exports t) e = (mapped_vaddr r, mapped_size r, o).
Proof.
  intros He Hs <-. unfold export_range. rewrite He.
  destruct (parked_record_spec (data_offset e) r Hs) as (_ & _ & -> & -> & _). done.
Qed.

(** What phase B leaves in device memory. *)
Lemma loaded_bytes es hb dev v0 t v acc d m h L hd e r o j :
  exports_ok es v0 → parked_exports es hb dev t v →
  allocated t v (g_ipc_exports t) acc d m h → L ≡ₚ acc → hd.1 = cv_host v →
  e ∈ acc → es !! export_idx e = Some r → saves r → data_offset e = o →
  ((export_idx e, r), o) ∈ layout (save_order es) → 0 ≤ j < mapped_size r →
  (run_all hd (in_copy hb <$> (export_range (g_ipc_exports t) <$> L))).2 (mapped_vaddr r + j)
    = dev (mapped_vaddr r + j).
Proof.
  intros Hok Hpk Hal HL Hhost He Hi Hs Ho Hx Hj.
  assert (Hp : g_ipc_exports t !! export_idx e = Some (parked_record o r)) by apply (pk_record _ _ _ _ _ Hpk _ Hx).
  pose proof (pk_bytes _ _ _ _ _ Hpk ((export_idx e, r), o) j Hx Hj) as Hb. simpl in Hb.
  rewrite <- Hb, <- Hhost.
  apply (run_in_at _ hd (in_copy hb (mapped_vaddr r, mapped_size r, o)) j); [| | |done].
  - by intros y (z & -> & _)%list_elem_of_fmap.
  - intros y z (y' & -> & (e1 & -> & H1)%list_elem_of_fmap)%list_elem_of_fmap
               (z' & -> & (e2 & -> & H2)%list_elem_of_fmap)%list_elem_of_fmap.
    rewrite HL in H1, H2.
    destruct (entry_origin es hb dev v0 t v acc d m h e1 Hok Hpk Hal H1)
      as (r1 & o1 & Hr1 & Hs1 & Hx1 & Hp1 & Ho1 & _).
    destruct (entry_origin es hb dev v0 t v acc d m h e2 Hok Hpk Hal H2)
      as (r2 & o2 & Hr2 & Hs2 & Hx2 & Hp2 & Ho2 & _).
    rewrite (export_range_of t e1 r1 o1), (export_range_of t e2 r2 o2) by done.
    destruct (decide (export_idx e1 = export_idx e2)) as [Heq|Hne].
    + left. rewrite Heq in Hr1, Hp1. assert (r1 = r2) as -> by congruence.
      assert (Hpp : parked_record o1 r2 = parked_record o2 r2) by congruence.
      apply (f_equal saved_data_offset) in Hpp.
      destruct (parked_record_spec o1 r2 Hs2) as (_ & _ & _ & _ & _ & _ & _ & Ha).
      destruct (parked_record_spec o2 r2 Hs2) as (_ & _ & _ & _ & _ & _ & _ & Hb2).
      rewrite Ha, Hb2 in Hpp. by rewrite Hpp.
    + right. destruct (tr_apart _ _ (xo_tear _ _ Hok) _ _ r1 r2 Hr1 Hr2 Hne Hs1 Hs2) as [Hd _]. exact Hd.
  - apply list_elem_of_fmap. exists (mapped_vaddr r, mapped_size r, o). split; [done|].
    apply list_elem_of_fmap. exists e. rewrite HL. split; [|done]. by rewrite (export_range_of t e r o).
Qed.

Lemma wp_reexport_all f t v acc L s :
  linked f → at_ f t v s → L ≡ₚ acc → NoDup (export_idx <$> acc) → NoDup (new_handle <$> acc) →
  (∀ e, e ∈ acc → is_Some (g_ipc_exports t !! export_idx e) ∧ is_Some (cv_handles v !! new_handle e)) →
  wp (foldM (λ _ e, reexport e) tt L) (λ _ s', ∃ t' fds, at_ f t' (with_fds fds v) s' ∧
    reexported t (cv_fds v) L t' fds) s.
Proof.
  intros Hl Hat HL Hni Hnh He.
  apply (wp_foldM (λ pre _ s, ∃ t' fds, at_ f t' (with_fds fds v) s ∧ reexported t (cv_fds v) pre t' fds)).
  - exists t, (cv_fds v). split; [by destruct v|]. split; try done. intros e Hin. by apply elem_of_nil in Hin.
  - intros pre e post [] s1 Hsplit (t1 & fds & H1 & Hrx).
    destruct (He e) as [[r Hr] [n Hn]]; [rewrite <- HL, Hsplit; set_solver|].
    assert (Hnd : NoDup (export_idx <$> L)) by (by rewrite HL).
    assert (Hnd2 : NoDup (new_handle <$> L)) by (by rewrite HL).
    rewrite Hsplit, fmap_app in Hnd. rewrite Hsplit, fmap_app in Hnd2. apply NoDup_app in Hnd as (_ & Hnd & _).
    apply NoDup_app in Hnd2 as (_ & Hnd2 & _).
    eapply wp_mono.
    { eapply (reexport_one t (cv_fds v)); [done|exact H1|exact Hrx| | |exact Hr|exact Hn];
        intros Hin; [apply (Hnd _ Hin)|apply (Hnd2 _ Hin)]; set_solver. }
    intros ? s2 (t2 & fds2 & H2 & Hrx2). by exists t2, fds2.
Qed.


(** What the three phases of the rebuild make of the records; [L] is the order of phases B and C. *)
Section Rebuilt.
Context (es : list IpcExportRecord) (hb : Z) (dev : mem) (v0 : cview) (t : ipc_tables) (v : cview).
Context (acc L : list RebuildEntry) (d : mem) (m : gmap Z cmapping) (h : gmap Z Z).
Context (Hok : exports_ok es v0) (Hpk : parked_exports es hb dev t v).
Context (Hal : allocated t v (g_ipc_exports t) acc d m h) (HL : L ≡ₚ acc).
Abbreviation ranges := (in_copy hb <$> (export_range (g_ipc_exports t) <$> L)).

Lemma entry_loads buf_size e : sum_by mapped_size (filter saves es) ≤ buf_size → e ∈ acc →
  accessible (alloc_view d m h v) (export_range (g_ipc_exports t) e).1.1 (export_range (g_ipc_exports t) e).1.2 ∧
  wrap64 ((export_range (g_ipc_exports t) e).2 + (export_range (g_ipc_exports t) e).1.2) ≤ buf_size.
Proof.
  intros Hbuf He. destruct (entry_origin es hb dev v0 t v acc d m h e Hok Hpk Hal He)
    as (r & o1 & Hr & Hs & Hx & Hp & Ho1 & _ & Hm & _).
  rewrite (export_range_of t e r o1) by done. split.
  - exists (MkCMap (mapped_size r) (new_handle e) (merge_descs [] (replay_descs t (parked_record o1 r)))).
    split; [done|]. split; [done|]. simpl. apply merge_descs_not_nil. left. apply replay_descs_not_nil.
  - pose proof (with_offsets_bounds isize 0 _ _ _ (isize_nonneg es) Hx) as Hb. unfold isize in Hb.
    rewrite save_order_sum in Hb. pose proof (xo_total _ _ Hok). apply saves_size in Hs.
    simpl in *. rewrite wrap64_small by lia. lia.
Qed.

Lemma entry_exported e : e ∈ acc → is_Some (g_ipc_exports t !! export_idx e) ∧ is_Some (h !! new_handle e).
Proof.
  intros He. destruct (entry_origin es hb dev v0 t v acc d m h e Hok Hpk Hal He)
    as (r & o1 & _ & _ & _ & Hp & _ & _ & _ & Hh). rewrite Hp. split; [done|by exists (mapped_size r)].
Qed.

Lemma rebuilt_count : Z.of_nat (length acc) = Z.of_nat (length (filter saves es)).
Proof.
  rewrite <- (length_fmap export_idx acc), (al_idx _ _ _ _ _ _ _ Hal).
  rewrite (parked_indices es hb dev v0 t v Hok Hpk), length_fmap, <- (length_fmap snd). f_equal. f_equal.
  apply (saved_indexed 0).
Qed.

Lemma record_restored hd t' fds i r : hd.1 = cv_host v → reexported t (cv_fds v) L t' fds →
  es !! i = Some r → saves r →
  export_restored dev t t' (with_fds fds (with_mems (run_all hd ranges) [] (alloc_view d m h v))) i r.
Proof.
  intros Hhost Hrx Hi Hs.
  destruct (saved_entry es hb dev v0 t v acc d m h i r Hok Hpk Hal Hi Hs) as (e & He & <-).
  destruct (entry_origin es hb dev v0 t v acc d m h e Hok Hpk Hal He)
    as (r1 & o1 & Hr1 & _ & Hx & Hp & Ho1 & Hne & Hm & Hh). assert (r1 = r) as -> by congruence.
  destruct (rx_record _ _ _ _ _ Hrx e) as (p & fd & Hp' & Ht' & Hfd & Hop & Hca & Hva); [by rewrite HL|].
  rewrite Hp in Hp'. injection Hp' as <-.
  destruct (parked_record_spec o1 r Hs) as (_ & _ & Hsz & Hvaddr & _ & Hprop & _).
  rewrite Hsz, Hprop in Hca. rewrite Hvaddr in Hva. split.
  - by exists (new_handle e), fd, o1.
  - intros j Hj. by apply (loaded_bytes es hb dev v0 t v acc d m h _ hd e r o1 j).
Qed.

Lemma record_closed t' fds i r : reexported t (cv_fds v) L t' fds → es !! i = Some r → ¬ saves r →
  g_ipc_exports t' !! i = Some (closed r).
Proof.
  intros Hrx Hi Hs. rewrite (rx_other _ _ _ _ _ Hrx); [by apply (pk_other _ _ _ _ _ Hpk)|].
  rewrite HL. intros (e & -> & He)%list_elem_of_fmap.
  destruct (entry_origin es hb dev v0 t v acc d m h e Hok Hpk Hal He) as (r1 & o1 & Hr1 & Hs1 & _). congruence.
Qed.

Lemma maps_kept p : (∀ r, r ∈ es → saves r → p ≠ mapped_vaddr r) → m !! p = cv_maps v !! p.
Proof.
  intros Hp. apply (al_maps _ _ _ _ _ _ _ Hal). intros q [i Hi]%list_elem_of_lookup Hrb.
  destruct (parked_rebuilds es hb dev v0 t v Hok Hpk i q Hi Hrb) as (r & o1 & Hr & Hs & _ & ->).
  destruct (parked_record_spec o1 r Hs) as (_ & _ & _ & -> & _). apply Hp; [by eapply list_elem_of_lookup_2|done].
Qed.

Lemma outside_kept hst : outside_all es (cv_dev v) (run_all (hst, d) ranges).2.
Proof.
  intros adr Ha. rewrite run_in_frame.
  - simpl. apply (al_dev _ _ _ _ _ _ _ Hal). intros p [i Hi]%list_elem_of_lookup Hrb.
    destruct (parked_rebuilds es hb dev v0 t v Hok Hpk i p Hi Hrb) as (r & o1 & Hr & Hs & _ & ->).
    destruct (parked_record_spec o1 r Hs) as (_ & _ & Hsz & Hvaddr & _).
    unfold in_range. rewrite Hsz, Hvaddr. apply Ha; [by eapply list_elem_of_lookup_2|done].
  - by intros y (z & -> & _)%list_elem_of_fmap.
  - intros y (y' & -> & (e & -> & He)%list_elem_of_fmap)%list_elem_of_fmap. rewrite HL in He.
    destruct (entry_origin es hb dev v0 t v acc d m h e Hok Hpk Hal He) as (r & o1 & Hr & Hs & Hx & Hp & Ho1 & _).
    rewrite (export_range_of t e r o1) by done. apply Ha; [by eapply list_elem_of_lookup_2|done].
Qed.
End Rebuilt.

(** What the code does between a save and a rebuild leaves alone: the tables, the
    function pointers, the saved bytes and the addresses, which stay free. *)
Lemma rebuild_restores es hb buf_size dev v0 f t v s :
  at_ f t v s → linked f → exports_ok es v0 → parked_exports es hb dev t v →
  sum_by mapped_size (filter saves es) ≤ buf_size →
  wp (ipc_rebuild_and_restore_all_exports hb buf_size) (λ n s',
    n = Z.of_nat (length (filter saves es)) ∧
    ∃ g t' v', at_ g t' v' s' ∧ grows f g ∧
      (∀ i r, es !! i = Some r → saves r → export_restored dev t t' v' i r) ∧
      (∀ i r, es !! i = Some r → ¬ saves r → g_ipc_exports t' !! i = Some (closed r)) ∧
      outside_all es (cv_dev v) (cv_dev v') ∧
      (g_local_allocs t' = g_local_allocs t ∧ g_va_access_descs t' = g_va_access_descs t ∧
       g_ipc_imports t' = g_ipc_imports t) ∧
      (cv_host v' = cv_host v ∧ cv_queue v' = []) ∧
      (∀ p, (∀ r, r ∈ es → saves r → p ≠ mapped_vaddr r) → cv_maps v' !! p = cv_maps v !! p)) s.
Proof.
  intros Hat Hl Hok Hpk Hbuf. unfold ipc_rebuild_and_restore_all_exports.
  assert (Hq : cv_queue v = []) by apply Hpk.
  apply wp_bind. eapply wp_mono; [by apply resolve_helper_fns_grows|]. intros ? s1 (g & H1 & Hg).
  assert (Hl1 : linked g) by (by eapply grows_linked).
  apply wp_bind. eapply wp_mono with (P := λ _ s', at_ g t v s').
  { apply wp_if_has_yes; [|exact H1]. intros p Hp. rewrite (proj1 H1). apply linked_some; [done|].
    unfold core_ptrs. set_solver. }
  intros [] s2 H2. apply wp_if_has_yes.
  { intros p Hp. rewrite (proj1 H2). apply linked_some; [done|]. unfold core_ptrs. set_solver. }
  apply wp_bind, wp_get. rewrite (proj1 (proj2 H2)).
  apply wp_bind. eapply wp_mono; [apply (alloc_all g t v); try done; by eapply parked_rebuildable|].
  intros [acc o] s3 (d & m & h & H3 & Hal). simpl in Hal.
  apply wp_bind. eapply wp_mono; [by apply wp_pin|]. intros pinned s4 H4. cbv beta in H4.
  apply wp_bind. eapply wp_mono; [by apply wp_use_async|]. intros async s5 [H5 Has].
  apply wp_bind, wp_get. rewrite (proj1 (proj2 H5)). simpl.
  set (groups := group_by re_dev acc) in *.
  assert (HL : concat (snd <$> groups) ≡ₚ acc) by apply group_by_perm.
  set (va := alloc_view d m h v) in *.
  apply wp_bind. eapply wp_mono.
  { apply (load_groups g t va hb buf_size async (export_range (g_ipc_exports t)) groups (cv_host v, d));
      [done|done| |done|unfold va, alloc_view; destruct v; simpl in *; by subst].
    intros e He. rewrite HL in He. by eapply entry_loads. }
  intros ? s6 H6. cbv beta in H6. set (hd := run_all _ _) in H6.
  apply wp_bind. eapply wp_mono; [by apply wp_unpin|]. intros ? s7 H7. cbv beta in H7.
  apply wp_bind. eapply wp_mono.
  { apply (wp_reexport_all g t (with_mems hd [] va) acc); [done|done|done| |by eapply al_nodup|].
    - rewrite (al_idx _ _ _ _ _ _ _ Hal). apply (indexed_NoDup (λ ir, rebuilds ir.2) 0).
    - intros e He. by eapply entry_exported. }
  intros ? s8 (t' & fds & H8 & Hrx). apply wp_ret. split; [by eapply rebuilt_count|].
  eexists g, t', _. split; [exact H8|]. split; [done|]. split_and!.
  - intros i r Hi Hs. by apply (record_restored es hb dev v0 t v acc _ d m h Hok Hpk Hal HL (cv_host v, d)).
  - intros i r Hi Hs. by eapply (record_closed es hb dev v0 t v acc _ d m h Hok Hpk Hal HL).
  - by apply (outside_kept es hb dev v0 t v acc _ d m h Hok Hpk Hal HL).
  - apply (rx_local _ _ _ _ _ Hrx).
  - apply (rx_descs _ _ _ _ _ Hrx).
  - apply (rx_imports _ _ _ _ _ Hrx).
  - cbn. unfold hd. rewrite run_in_host; [done|]. by intros y (z & -> & _)%list_elem_of_fmap.
  - done.
  - intros p Hp. by apply (maps_kept es hb dev v0 t v acc d m h Hok Hpk Hal).
Qed.

End Roundtrip.
