(* ===== verification/LocalSave.v ===== *)
(** Saving and tearing down the local allocations.

    [ipc_save_and_teardown_local_allocs] copies the IPC-capable allocations that are not exported to the
    host buffer, one after the other in handle order, and parks them: mapping gone, handle released, the
    record in [g_local_allocs].  The rebuild ([LocalRebuild]) takes the offsets from the order of the records,
    which is the order of the data when the devices follow the handles. *)
From S2P Require Import Prelude Common Gpu Copies IpcState IpcDriver IpcHooks IpcExports IpcRules IpcSave.
Open Scope Z_scope.

Abbreviation local_rec := CuMemLocalAllocRecord.

(** The layout of the saved allocations, and the copies that produce it. *)
Definition local_layout (rs : list local_rec) : list (local_rec * Z) := with_offsets l_size 0 rs.
Definition local_out (hb : Z) (x : local_rec * Z) : xfer := MkXfer (hb + x.2) (l_vaddr x.1) (l_size x.1) DeviceToHost.

(** Allocations that share nothing and fit the address space together. *)
Record spread (rs : list local_rec) : Prop := {
  sp_pos : ∀ r, r ∈ rs → 0 < l_size r;
  sp_apart : ∀ i j ri rj, rs !! i = Some ri → rs !! j = Some rj → i ≠ j →
    disjoint_ranges (l_vaddr ri) (l_size ri) (l_vaddr rj) (l_size rj);
  sp_total : sum_by l_size rs < 2 ^ 64
}.

(** Mapped, accessible, each with a handle of its own. *)
Record locals_ok (rs : list local_rec) (v : cview) : Prop := {
  lo_spread : spread rs;
  lo_map : ∀ r, r ∈ rs → accessible v (l_vaddr r) (l_size r);
  lo_handle : ∀ r, r ∈ rs → is_Some (cv_handles v !! l_handle r);
  lo_handles : NoDup (l_handle <$> rs)
}.

(** Devices follow the handles. *)
Definition by_device (rs : list local_rec) : Prop :=
  StronglySorted (λ r r', location_id (l_prop r) ≤ location_id (l_prop r')) rs.

Definition in_local (r : local_rec) (a : Z) : Prop := l_vaddr r ≤ a < l_vaddr r + l_size r.
Definition outside_locals (rs : list local_rec) (d d' : mem) : Prop := ∀ a, (∀ r, r ∈ rs → ¬ in_local r a) → d' a = d a.

(** [rs] are parked in state [t], [v]: their bytes, which were [dev], are in the host buffer at [hb]. *)
Record parked_locals (rs : list local_rec) (hb : Z) (dev : mem) (t : ipc_tables) (v : cview) : Prop := {
  pl_records : g_local_allocs t = local_torn true <$> rs;
  pl_bytes : ∀ x j, x ∈ local_layout rs → 0 ≤ j < l_size x.1 → cv_host v (hb + x.2 + j) = dev (l_vaddr x.1 + j);
  pl_unmapped : ∀ r, r ∈ rs → cv_maps v !! l_vaddr r = None;
  pl_idle : cv_queue v = []
}.

Lemma local_layout_fst rs : fst <$> local_layout rs = rs.
Proof. apply with_offsets_fst. Qed.

Lemma spread_nonneg rs r : spread rs → r ∈ rs → 0 ≤ l_size r.
Proof. intros Hs Hr. pose proof (sp_pos _ Hs r Hr). lia. Qed.

Lemma spread_app rs1 rs2 : spread (rs1 ++ rs2) → 0 ≤ sum_by l_size rs1 ∧ 0 ≤ sum_by l_size rs2 ∧
  sum_by l_size rs1 + sum_by l_size rs2 < 2 ^ 64.
Proof.
  intros Hs. pose proof (sp_total _ Hs) as Ht. rewrite sum_by_app in Ht.
  split_and!; [apply sum_by_nonneg; intros; apply (spread_nonneg _ _ Hs); set_solver..|lia].
Qed.

(** An allocation is not among those before it. *)
Lemma spread_fresh pre r post r' : spread (pre ++ r :: post) → r' ∈ pre → l_vaddr r ≠ l_vaddr r'.
Proof.
  intros Hs Hin. pose proof Hin as [i Hi]%list_elem_of_lookup.
  assert (Hd : disjoint_ranges (l_vaddr r') (l_size r') (l_vaddr r) (l_size r)).
  { apply (sp_apart _ Hs i (length pre)); [by apply lookup_app_l_Some|by apply list_lookup_middle|].
    apply lookup_lt_Some in Hi. lia. }
  pose proof (sp_pos _ Hs r ltac:(set_solver)). pose proof (sp_pos _ Hs r' ltac:(set_solver)).
  unfold disjoint_ranges in Hd. lia.
Qed.

(** What the candidates are: their handles are different keys of the table. *)
Lemma local_candidates_elem t r : r ∈ local_candidates t →
  (∃ c, g_created_allocs t !! l_handle r = Some c ∧ l_size r = c_size c ∧ l_prop r = c_prop c) ∧
  g_handle_to_va t !! l_handle r = Some (l_vaddr r) ∧ l_vaddr r ∉ exported_vas t ∧ l_torn_down r = false.
Proof.
  intros ([k c] & Hk%elem_of_map_entries & Hr)%list_elem_of_omap. simpl in Hr.
  destruct (g_handle_to_va t !! k) as [va|] eqn:Hva; [|done]. case_bool_decide; [done|]. simplify_eq. simpl.
  by split; [exists c|].
Qed.

Lemma local_candidates_handles t : NoDup (l_handle <$> local_candidates t).
Proof.
  unfold local_candidates. generalize (NoDup_map_entries (g_created_allocs t)).
  induction (map_entries (g_created_allocs t)) as [|[k c] es IH]; [constructor|].
  cbn. intros [Hk Hnd]%NoDup_cons. specialize (IH Hnd). destruct (g_handle_to_va t !! k) as [va|] eqn:Hva; [|done].
  case_bool_decide; [done|]. cbn. constructor; [|done]. clear IH.
  intros (r & -> & ([k' c'] & Hin & Hr)%list_elem_of_omap)%list_elem_of_fmap. apply Hk.
  apply list_elem_of_fmap. exists (k', c'). split; [|done]. simpl in *.
  destruct (g_handle_to_va t !! k'); [|done]. case_bool_decide; [done|]. by simplify_eq.
Qed.

(** [collect_local] lays the records out, when they fit. *)
Lemma collect_local_eq buf_size rs : ∀ o, 0 ≤ o → (∀ r, r ∈ rs → 0 ≤ l_size r) → o + sum_by l_size rs < 2 ^ 64 →
  collect_local buf_size o rs =
  if bool_decide (o + sum_by l_size rs ≤ buf_size ∨ rs = []) then Some (with_offsets l_size o rs, o + sum_by l_size rs)
  else None.
Proof.
  induction rs as [|r rs IH]; intros o Ho Hs Hb; simpl in *.
  { rewrite bool_decide_eq_true_2 by auto. by rewrite Z.add_0_r. }
  pose proof (Hs r ltac:(set_solver)).
  pose proof (sum_by_nonneg l_size rs ltac:(intros; apply Hs; set_solver)). unfold sum_by in *.
  rewrite wrap64_small by lia. rewrite IH; [|lia|intros; apply Hs; set_solver|lia].
  destruct (bool_decide_reflect (buf_size < o + l_size r)).
  { rewrite bool_decide_eq_false_2; [done|]. intros [?|?]; [lia|done]. }
  rewrite Z.add_assoc. destruct (decide (rs = [])) as [->|Hne].
  - rewrite bool_decide_eq_true_2 by auto. simpl in *. rewrite bool_decide_eq_true_2 by lia. done.
  - destruct (decide (o + l_size r + foldr (λ x acc, l_size x + acc) 0 rs ≤ buf_size)).
    + by rewrite !bool_decide_eq_true_2 by auto.
    + by rewrite !bool_decide_eq_false_2 by (intros [?|?]; done).
Qed.

Lemma layout_sorted rs o : by_device rs → StronglySorted (λ x y, local_dev x ≤ local_dev y) (with_offsets l_size o rs).
Proof.
  intros Hs. revert o. induction Hs as [|r rs Hs IH Hr]; intros o; simpl; constructor; [apply IH|].
  apply Forall_forall. intros [y p] Hy%with_offsets_elem. rewrite Forall_forall in Hr. by apply Hr.
Qed.

Section Save.
Context {D : Type} {CD : CuDriver D} {CL : CuLaws D} {CR : CuReliable D} {PF : Platform}.
Implicit Types (s : ipc D).

Lemma local_at_spec i r Q s : g_local_allocs (tb s) !! i = Some r → Q r s → wp (local_at i) Q s.
Proof. intros Hr HQ. unfold local_at, wp. by rewrite Hr. Qed.

(** ** The copies *)

Section Copy.
Context (f : gmap string fnptr) (t0 : ipc_tables) (v0 : cview) (hb : Z) (xs : list (local_rec * Z)).
Context (Hl : linked f) (Hq : cv_queue v0 = []).
Context (Hacc : ∀ x, x ∈ xs → accessible v0 (l_vaddr x.1) (l_size x.1)).

Definition local_mems (pre : list (local_rec * Z)) : mem * mem := run_all (drained v0) (local_out hb <$> pre).

(** Between two devices nothing is pending. *)
Definition local_saved (pre : list (local_rec * Z)) s : Prop :=
  at_ f (set_local (fst <$> pre) t0) (with_mems (local_mems pre) [] v0) s.

Lemma local_mems_snoc pre x : local_mems (pre ++ [x]) = run_xfer (local_mems pre) (local_out hb x).
Proof. unfold local_mems. by rewrite fmap_app, foldl_app. Qed.

Lemma local_batch_async st t dg pre post s : xs = pre ++ dg ++ post →
  at_ f t (with_mems (local_mems pre) [] v0) s → is_Some (f !! "fn_cuMemcpyDtoHAsync"%string) →
  wp (foldM (λ _ x, _ ← call_real "fn_cuMemcpyDtoHAsync"
        (cuMemcpyDtoHAsync (hb + x.2) (l_vaddr x.1) (l_size x.1) st); mret tt) tt dg)
    (λ _ s', ∃ w, at_ f t w s' ∧ moved v0 (local_mems (pre ++ dg)) w) s.
Proof.
  intros Hxs Hat Hp.
  apply (wp_foldM (λ done_ _ s, ∃ w, at_ f t w s ∧ moved v0 (local_mems (pre ++ done_)) w)).
  - exists (with_mems (local_mems pre) [] v0). rewrite app_nil_r. split; [done|].
    unfold moved, drained. simpl. by rewrite <- surjective_pairing.
  - intros pre' x post' [] s1 Hdg (w & H1 & Hm). apply wp_bind.
    eapply wp_mono; [eapply wp_dtoh_async; [exact H1|exact Hm|apply Hacc; rewrite Hxs, Hdg; set_solver|done]|].
    intros r s2 (_ & w' & H2 & Hm2). apply wp_ret. exists w'. by rewrite app_assoc, local_mems_snoc.
Qed.

Lemma local_batch_sync t dg pre post s : xs = pre ++ dg ++ post → at_ f t (with_mems (local_mems pre) [] v0) s →
  wp (for_ret (λ _ x, res ← call_real "fn_cuMemcpyDtoH" (cuMemcpyDtoH (hb + x.2) (l_vaddr x.1) (l_size x.1));
                mret (if bool_decide (res ≠ CUDA_SUCCESS) then inr tt else inl tt)) tt dg)
    (λ r s', ∃ l, r = inl l ∧ at_ f t (with_mems (local_mems (pre ++ dg)) [] v0) s') s.
Proof.
  intros Hxs Hat. apply (wp_for_ret (λ done_ _ s, at_ f t (with_mems (local_mems (pre ++ done_)) [] v0) s)).
  - by rewrite app_nil_r.
  - intros pre' x post' [] s1 Hdg H1. apply wp_bind. eapply wp_mono.
    { eapply wp_dtoh; [exact H1|done|apply Hacc; rewrite Hxs, Hdg; set_solver|]. apply linked_some; [done|set_solver]. }
    intros r s2 [-> H2]. apply wp_ret. exists tt. split; [done|]. rewrite app_assoc, local_mems_snoc. revert H2.
    by destruct (local_mems (pre ++ pre')).
Qed.

Lemma save_local_device_spec pinned async pre dg post s : xs = pre ++ dg.2 ++ post → local_saved pre s →
  (async = true → ∀ p, p ∈ stream_ptrs "fn_cuMemcpyDtoHAsync" → is_Some (f !! p)) →
  wp (save_local_device hb pinned async tt dg) (λ r s', ∃ l, r = inl l ∧ local_saved (pre ++ dg.2) s') s.
Proof.
  intros Hxs Hs Has. unfold save_local_device. apply wp_bind.
  eapply wp_mono; [eapply wp_push_ctx; exact Hs|]. intros b s1 [H1 Hb]. apply wp_bind.
  eapply wp_mono with (P := λ r s', ∃ l : unit, r = inl l ∧
    at_ f (set_local (fst <$> pre) t0) (with_mems (local_mems (pre ++ dg.2)) [] v0) s').
  2: { intros r s2 (l & -> & H2). apply wp_bind. eapply wp_mono; [by apply wp_pop_ctx|]. intros ? s3 H3; cbv beta in H3.
       apply wp_bind. eapply wp_track_at; [exact H3|]. intros s4 H4. apply wp_ret. exists tt. split; [done|].
       unfold local_saved. rewrite fmap_app. exact H4. }
  destruct async; [|by eapply local_batch_sync].
  specialize (Has eq_refl). apply wp_bind.
  eapply wp_mono; [eapply wp_new_stream; [exact H1|apply Has; set_solver]|]. intros st s2 H2; cbv beta in H2.
  apply wp_bind. eapply wp_mono; [eapply local_batch_async; [exact Hxs|exact H2|apply Has; set_solver]|].
  intros ? s3 (w & H3 & Hm). apply wp_bind.
  eapply wp_mono; [eapply wp_sync_stream; [exact H3|apply Has; set_solver]|].
  intros ? s4 H4; cbv beta in H4. rewrite (moved_sync _ _ _ Hm) in H4. apply wp_bind.
  eapply wp_mono; [eapply wp_destroy_stream; [exact H4|apply Has; set_solver]|].
  intros ? s5 H5; cbv beta in H5. apply wp_ret. by exists tt.
Qed.

Lemma save_local_groups groups pinned async s : xs = concat (snd <$> groups) → local_saved [] s →
  (async = true → ∀ p, p ∈ stream_ptrs "fn_cuMemcpyDtoHAsync" → is_Some (f !! p)) →
  wp (for_ret (save_local_device hb pinned async) tt groups) (λ r s', ∃ l, r = inl l ∧ local_saved xs s') s.
Proof.
  intros Hxs Hs Has. rewrite Hxs.
  apply (wp_for_ret (λ gs _ s, local_saved (concat (snd <$> gs)) s)); [done|].
  intros pre dg post [] s' Hg Hin. eapply wp_mono; [eapply (save_local_device_spec _ _ _ _ (concat (snd <$> post)));
    [|exact Hin|exact Has]|].
  - by rewrite Hxs, Hg, fmap_app, concat_app.
  - intros r s2 (l & -> & H2). exists l. rewrite fmap_app, concat_app. simpl. by rewrite app_nil_r.
Qed.
End Copy.

(** ** The teardown *)

Definition torn_locals (d : mem) (pre : list local_rec) (v : cview) : cview :=
  with_dev d (with_maps (delete_all (l_vaddr <$> pre) (cv_maps v))
    (with_handles (delete_all (l_handle <$> pre) (cv_handles v)) v)).

Lemma tear_local_one f t v pre r post d n s : linked f → cv_queue v = [] → locals_ok (pre ++ r :: post) v →
  at_ f (set_local ((local_torn true <$> pre) ++ r :: post) t) (torn_locals d pre v) s → outside_locals pre (cv_dev v) d →
  wp (tear_local n (length pre)) (λ n' s', n' = n + 1 ∧ ∃ d',
    at_ f (set_local ((local_torn true <$> (pre ++ [r])) ++ post) t) (torn_locals d' (pre ++ [r]) v) s' ∧
    outside_locals (pre ++ [r]) (cv_dev v) d') s.
Proof.
  intros Hl Hq Hok Hat Hout. unfold tear_local. apply wp_bind. eapply local_at_spec.
  { rewrite (proj1 (proj2 Hat)). apply list_lookup_middle. by rewrite length_fmap. }
  destruct (lo_map _ _ Hok r ltac:(set_solver)) as (m & Hm & Hsz & _).
  pose proof (lo_handle _ _ Hok r ltac:(set_solver)) as Hh.
  pose proof (lo_handles _ _ Hok) as Hnd. rewrite fmap_app in Hnd. apply NoDup_app in Hnd as (_ & Hnd & _).
  apply wp_bind. eapply wp_mono.
  { eapply wp_try_unmap; [exact Hat|done|exact Hq| |exact Hsz]. simpl. rewrite delete_all_out; [done|].
    intros (r' & Heq & Hin)%list_elem_of_fmap. by apply (spread_fresh pre r post r' (lo_spread _ _ Hok)). }
  intros ? s1 (d1 & Hd1 & H1). apply wp_bind. eapply wp_mono.
  { eapply wp_real_release; [exact H1|done|]. simpl. rewrite delete_all_out; [done|].
    intros Hin. apply (Hnd _ Hin). set_solver. }
  intros ? s2 H2; cbv beta in H2. apply wp_bind. eapply wp_track_at; [exact H2|]. intros s3 H3. apply wp_ret.
  split; [done|]. exists d1. split.
  - unfold torn_locals. rewrite !fmap_app. simpl. rewrite !delete_all_snoc, <- app_assoc.
    rewrite <- (length_fmap (local_torn true) pre) in H3. simpl in H3. rewrite alter_middle in H3. exact H3.
  - intros adr Ha. rewrite Hd1 by (apply Ha; set_solver). apply Hout. intros r' Hr'. apply Ha. set_solver.
Qed.

Lemma tear_locals f t v s : linked f → cv_queue v = [] → locals_ok (g_local_allocs t) v → at_ f t v s →
  wp (foldM tear_local 0 (seq 0 (length (g_local_allocs t)))) (λ n s', n = Z.of_nat (length (g_local_allocs t)) ∧
    ∃ d, at_ f (set_local (local_torn true <$> g_local_allocs t) t) (torn_locals d (g_local_allocs t) v) s' ∧
      outside_locals (g_local_allocs t) (cv_dev v) d) s.
Proof.
  intros Hl Hq Hok Hat. set (rs := g_local_allocs t) in *.
  eapply wp_mono; [apply (wp_foldM_seq rs (λ pre n s, n = Z.of_nat (length pre) ∧ ∃ d,
    at_ f (set_local ((local_torn true <$> pre) ++ drop (length pre) rs) t) (torn_locals d pre v) s ∧
    outside_locals pre (cv_dev v) d))|].
  - split; [done|]. exists (cv_dev v). split; [|done]. unfold rs. simpl. by destruct t, v.
  - intros pre r post n s1 Hrs (-> & d & H1 & Ho). rewrite Hrs in H1, Hok. rewrite drop_app_length in H1.
    eapply wp_mono; [by eapply tear_local_one|]. intros n' s2 (-> & d' & H2 & Ho2). rewrite length_app.
    split; [simpl; lia|]. exists d'. split; [|done]. rewrite Hrs, (cons_middle r pre post), app_assoc, <- length_app, drop_app_length.
    exact H2.
  - intros n s1 (-> & d & H1 & Ho). split; [done|]. exists d. by rewrite drop_all, app_nil_r in H1.
Qed.

(** ** The whole operation *)

Definition copied_locals (hb : Z) (rs : list local_rec) (v : cview) : cview :=
  with_mems (run_all (drained v) (local_out hb <$> local_layout rs)) [] v.

Lemma wp_save_locals f t v hb buf_size s : let rs := local_candidates t in
  at_ f t v s → linked f → cv_queue v = [] → locals_ok rs v → by_device rs → sum_by l_size rs ≤ buf_size →
  wp (ipc_save_and_teardown_local_allocs hb buf_size) (λ n s', n = Z.of_nat (length rs) ∧ ∃ g d, grows f g ∧
    outside_locals rs (cv_dev v) d ∧
    at_ g (set_local (local_torn true <$> rs) t) (torn_locals d rs (copied_locals hb rs v)) s') s.
Proof.
  intros rs Hat Hl Hq Hok Hby Hbuf. pose proof (lo_spread _ _ Hok) as Hsp. unfold ipc_save_and_teardown_local_allocs.
  apply wp_bind. eapply wp_mono; [by apply resolve_helper_fns_grows|]. intros ? s1 (g1 & H1 & Hg1).
  apply wp_bind. eapply wp_mono.
  { apply (resolve_grows RTLD_DEFAULT ("real_cuMemUnmap", "cuMemUnmap")%string); [done|exact H1]. }
  intros ? s2 (g & H2 & Hg2). assert (Hgr : grows f g) by (by eapply grows_trans).
  assert (Hlg : linked g) by (by eapply grows_linked).
  apply wp_if_has_yes. { intros p Hp. rewrite (proj1 H2). apply linked_some; [done|set_solver]. }
  apply wp_bind. eapply wp_track_at; [exact H2|]. intros s3 H3. apply wp_bind, wp_get. rewrite (proj1 (proj2 H3)).
  change (local_candidates (set_local [] t)) with rs.
  rewrite collect_local_eq; [|lia|intros; by apply (spread_nonneg rs)|simpl; apply Hsp].
  rewrite bool_decide_eq_true_2 by (left; lia). fold (local_layout rs).
  apply wp_bind. eapply wp_mono; [by apply wp_pin|]. intros pinned s4 H4; cbv beta in H4.
  apply wp_bind. eapply wp_mono; [by apply wp_use_async|]. intros async s5 [H5 Has].
  apply wp_bind. eapply wp_mono.
  { apply (save_local_groups g (set_local [] t) v hb (local_layout rs) Hlg); [done| |symmetry; by apply group_by_sorted, layout_sorted| |exact Has].
    - intros [x o] Hx%with_offsets_elem. by apply (lo_map _ _ Hok).
    - unfold local_saved, local_mems, drained. simpl. rewrite Hq. simpl. destruct v. simpl in *. by subst. }
  intros r s6 (l & -> & H6). unfold local_saved in H6.
  apply wp_bind. eapply wp_mono; [by apply wp_unpin|]. intros ? s7 H7; cbv beta in H7.
  apply wp_bind, wp_get. rewrite (proj1 (proj2 H7)).
  change (set_local _ (set_local [] t)) with (set_local (fst <$> local_layout rs) t) in *.
  rewrite local_layout_fst in *.
  eapply wp_mono; [apply (tear_locals g (set_local rs t) (copied_locals hb rs v)); [done|done| |exact H7]|].
  { destruct Hok as [? ? ? ?]. by split. }
  intros n s8 (-> & d & H8 & Ho). split; [done|]. exists g, d. split; [done|]. split; [|exact H8].
  intros adr Ha. rewrite (Ho adr Ha). simpl. rewrite run_out_dev; [|by intros y (z & -> & _)%list_elem_of_fmap].
  unfold drained. by rewrite Hq.
Qed.

Lemma local_out_at hb rs hd x j : spread rs → x ∈ local_layout rs → 0 ≤ j < l_size x.1 →
  (run_all hd (local_out hb <$> local_layout rs)).1 (hb + x.2 + j) = hd.2 (l_vaddr x.1 + j).
Proof.
  intros Hsp Hx Hj. apply (run_out_at _ hd (local_out hb x) j); [| | |done].
  - by intros y (z & -> & _)%list_elem_of_fmap.
  - intros y z ([y' p] & -> & Hy)%list_elem_of_fmap ([z' q] & -> & Hz)%list_elem_of_fmap.
    destruct (with_offsets_apart l_size 0 _ y' p z' q (λ r, spread_nonneg rs r Hsp) Hy Hz) as [Heq|Hd].
    + left. by rewrite Heq.
    + right. unfold disjoint_ranges in *. simpl. lia.
  - apply list_elem_of_fmap. by exists x.
Qed.

(** After a save the allocations are parked. *)
Lemma local_parks f t v hb buf_size s : let rs := local_candidates t in
  at_ f t v s → linked f → cv_queue v = [] → locals_ok rs v → by_device rs → sum_by l_size rs ≤ buf_size →
  wp (ipc_save_and_teardown_local_allocs hb buf_size) (λ n s', n = Z.of_nat (length rs) ∧ ∃ g v', grows f g ∧
    at_ g (set_local (local_torn true <$> rs) t) v' s' ∧
    parked_locals rs hb (cv_dev v) (set_local (local_torn true <$> rs) t) v' ∧
    outside_locals rs (cv_dev v) (cv_dev v') ∧
    (∀ r, r ∈ rs → cv_handles v' !! l_handle r = None) ∧
    (∀ a, ¬ (hb ≤ a < hb + sum_by l_size rs) → cv_host v' a = cv_host v a) ∧
    (∀ p, cv_maps v !! p = None → cv_maps v' !! p = None)) s.
Proof.
  intros rs Hat Hl Hq Hok Hby Hbuf. eapply wp_mono; [by apply wp_save_locals|]. cbv beta zeta. fold rs.
  intros n s' (-> & g & d & Hg & Ho & H'). split; [done|]. eexists g, _. split; [done|]. split; [exact H'|].
  split; [|split; [exact Ho|split; [|split]]].
  - split; cbn; [done| |intros r Hr; apply delete_all_in, list_elem_of_fmap; by exists r|done].
    intros x j Hx Hj. rewrite local_out_at by (done || apply Hok). unfold drained. by rewrite Hq.
  - intros r Hr. cbn. apply delete_all_in, list_elem_of_fmap. by exists r.
  - intros adr Ha. cbn. rewrite run_out_frame; [unfold drained; by rewrite Hq| |].
    + by intros y (z & -> & _)%list_elem_of_fmap.
    + intros y ([r o] & -> & Hx)%list_elem_of_fmap.
      pose proof (with_offsets_bounds l_size 0 _ _ _ (λ r, spread_nonneg rs r (lo_spread _ _ Hok)) Hx). simpl in *. lia.
  - intros p Hp. cbn. destruct (decide (p ∈ (l_vaddr <$> rs))) as [Hin|Hout].
    + by apply delete_all_in.
    + by rewrite delete_all_out.
Qed.
End Save.
