(* ===== verification/LocalRebuild.v ===== *)
(** Rebuilding the local allocations.

    From a state in which the allocations are parked ([LocalSave]), [ipc_rebuild_local_allocs] creates each one
    again at its address, replays its access descriptors, loads its bytes from where the order of the records
    says they are, and moves the tracking to the new handle. *)
From S2P Require Import Prelude Common Gpu Copies IpcState IpcDriver IpcHooks IpcExports IpcRules IpcSave IpcRebuild LocalSave.
Open Scope Z_scope.

(** The descriptors [replay_local] applies. *)
Definition local_descs (t : ipc_tables) (r : local_rec) : list access_desc :=
  let ds := default [] (g_va_access_descs t !! l_vaddr r) in
  match ds with
  | [] => [MkDesc CU_MEM_LOCATION_TYPE_DEVICE (location_id (l_prop r)) CU_MEM_ACCESS_FLAGS_PROT_READWRITE]
  | _ => ds
  end.

Lemma local_descs_not_nil t r : local_descs t r ≠ [].
Proof. unfold local_descs. by destruct (default _ _). Qed.

(** The mapping a rebuilt allocation has. *)
Definition local_mapping (t : ipc_tables) (h : Z) (r : local_rec) : cmapping :=
  MkCMap (l_size r) h (merge_descs [] (local_descs t r)).

Section Rebuild.
Context {D : Type} {CD : CuDriver D} {CL : CuLaws D} {CR : CuReliable D} {PF : Platform}.
Implicit Types (s : ipc D).

(** ** Phase A *)

(** The entries for the records [pre]: where the data is, and the mappings and handles they have. *)
Record reallocated (t : ipc_tables) (v : cview) (pre : list local_rec) (acc : list RebuildEntry * Z)
    (d : mem) (m : gmap Z cmapping) (h : gmap Z Z) : Prop := {
  ra_end : acc.2 = sum_by l_size pre;
  ra_idx : export_idx <$> acc.1 = seq 0 (length pre);
  ra_entry : ∀ e, e ∈ acc.1 → ∃ r, local_layout pre !! export_idx e = Some (r, data_offset e) ∧
    new_handle e ≠ 0 ∧ cv_handles v !! new_handle e = None ∧
    m !! l_vaddr r = Some (local_mapping t (new_handle e) r) ∧ h !! new_handle e = Some (l_size r);
  ra_handles : NoDup (new_handle <$> acc.1);
  ra_maps : ∀ p, (∀ r, r ∈ pre → p ≠ l_vaddr r) → m !! p = cv_maps v !! p;
  ra_grow : cv_handles v ⊆ h;
  ra_dev : outside_locals pre (cv_dev v) d
}.

Lemma local_layout_lookup rs i r o : local_layout rs !! i = Some (r, o) → rs !! i = Some r ∧ (r, o) ∈ local_layout rs.
Proof.
  intros Hi. split; [|by eapply list_elem_of_lookup_2].
  by rewrite <- (local_layout_fst rs), list_lookup_fmap, Hi.
Qed.

Lemma local_layout_snoc pre r : local_layout (pre ++ [r]) = local_layout pre ++ [(r, sum_by l_size pre)].
Proof. unfold local_layout. by rewrite with_offsets_app. Qed.

Lemma reallocated_step t v pre r acc o d m h d' hn dev : reallocated t v pre (acc, o) d m h →
  (∀ r', r' ∈ pre → l_vaddr r ≠ l_vaddr r') → h !! hn = None → hn ≠ 0 →
  dev_outside (l_vaddr r) (l_size r) d d' → wrap64 (o + l_size r) = o + l_size r →
  reallocated t v (pre ++ [r]) (acc ++ [MkRebuild (length pre) hn o dev], wrap64 (o + l_size r)) d'
    (<[l_vaddr r := local_mapping t hn r]> m) (<[hn := l_size r]> h).
Proof.
  intros [He Hi Hen Hnd Hm Hg Hd] Hfresh Hh Hhn Hd' Hw. simpl in *. subst o. split; simpl.
  - rewrite Hw, sum_by_app. simpl. lia.
  - by rewrite fmap_app, Hi, length_app, seq_app.
  - intros e [Hin|Hin%list_elem_of_singleton]%elem_of_app.
    + destruct (Hen e Hin) as (r' & Ho & Hne & Hfr & Hmp & Hhd). exists r'.
      pose proof (list_elem_of_lookup_2 _ _ _ (proj1 (local_layout_lookup _ _ _ _ Ho))). rewrite local_layout_snoc.
      split; [by apply lookup_app_l_Some|]. split; [done|].
      rewrite !lookup_insert_ne; [done|congruence|by apply Hfresh].
    + subst e. exists r. simpl. rewrite local_layout_snoc, !lookup_insert_eq by done.
      rewrite list_lookup_middle by (by rewrite <- (length_fmap fst), local_layout_fst).
      split; [done|]. split; [done|]. split; [by eapply lookup_weaken_None|done].
  - rewrite fmap_app. apply NoDup_app. split; [done|]. split; [|apply NoDup_singleton].
    intros k (e & -> & (r' & _ & _ & _ & _ & Hhd)%Hen)%list_elem_of_fmap Heq%list_elem_of_singleton. simpl in Heq. congruence.
  - intros p Hp. rewrite lookup_insert_ne by (intros <-; apply (Hp r); set_solver). apply Hm. set_solver.
  - etrans; [exact Hg|]. by apply insert_subseteq.
  - intros adr Ha. rewrite Hd' by (apply Ha; set_solver). apply Hd. set_solver.
Qed.

Lemma wp_replay_local r f t v h s : linked f → at_ f t (with_maps (<[l_vaddr r := MkCMap (l_size r) h []]> (cv_maps v)) v) s →
  wp (replay_local r) (λ _ s', at_ f t (with_maps (<[l_vaddr r := local_mapping t h r]> (cv_maps v)) v) s') s.
Proof.
  intros Hl Hat. unfold replay_local. apply wp_if_has_yes.
  { intros p ->%list_elem_of_singleton. rewrite (proj1 Hat). apply linked_some; [done|set_solver]. }
  apply wp_bind, wp_get. rewrite (proj1 (proj2 Hat)). fold (local_descs t r). by apply wp_replay.
Qed.

Lemma alloc_local_one f t v pre r post acc o d m h s : linked f → cv_queue v = [] →
  spread (pre ++ r :: post) → l_torn_down r = true → cv_maps v !! l_vaddr r = None →
  g_local_allocs t !! length pre = Some r → at_ f t (alloc_view d m h v) s → reallocated t v pre (acc, o) d m h →
  wp (alloc_local (acc, o) (length pre)) (λ acc' s', ∃ d' m' h',
    at_ f t (alloc_view d' m' h' v) s' ∧ reallocated t v (pre ++ [r]) acc' d' m' h') s.
Proof.
  intros Hl Hq Hsp Htd Hfree Hr Hat Hal. unfold alloc_local. apply wp_bind. eapply local_at_spec.
  { rewrite (proj1 (proj2 Hat)). exact Hr. }
  rewrite Htd. cbn [negb]. apply wp_bind. eapply wp_mono; [by eapply wp_real_create|].
  intros [e hn] s1 (He & Hhn & Hfr & H1). simpl in He, Hhn, Hfr, H1. subst e.
  rewrite bool_decide_eq_false_2 by (intros Hx; by apply Hx).
  assert (Hfresh : ∀ r', r' ∈ pre → l_vaddr r ≠ l_vaddr r') by (intros r'; by apply (spread_fresh pre r post)).
  apply wp_bind. eapply wp_mono.
  { eapply wp_real_map; [exact H1|done|done| |apply lookup_insert_eq]. simpl. by rewrite (ra_maps _ _ _ _ _ _ _ Hal). }
  intros res s2 (-> & d' & Hd' & H2). rewrite bool_decide_eq_false_2 by (intros Hx; by apply Hx).
  apply wp_bind. eapply wp_mono.
  { apply (wp_replay_local r f t (alloc_view d' m (<[hn := l_size r]> h) v) hn); [done|exact H2]. }
  intros ? s3 H3; cbv beta in H3. apply wp_ret. eexists _, _, _. split; [exact H3|].
  apply (reallocated_step t v pre r acc o d); try done.
  destruct (spread_app _ _ Hsp) as (H0 & _ & _). change (pre ++ r :: post) with (pre ++ [r] ++ post) in Hsp.
  rewrite app_assoc in Hsp. destruct (spread_app _ _ Hsp) as (H4 & H5 & H6). rewrite sum_by_app in H4, H6. simpl in H4, H6.
  pose proof (sp_pos _ Hsp r ltac:(set_solver)). pose proof (ra_end _ _ _ _ _ _ _ Hal). simpl in *. rewrite wrap64_small; lia.
Qed.

Lemma alloc_locals f t v s : let ts := g_local_allocs t in
  linked f → cv_queue v = [] → spread ts → (∀ r, r ∈ ts → l_torn_down r = true ∧ cv_maps v !! l_vaddr r = None) →
  at_ f t v s →
  wp (foldM alloc_local ([], 0) (seq 0 (length ts))) (λ acc s', ∃ d m h,
    at_ f t (alloc_view d m h v) s' ∧ reallocated t v ts acc d m h) s.
Proof.
  intros ts Hl Hq Hsp Hts Hat. apply (wp_foldM_seq ts (λ pre acc s, ∃ d m h,
    at_ f t (alloc_view d m h v) s ∧ reallocated t v pre acc d m h)).
  - exists (cv_dev v), (cv_maps v), (cv_handles v). split; [by destruct v|].
    split; try done; [|constructor]. intros e He. by apply elem_of_nil in He.
  - intros pre r post [acc o] s1 Hsplit (d & m & h & H1 & Hal). destruct (Hts r) as [Htd Hfree]; [rewrite Hsplit; set_solver|].
    rewrite Hsplit in Hsp. apply (alloc_local_one f t v pre r post acc o d m h s1); try done.
    fold ts. rewrite Hsplit. by apply list_lookup_middle.
Qed.

(** ** Phases B and C *)

Definition relocated (h : Z) (r : local_rec) : local_rec := MkLocal h (l_vaddr r) (l_size r) (l_prop r) false.

(** After the entries [es]: their records are live with the new handle, which is tracked unless it is the value of
    a handle from before; the rest is as it was. *)
Record retracked (t0 : ipc_tables) (es : list RebuildEntry) (t : ipc_tables) : Prop := {
  rk_record : ∀ e, e ∈ es → ∃ r, g_local_allocs t0 !! export_idx e = Some r ∧
    g_local_allocs t !! export_idx e = Some (relocated (new_handle e) r) ∧
    (new_handle e ∉ (l_handle <$> g_local_allocs t0) →
     g_created_allocs t !! new_handle e = Some (MkCreate (l_size r) (l_prop r)) ∧
     g_handle_to_va t !! new_handle e = Some (l_vaddr r));
  rk_other : ∀ i, i ∉ (export_idx <$> es) → g_local_allocs t !! i = g_local_allocs t0 !! i;
  rk_rest : ∃ ca va la, t = set_handle_va va (set_created ca (set_local la t0)) ∧
    (∀ k, k ∉ (l_handle <$> g_local_allocs t0) → k ∉ (new_handle <$> es) →
       ca !! k = g_created_allocs t0 !! k ∧ va !! k = g_handle_to_va t0 !! k)
}.

Lemma retracked_range t0 es t e : retracked t0 es t → local_range (g_local_allocs t) e = local_range (g_local_allocs t0) e.
Proof.
  intros Hr. unfold local_range. destruct (decide (export_idx e ∈ (export_idx <$> es))) as [Hin|Hout].
  - apply list_elem_of_fmap in Hin as (e' & Heq & He). destruct (rk_record _ _ _ Hr e' He) as (r & H1 & H2 & _).
    by rewrite Heq, H1, H2.
  - by rewrite (rk_other _ _ _ Hr _ Hout).
Qed.

Lemma retrack_one t0 f es e t v r s : at_ f t v s → retracked t0 es t →
  export_idx e ∉ (export_idx <$> es) → new_handle e ∉ (new_handle <$> es) →
  g_local_allocs t0 !! export_idx e = Some r →
  wp (retrack_local e) (λ _ s', ∃ t', at_ f t' v s' ∧ retracked t0 (es ++ [e]) t') s.
Proof.
  intros Hat [Hrec Hoth (ca & va & la & Ht & Hk)] Hidx Hnh Hr.
  assert (Hcur : g_local_allocs t !! export_idx e = Some r) by (by rewrite Hoth).
  unfold retrack_local. apply wp_bind. eapply local_at_spec; [rewrite (proj1 (proj2 Hat)); exact Hcur|].
  apply wp_bind. eapply wp_track_at; [exact Hat|]. intros s2 H2. eapply wp_track_at; [exact H2|]. intros s3 H3.
  eexists. split; [exact H3|]. clear H2 H3 Hat s s2 s3.
  pose proof (list_elem_of_fmap_2 l_handle _ _ (list_elem_of_lookup_2 _ _ _ Hr)) as Hold. split; cbn [g_local_allocs g_created_allocs g_handle_to_va set_local set_handle_va set_created].
  - intros e' [Hin|Heq]%elem_of_app.
    + destruct (Hrec e' Hin) as (r' & Hr' & Hc' & Htr). exists r'.
      assert (export_idx e' ≠ export_idx e) by (intros Heq; apply Hidx; rewrite <- Heq; by apply list_elem_of_fmap_2).
      assert (new_handle e' ≠ new_handle e) by (intros Heq; apply Hnh; rewrite <- Heq; by apply list_elem_of_fmap_2).
      rewrite list_lookup_alter_ne by done. split; [done|]. split; [done|]. intros Hn. destruct (Htr Hn) as [H1 H2].
      assert (l_handle r ≠ new_handle e') by (intros Heq; apply Hn; by rewrite <- Heq).
      by rewrite !lookup_delete_ne, !lookup_insert_ne by done.
    + apply list_elem_of_singleton in Heq as ->. exists r. rewrite list_lookup_alter_eq, Hcur. split; [done|]. split; [done|].
      intros Hn. assert (l_handle r ≠ new_handle e) by (intros Heq; apply Hn; by rewrite <- Heq).
      by rewrite !lookup_delete_ne, !lookup_insert_eq by done.
  - intros i Hi. rewrite fmap_app in Hi. rewrite list_lookup_alter_ne by set_solver. apply Hoth. set_solver.
  - subst t. exists (delete (l_handle r) (<[new_handle e := MkCreate (l_size r) (l_prop r)]> ca)).
    exists (delete (l_handle r) (<[new_handle e := l_vaddr r]> va)), (alter (relocated (new_handle e)) (export_idx e) la).
    split; [done|]. intros k Hko Hkn. rewrite fmap_app in Hkn.
    rewrite !lookup_delete_ne by (intros <-; done). rewrite !lookup_insert_ne by set_solver. apply Hk; set_solver.
Qed.

Lemma retrack_all t0 f dg es t v s : at_ f t v s → retracked t0 es t → NoDup (export_idx <$> es ++ dg) →
  NoDup (new_handle <$> es ++ dg) → (∀ e, e ∈ dg → is_Some (g_local_allocs t0 !! export_idx e)) →
  wp (foldM (λ _ e, retrack_local e) tt dg) (λ _ s', ∃ t', at_ f t' v s' ∧ retracked t0 (es ++ dg) t') s.
Proof.
  intros Hat Hrt Hi Hh Hs. apply (wp_foldM (λ pre _ s, ∃ t', at_ f t' v s ∧ retracked t0 (es ++ pre) t')).
  - exists t. by rewrite app_nil_r.
  - intros pre e post [] s1 Hdg (t1 & H1 & Hr1). destruct (Hs e) as [r Hr]; [rewrite Hdg; set_solver|].
    rewrite Hdg, app_assoc, fmap_app in Hi. rewrite Hdg, app_assoc, fmap_app in Hh. apply NoDup_app in Hi as (_ & Hi & _). apply NoDup_app in Hh as (_ & Hh & _).
    eapply wp_mono; [eapply (retrack_one t0 f (es ++ pre)); [exact H1|exact Hr1| | |exact Hr]|].
    + intros Hin. apply (Hi _ Hin). set_solver.
    + intros Hin. apply (Hh _ Hin). set_solver.
    + intros ? s2 (t2 & H2 & Hr2). exists t2. by rewrite app_assoc.
Qed.

Lemma rebuild_groups f t v hb buf_size async (groups : list (Z * list RebuildEntry)) hd s :
  let es := concat (snd <$> groups) in let range := local_range (g_local_allocs t) in
  linked f → cv_queue v = [] → NoDup (export_idx <$> es) → NoDup (new_handle <$> es) →
  (∀ e, e ∈ es → is_Some (g_local_allocs t !! export_idx e) ∧ accessible v (range e).1.1 (range e).1.2 ∧
        wrap64 ((range e).2 + (range e).1.2) ≤ buf_size) →
  (async = true → ∀ p, p ∈ stream_ptrs "fn_cuMemcpyHtoDAsync" → is_Some (f !! p)) →
  at_ f t (with_mems hd [] v) s →
  wp (foldM (λ _ dg, rebuild_local_device hb buf_size async dg) tt groups) (λ _ s', ∃ t',
    at_ f t' (with_mems (run_all hd (in_copy hb <$> (range <$> es))) [] v) s' ∧ retracked t es t') s.
Proof.
  intros es range Hl Hq Hi Hh Hx Has Hat. apply (wp_foldM (λ pre _ s, ∃ t',
    at_ f t' (with_mems (run_all hd (in_copy hb <$> (range <$> concat (snd <$> pre)))) [] v) s ∧
    retracked t (concat (snd <$> pre)) t')).
  - exists t. split; [exact Hat|]. split; [by intros ? ?%elem_of_nil|done|]. exists (g_created_allocs t), (g_handle_to_va t), (g_local_allocs t).
    split; [by destruct t|done].
  - intros pre dg post [] s1 Hg (t1 & H1 & Hr1). unfold rebuild_local_device. apply wp_bind, wp_get.
    rewrite (proj1 (proj2 H1)).
    assert (Hes : es = concat (snd <$> pre) ++ dg.2 ++ concat (snd <$> post)).
    { unfold es. by rewrite Hg, fmap_app, concat_app. }
    assert (Hrg : local_range (g_local_allocs t1) <$> dg.2 = range <$> dg.2).
    { apply list_fmap_ext. intros k e _. by eapply retracked_range. }
    rewrite Hrg. apply wp_bind. eapply wp_mono.
    { eapply load_device_spec; [done|exact Hq| |exact Has|exact H1].
      intros x (e & -> & He)%list_elem_of_fmap. apply Hx. rewrite Hes. set_solver. }
    intros ? s2 H2; cbv beta in H2. rewrite <- foldl_app, <- fmap_app, <- fmap_app in H2.
    rewrite fmap_app, concat_app. simpl. rewrite app_nil_r. rewrite Hes, app_assoc, fmap_app in Hi. rewrite Hes, app_assoc, fmap_app in Hh.
    eapply wp_mono; [eapply retrack_all; [exact H2|exact Hr1|by apply NoDup_app in Hi as [? _]|by apply NoDup_app in Hh as [? _]|]|].
    + intros e He. apply Hx. rewrite Hes. set_solver.
    + intros ? s3 (t3 & H3 & Hr3). by exists t3.
Qed.

(** ** From a parked state *)

(** Allocation [i] of [rs] once it is back: live with a new handle that owns memory mapped at the old address with
    the tracked access, the bytes those of [dev], and the handle tracked unless it has the value of a released one. *)
Record local_restored (rs : list local_rec) (dev : mem) (t0 t : ipc_tables) (v : cview) (i : nat) (r : local_rec)
    : Prop := {
  lr_record : ∃ h, g_local_allocs t !! i = Some (relocated h r) ∧ h ≠ 0 ∧ cv_handles v !! h = Some (l_size r) ∧
    cv_maps v !! l_vaddr r = Some (local_mapping t0 h r) ∧
    (h ∉ (l_handle <$> rs) →
     g_created_allocs t !! h = Some (MkCreate (l_size r) (l_prop r)) ∧ g_handle_to_va t !! h = Some (l_vaddr r));
  lr_bytes : ∀ j, 0 ≤ j < l_size r → cv_dev v (l_vaddr r + j) = dev (l_vaddr r + j)
}.

Lemma handles_torn (rs : list local_rec) : l_handle <$> (local_torn true <$> rs) = l_handle <$> rs.
Proof. by rewrite <- list_fmap_compose. Qed.

Lemma layout_torn rs o : with_offsets l_size o (local_torn true <$> rs) =
  (λ x, (local_torn true x.1, x.2)) <$> with_offsets l_size o rs.
Proof. revert o. induction rs as [|r rs IH]; intros o; [done|]. cbn. f_equal. apply IH. Qed.

Lemma sum_torn rs : sum_by l_size (local_torn true <$> rs) = sum_by l_size rs.
Proof. induction rs as [|r rs IH]; [done|]. cbn. f_equal. exact IH. Qed.

Lemma spread_torn rs : spread rs → spread (local_torn true <$> rs).
Proof.
  intros [Hp Ha Ht]. split.
  - intros ? (r & -> & Hr)%list_elem_of_fmap. exact (Hp r Hr).
  - intros i j ri rj. rewrite !list_lookup_fmap.
    intros (r & Hr & ->)%fmap_Some (r' & Hr' & ->)%fmap_Some. exact (Ha i j r r' Hr Hr').
  - by rewrite sum_torn.
Qed.

Section Parked.
Context (rs : list local_rec) (hb : Z) (dev : mem) (t : ipc_tables) (v : cview) (Hsp : spread rs).
Context (Hpk : parked_locals rs hb dev t v) (acc : list RebuildEntry * Z) (d : mem) (m : gmap Z cmapping) (h : gmap Z Z).
Context (Hal : reallocated t v (g_local_allocs t) acc d m h).
Abbreviation range := (local_range (g_local_allocs t)).

(** The entry of a record, seen from the allocation that was saved. *)
Lemma local_entry e : e ∈ acc.1 → ∃ r, local_layout rs !! export_idx e = Some (r, data_offset e) ∧
  rs !! export_idx e = Some r ∧ g_local_allocs t !! export_idx e = Some (local_torn true r) ∧
  range e = (l_vaddr r, l_size r, data_offset e) ∧
  new_handle e ≠ 0 ∧ m !! l_vaddr r = Some (local_mapping t (new_handle e) r) ∧ h !! new_handle e = Some (l_size r).
Proof.
  intros He. destruct (ra_entry _ _ _ _ _ _ _ Hal e He) as (p & Hx & Hne & _ & Hm & Hh).
  pose proof (pl_records _ _ _ _ _ Hpk) as Hrec. destruct (local_layout_lookup _ _ _ _ Hx) as [Hp _].
  rewrite Hrec in Hx. unfold local_layout in Hx. rewrite layout_torn, list_lookup_fmap in Hx.
  apply fmap_Some in Hx as ([r o] & Hx & [= -> <-]). destruct (local_layout_lookup _ _ _ _ Hx) as [Hr _].
  exists r. split_and!; try done. unfold local_range. by rewrite Hp.
Qed.

Lemma local_loads buf_size e : sum_by l_size rs ≤ buf_size → e ∈ acc.1 → is_Some (g_local_allocs t !! export_idx e) ∧
  accessible (alloc_view d m h v) (range e).1.1 (range e).1.2 ∧ wrap64 ((range e).2 + (range e).1.2) ≤ buf_size.
Proof.
  intros Hbuf He. destruct (local_entry e He) as (r & [_ Hx]%local_layout_lookup & Hr & Hp & -> & _ & Hm & _). split; [by eexists|]. split.
  - eexists. split; [exact Hm|]. split; [done|]. simpl. apply merge_descs_not_nil. left. apply local_descs_not_nil.
  - pose proof (with_offsets_bounds l_size 0 _ _ _ (λ r, spread_nonneg rs r Hsp) Hx) as Hb.
    pose proof (sp_total _ Hsp). pose proof (sp_pos _ Hsp r (list_elem_of_lookup_2 _ _ _ Hr)).
    simpl in *. rewrite wrap64_small by lia. lia.
Qed.

Context (L : list RebuildEntry) (HL : L ≡ₚ acc.1).

Lemma local_loaded hd e r j : hd.1 = cv_host v → e ∈ acc.1 → rs !! export_idx e = Some r → 0 ≤ j < l_size r →
  (run_all hd (in_copy hb <$> (range <$> L))).2 (l_vaddr r + j) = dev (l_vaddr r + j).
Proof.
  intros Hhost He Hi Hj. destruct (local_entry e He) as (r' & [_ Hx]%local_layout_lookup & Hr & Hp & Hrg & _). assert (r' = r) as -> by congruence.
  pose proof (pl_bytes _ _ _ _ _ Hpk (r, data_offset e) j Hx Hj) as Hb. simpl in Hb. rewrite <- Hb, <- Hhost.
  apply (run_in_at _ hd (in_copy hb (l_vaddr r, l_size r, data_offset e)) j); [| | |done].
  - by intros y (z & -> & _)%list_elem_of_fmap.
  - intros y z (y' & -> & (e1 & -> & H1)%list_elem_of_fmap)%list_elem_of_fmap
               (z' & -> & (e2 & -> & H2)%list_elem_of_fmap)%list_elem_of_fmap.
    rewrite HL in H1, H2. destruct (local_entry e1 H1) as (r1 & Hx1 & Hr1 & _ & -> & _).
    destruct (local_entry e2 H2) as (r2 & Hx2 & Hr2 & _ & -> & _).
    destruct (decide (export_idx e1 = export_idx e2)) as [Heq|Hne].
    + left. rewrite Heq in Hx1. assert (Hxx : (r1, data_offset e1) = (r2, data_offset e2)) by congruence.
      by injection Hxx as -> ->.
    + right. exact (sp_apart _ Hsp _ _ _ _ Hr1 Hr2 Hne).
  - apply list_elem_of_fmap. exists (l_vaddr r, l_size r, data_offset e). split; [done|].
    apply list_elem_of_fmap. exists e. by rewrite HL, Hrg.
Qed.

Lemma local_record_restored hd t' i r : hd.1 = cv_host v → retracked t L t' → rs !! i = Some r →
  local_restored rs dev t t' (with_mems (run_all hd (in_copy hb <$> (range <$> L))) [] (alloc_view d m h v)) i r.
Proof.
  intros Hhost Hrt Hi. assert (Hin : i ∈ (export_idx <$> acc.1)).
  { rewrite (ra_idx _ _ _ _ _ _ _ Hal), elem_of_seq, (pl_records _ _ _ _ _ Hpk), length_fmap.
    apply lookup_lt_Some in Hi. lia. }
  apply list_elem_of_fmap in Hin as (e & -> & He).
  destruct (local_entry e He) as (r' & _ & Hr & Hp & _ & Hne & Hm & Hh). assert (r' = r) as -> by congruence.
  destruct (rk_record _ _ _ Hrt e) as (p & Hp' & Ht' & Htr); [by rewrite HL|]. rewrite Hp in Hp'. injection Hp' as <-.
  rewrite (pl_records _ _ _ _ _ Hpk), handles_torn in Htr. split; [by exists (new_handle e)|]. intros j Hj. by eapply local_loaded.
Qed.

Lemma locals_outside hst : outside_locals rs (cv_dev v) (run_all (hst, d) (in_copy hb <$> (range <$> L))).2.
Proof.
  intros adr Ha. rewrite run_in_frame.
  - apply (ra_dev _ _ _ _ _ _ _ Hal). intros p. rewrite (pl_records _ _ _ _ _ Hpk).
    intros (r & -> & Hr)%list_elem_of_fmap. exact (Ha r Hr).
  - by intros y (z & -> & _)%list_elem_of_fmap.
  - intros y (y' & -> & (e & -> & He)%list_elem_of_fmap)%list_elem_of_fmap. rewrite HL in He.
    destruct (local_entry e He) as (r & _ & Hr & _ & -> & _). apply Ha. by eapply list_elem_of_lookup_2.
Qed.
End Parked.

(** What the rebuild does to a parked state; what it leaves alone. *)
Lemma local_rebuild_restores rs hb buf_size dev f t v s :
  at_ f t v s → linked f → spread rs → parked_locals rs hb dev t v → sum_by l_size rs ≤ buf_size →
  wp (ipc_rebuild_local_allocs hb buf_size) (λ n s', n = Z.of_nat (length rs) ∧ ∃ g t' v', at_ g t' v' s' ∧ grows f g ∧
    (∀ i r, rs !! i = Some r → local_restored rs dev t t' v' i r) ∧ outside_locals rs (cv_dev v) (cv_dev v') ∧
    (∀ p, (∀ r, r ∈ rs → p ≠ l_vaddr r) → cv_maps v' !! p = cv_maps v !! p) ∧ cv_handles v ⊆ cv_handles v' ∧
    cv_fds v' = cv_fds v ∧
    ∃ L, retracked t L t' ∧ ∀ e, e ∈ L → cv_handles v !! new_handle e = None) s.
Proof.
  intros Hat Hl Hsp Hpk Hbuf. unfold ipc_rebuild_local_allocs. pose proof (pl_records _ _ _ _ _ Hpk) as Hrec.
  assert (Hq : cv_queue v = []) by apply Hpk.
  apply wp_bind. eapply wp_mono; [by apply resolve_helper_fns_grows|]. intros ? s1 (g & H1 & Hg).
  assert (Hlg : linked g) by (by eapply grows_linked).
  apply wp_if_has_yes. { intros p Hp. rewrite (proj1 H1). apply linked_some; [done|]. unfold core_ptrs. set_solver. }
  apply wp_bind, wp_get. rewrite (proj1 (proj2 H1)).
  apply wp_bind. eapply wp_mono.
  { apply (alloc_locals g t v); try done; rewrite Hrec; [by apply spread_torn|].
    intros ? (r & -> & Hr)%list_elem_of_fmap. split; [done|]. by apply (pl_unmapped _ _ _ _ _ Hpk r). }
  intros acc s2 (d & m & h & H2 & Hal).
  apply wp_bind. eapply wp_mono; [by apply wp_pin|]. intros pinned s3 H3; cbv beta in H3.
  apply wp_bind. eapply wp_mono; [by apply wp_use_async|]. intros async s4 [H4 Has].
  set (groups := group_by re_dev acc.1). assert (HL : concat (snd <$> groups) ≡ₚ acc.1) by apply group_by_perm.
  apply wp_bind. eapply wp_mono.
  { apply (rebuild_groups g t (alloc_view d m h v) hb buf_size async groups (cv_host v, d)); [done|done| | | |done|].
    - rewrite HL, (ra_idx _ _ _ _ _ _ _ Hal). apply NoDup_seq.
    - rewrite HL. apply Hal.
    - intros e He. rewrite HL in He. by eapply local_loads.
    - unfold alloc_view. destruct v. simpl in *. by subst. }
  intros ? s5 (t' & H5 & Hrt). apply wp_bind. eapply wp_mono; [by apply wp_unpin|]. intros ? s6 H6; cbv beta in H6.
  apply wp_ret. split.
  { rewrite <- (length_fmap export_idx acc.1), (ra_idx _ _ _ _ _ _ _ Hal), length_seq, Hrec. by rewrite length_fmap. }
  eexists g, t', _. split; [exact H6|]. split; [done|]. split; [|split; [|split; [|split; [|split; [done|]]]]].
  - intros i r Hi. by apply (local_record_restored rs hb dev t v Hsp Hpk acc d m h Hal _ HL (cv_host v, d)).
  - by apply (locals_outside rs hb dev t v Hpk acc d m h Hal _ HL).
  - intros p Hp. apply (ra_maps _ _ _ _ _ _ _ Hal). intros ?. rewrite Hrec. intros (r0 & -> & Hr)%list_elem_of_fmap. exact (Hp r0 Hr).
  - apply Hal.
  - eexists. split; [exact Hrt|]. intros e He. rewrite HL in He.
    by destruct (ra_entry _ _ _ _ _ _ _ Hal e He) as (? & _ & _ & ? & _).
Qed.
End Rebuild.
