(* ===== verification/IpcImports.v ===== *)
(** Teardown and rebuild of the imports.

    [ipc_teardown_all_imports] unmaps and releases every live import;
    [ipc_import_from_shm_block] later fetches the fds of a published block from their
    owners ([FdExchange]) and maps the n-th of them at the address of the n-th import
    that was torn down.  On no path does a received fd stay open. *)
From S2P Require Import Prelude Common Gpu IpcState IpcDriver FdExchange IpcHooks IpcExports IpcRules IpcSave IpcRebuild.
Open Scope Z_scope.

(** ** The sockets *)

(** Socket calls do not touch the view, except that received descriptors are new open
    fds.  A peer that runs [serve] announces as many as were asked for. *)
Class SockLaws (D : Type) {CD : CuDriver D} {SK : Sockets D} := {
  socket_law d : ∃ fd d', socket d = Ret fd d' ∧ cu_view d' = cu_view d ∧ cv_fds (cu_view d) !! fd = None;
  connect_law d fd p : ∃ r d', connect fd p d = Ret r d' ∧ cu_view d' = cu_view d;
  send_law d fd l : ∃ r d', send fd l d = Ret r d' ∧ cu_view d' = cu_view d;
  recv_law d fd n : ∃ r l d', recv fd n d = Ret (r, l) d' ∧ cu_view d' = cu_view d;
  announce_law d fd l r1 d1 r2 d2 r3 v d3 : l ≠ [] →
    send fd [Z.of_nat (length l)] d = Ret r1 d1 → send fd l d1 = Ret r2 d2 →
    recv fd 1 d2 = Ret (r3, v) d3 → default 0 (head v) ≤ Z.of_nat (length l);
  recvmsg_law d fd n : ∃ r got d', recvmsg fd n d = Ret (r, got) d' ∧
    match got with
    | None => cu_view d' = cu_view d
    | Some l => 0 ≤ r ∧ Z.of_nat (length l) ≤ n ∧ NoDup l ∧ ∃ new : gmap Z Z,
        (∀ x, x ∈ l ↔ is_Some (new !! x)) ∧ (∀ x, x ∈ l → 0 ≤ x ∧ x ≠ fd ∧ cv_fds (cu_view d) !! x = None) ∧
        cu_view d' = with_fds (new ∪ cv_fds (cu_view d)) (cu_view d)
    end;
  sclose_law d fd : ∃ d', sclose fd d = Ret tt d' ∧
    cu_view d' = with_fds (delete fd (cv_fds (cu_view d))) (cu_view d)
}.

Section Exchange.
Context {D : Type} {CD : CuDriver D} {SK : Sockets D} {SL : SockLaws D}.

(** The fds of [fds] are open and are all that is new since [F]. *)
Record received (F : gmap Z Z) (fds : list Z) (new : gmap Z Z) : Prop := {
  rv_distinct : NoDup fds;
  rv_new : ∀ x, x ∈ fds ↔ is_Some (new !! x);
  rv_fresh : ∀ x, x ∈ fds → 0 ≤ x ∧ F !! x = None
}.

Lemma received_nil F : received F [] ∅.
Proof. split; [constructor| |set_solver]. intros x. rewrite lookup_empty. split; [set_solver|by intros []]. Qed.

Lemma with_fds_id v : with_fds (cv_fds v) v = v.
Proof. by destruct v. Qed.

Lemma received_delete F fds new c : received F fds new → F !! c = None → c ∉ fds →
  delete c (new ∪ F) = new ∪ F.
Proof.
  intros Hr Hc Hn. apply delete_id, lookup_union_None. split; [|done].
  apply eq_None_not_Some. intros Hs. by apply Hn, (rv_new _ _ _ Hr).
Qed.

Lemma connect_retry_spec k path d : ∃ c d', connect_retry k path d = Ret c d' ∧ cu_view d' = cu_view d ∧
  (∀ fd, c = Some fd → cv_fds (cu_view d) !! fd = None).
Proof.
  revert d. induction k as [|k IH]; intros d; simpl; [by eexists _, _|]. unfold mbind, M_bind.
  destruct (socket_law d) as (fd & d1 & -> & Hv1 & Hfd). destruct (bool_decide (fd < 0)); [by eexists _, _|].
  destruct (connect_law d1 fd path) as (r & d2 & -> & Hv2). destruct (bool_decide (r = 0)).
  { exists (Some fd), d2. split_and!; [done|congruence|]. by intros ? [= <-]. }
  destruct (sclose_law d2 fd) as (d3 & -> & Hv3).
  assert (Hv : cu_view d3 = cu_view d).
  { rewrite Hv3, Hv2, Hv1. rewrite delete_id by done. apply with_fds_id. }
  destruct (IH d3) as (c & d4 & -> & Hv4 & Hc). exists c, d4. rewrite Hv in *. by split_and!.
Qed.

(** One request: everything that arrives is in the answer. *)
Lemma receive_spec pid l buf d : length buf = length l →
  ∃ r out d' new, uds_receive_fds pid l buf d = Ret (r, out) d' ∧
    received (cv_fds (cu_view d)) (take (Z.to_nat r) out) new ∧ (r ≤ Z.of_nat (length l)) ∧ length out = length l ∧
    cu_view d' = with_fds (new ∪ cv_fds (cu_view d)) (cu_view d).
Proof.
  intros Hbuf. unfold uds_receive_fds.
  assert (Hnone : ∀ d', cu_view d' = cu_view d → ∃ r out d'' new, Ret (-1, buf) d' = Ret (r, out) d'' ∧
    received (cv_fds (cu_view d)) (take (Z.to_nat r) out) new ∧ r ≤ Z.of_nat (length l) ∧ length out = length l ∧
    cu_view d'' = with_fds (new ∪ cv_fds (cu_view d)) (cu_view d)).
  { intros d' Hv. exists (-1), buf, d', ∅. simpl. rewrite (left_id_L ∅ (∪)), with_fds_id.
    split_and!; [done|apply received_nil|lia|done|done]. }
  case_bool_decide as Hnum; [by apply Hnone|]. unfold mbind, M_bind.
  destruct (connect_retry_spec 20 (make_sock_path pid) d) as (c & d1 & -> & Hv1 & Hc).
  destruct c as [c|]; [|by apply Hnone]. specialize (Hc c eq_refl).
  assert (Hclose : ∀ d2, cu_view d2 = cu_view d → ∃ d3, sclose c d2 = Ret tt d3 ∧ cu_view d3 = cu_view d).
  { intros d2 Hv2. destruct (sclose_law d2 c) as (d3 & Hd & Hv3). exists d3. split; [done|].
    rewrite Hv3, Hv2. rewrite delete_id by done. apply with_fds_id. }
  destruct (send_law d1 c [Z.of_nat (length l)]) as (n1 & d2 & Hs1 & Hv2). rewrite Hs1.
  destruct (bool_decide (n1 ≠ 4)).
  { destruct (Hclose d2) as (d3 & -> & Hv3); [congruence|]. by apply Hnone. }
  destruct (send_law d2 c l) as (n2 & d3 & Hs2 & Hv3). rewrite Hs2. destruct (bool_decide (n2 ≠ _)).
  { destruct (Hclose d3) as (d4 & -> & Hv4); [congruence|]. by apply Hnone. }
  destruct (recv_law d3 c 1) as (n3 & v & d4 & Hs3 & Hv4). rewrite Hs3.
  assert (Hnil : l ≠ []) by (intros ->; simpl in Hnum; lia).
  pose proof (announce_law d1 c l n1 d2 n2 d3 n3 v d4 Hnil Hs1 Hs2 Hs3) as Han. simpl.
  destruct (bool_decide_reflect (n3 ≠ 4 ∨ default 0 (head v) ≤ 0)) as [_|Hbad].
  { destruct (Hclose d4) as (d5 & -> & Hv5); [congruence|]. by apply Hnone. }
  set (k := default 0 (head v)) in *. unfold recv_fds, mbind, M_bind.
  destruct (recvmsg_law d4 c k) as (r & got & d5 & -> & Hgot). simpl.
  destruct got as [got|].
  2:{ assert (Hv5 : cu_view d5 = cu_view d) by congruence.
      destruct (bool_decide (r < 0)); unfold mret, M_ret; destruct (Hclose d5 Hv5) as (d6 & -> & Hv6); by apply Hnone. }
  destruct Hgot as (Hr & Hlen & Hnd & new & Hnew & Hfr & Hv5). rewrite bool_decide_eq_false_2 by lia.
  assert (Hmin : Nat.min (length got) (Z.to_nat k) = length got) by lia. rewrite Hmin.
  rewrite bool_decide_eq_false_2 by lia. unfold mret, M_ret.
  assert (Hview : cu_view d4 = cu_view d) by congruence. rewrite Hview in Hfr, Hv5.
  assert (Hrec : received (cv_fds (cu_view d)) got new).
  { split; [done|done|]. intros x Hx. destruct (Hfr x Hx) as (? & _ & ?). done. }
  destruct (sclose_law d5 c) as (d6 & -> & Hv6).
  exists (Z.of_nat (length got)), (take (length got) got ++ drop (length got) buf), d6, new.
  rewrite Nat2Z.id, (take_ge got) by lia. rewrite take_app_length. split_and!; [done|done|lia| |].
  - rewrite length_app, length_drop. lia.
  - rewrite Hv6, Hv5. cbn [cv_fds with_fds]. rewrite (received_delete _ _ _ _ Hrec Hc); [done|].
    intros Hin. destruct (Hfr c Hin) as (_ & Hne & _). done.
Qed.

End Exchange.

(** ** The requests to all owners *)

Lemma foldl_insert_lookup (ps : list (nat * Z)) : ∀ (m : gmap nat Z) i x, NoDup ps.*1 →
  foldl (λ m jf, <[jf.1 := jf.2]> m) m ps !! i = Some x ↔ (i, x) ∈ ps ∨ i ∉ ps.*1 ∧ m !! i = Some x.
Proof.
  induction ps as [|[j y] ps IH]; intros m i x Hnd; cbn [foldl].
  { split; [intros H; right; split; [apply not_elem_of_nil|done]|intros [[]%elem_of_nil|[_ H]]; done]. }
  apply NoDup_cons in Hnd as [Hj Hnd]. rewrite IH by done. rewrite fmap_cons, elem_of_cons, not_elem_of_cons. simpl.
  destruct (decide (i = j)) as [->|Hne].
  - rewrite lookup_insert_eq. split.
    + intros [Hin|[_ [= ->]]]; [|by left; left]. destruct Hj. apply list_elem_of_fmap. by exists (j, x).
    + intros [[[= ->]|Hin]|[[] _]]; [by right| |done]. destruct Hj. apply list_elem_of_fmap. by exists (j, x).
  - rewrite lookup_insert_ne by done. naive_solver.
Qed.

(** The map from entry to fd after the entries [idxs] have been asked for. *)
Record exchanged (F : gmap Z Z) (idxs : list nat) (fds : gmap nat Z) (new : gmap Z Z) : Prop := {
  ex_asked : ∀ i x, fds !! i = Some x → i ∈ idxs ∧ 0 ≤ x ∧ F !! x = None;
  ex_inj : ∀ i j x, fds !! i = Some x → fds !! j = Some x → i = j;
  ex_new : ∀ x, is_Some (new !! x) ↔ ∃ i, fds !! i = Some x
}.

Lemma exchanged_step F idxs fds new ps new' : exchanged F idxs fds new →
  NoDup ps.*1 → (∀ i, i ∈ ps.*1 → i ∉ idxs) → received (new ∪ F) ps.*2 new' →
  exchanged F (idxs ++ ps.*1) (foldl (λ m jf, <[jf.1 := jf.2]> m) fds ps) (new' ∪ new).
Proof.
  intros [Ha Hi Hn] Hnd Hdis [Hd2 Hn' Hf'].
  assert (Hfresh : ∀ i x, (i, x) ∈ ps → 0 ≤ x ∧ F !! x = None ∧ new !! x = None).
  { intros i x Hin. destruct (Hf' x) as [? Hu]; [apply list_elem_of_fmap; by exists (i, x)|].
    by apply lookup_union_None in Hu as [? ?]. }
  split.
  - intros i x [Hin|[_ Hx]]%foldl_insert_lookup; [| |done].
    + destruct (Hfresh i x Hin) as (? & ? & _). split_and!; [|done..].
      apply elem_of_app. right. apply list_elem_of_fmap. by exists (i, x).
    + destruct (Ha i x Hx) as (? & ? & ?). split_and!; [|done..]. apply elem_of_app. by left.
  - intros i j x [Hx|[Hx1 Hx2]]%foldl_insert_lookup [Hy|[Hy1 Hy2]]%foldl_insert_lookup; try done.
    + destruct (list_elem_of_lookup ps (i, x)) as [[a Ha'] _]; [done|].
      destruct (list_elem_of_lookup ps (j, x)) as [[b Hb'] _]; [done|].
      assert (a = b) as ->; [|congruence].
      apply (NoDup_lookup ps.*2 a b x Hd2); rewrite list_lookup_fmap; [by rewrite Ha'|by rewrite Hb'].
    + destruct (Hfresh i x Hx) as (_ & _ & Hnone). assert (is_Some (new !! x)) as [? ?] by (apply Hn; eauto). congruence.
    + destruct (Hfresh j x Hy) as (_ & _ & Hnone). assert (is_Some (new !! x)) as [? ?] by (apply Hn; eauto). congruence.
    + by eapply Hi.
  - intros x. rewrite lookup_union_is_Some, <- Hn', Hn. split.
    + intros [Hx|[i Hx]].
      * apply list_elem_of_fmap in Hx as ([i y] & -> & Hin). exists i. apply foldl_insert_lookup; [done|by left].
      * exists i. apply foldl_insert_lookup; [done|]. right. split; [|done]. intros Hin. by apply (Hdis i), (Ha i x).
    + intros [i [Hin|[_ Hx]]%foldl_insert_lookup]; [left|right; by exists i|done].
      apply list_elem_of_fmap. by exists (i, x).
Qed.

Section Requests.
Context {D : Type} {CD : CuDriver D} {PF : Platform} {SK : Sockets D} {SL : SockLaws D}.
Implicit Types (s : ipc D).

Lemma request_peer_spec f t v F idxs fds new req s :
  at_ f t (with_fds (new ∪ F) v) s → exchanged F idxs fds new →
  NoDup (fst <$> req.2 : list nat) → (∀ i, i ∈ (fst <$> req.2 : list nat) → i ∉ idxs) →
  wp (request_peer fds req) (λ fds' s', ∃ new' idxs', at_ f t (with_fds (new' ∪ F) v) s' ∧
    exchanged F (idxs ++ idxs') fds' new' ∧ idxs' ⊆ (fst <$> req.2)) s.
Proof.
  intros Hat Hex Hnd Hdis. unfold request_peer. apply wp_bind, wp_zoom.
  destruct (receive_spec req.1 ((λ ie, ent_fd ie.2) <$> req.2) (replicate (length req.2) (-1)) (cu s))
    as (r & out & d' & new' & Hr & Hrec & Hle & Hlo & Hv); [by rewrite length_replicate, length_fmap|].
  eapply wp_intro; [exact Hr|]. simpl. destruct Hat as (Hf & Ht & Hview).
  assert (HF : cv_fds (cu_view (cu s)) = new ∪ F) by (change (cv_fds (view s) = new ∪ F); by rewrite Hview).
  rewrite HF in Hrec, Hv.
  assert (Hat' : at_ f t (with_fds ((new' ∪ new) ∪ F) v) (set_cu d' s)).
  { split_and!; [done|done|]. unfold view in *. simpl. rewrite Hv, <- (assoc_L (∪)).
    change (with_fds (new' ∪ (new ∪ F)) (with_ctx [] (cu_view (cu s))) = with_fds (new' ∪ (new ∪ F)) v).
    by rewrite Hview. }
  rewrite length_fmap in Hlo. set (idx := (fst <$> req.2 : list nat)) in *.
  assert (Hli : length out = length idx) by (unfold idx; by rewrite length_fmap).
  set (ps := take (Z.to_nat r) (zip idx out)).
  assert (H1 : ps.*1 = take (Z.to_nat r) idx) by (unfold ps; rewrite fmap_take, fst_zip by lia; done).
  assert (H2 : ps.*2 = take (Z.to_nat r) out) by (unfold ps; rewrite fmap_take, snd_zip by lia; done).
  assert (Hsub : ps.*1 ⊆ idx) by (rewrite H1; intros i Hi; by apply elem_of_take in Hi as (k & Hk & _); eapply list_elem_of_lookup_2).
  assert (Hstep : exchanged F (idxs ++ ps.*1) (foldl (λ m jf, <[jf.1:=jf.2]> m) fds ps) (new' ∪ new)).
  { apply exchanged_step; [done| |set_solver|by rewrite H2].
    rewrite H1. rewrite <- (take_drop (Z.to_nat r) idx) in Hnd. by apply NoDup_app in Hnd as [? _]. }
  case_bool_decide as Hr0; apply wp_ret; exists (new' ∪ new), ps.*1; split; [exact Hat'| |exact Hat'|by split].
  split; [|done].
  assert (Hps : ps = []) by (unfold ps; by replace (Z.to_nat r) with 0%nat by (simpl in Hr0; lia)).
  by rewrite Hps in Hstep |- *.
Qed.

(** All owners: the valid exports are exactly the fds that arrived. *)
Lemma requests_spec f t v es s :
  NoDup (fst <$> es : list nat) → at_ f t v s →
  wp (foldM request_peer ∅ (group_by (λ ie, owner_pid ie.2) es)) (λ fds s', ∃ new,
    at_ f t (with_fds (new ∪ cv_fds v) v) s' ∧ received (cv_fds v) (valid_exports fds es) new) s.
Proof.
  intros Hnd Hat. set (groups := group_by _ es).
  assert (Hperm : concat (snd <$> groups) ≡ₚ es) by apply group_by_perm.
  assert (Hall : NoDup (fst <$> concat (snd <$> groups) : list nat)) by (by rewrite Hperm).
  eapply wp_mono.
  { apply (wp_foldM (λ pre fds s', ∃ new idxs, at_ f t (with_fds (new ∪ cv_fds v) v) s' ∧
      exchanged (cv_fds v) idxs fds new ∧ idxs ⊆ (fst <$> concat (snd <$> pre)))).
    - exists ∅, []. rewrite (left_id_L ∅ (∪)), with_fds_id. split_and!; [done| |done].
      split; [intros i x Hl; by rewrite lookup_empty in Hl|intros i j x Hl; by rewrite lookup_empty in Hl|]. intros x. rewrite lookup_empty.
      split; [by intros []|intros [i Hi]; by rewrite lookup_empty in Hi].
    - intros pre req post fds s1 Hsplit (new & idxs & Hat1 & Hex & Hsub).
      rewrite Hsplit, fmap_app, concat_app, fmap_app, fmap_cons in Hall. cbn [concat snd] in Hall.
      rewrite fmap_app in Hall. apply NoDup_app in Hall as (_ & Hdis & [Hreq _]%NoDup_app).
      eapply wp_mono; [apply (request_peer_spec f t v (cv_fds v) idxs fds new req s1 Hat1 Hex Hreq)|].
      { intros i Hi Hidx%Hsub. apply (Hdis i Hidx). apply elem_of_app. by left. }
      intros fds' s2 (new' & idxs' & Hat2 & Hex2 & Hsub2). exists new', (idxs ++ idxs'). split_and!; [done|done|].
      rewrite fmap_app, concat_app, fmap_app. cbn [fmap list_fmap concat]. rewrite app_nil_r. set_solver. }
  intros fds s' (new & idxs & Hat' & Hex & Hsub). exists new. split; [done|].
  assert (Hin : ∀ i x, fds !! i = Some x → i ∈ (fst <$> es : list nat)).
  { intros i x Hx. apply (ex_asked _ _ _ _ Hex), proj1, Hsub in Hx. by rewrite Hperm in Hx. }
  clear Hat' Hat Hall Hperm Hsub groups.
  assert (Hval : valid_exports fds es = omap (λ ie, fds !! ie.1) es).
  { clear Hnd Hin. unfold valid_exports. induction es as [|ie es IH]; [done|]. cbn. rewrite IH.
    destruct (fds !! ie.1) as [x|] eqn:Hx; [|done].
    apply (ex_asked _ _ _ _ Hex) in Hx. rewrite bool_decide_eq_false_2; [done|lia]. }
  rewrite Hval. split.
  - clear Hin Hval. induction es as [|ie es IH]; [constructor|]. rewrite fmap_cons in Hnd.
    apply NoDup_cons in Hnd as [Hni Hnd]. cbn [omap list_omap]. specialize (IH Hnd).
    destruct (fds !! ie.1) as [x|] eqn:Hx; [|done]. apply NoDup_cons. split; [|done].
    intros (je & Hje & Hy)%list_elem_of_omap. apply Hni.
    rewrite (ex_inj _ _ _ _ Hex _ _ _ Hx Hy). apply list_elem_of_fmap. by exists je.
  - intros x. rewrite (ex_new _ _ _ _ Hex), list_elem_of_omap. split; [intros (ie & _ & Hx); eauto|].
    intros [i Hi]. destruct (proj1 (list_elem_of_fmap _ _ _) (Hin i x Hi)) as (ie & -> & Hie). eauto.
  - intros x (ie & _ & Hx)%list_elem_of_omap. by apply (ex_asked _ _ _ _ Hex) in Hx as [_ ?].
Qed.

End Requests.

(** ** The rebuild of one import *)

(** The descriptors [replay_import] applies. *)
Definition import_descs (r : IpcImportRecord) : list access_desc :=
  match i_all_access r with
  | [] => if bool_decide (0 ≤ i_access_dev r) then [i_access_desc r] else []
  | ds => ds
  end.

(** Import [i], recorded as [r] when it was torn down, is back. *)
Definition import_back (imps : list IpcImportRecord) (m : gmap Z cmapping) (h : gmap Z Z)
    (i : nat) (r : IpcImportRecord) : Prop := ∃ hn, hn ≠ 0 ∧
  imps !! i = Some (import_live hn r) ∧ h !! hn = Some (i_size r) ∧
  m !! i_vaddr r = Some (MkCMap (i_size r) hn (merge_descs [] (import_descs r))).

Definition in_import (r : IpcImportRecord) (a : Z) : Prop := i_vaddr r ≤ a < i_vaddr r + i_size r.

(** After the matches [pre] of fds of [new] with records of [imps]: [imps'] and the
    driver's memory, mappings and handles. *)
Record progress (imps : list IpcImportRecord) (v : cview) (new : gmap Z Z) (pre : list (Z * nat))
    (imps' : list IpcImportRecord) (d : mem) (m : gmap Z cmapping) (h : gmap Z Z) (n : Z) : Prop := {
  pg_length : length imps' = length imps;
  pg_todo : ∀ i, i ∉ pre.*2 → imps' !! i = imps !! i;
  pg_done : ∀ fd i r, (fd, i) ∈ pre → imps !! i = Some r → new !! fd = Some (i_size r) → import_back imps' m h i r;
  pg_maps : ∀ p, (∀ i r, i ∈ pre.*2 → imps !! i = Some r → p ≠ i_vaddr r) → m !! p = cv_maps v !! p;
  pg_handles : ∀ x sz, cv_handles v !! x = Some sz → h !! x = Some sz;
  pg_dev : ∀ a, (∀ i r, i ∈ pre.*2 → imps !! i = Some r → ¬ in_import r a) → d a = cv_dev v a;
  pg_count : (∀ fd i r, (fd, i) ∈ pre → imps !! i = Some r → new !! fd = Some (i_size r)) → n = Z.of_nat (length pre)
}.

Section Loop.
Context {D : Type} {CD : CuDriver D} {CL : CuLaws D} {CR : CuReliable D} {PF : Platform}.
Implicit Types (s : ipc D).

Lemma wp_real_map_any p n h f t v s : at_ f t v s → linked f → cv_queue v = [] →
  wp (real_map p n h) (λ r s',
    ((r = 0 ∧ ∃ d, dev_outside p n (cv_dev v) d ∧
        at_ f t (with_dev d (with_maps (<[p := MkCMap n h []]> (cv_maps v)) v)) s') ∨ r ≠ 0 ∧ at_ f t v s') ∧
    (cv_maps v !! p = None → cv_handles v !! h = Some n → r = 0)) s.
Proof.
  intros Hat Hl Hq. apply wp_call_fn; [rewrite (proj1 Hat); apply Hl; set_solver|].
  destruct Hat as (<- & <- & <-). eapply wp_drv_call; [done|by apply cuMemMap_law|].
  intros r s' w Hf' Ht' Hv' He Hn Hc. split; [|intros Hp Hh; apply Hc; split_and!; [apply cu_is_reliable|done|done]].
  destruct (decide (r = 0)) as [Hr|Hr].
  - left. split; [done|]. destruct (He Hr) as (d & ? & _ & ->). exists d. by split; [|split_and!].
  - right. split; [done|]. split_and!; [done|done|by apply Hn].
Qed.

Lemma wp_replay_import r n h f t v s : linked f → i_size r = n →
  at_ f t (with_maps (<[i_vaddr r := MkCMap n h []]> (cv_maps v)) v) s →
  wp (replay_import r) (λ _ s',
    at_ f t (with_maps (<[i_vaddr r := MkCMap n h (merge_descs [] (import_descs r))]> (cv_maps v)) v) s') s.
Proof.
  intros Hl <- Hat. unfold replay_import, import_descs.
  assert (Hsome : ∀ p, p ∈ ["real_cuMemSetAccess"%string] → is_Some (fns s !! p)).
  { intros p ->%list_elem_of_singleton. rewrite (proj1 Hat). apply linked_some; [done|set_solver]. }
  destruct (i_all_access r) as [|d ds].
  - case_bool_decide; [|exact Hat]. apply wp_if_has_yes; [done|].
    apply wp_bind. eapply wp_mono.
    { eapply wp_real_set_access; [exact Hat|done|apply lookup_insert_eq|done]. }
    intros ? s1 H1. cbv beta in H1. cbn [cv_maps with_maps cm_handle cm_access] in H1.
    rewrite insert_insert_eq in H1. exact H1.
  - apply wp_if_has_yes; [done|]. by apply wp_replay.
Qed.

Lemma import_at_spec i r Q s : g_ipc_imports (tb s) !! i = Some r → Q r s → wp (import_at i) Q s.
Proof. unfold wp, import_at. by intros ->. Qed.

Definition loop_view (d : mem) (m : gmap Z cmapping) (h F : gmap Z Z) (v : cview) : cview :=
  with_fds F (alloc_view d m h v).

(** A match that fails leaves the record torn down. *)
Lemma progress_fail imps v new pre imps' d m h n fd i r : progress imps v new pre imps' d m h n →
  imps !! i = Some r → new !! fd ≠ Some (i_size r) → progress imps v new (pre ++ [(fd, i)]) imps' d m h n.
Proof.
  intros [Hl Ht Hd Hm Hh Hdev Hc] Hi Hne. split; try done.
  - intros j Hj. apply Ht. rewrite fmap_app in Hj. set_solver.
  - intros fd' j r' [Hin|[= -> ->]%list_elem_of_singleton]%elem_of_app Hj Hn; [by eapply Hd|]. congruence.
  - intros p Hp. apply Hm. intros j r' Hj. apply Hp. rewrite fmap_app. set_solver.
  - intros a Ha. apply Hdev. intros j r' Hj. apply Ha. rewrite fmap_app. set_solver.
  - intros Hall. destruct Hne. apply (Hall fd i r); [|done]. set_solver.
Qed.

(** A match that succeeds: the record is live under a new handle. *)
Lemma progress_done imps v new pre imps' d m h n fd i r d' hn sz : progress imps v new pre imps' d m h n →
  imps !! i = Some r → i ∉ pre.*2 → (∀ j r', j ∈ pre.*2 → imps !! j = Some r' → i_vaddr r ≠ i_vaddr r') →
  new !! fd = Some sz → hn ≠ 0 → h !! hn = None → dev_outside (i_vaddr r) (i_size r) d d' →
  progress imps v new (pre ++ [(fd, i)]) (alter (import_live hn) i imps') d'
    (<[i_vaddr r := MkCMap (i_size r) hn (merge_descs [] (import_descs r))]> m) (<[hn := sz]> h) (n + 1).
Proof.
  intros [Hl Ht Hd Hm Hh Hdev Hc] Hi Hnew Hva Hfd Hhn Hfree Hd'. split.
  - by rewrite length_alter.
  - intros j Hj. rewrite fmap_app in Hj. rewrite list_lookup_alter_ne by set_solver. apply Ht. set_solver.
  - intros fd' j r' [Hin|[= -> ->]%list_elem_of_singleton]%elem_of_app Hj Hn.
    + destruct (Hd fd' j r' Hin Hj Hn) as (k & Hk & Hjk & Hhk & Hmk). exists k.
      assert (Hjp : j ∈ pre.*2) by (apply list_elem_of_fmap; by exists (fd', j)).
      split_and!; [done| | |].
      * rewrite list_lookup_alter_ne; [done|]. intros ->. done.
      * rewrite lookup_insert_ne; [done|]. congruence.
      * rewrite lookup_insert_ne; [done|]. by eapply Hva.
    + simplify_eq. exists hn. split_and!; [done| |apply lookup_insert_eq|apply lookup_insert_eq].
      rewrite list_lookup_alter_eq, Ht by done. by rewrite Hi.
  - intros p Hp. rewrite lookup_insert_ne.
    + apply Hm. intros j r' Hj. apply Hp. rewrite fmap_app. set_solver.
    + intros <-. apply (Hp i r); [rewrite fmap_app; set_solver|done|done].
  - intros x k Hx. rewrite lookup_insert_ne; [by apply Hh|]. intros ->. apply Hh in Hx. congruence.
  - intros a Ha. rewrite Hd'.
    + apply Hdev. intros j r' Hj. apply Ha. rewrite fmap_app. set_solver.
    + apply (Ha i r); [rewrite fmap_app; set_solver|done].
  - intros Hall. rewrite length_app, Hc; [simpl; lia|]. intros fd' j r' Hin. apply Hall. set_solver.
Qed.

Lemma rebuild_import_step f t0 v imps new pre imps' d m h n fd i r sz Fc s :
  linked f → cv_queue v = [] → at_ f (set_imports imps' t0) (loop_view d m h Fc v) s →
  progress imps v new pre imps' d m h n → imps !! i = Some r → i ∉ pre.*2 →
  (∀ j r', j ∈ pre.*2 → imps !! j = Some r' → i_vaddr r ≠ i_vaddr r') → cv_maps v !! i_vaddr r = None →
  new !! fd = Some sz → Fc !! fd = Some sz →
  wp (rebuild_import n (fd, i)) (λ n' s', ∃ imps2 d2 m2 h2,
    at_ f (set_imports imps2 t0) (loop_view d2 m2 h2 (delete fd Fc) v) s' ∧
    progress imps v new (pre ++ [(fd, i)]) imps2 d2 m2 h2 n') s.
Proof.
  intros Hl Hq Hat Hpg Hi Hni Hva Hfree Hnew Hfc. unfold rebuild_import. cbn [fst snd].
  assert (Hm : m !! i_vaddr r = None).
  { rewrite (pg_maps _ _ _ _ _ _ _ _ _ Hpg); [done|]. intros j r' Hj Hr'. by eapply Hva. }
  apply wp_bind. eapply import_at_spec.
  { rewrite (proj1 (proj2 Hat)). simpl. by rewrite (pg_todo _ _ _ _ _ _ _ _ _ Hpg). }
  apply wp_bind. eapply wp_mono; [eapply wp_real_import; [exact Hat|done|exact Hfc]|].
  intros [e hn] s1 (He & Hhn & Hhf & H1). simpl in He, Hhn, Hhf, H1. subst e.
  apply wp_bind. eapply wp_mono; [eapply wp_close; exact H1|]. intros [] s2 H2. cbv beta in H2.
  change (at_ f (set_imports imps' t0) (loop_view d m (<[hn := sz]> h) (delete fd Fc) v) s2) in H2.
  cbn [fst snd]. rewrite bool_decide_eq_false_2 by (intros []; done).
  apply wp_bind. eapply wp_mono; [eapply wp_real_map_any; [exact H2|done|done]|].
  intros res s3 [[(-> & d' & Hd' & H3)|(Hres & H3)] Hok]; simpl in Hok.
  - rewrite bool_decide_eq_false_2 by (intros []; done). cbn [cv_maps loop_view with_fds alloc_view with_dev with_maps] in H3, Hd'.
    change (at_ f (set_imports imps' t0) (with_maps (<[i_vaddr r := MkCMap (i_size r) hn []]> m)
      (loop_view d' m (<[hn:=sz]> h) (delete fd Fc) v)) s3) in H3.
    apply wp_bind. eapply wp_mono.
    { apply (wp_replay_import r (i_size r) hn f (set_imports imps' t0) (loop_view d' m (<[hn:=sz]> h) (delete fd Fc) v));
        [done|done|exact H3]. }
    intros [] s4 H4. cbv beta in H4. apply wp_bind. eapply wp_track_at; [exact H4|]. intros s5 H5. apply wp_ret.
    eexists (alter (import_live hn) i imps'), d', _, _. split; [exact H5|]. by apply (progress_done imps v new pre imps' d).
  - rewrite bool_decide_eq_true_2 by done.
    apply wp_bind. eapply wp_mono; [eapply wp_real_release; [exact H3|done|]|].
    { simpl. by rewrite lookup_insert_eq. }
    intros ? s4 H4. cbv beta in H4. apply wp_ret. exists imps', d, m, h. split.
    + cbn [cv_handles loop_view with_fds alloc_view with_dev with_maps with_handles] in H4.
      rewrite delete_insert_id in H4 by done. exact H4.
    + eapply progress_fail; [done|exact Hi|]. intros Heq. apply Hres, Hok; [done|].
      rewrite lookup_insert_eq. congruence.
Qed.

Lemma set_imports_id t : set_imports (g_ipc_imports t) t = t.
Proof. by destruct t. Qed.

(** Every match in turn. *)
Lemma rebuild_loop f t v new ves torn Fc s :
  linked f → cv_queue v = [] → at_ f t (with_fds Fc v) s →
  (∀ i, i ∈ torn → is_Some (g_ipc_imports t !! i)) → NoDup torn →
  (∀ i j ri rj, i ∈ torn → j ∈ torn → i ≠ j → g_ipc_imports t !! i = Some ri → g_ipc_imports t !! j = Some rj →
     i_vaddr ri ≠ i_vaddr rj) →
  (∀ i r, i ∈ torn → g_ipc_imports t !! i = Some r → cv_maps v !! i_vaddr r = None) →
  NoDup ves → (∀ x, x ∈ ves → is_Some (new !! x) ∧ Fc !! x = new !! x) →
  let pairs := zip ves torn in
  wp (foldM rebuild_import 0 pairs) (λ n s', ∃ imps' d m h,
    at_ f (set_imports imps' t) (loop_view d m h (delete_all (take (length torn) ves) Fc) v) s' ∧
    progress (g_ipc_imports t) v new pairs imps' d m h n) s.
Proof.
  intros Hl Hq Hat Hin Hndt Hva Hfree Hndv Hves pairs. set (imps := g_ipc_imports t) in *.
  assert (H2 : pairs.*2 = take (length ves) torn).
  { unfold pairs. clear. revert torn. induction ves as [|x ves IH]; intros [|y torn]; try done. cbn. f_equal. apply IH. }
  assert (H1 : pairs.*1 = take (length torn) ves).
  { unfold pairs. clear. revert torn. induction ves as [|x ves IH]; intros [|y torn]; try done. cbn. f_equal. apply IH. }
  assert (Hnd2 : NoDup pairs.*2).
  { rewrite H2. rewrite <- (take_drop (length ves) torn) in Hndt. by apply NoDup_app in Hndt as [? _]. }
  assert (Hnd1 : NoDup pairs.*1).
  { rewrite H1. rewrite <- (take_drop (length torn) ves) in Hndv. by apply NoDup_app in Hndv as [? _]. }
  assert (Hsub : ∀ i, i ∈ pairs.*2 → i ∈ torn).
  { rewrite H2. intros i (k & Hk & _)%elem_of_take. by eapply list_elem_of_lookup_2. }
  assert (Hsub1 : ∀ x, x ∈ pairs.*1 → x ∈ ves).
  { rewrite H1. intros x (k & Hk & _)%elem_of_take. by eapply list_elem_of_lookup_2. }
  rewrite <- H1. apply (wp_foldM (λ pre n s', ∃ imps' d m h,
    at_ f (set_imports imps' t) (loop_view d m h (delete_all pre.*1 Fc) v) s' ∧
    progress imps v new pre imps' d m h n)).
  - exists imps, (cv_dev v), (cv_maps v), (cv_handles v). split.
    + unfold imps. rewrite set_imports_id. by destruct v.
    + split; try done. intros fd i r Hnil. by apply elem_of_nil in Hnil.
  - intros pre [fd i] post n s1 Hsplit (imps' & d & m & h & Hat1 & Hpg).
    assert (Hi : i ∈ pairs.*2) by (rewrite Hsplit, fmap_app; set_solver).
    assert (Hfd : fd ∈ pairs.*1) by (rewrite Hsplit, fmap_app; set_solver).
    rewrite Hsplit, fmap_app in Hnd1. rewrite Hsplit, fmap_app in Hnd2. apply NoDup_app in Hnd1 as (_ & Hx1 & _).
    apply NoDup_app in Hnd2 as (_ & Hx2 & _).
    destruct (Hin i (Hsub i Hi)) as [r Hr]. destruct (Hves fd (Hsub1 fd Hfd)) as [[sz Hsz] Hfc].
    eapply wp_mono; [apply (rebuild_import_step f t v imps new pre imps' d m h n fd i r sz (delete_all pre.*1 Fc) s1);
      try done|].
    + intros Hp. apply (Hx2 i Hp). rewrite fmap_cons. left.
    + intros j r' Hj Hr'. apply (Hva i j); [by apply Hsub| | |done|done].
      * apply Hsub. rewrite Hsplit, fmap_app. set_solver.
      * intros ->. apply (Hx2 j Hj). rewrite fmap_cons. left.
    + apply (Hfree i r); [by apply Hsub|done].
    + rewrite delete_all_out, Hfc; [done|]. intros Hp. apply (Hx1 fd Hp). rewrite fmap_cons. left.
    + intros n' s2 (imps2 & d2 & m2 & h2 & Hat2 & Hpg2). exists imps2, d2, m2, h2. split; [|done].
      rewrite fmap_app, (delete_all_snoc pre.*1 fd). exact Hat2.
Qed.

End Loop.

(** ** The whole rebuild *)

Lemma received_cleared F ves new : received F ves new → delete_all ves (new ∪ F) = F.
Proof.
  intros Hr. apply map_eq. intros x. destruct (decide (x ∈ ves)) as [Hx|Hx].
  - rewrite delete_all_in by done. symmetry. by apply (rv_fresh _ _ _ Hr).
  - rewrite delete_all_out by done. rewrite lookup_union_r; [done|].
    apply eq_None_not_Some. intros Hs. by apply Hx, (rv_new _ _ _ Hr).
Qed.

(** The entries an importer acts on: the valid ones of the published prefix. *)
Definition read_entries (block : IpcRebuildShmBlock) : list (nat * IpcExportShmEntry) :=
  filter (λ ie, valid ie.2 ≠ 0) (imap pair (take (Z.to_nat (num_exports block)) (entries block))).

Lemma imap_pair_NoDup {A} (l : list A) : NoDup (fst <$> imap pair l).
Proof.
  apply NoDup_fmap_2_strong; [|apply NoDup_alt].
  - intros [i x] [j y] Hi Hj; simpl. intros ->.
    apply elem_of_lookup_imap in Hi as (? & ? & [= -> ->] & Hi). apply elem_of_lookup_imap in Hj as (? & ? & [= -> ->] & Hj).
    by rewrite Hi in Hj; injection Hj as ->.
  - intros i j x Hi Hj. apply list_lookup_imap_Some in Hi as (a & Ha & ->).
    apply list_lookup_imap_Some in Hj as (b & Hb & [= -> ->]). done.
Qed.

Lemma filter_fst_NoDup {A} (P : nat * A → Prop) `{∀ x, Decision (P x)} (l : list A) :
  NoDup (fst <$> filter P (imap pair l)).
Proof.
  pose proof (imap_pair_NoDup l) as Hnd. induction (imap pair l) as [|x xs IH]; [constructor|].
  rewrite fmap_cons in Hnd. apply NoDup_cons in Hnd as [Hx Hnd]. rewrite filter_cons.
  destruct (decide (P x)); [|by apply IH]. rewrite fmap_cons. apply NoDup_cons. split; [|by apply IH].
  intros (y & Hy & Hin)%list_elem_of_fmap. apply list_elem_of_filter in Hin as [_ Hin].
  apply Hx, list_elem_of_fmap. by exists y.
Qed.

Lemma torn_imports_elem imps i : i ∈ torn_imports imps ↔ ∃ r, imps !! i = Some r ∧ i_torn_down r = true.
Proof.
  unfold torn_imports. rewrite list_elem_of_fmap. split.
  - intros ([j r] & -> & [Ht Hin]%list_elem_of_filter). apply elem_of_lookup_imap in Hin as (k & x & [= -> ->] & Hk). eauto.
  - intros (r & Hi & Ht). exists (i, r). split; [done|]. apply list_elem_of_filter. split; [done|].
    apply elem_of_lookup_imap. eauto.
Qed.

(** The addresses of the torn imports are free and different. *)
Record torn_free (imps : list IpcImportRecord) (v : cview) : Prop := {
  tf_free : ∀ i r, imps !! i = Some r → i_torn_down r = true → cv_maps v !! i_vaddr r = None;
  tf_apart : ∀ i j ri rj, imps !! i = Some ri → imps !! j = Some rj → i ≠ j →
    i_torn_down ri = true → i_torn_down rj = true → i_vaddr ri ≠ i_vaddr rj
}.

Section ImportBlock.
Context {D : Type} {CD : CuDriver D} {CL : CuLaws D} {CR : CuReliable D} {PF : Platform}
  {SK : Sockets D} {SL : SockLaws D}.
Implicit Types (s : ipc D).

Lemma close_list_spec f t v l : ∀ F s, at_ f t (with_fds F v) s →
  wp (foldM (λ _ fd, drv (close fd)) tt l) (λ _ s', at_ f t (with_fds (delete_all l F) v) s') s.
Proof.
  induction l as [|x l IH]; intros F s Hat; [done|]. cbn [foldM]. apply wp_bind.
  eapply wp_mono; [eapply wp_close; exact Hat|]. intros [] s1 H1. cbv beta in H1. by apply IH.
Qed.

(** The requests [ipc_import_from_shm_block] makes for a block. *)
Definition exchange (block : IpcRebuildShmBlock) : M (ipc D) (gmap nat Z) :=
  foldM request_peer ∅ (group_by (λ ie, owner_pid ie.2) (read_entries block)).

Lemma import_block_spec f t v block s :
  linked f → cv_queue v = [] → at_ f t v s → num_exports block ≠ 0 →
  num_exports block ≤ Z.of_nat (length (entries block)) → torn_free (g_ipc_imports t) v →
  wp (ipc_import_from_shm_block block) (λ n s', ∃ fds new imps' d m h sx,
    let ves := valid_exports fds (read_entries block) in
    exchange block s = Ret fds sx ∧ cv_fds (view sx) = new ∪ cv_fds v ∧
    at_ f (set_imports imps' t) (loop_view d m h (cv_fds v) v) s' ∧ received (cv_fds v) ves new ∧
    progress (g_ipc_imports t) v new (zip ves (torn_imports (g_ipc_imports t))) imps' d m h n) s.
Proof.
  intros Hl Hq Hat Hne Hlen [Hfree Hapart]. unfold ipc_import_from_shm_block.
  rewrite bool_decide_eq_false_2 by done.
  assert (Hsome : ∀ ps : list string, (∀ p, p ∈ ps → p ∈ core_ptrs) → ∀ p, p ∈ ps → is_Some (fns s !! p)).
  { intros ps Hps p Hp. rewrite (proj1 Hat). apply linked_some; auto. }
  apply wp_bind, wp_if_has_yes; [apply Hsome; intros p; set_solver|]. apply wp_ret.
  apply wp_if_has_yes; [apply Hsome; intros p; set_solver|].
  unfold block_entries. rewrite bool_decide_eq_false_2 by lia. apply wp_bind, wp_ret. fold (read_entries block).
  apply wp_bind. fold (exchange block).
  destruct (wp_elim (exchange block) _ _ (requests_spec f t v (read_entries block) s (filter_fst_NoDup _ _) Hat))
    as (fds & s1 & Hxc & new & H1 & Hrec).
  eapply wp_intro; [exact Hxc|]. set (ves := valid_exports fds (read_entries block)) in *.
  apply wp_bind, wp_get. rewrite (proj1 (proj2 H1)). set (torn := torn_imports (g_ipc_imports t)).
  apply wp_bind. eapply wp_mono.
  { apply (rebuild_loop f t v new ves torn (new ∪ cv_fds v) s1 Hl Hq H1).
    - intros i (r & Hi & _)%torn_imports_elem. by exists r.
    - apply filter_fst_NoDup.
    - intros i j ri rj (ri' & Hi & Hti)%torn_imports_elem (rj' & Hj & Htj)%torn_imports_elem Hij Hri Hrj.
      simplify_eq. by apply (Hapart i j).
    - intros i r (r' & Hi & Hti)%torn_imports_elem Hri. simplify_eq. by apply (Hfree i).
    - apply Hrec.
    - intros x Hx. apply (rv_new _ _ _ Hrec) in Hx as [sz Hsz]. split; [done|]. rewrite Hsz. by apply lookup_union_Some_l. }
  intros n s2 (imps' & d & m & h & H2 & Hpg). apply wp_bind.
  eapply wp_mono; [apply (close_list_spec f (set_imports imps' t) (alloc_view d m h v)); exact H2|]. intros [] s3 H3. cbv beta in H3.
  apply wp_ret. exists fds, new, imps', d, m, h, s1. fold ves.
  split; [exact Hxc|]. split; [by rewrite (proj2 (proj2 H1))|]. split; [|done].
  rewrite <- delete_all_app, take_drop, (received_cleared _ _ _ Hrec) in H3. exact H3.
Qed.

End ImportBlock.

(** ** Teardown *)

Section Teardown.
Context {D : Type} {CD : CuDriver D} {CL : CuLaws D} {CR : CuReliable D} {PF : Platform}.
Implicit Types (s : ipc D).

Definition torn_import (r : IpcImportRecord) : IpcImportRecord :=
  if i_torn_down r then r else import_handle 0 (import_torn r).

(** The live imports are mapped, each at an address and with a handle of its own. *)
Record imports_ok (imps : list IpcImportRecord) (v : cview) : Prop := {
  io_mapped : ∀ i r, imps !! i = Some r → i_torn_down r = false →
    (∃ m, cv_maps v !! i_vaddr r = Some m ∧ cm_size m = i_size r) ∧
    (i_handle r ≠ 0 → is_Some (cv_handles v !! i_handle r));
  io_apart : ∀ i j ri rj, imps !! i = Some ri → imps !! j = Some rj → i ≠ j →
    i_vaddr ri ≠ i_vaddr rj ∧ (i_handle ri ≠ 0 → i_handle ri ≠ i_handle rj)
}.

Definition live (r : IpcImportRecord) : bool := negb (i_torn_down r).
(** Device memory that no live import maps is as it was. *)
Definition outside_imports (imps : list IpcImportRecord) (d d' : mem) : Prop :=
  ∀ a, (∀ r, r ∈ imps → live r → ¬ (i_vaddr r ≤ a < i_vaddr r + i_size r)) → d' a = d a.
Definition live_vas (l : list IpcImportRecord) : list Z := i_vaddr <$> filter live l.
Definition live_handles (l : list IpcImportRecord) : list Z :=
  filter (λ h, h ≠ 0) (i_handle <$> filter live l).

Definition torn_off (d : mem) (pre : list IpcImportRecord) (v : cview) : cview :=
  alloc_view d (delete_all (live_vas pre) (cv_maps v)) (delete_all (live_handles pre) (cv_handles v)) v.

Lemma tear_import_step f t v imps pre r post d n s :
  linked f → cv_queue v = [] → imports_ok imps v → imps = pre ++ r :: post →
  at_ f (set_imports ((torn_import <$> pre) ++ r :: post) t) (torn_off d pre v) s →
  outside_imports pre (cv_dev v) d →
  wp (tear_import n (length pre)) (λ n' s', n' = (if i_torn_down r then n else n + 1) ∧
    ∃ d', at_ f (set_imports ((torn_import <$> pre ++ [r]) ++ post) t) (torn_off d' (pre ++ [r]) v) s' ∧
      outside_imports (pre ++ [r]) (cv_dev v) d') s.
Proof.
  intros Hl Hq Hok Hsplit Hat Hod. unfold tear_import. apply wp_bind. eapply import_at_spec.
  { rewrite (proj1 (proj2 Hat)). simpl. apply list_lookup_middle. by rewrite length_fmap. }
  assert (Hr : imps !! length pre = Some r) by (rewrite Hsplit; by apply list_lookup_middle).
  unfold torn_off, live_vas, live_handles in *. rewrite fmap_app, <- app_assoc. cbn [fmap list_fmap app].
  unfold torn_import at 2. destruct (i_torn_down r) eqn:Ht.
  { apply wp_ret. split; [done|]. exists d. rewrite (filter_snoc_false live) by (unfold live; by rewrite Ht).
    split; [exact Hat|]. intros adr Ha. apply Hod. intros r' Hr'. apply Ha. set_solver. }
  rewrite (filter_snoc_true live) by (unfold live; by rewrite Ht). rewrite !fmap_app, filter_app, !delete_all_app.
  cbn [fmap list_fmap]. destruct (io_mapped _ _ Hok _ r Hr Ht) as [(m & Hm & Hsz) Hh].
  assert (Hother : ∀ r', r' ∈ pre → i_vaddr r ≠ i_vaddr r' ∧ (i_handle r ≠ 0 → i_handle r ≠ i_handle r')).
  { intros r' [j Hj]%list_elem_of_lookup. pose proof (lookup_lt_Some _ _ _ Hj).
    apply (io_apart _ _ Hok (length pre) j r r' Hr); [|lia]. rewrite Hsplit, lookup_app_l by lia. done. }
  apply wp_bind. eapply wp_mono.
  { eapply (wp_try_unmap (i_vaddr r) (i_size r) m); [exact Hat|done|done| |done].
    simpl. rewrite delete_all_out; [done|]. intros (r' & Heq & Hin)%list_elem_of_fmap.
    apply list_elem_of_filter in Hin as [_ Hin]. by destruct (Hother r' Hin) as [? _]. }
  intros [] s1 (d' & Hd' & H1). apply wp_bind.
  assert (Hod' : outside_imports (pre ++ [r]) (cv_dev v) d').
  { intros adr Ha. rewrite Hd' by (apply (Ha r); [set_solver|unfold live; by rewrite Ht]). apply Hod. intros r' Hr'. apply Ha. set_solver. }
  assert (Hset : alter (λ r, import_handle 0 (import_torn r)) (length pre) ((torn_import <$> pre) ++ r :: post) =
     (torn_import <$> pre) ++ import_handle 0 (import_torn r) :: post).
  { rewrite <- (length_fmap torn_import pre). apply (alter_middle (λ r, import_handle 0 (import_torn r))). }
  destruct (decide (i_handle r = 0)) as [H0|H0].
  - rewrite bool_decide_eq_false_2 by (by intros []). apply wp_ret, wp_bind.
    eapply wp_track_at; [exact H1|]. intros s2 H2. apply wp_ret. split; [done|]. exists d'.
    cbn [g_ipc_imports set_imports] in H2. rewrite Hset in H2.
    rewrite filter_cons_False, filter_nil by (rewrite H0; by intros []). by split.
  - rewrite bool_decide_eq_true_2 by done. apply wp_bind.
    eapply wp_mono; [eapply wp_real_release; [exact H1|done|]|].
    { simpl. rewrite delete_all_out; [by apply Hh|]. intros [_ (r' & Heq & Hin)%list_elem_of_fmap]%list_elem_of_filter.
      apply list_elem_of_filter in Hin as [_ Hin]. by apply (Hother r' Hin). }
    intros ? s2 H2. cbv beta in H2. apply wp_ret, wp_bind. eapply wp_track_at; [exact H2|]. intros s3 H3.
    apply wp_ret. split; [done|]. exists d'. cbn [g_ipc_imports set_imports] in H3. rewrite Hset in H3.
    rewrite filter_cons_True, filter_nil by done. by split.
Qed.

Lemma teardown_spec f t v s :
  linked f → cv_queue v = [] → imports_ok (g_ipc_imports t) v → at_ f t v s →
  wp ipc_teardown_all_imports (λ n s', n = Z.of_nat (length (filter live (g_ipc_imports t))) ∧ ∃ g d, grows f g ∧
    at_ g (set_imports (torn_import <$> g_ipc_imports t) t) (torn_off d (g_ipc_imports t) v) s' ∧
    outside_imports (g_ipc_imports t) (cv_dev v) d) s.
Proof.
  intros Hl Hq Hok Hat. unfold ipc_teardown_all_imports. apply wp_bind.
  eapply wp_mono; [by apply resolve_helper_fns_grows|]. intros ? s1 (g1 & H1 & Hg1). apply wp_bind.
  eapply wp_mono; [apply (resolve_grows RTLD_DEFAULT ("real_cuMemUnmap", "cuMemUnmap")%string s1 g1 t v); [done|done]|].
  intros ? s2 (g & H2 & Hg2). assert (Hg : grows f g) by (by eapply grows_trans).
  assert (Hlg : linked g) by (by eapply grows_linked).
  apply wp_if_has_yes.
  { intros p ->%list_elem_of_singleton. rewrite (proj1 H2). apply linked_some; [done|set_solver]. }
  apply wp_bind, wp_get. rewrite (proj1 (proj2 H2)). set (imps := g_ipc_imports t) in *.
  eapply wp_mono.
  { apply (wp_foldM_seq imps (λ pre n s', n = Z.of_nat (length (filter live pre)) ∧ ∃ post, imps = pre ++ post ∧
      ∃ d, at_ g (set_imports ((torn_import <$> pre) ++ post) t) (torn_off d pre v) s' ∧ outside_imports pre (cv_dev v) d)).
    - split; [done|]. exists imps. split; [done|]. exists (cv_dev v). unfold imps. cbn [fmap list_fmap app].
      rewrite set_imports_id. unfold torn_off, alloc_view. by destruct v.
    - intros pre r post n s3 Hsplit (-> & post' & Hsp & d & H3 & Ho3). rewrite Hsplit in Hsp. apply app_inv_head in Hsp as <-.
      eapply wp_mono; [eapply (tear_import_step g t v imps pre r post); done|].
      intros n' s4 (-> & d' & H4). split.
      + destruct (i_torn_down r) eqn:Ht.
        * rewrite (filter_snoc_false live) by (unfold live; by rewrite Ht). done.
        * rewrite (filter_snoc_true live) by (unfold live; by rewrite Ht). rewrite length_app. simpl. lia.
      + exists post. split; [by rewrite Hsplit, <- app_assoc|]. by exists d'. }
  intros n s3 (-> & post & Hsp & d & H3 & Ho3). split; [done|]. exists g, d. split; [done|].
  assert (post = []) as ->. { apply (f_equal length) in Hsp. rewrite length_app in Hsp. destruct post; [done|]. simpl in Hsp. lia. }
  by rewrite app_nil_r in H3.
Qed.

End Teardown.
