(* ===== verification/CuSim.v ===== *)
(** A reference driver for the IPC module.

    [cusim] is a concrete [CuDriver]: its state is the abstract view, copies on a
    stream run when the stream is synchronised, handles and fds are fresh.  It
    satisfies [CuLaws], and the concrete instances of the theorems run on it. *)
From S2P Require Import Prelude Common Gpu IpcState IpcDriver Sim.
Open Scope Z_scope.

Definition cusim : Type := cview.

Definition cs_ok (g : cview → cview) : M cusim Z := λ v, Ret 0 (g v).
Definition cs_val (x : Z) : M cusim (Z * Z) := λ v, Ret (0, x) v.

(** Succeed with [g] when [b] holds, else the error [e]. *)
Definition cs_if (b : cview → bool) (g : cview → cview) : M cusim Z := λ v,
  if b v then Ret 0 (g v) else Ret 1 v.

Definition mapped_as (p n : Z) (v : cview) : bool :=
  match cv_maps v !! p with Some m => bool_decide (cm_size m = n) | None => false end.

Definition cs_create (n : Z) : M cusim (Z * Z) := λ v,
  let h := fresh_key (cv_handles v) in Ret (0, h) (with_handles (<[h := n]> (cv_handles v)) v).
Definition cs_map (p n h : Z) : M cusim Z :=
  cs_if (λ v, bool_decide (cv_maps v !! p = None))
    (λ v, with_maps (<[p := MkCMap n h []]> (cv_maps v)) v).
Definition cs_unmap (p n : Z) : M cusim Z := cs_if (mapped_as p n) (λ v, with_maps (delete p (cv_maps v)) v).
Definition cs_release (h : Z) : M cusim Z :=
  cs_if (λ v, bool_decide (is_Some (cv_handles v !! h))) (λ v, with_handles (delete h (cv_handles v)) v).
Definition cs_access (p n : Z) (ds : list access_desc) : M cusim Z := λ v,
  match cv_maps v !! p with
  | Some m => if bool_decide (cm_size m = n) then
      Ret 0 (with_maps (<[p := MkCMap (cm_size m) (cm_handle m) (merge_descs (cm_access m) ds)]> (cv_maps v)) v)
    else Ret 1 v
  | None => Ret 1 v
  end.
Definition cs_export (h : Z) : M cusim (Z * Z) := λ v,
  match cv_handles v !! h with
  | Some n => let fd := fresh_key (cv_fds v) in Ret (0, fd) (with_fds (<[fd := n]> (cv_fds v)) v)
  | None => Ret (1, 0) v
  end.
Definition cs_import (fd : Z) : M cusim (Z * Z) := λ v,
  match cv_fds v !! fd with
  | Some n => let h := fresh_key (cv_handles v) in Ret (0, h) (with_handles (<[h := n]> (cv_handles v)) v)
  | None => Ret (1, 0) v
  end.
Definition cs_copy (x : xfer) : M cusim Z :=
  cs_ok (λ v, with_mems (run_xfer (cv_host v, cv_dev v) x) [] v).
Definition cs_async (x : xfer) : M cusim Z := cs_ok (λ v, advance 0 (push_copy x v)).

#[export] Instance cusim_driver : CuDriver cusim := {|
  cu_view v := v;
  cu_reliable := True;
  cuMemCreate n _ := cs_create n;
  cuMemMap := cs_map;
  cuMemUnmap := cs_unmap;
  cuMemRelease := cs_release;
  cuMemSetAccess := cs_access;
  cuMemExportToShareableHandle h _ := cs_export h;
  cuMemImportFromShareableHandle fd _ := cs_import fd;
  close fd := λ v, Ret tt (with_fds (delete fd (cv_fds v)) v);
  cuDevicePrimaryCtxRetain d := cs_val (d + 1);
  cuDevicePrimaryCtxRelease _ := cs_ok (λ v, v);
  cuCtxCreate _ d := cs_val (d + 1);
  cuCtxDestroy _ := cs_ok (λ v, v);
  cuCtxGetCurrent := λ v, Ret (0, default 0 (head (cv_ctx v))) v;
  cuCtxPushCurrent c := cs_ok (λ v, with_ctx (c :: cv_ctx v) v);
  cuCtxPopCurrent := λ v, Ret (0, default 0 (head (cv_ctx v))) (with_ctx (tail (cv_ctx v)) v);
  cuMemHostRegister _ _ := cs_ok (λ v, v);
  cuMemHostUnregister _ := cs_ok (λ v, v);
  cuStreamCreate := cs_val 1;
  cuStreamSynchronize _ := cs_ok (λ v, with_mems (drained v) [] v);
  cuStreamDestroy _ := cs_ok (λ v, v);
  cuMemcpyDtoHAsync h p n _ := cs_async (MkXfer h p n DeviceToHost);
  cuMemcpyHtoDAsync p h n _ := cs_async (MkXfer p h n HostToDevice);
  cuMemcpyDtoH h p n := cs_copy (MkXfer h p n DeviceToHost);
  cuMemcpyHtoD p h n := cs_copy (MkXfer p h n HostToDevice);
  cudaDeviceEnablePeerAccess _ _ := cs_ok (λ v, v);
  cudaDeviceDisablePeerAccess _ := cs_ok (λ v, v);
  cudaGetLastError := cs_ok (λ v, v);
  cudaPeekAtLastError := cs_ok (λ v, v);
  cudaStreamSynchronize _ := cs_ok (λ v, with_mems (drained v) [] v);
  cudaEventDestroy _ := cs_ok (λ v, v);
  cudaIpcGetEventHandle e := cs_val e;
  cudaIpcOpenEventHandle h := cs_val h;
  launch _ _ := cs_ok (λ v, v)
|}.

#[export] Instance cusim_reliable : CuReliable cusim.
Proof. exact I. Qed.

Lemma cs_ok_law (g : cview → cview) (v : cusim) (cond : Prop) (eff : cview → Prop) :
  eff (g v) → ccall (cs_ok g) v cond eff.
Proof. intros He. by exists 0, (g v). Qed.

Lemma cs_val_law x (v : cusim) (cond : Prop) (eff : Z → cview → Prop) :
  eff x v → ccall2 (cs_val x) v cond eff.
Proof. intros He. by exists 0, x, v. Qed.

Lemma cs_if_law b (g : cview → cview) (v : cusim) (cond : Prop) (eff : cview → Prop) :
  (b v = true → eff (g v)) → (cond → b v = true) → ccall (cs_if b g) v cond eff.
Proof.
  intros He Hc. unfold ccall, cs_if. destruct (b v) eqn:Hb.
  - exists 0, (g v). split_and!; auto. done.
  - exists 1, v. split_and!; [done..|]. intros HC. specialize (Hc HC). congruence.
Qed.

#[export] Instance cusim_laws : CuLaws cusim.
Proof.
  split; try done; try (intros; by apply cs_ok_law); try (intros; by apply cs_val_law).
  - intros v n prop. destruct (fresh_key_spec (cv_handles v)). eexists 0, (fresh_key _), _.
    split_and!; [done| |done|done]. intros _. split_and!; [lia|done|done].
  - intros v p n h Hq. apply cs_if_law.
    + intros Hp%bool_decide_eq_true. exists (cv_dev v). split_and!; [done|exact Hp|]. by destruct v.
    + intros (_ & Hp & _). by apply bool_decide_eq_true.
  - intros v p n Hq. apply cs_if_law; unfold mapped_as.
    + intros Hp. exists (cv_dev v). split_and!; [done| |by destruct v]. simpl.
      by destruct (cv_maps v !! p).
    + intros (m & Hp & Hn). simpl in Hp. rewrite Hp. by apply bool_decide_eq_true.
  - intros v h. apply cs_if_law.
    + intros Hp%bool_decide_eq_true. by split.
    + intros Hp. by apply bool_decide_eq_true.
  - intros v p n ds. unfold ccall. simpl. unfold cs_access. destruct (cv_maps v !! p) as [m|] eqn:Hm.
    + destruct (bool_decide (cm_size m = n)) eqn:Hb.
      * eexists 0, _. split_and!; [done| |done|done]. intros _. by exists m.
      * eexists 1, _. split_and!; [done..|]. intros (_ & m' & Hm' & Hn). simplify_eq.
        by rewrite bool_decide_eq_true_2 in Hb.
    + eexists 1, _. split_and!; [done..|]. by intros (_ & m' & Hm' & _).
  - intros v h ty. unfold ccall2. simpl. unfold cs_export. destruct (cv_handles v !! h) as [n|] eqn:Hh.
    + destruct (fresh_key_spec (cv_fds v)). eexists 0, (fresh_key _), _. split_and!; [done| |done|done].
      intros _. exists n. split_and!; [done|lia|done|done].
    + eexists 1, 0, _. split_and!; [done..|]. by intros [_ [? ?]].
  - intros v fd ty. unfold ccall2. simpl. unfold cs_import. destruct (cv_fds v !! fd) as [n|] eqn:Hh.
    + destruct (fresh_key_spec (cv_handles v)). eexists 0, (fresh_key _), _. split_and!; [done| |done|done].
      intros _. exists n. split_and!; [done|lia|done|done].
    + eexists 1, 0, _. split_and!; [done..|]. by intros [_ [? ?]].
  - intros v fd. eexists. by split.
  - intros v. eexists 0, _, _. split_and!; [done|done|done|done].
  - intros v name args. by exists 0, v.
  - intros v h p n s. apply cs_ok_law. by exists 0%nat.
  - intros v h p n s. apply cs_ok_law. by exists 0%nat.
Qed.

(** A process with nothing allocated yet. *)
Definition cusim_start (h d : mem) : cusim := MkCView h d [] ∅ ∅ ∅ [].
