(* ===== verification/IpcTracking.v ===== *)
(** The tracking tables: what the hooks record.

    Access descriptors behave as a map from location to flags; the index maps always
    point at the record of their address; a release through an alias reaches the
    rebuilt handle; and the pointer a helper resolution leaves behind for
    [cuMemRelease] is the hook itself. *)
From S2P Require Import Prelude Common Gpu IpcState IpcDriver IpcHooks IpcExports IpcRules Sim CuSim.
Open Scope Z_scope.

(** ** Access descriptors as a map *)

Definition desc_key (d : access_desc) : Z * Z := (loc_type d, loc_id d).

(** The flags a descriptor list gives a location: its first entry. *)
Fixpoint find_desc (k : Z * Z) (ds : list access_desc) : option Z :=
  match ds with
  | [] => None
  | d :: ds' => if bool_decide (desc_key d = k) then Some (flags d) else find_desc k ds'
  end.

Lemma find_desc_upsert k d ds :
  find_desc k (upsert d ds) = if bool_decide (desc_key d = k) then Some (flags d) else find_desc k ds.
Proof.
  induction ds as [|x ds IH]; simpl; [done|].
  destruct (bool_decide_reflect (loc_type x = loc_type d ∧ loc_id x = loc_id d)) as [[Ht Hi]|Hne]; simpl.
  - unfold desc_key. simpl. rewrite Ht, Hi. by destruct (bool_decide _).
  - rewrite IH. destruct (bool_decide_reflect (desc_key x = k)) as [<-|Hx]; [|done].
    rewrite bool_decide_eq_false_2; [done|]. unfold desc_key. intros [=]. by apply Hne.
Qed.

(** Merging gives each location its last new flags, or what it had. *)
Lemma find_desc_merge k new : ∀ old,
  find_desc k (merge_descs old new) =
  match find_desc k (rev new) with Some fl => Some fl | None => find_desc k old end.
Proof.
  unfold merge_descs. induction new as [|d new IH]; intros old; simpl; [done|].
  rewrite IH, find_desc_upsert.
  assert (Happ : ∀ l, find_desc k (l ++ [d]) =
     match find_desc k l with Some fl => Some fl | None => find_desc k [d] end).
  { induction l as [|x l IHl]; simpl; [done|]. destruct (bool_decide (desc_key x = k)); [done|]. by rewrite IHl. }
  rewrite Happ. destruct (find_desc k (rev new)); [done|]. simpl. by destruct (bool_decide _).
Qed.

Lemma upsert_keys d ds : desc_key <$> upsert d ds =
  if bool_decide (desc_key d ∈ (desc_key <$> ds)) then desc_key <$> ds else (desc_key <$> ds) ++ [desc_key d].
Proof.
  induction ds as [|x ds IH]; [done|]. cbn [upsert]. rewrite fmap_cons.
  destruct (bool_decide_reflect (loc_type x = loc_type d ∧ loc_id x = loc_id d)) as [[Ht Hi]|Hne].
  - assert (Hk : desc_key d = desc_key x) by (unfold desc_key; by rewrite Ht, Hi).
    rewrite bool_decide_eq_true_2 by (rewrite Hk; left). done.
  - rewrite fmap_cons, IH. destruct (bool_decide_reflect (desc_key d ∈ (desc_key <$> ds))) as [Hin|Hout].
    + rewrite bool_decide_eq_true_2 by (by right). done.
    + rewrite bool_decide_eq_false_2; [done|]. intros [Heq|?]%elem_of_cons; [|done].
      apply Hne. unfold desc_key in Heq. by simplify_eq.
Qed.

Lemma merge_keys_NoDup new : ∀ old, NoDup (desc_key <$> old) → NoDup (desc_key <$> merge_descs old new).
Proof.
  unfold merge_descs. induction new as [|d new IH]; intros old Hnd; simpl; [done|]. apply IH.
  rewrite upsert_keys. destruct (bool_decide_reflect (desc_key d ∈ (desc_key <$> old))) as [|Hout]; [done|].
  apply NoDup_app. split; [done|]. split; [|apply NoDup_singleton].
  intros k Hk ->%list_elem_of_singleton. done.
Qed.

(** The descriptors tracked for an address. *)
Definition tracked (t : ipc_tables) (p : Z) : list access_desc := default [] (g_va_access_descs t !! p).

Lemma track_set_access_descs ptr desc t p :
  tracked (track_set_access ptr desc t) p =
  if bool_decide (p = ptr) then merge_descs (tracked t ptr) desc else tracked t p.
Proof.
  unfold track_set_access, tracked. destruct desc as [|d0 desc].
  { by destruct (bool_decide_reflect (p = ptr)) as [->|]. }
  assert (Hd : ∀ t', g_va_access_descs (match g_vaddr_to_export_idx t' !! ptr with
     | Some idx => set_exports (alter (export_access d0) idx (g_ipc_exports t')) t' | None => t' end)
     = g_va_access_descs t') by (intros t'; by destruct (g_vaddr_to_export_idx t' !! ptr)).
  rewrite Hd. destruct (g_vaddr_to_import_idx _ !! ptr); cbn;
    (destruct (bool_decide_reflect (p = ptr)) as [->|Hne];
     [by rewrite lookup_insert_eq|by rewrite lookup_insert_ne]).
Qed.

(** ** The index maps *)

(** What a hook records, as one step on the tables. *)
Inductive tracked_op :=
  | OpCreate (h size : Z) (prop : alloc_prop)
  | OpExport (h ty fd : Z)
  | OpImport (h : Z)
  | OpMap (ptr size h : Z)
  | OpUnmap (ptr : Z)
  | OpRelease (h a : Z)
  | OpSetAccess (ptr : Z) (desc : list access_desc).

Definition track_op (op : tracked_op) (t : ipc_tables) : ipc_tables :=
  match op with
  | OpCreate h size prop => track_create h size prop t
  | OpExport h ty fd => track_export h ty fd t
  | OpImport h => track_import h t
  | OpMap ptr size h => track_map ptr size h t
  | OpUnmap ptr => track_unmap ptr t
  | OpRelease h a => track_release h a t
  | OpSetAccess ptr desc => track_set_access ptr desc t
  end.

(** An index map entry points at a record of that address. *)
Record indexed_ok (t : ipc_tables) : Prop := {
  ix_import : ∀ p i, g_vaddr_to_import_idx t !! p = Some i →
    ∃ r, g_ipc_imports t !! i = Some r ∧ i_vaddr r = p;
  ix_export : ∀ p i, g_vaddr_to_export_idx t !! p = Some i →
    ∃ r, g_ipc_exports t !! i = Some r ∧ mapped_vaddr r = p ∧ has_mapping r = true;
  ix_descs : ∀ p, NoDup (desc_key <$> tracked t p)
}.

(** A change of the records that keeps addresses keeps the invariant. *)
Lemma indexed_ok_imports t (f : list IpcImportRecord → list IpcImportRecord) :
  indexed_ok t → (∀ i r, g_ipc_imports t !! i = Some r →
     ∃ r', f (g_ipc_imports t) !! i = Some r' ∧ i_vaddr r' = i_vaddr r) →
  indexed_ok (set_imports (f (g_ipc_imports t)) t).
Proof.
  intros [Hi He Hd] Hf. split; [|exact He|exact Hd]. intros p i (r & Hr & <-)%Hi.
  destruct (Hf i r Hr) as (r' & Hr' & Hv). by exists r'.
Qed.

Lemma indexed_ok_exports t (f : list IpcExportRecord → list IpcExportRecord) :
  indexed_ok t → (∀ i r, g_ipc_exports t !! i = Some r →
     ∃ r', f (g_ipc_exports t) !! i = Some r' ∧ mapped_vaddr r' = mapped_vaddr r ∧ has_mapping r' = has_mapping r) →
  indexed_ok (set_exports (f (g_ipc_exports t)) t).
Proof.
  intros [Hi He Hd] Hf. split; [exact Hi| |exact Hd]. intros p i (r & Hr & <- & Hm)%He.
  destruct (Hf i r Hr) as (r' & Hr' & Hv & Hm'). exists r'. split; [done|]. split; [done|congruence].
Qed.

Lemma alter_keeps {A} (P : A → A → Prop) (g : A → A) j (l : list A) i x :
  (∀ x, P x x) → (∀ x, P x (g x)) → l !! i = Some x → ∃ x', alter g j l !! i = Some x' ∧ P x x'.
Proof.
  intros Hr Hg Hi. destruct (decide (i = j)) as [->|Hne].
  - exists (g x). by rewrite list_lookup_alter_eq, Hi.
  - exists x. by rewrite list_lookup_alter_ne.
Qed.

Lemma fmap_keeps {A} (P : A → A → Prop) (g : A → A) (l : list A) i x :
  (∀ x, P x (g x)) → l !! i = Some x → ∃ x', (g <$> l) !! i = Some x' ∧ P x x'.
Proof. intros Hg Hi. exists (g x). by rewrite list_lookup_fmap, Hi. Qed.

Lemma track_unmap_ok ptr t : indexed_ok t → indexed_ok (track_unmap ptr t).
Proof.
  intros Ht. unfold track_unmap. destruct (g_vaddr_to_import_idx t !! ptr) as [j|]; [|done].
  apply (indexed_ok_imports t (alter import_torn j)); [done|]. intros i r Hi.
  by apply (alter_keeps (λ r r', i_vaddr r' = i_vaddr r)).
Qed.

Lemma cleanup_handle_ok h t : indexed_ok t → indexed_ok (cleanup_handle h t).
Proof.
  intros Ht. unfold cleanup_handle.
  set (t1 := match g_handle_to_va t !! h with Some va => _ | None => t end).
  assert (H1 : indexed_ok t1).
  { unfold t1. destruct (g_handle_to_va t !! h) as [va|]; [|done]. destruct Ht as [Hi He Hd].
    split; [exact Hi| |].
    - intros p i. simpl. rewrite lookup_delete_Some. intros [_ Hp]. by apply He.
    - intros p. unfold tracked. simpl. destruct (decide (p = va)) as [->|Hne].
      + rewrite lookup_delete_eq. constructor.
      + rewrite lookup_delete_ne by done. apply Hd. }
  assert (H2 : indexed_ok (set_imported (g_imported_handles (set_created (delete h (g_created_allocs t1)) t1) ∖ {[h]})
                 (set_created (delete h (g_created_allocs t1)) t1))).
  { destruct H1 as [Hi He Hd]. by split. }
  set (t2 := set_imported _ _) in H2 |- *.
  assert (H3 := indexed_ok_imports t2 (λ l, (λ r, if bool_decide (i_handle r = h) then import_handle 0 r else r) <$> l) H2).
  specialize (H3 ltac:(intros i r Hi; apply (fmap_keeps (λ r r', i_vaddr r' = i_vaddr r)); [|done];
                       intros x; by destruct (bool_decide _))).
  set (t3 := set_imports _ _) in H3 |- *.
  assert (H4 := indexed_ok_exports t3 (λ l, (λ r, if bool_decide (local_handle r = h) then export_handle 0 r else r) <$> l) H3).
  specialize (H4 ltac:(intros i r Hi;
    apply (fmap_keeps (λ r r', mapped_vaddr r' = mapped_vaddr r ∧ has_mapping r' = has_mapping r)); [|done];
    intros x; by destruct (bool_decide _))).
  destruct H4 as [Hi He Hd]. by split.
Qed.

Lemma track_release_ok h a t : indexed_ok t → indexed_ok (track_release h a t).
Proof.
  intros Ht. unfold track_release. pose proof (cleanup_handle_ok h t Ht) as H1.
  assert (H2 : indexed_ok (if bool_decide (a ≠ h) then cleanup_handle a (cleanup_handle h t) else cleanup_handle h t)).
  { destruct (bool_decide _); [by apply cleanup_handle_ok|done]. }
  destruct H2 as [Hi He Hd]. by split.
Qed.

(** The loop of [hook_cuMemMap] over the exports, from index [k]. *)
Lemma map_exports_spec h ptr size es : ∀ k idx,
  (∀ j r, es !! j = Some r → ∃ r', (map_exports h ptr size k es idx).1 !! j = Some r' ∧
     (r' = r ∨ has_mapping r = false ∧ r' = export_mapped ptr size r)) ∧
  (∀ p i, (map_exports h ptr size k es idx).2 !! p = Some i → idx !! p = Some i ∨
     p = ptr ∧ ∃ j r', i = (k + j)%nat ∧ (map_exports h ptr size k es idx).1 !! j = Some r' ∧
       mapped_vaddr r' = ptr ∧ has_mapping r' = true).
Proof.
  induction es as [|e es IH]; intros k idx; simpl; [split; [done|by left]|].
  destruct (bool_decide (local_handle e = h) && negb (has_mapping e)) eqn:Hb; simpl.
  - apply andb_prop in Hb as [_ Hm%negb_true_iff].
    destruct (IH (S k) (<[ptr := k]> idx)) as [IHr IHi]. split.
    + intros [|j] r Hj; simpl in *; [|by apply IHr]. simplify_eq. exists (export_mapped ptr size r). auto.
    + intros p i Hp. destruct (IHi p i Hp) as [Hin|(-> & j & r' & -> & Hr)].
      * apply lookup_insert_Some in Hin as [[<- <-]|[_ Hin]]; [|by left].
        right. split; [done|]. exists 0%nat, (export_mapped ptr size e). by rewrite Nat.add_0_r.
      * right. split; [done|]. exists (S j), r'. split; [lia|done].
  - destruct (IH (S k) idx) as [IHr IHi]. split.
    + intros [|j] r Hj; simpl in *; [|by apply IHr]. simplify_eq. exists r. auto.
    + intros p i Hp. destruct (IHi p i Hp) as [Hin|(-> & j & r' & -> & Hr)]; [by left|].
      right. split; [done|]. exists (S j), r'. split; [lia|done].
Qed.

Lemma track_create_ok h size prop t : indexed_ok t → indexed_ok (track_create h size prop t).
Proof. intros [Hi He Hd]. unfold track_create. by destruct (bool_decide _). Qed.

Lemma track_import_ok h t : indexed_ok t → indexed_ok (track_import h t).
Proof. by intros [Hi He Hd]. Qed.

Lemma track_export_ok h ty fd t : indexed_ok t → indexed_ok (track_export h ty fd t).
Proof.
  intros [Hi He Hd]. unfold track_export.
  set (rec := new_export h ty fd t).
  assert (Hold : ∀ p i, g_vaddr_to_export_idx t !! p = Some i →
    ∃ r, (g_ipc_exports t ++ [rec]) !! i = Some r ∧ mapped_vaddr r = p ∧ has_mapping r = true).
  { intros p i (r & Hr & ? & ?)%He. exists r. rewrite lookup_app_l; [done|]. by eapply lookup_lt_Some. }
  destruct (has_mapping rec) eqn:Hm; (split; [exact Hi| |exact Hd]); simpl; [|exact Hold].
  intros p i [[<- <-]|[_ Hp]]%lookup_insert_Some; [|by apply Hold].
  exists rec. split; [by apply list_lookup_middle|done].
Qed.

Lemma track_map_ok ptr size h t : indexed_ok t → indexed_ok (track_map ptr size h t).
Proof.
  intros Ht. unfold track_map.
  set (t1 := if bool_decide (h ∈ g_imported_handles t) then _ else t).
  assert (H1 : indexed_ok t1).
  { unfold t1. destruct (bool_decide _); [|done]. destruct Ht as [Hi He Hd]. split; [|exact He|exact Hd].
    simpl. intros p i [[<- <-]|[_ Hp]]%lookup_insert_Some.
    - eexists. split; [by apply list_lookup_middle|done].
    - destruct (Hi p i Hp) as (r & Hr & ?). exists r. rewrite lookup_app_l; [done|]. by eapply lookup_lt_Some. }
  clearbody t1. destruct (bool_decide _); [|done]. destruct H1 as [Hi He Hd]. split; [exact Hi| |exact Hd]. simpl.
  destruct (map_exports_spec h ptr size (g_ipc_exports t1) 0 (g_vaddr_to_export_idx t1)) as [Hr Hx].
  intros p i [Hp|(-> & j & r' & -> & ? & ? & ?)]%Hx; [|by exists r'].
  destruct (He p i Hp) as (r & Hri & <- & Hm).
  destruct (Hr i r Hri) as (r' & Hr' & [->|[Hn _]]); [by exists r|congruence].
Qed.

Lemma track_set_access_ok ptr desc t : indexed_ok t → indexed_ok (track_set_access ptr desc t).
Proof.
  intros Ht.
  assert (Hd : ∀ p, NoDup (desc_key <$> tracked (track_set_access ptr desc t) p)).
  { intros p. rewrite track_set_access_descs. destruct (bool_decide _); [|apply Ht].
    apply merge_keys_NoDup, Ht. }
  cut (indexed_ok (set_descs (g_va_access_descs t) (track_set_access ptr desc t))).
  { intros [Hi He _]. by split. }
  unfold track_set_access in *. destruct desc as [|d0 desc]; [by destruct t|]. clear Hd.
  set (t1 := set_descs _ t). set (t2 := match g_vaddr_to_import_idx t1 !! ptr with Some idx => _ | None => t1 end).
  assert (H2 : indexed_ok (set_descs (g_va_access_descs t) t2)).
  { unfold t2. destruct (g_vaddr_to_import_idx t1 !! ptr) as [j|]; [|by destruct t].
    apply (indexed_ok_imports t (alter _ j)); [done|]. intros i r Hi.
    by apply (alter_keeps (λ r r', i_vaddr r' = i_vaddr r)). }
  destruct (g_vaddr_to_export_idx t2 !! ptr) as [j|]; [|done].
  apply (indexed_ok_exports (set_descs (g_va_access_descs t) t2) (alter _ j)); [done|]. intros i r Hi.
  by apply (alter_keeps (λ r r', mapped_vaddr r' = mapped_vaddr r ∧ has_mapping r' = has_mapping r)).
Qed.

Lemma track_op_ok op t : indexed_ok t → indexed_ok (track_op op t).
Proof.
  destruct op; simpl; auto using track_create_ok, track_export_ok, track_import_ok, track_map_ok,
    track_unmap_ok, track_release_ok, track_set_access_ok.
Qed.

Lemma indexed_ok_start : indexed_ok ipc_start.
Proof.
  split; [intros p i Hp; simpl in Hp; by rewrite lookup_empty in Hp..|]. intros p. unfold tracked. simpl.
  rewrite lookup_empty. constructor.
Qed.

(** ** The hooks *)

(** An application's call of a hooked function. *)
Inductive hook_call :=
  | HCreate (size : Z) (prop : alloc_prop)
  | HExport (h ty : Z)
  | HImport (fd ty : Z)
  | HMap (ptr size h : Z)
  | HUnmap (ptr size : Z)
  | HRelease (h : Z)
  | HSetAccess (ptr size : Z) (desc : list access_desc).

Section Hooks.
Context {D : Type} {CD : CuDriver D} {CL : CuLaws D} {PF : Platform}.
Implicit Types (s : ipc D).

Definition run_hook (c : hook_call) : M (ipc D) unit :=
  match c with
  | HCreate size prop => _ ← hook_cuMemCreate size prop; mret tt
  | HExport h ty => _ ← hook_cuMemExportToShareableHandle h ty; mret tt
  | HImport fd ty => _ ← hook_cuMemImportFromShareableHandle fd ty; mret tt
  | HMap ptr size h => _ ← hook_cuMemMap ptr size h; mret tt
  | HUnmap ptr size => _ ← hook_cuMemUnmap ptr size; mret tt
  | HRelease h => _ ← hook_cuMemRelease h; mret tt
  | HSetAccess ptr size desc => _ ← hook_cuMemSetAccess ptr size desc; mret tt
  end.

Lemma hooked_real {A} n p (real : M D A) post null s : fns s !! p = Some Real →
  hooked n p real post null s = (r ← drv real; _ ← post r; mret r) s.
Proof. intros Hp. destruct n; cbn [hooked]; unfold mbind, M_bind, get; by rewrite Hp. Qed.

Lemma release_hook_real n h s : fns s !! "fn_cuMemRelease"%string = Some Real →
  release_hook n h s =
  (res ← drv (cuMemRelease (actual_handle h (tb s)));
   _ ← (if bool_decide (res = CUDA_SUCCESS) then track (track_release h (actual_handle h (tb s))) else mret tt);
   mret res) s.
Proof.
  intros Hp. destruct n; cbn [release_hook]; unfold mbind, M_bind, get, if_has, non_null, mret, M_ret;
    cbn [forallb]; rewrite Hp; simpl; by rewrite Hp.
Qed.

(** A hook on the driver's function: one driver call, whose result it returns, and on
    success one step on the tables. *)
Lemma hook_step {A} n p (real : M D A) (err : A → Z) (op : A → ipc_tables → ipc_tables) null s r d :
  fns s !! p = Some Real → real (cu s) = Ret r d →
  hooked n p real (λ r, on_success (err r) (op r)) null s =
  Ret r (if bool_decide (err r = CUDA_SUCCESS) then set_tb (op r (tb s)) (set_cu d s) else set_cu d s).
Proof.
  intros Hp Hr. rewrite hooked_real by done. unfold mbind, M_bind, drv, zoom, on_success, track, modify, mret, M_ret.
  rewrite Hr. by destruct (bool_decide _).
Qed.


(** What every hook keeps: the driver's pointers, no pending copy, indexed tables. *)
Definition tracking_inv s : Prop := linked (fns s) ∧ cv_queue (cu_view (cu s)) = [] ∧ indexed_ok (tb s).

Lemma hook_keeps1 n p (real : M D Z) op s cond eff :
  p ∈ core_ptrs → tracking_inv s → ccall real (cu s) cond eff →
  (∀ v, eff v → cv_queue v = cv_queue (cu_view (cu s))) → (∀ r t, indexed_ok t → indexed_ok (op r t)) →
  wp (hooked n p real (λ r, on_success r (op r)) CUDA_ERROR_NOT_INITIALIZED) (λ _ s', tracking_inv s') s.
Proof.
  intros Hp (Hl & Hq & Hix) (r & d & Hm & He & Hn & _) Hv Hop.
  eapply wp_intro; [by apply (hook_step n p real (λ r, r) op _ s r d); [apply Hl|]|].
  assert (Hd : cv_queue (cu_view d) = []).
  { rewrite <- Hq. destruct (decide (r = 0)) as [->|Hr]; [apply Hv; auto|by rewrite Hn]. }
  destruct (bool_decide _); split_and!; simpl; auto.
Qed.

Lemma hook_keeps2 n p (real : M D (Z * Z)) op s cond eff null :
  p ∈ core_ptrs → tracking_inv s → ccall2 real (cu s) cond eff →
  (∀ x v, eff x v → cv_queue v = cv_queue (cu_view (cu s))) → (∀ r t, indexed_ok t → indexed_ok (op r t)) →
  wp (hooked n p real (λ r, on_success r.1 (op r)) null) (λ _ s', tracking_inv s') s.
Proof.
  intros Hp (Hl & Hq & Hix) (r & x & d & Hm & He & Hn & _) Hv Hop.
  eapply wp_intro; [by apply (hook_step n p real (λ r, r.1) op _ s (r, x) d); [apply Hl|]|].
  assert (Hd : cv_queue (cu_view d) = []).
  { rewrite <- Hq. destruct (decide (r = 0)) as [->|Hr]; [apply (Hv x); auto|by rewrite Hn]. }
  destruct (bool_decide _); split_and!; simpl; auto.
Qed.

Lemma run_hook_keeps c s : tracking_inv s → wp (run_hook c) (λ _ s', tracking_inv s') s.
Proof.
  intros Hs. assert (Hq : cv_queue (cu_view (cu s)) = []) by apply Hs.
  destruct c; simpl; apply wp_bind; (eapply wp_mono; [|intros ? s' Hs'; cbv beta in Hs'; exact Hs']).
  - eapply (hook_keeps2 _ _ _ (λ r, track_create r.2 size prop)); [set_solver|done|apply cuMemCreate_law| |].
    + by intros x v (_ & _ & ->).
    + intros. by apply track_create_ok.
  - eapply (hook_keeps2 _ _ _ (λ r, track_export h ty r.2)); [set_solver|done|apply cuMemExport_law| |].
    + by intros x v (? & _ & _ & _ & ->).
    + intros. by apply track_export_ok.
  - eapply (hook_keeps2 _ _ _ (λ r, track_import r.2)); [set_solver|done|apply cuMemImport_law| |].
    + by intros x v (? & _ & _ & _ & ->).
    + intros. by apply track_import_ok.
  - eapply (hook_keeps1 _ _ _ (λ _, track_map ptr size h)); [set_solver|done|by apply cuMemMap_law| |].
    + by intros v (? & _ & _ & ->).
    + intros. by apply track_map_ok.
  - eapply (hook_keeps1 _ _ _ (λ _, track_unmap ptr)); [set_solver|done|by apply cuMemUnmap_law| |].
    + by intros v (? & _ & _ & ->).
    + intros. by apply track_unmap_ok.
  - destruct Hs as (Hl & _ & Hix). unfold hook_cuMemRelease, wp.
    rewrite release_hook_real by (apply Hl; set_solver). set (a := actual_handle h (tb s)).
    destruct (cuMemRelease_law (cu s) a) as (r & d & Hm & He & Hn & _).
    unfold mbind, M_bind, drv, zoom, track, modify, mret, M_ret. rewrite Hm.
    assert (Hd : cv_queue (cu_view d) = []).
    { rewrite <- Hq. destruct (decide (r = 0)) as [->|Hr]; [|by rewrite Hn].
      destruct (He eq_refl) as [_ ->]. done. }
    destruct (bool_decide _); split_and!; simpl; auto. by apply track_release_ok.
  - eapply (hook_keeps1 _ _ _ (λ _, track_set_access ptr desc)); [set_solver|done|apply cuMemSetAccess_law| |].
    + by intros v (? & _ & ->).
    + intros. by apply track_set_access_ok.
Qed.

End Hooks.

(** C27: the tracking tables stay consistent.  Whatever sequence of hooked calls an
    application makes, each an error or a success, every entry of the two index maps
    points at a record of its own address, and no address has two descriptors for one
    location. *)
Theorem tables_stay_indexed {D} {CD : CuDriver D} {CL : CuLaws D} {PF : Platform} (calls : list hook_call)
    (s : ipc D) :
  linked (fns s) → cv_queue (cu_view (cu s)) = [] → indexed_ok (tb s) →
  ∃ s', foldM (λ _ c, run_hook c) tt calls s = Ret tt s' ∧ indexed_ok (tb s').
Proof.
  intros Hl Hq Hix.
  destruct (wp_elim _ _ _ (wp_foldM (λ _ _ s, tracking_inv s) (λ _ c, run_hook c) calls tt s
    (conj Hl (conj Hq Hix)) (λ _ c _ _ s' _ Hs, run_hook_keeps c s' Hs))) as ([] & s' & Hr & Hs').
  exists s'. split; [exact Hr|]. apply Hs'.
Qed.

(** A hooked [cuMemSetAccess] updates the tracked descriptors as a map.  On success
    a location named by the call gets the flags of its last descriptor there, every
    other location and address keeps what it had; on failure nothing changes. *)
Theorem set_access_updates_map {D} {CD : CuDriver D} {PF : Platform} (s : ipc D) ptr size desc r d :
  fns s !! "real_cuMemSetAccess"%string = Some Real → cuMemSetAccess ptr size desc (cu s) = Ret r d →
  ∃ s', hook_cuMemSetAccess ptr size desc s = Ret r s' ∧
    (r ≠ 0 → tb s' = tb s) ∧
    (r = 0 → ∀ p k, find_desc k (tracked (tb s') p) =
       if bool_decide (p = ptr) then
         match find_desc k (rev desc) with Some fl => Some fl | None => find_desc k (tracked (tb s) ptr) end
       else find_desc k (tracked (tb s) p)).
Proof.
  intros Hp Hr. eexists. split.
  { apply (hook_step stack_depth _ _ (λ r, r) (λ _, track_set_access ptr desc)); done. }
  split.
  - intros Hne. by rewrite bool_decide_eq_false_2.
  - intros -> p k. rewrite bool_decide_eq_true_2 by done. simpl. rewrite track_set_access_descs.
    destruct (bool_decide_reflect (p = ptr)) as [->|]; [|done]. apply find_desc_merge.
Qed.

Lemma cleanup_handle_tables h t :
  g_created_allocs (cleanup_handle h t) = delete h (g_created_allocs t) ∧
  g_handle_to_va (cleanup_handle h t) = delete h (g_handle_to_va t) ∧
  g_rebuilt_handle_alias (cleanup_handle h t) = g_rebuilt_handle_alias t.
Proof.
  unfold cleanup_handle. destruct (g_handle_to_va t !! h) as [va|] eqn:Hv; cbn; [done|].
  split; [done|]. split; [|done]. by rewrite delete_id.
Qed.

(** A release through an alias frees the rebuilt handle.  When the application
    releases the handle [h] it was first given, the driver is asked to release the
    handle [a] of the rebuilt allocation, and neither is tracked any more; aliases of
    other handles stay. *)
Theorem release_follows_alias {D} {CD : CuDriver D} {PF : Platform} (s : ipc D) h a d :
  fns s !! "fn_cuMemRelease"%string = Some Real → g_rebuilt_handle_alias (tb s) !! h = Some a →
  cuMemRelease a (cu s) = Ret 0 d →
  ∃ s', hook_cuMemRelease h s = Ret 0 s' ∧ cu s' = d ∧
    g_created_allocs (tb s') !! h = None ∧ g_created_allocs (tb s') !! a = None ∧
    g_handle_to_va (tb s') !! h = None ∧ g_handle_to_va (tb s') !! a = None ∧
    g_rebuilt_handle_alias (tb s') !! h = None ∧
    (∀ k b, k ≠ h → k ≠ a → b ≠ h → b ≠ a → g_rebuilt_handle_alias (tb s) !! k = Some b →
       g_rebuilt_handle_alias (tb s') !! k = Some b).
Proof.
  intros Hp Ha Hr. unfold hook_cuMemRelease. rewrite release_hook_real by done.
  unfold actual_handle. rewrite Ha. simpl.
  unfold mbind, M_bind, drv, zoom, track, modify, mret, M_ret. rewrite Hr. simpl.
  eexists. split; [done|]. split; [done|]. simpl. unfold track_release.
  destruct (cleanup_handle_tables h (tb s)) as (Hc1 & Hv1 & Ha1).
  destruct (cleanup_handle_tables a (cleanup_handle h (tb s))) as (Hc2 & Hv2 & Ha2).
  set (t2 := if bool_decide (a ≠ h) then _ else _).
  assert (Ht2 : g_created_allocs t2 !! h = None ∧ g_created_allocs t2 !! a = None ∧
    g_handle_to_va t2 !! h = None ∧ g_handle_to_va t2 !! a = None ∧
    g_rebuilt_handle_alias t2 = g_rebuilt_handle_alias (tb s)).
  { unfold t2. destruct (bool_decide_reflect (a ≠ h)) as [Hne|Heq].
    - rewrite Hc2, Hv2, Ha2, Hc1, Hv1, Ha1.
      rewrite !(lookup_delete_ne _ a h), !lookup_delete_eq by done. done.
    - assert (a = h) as -> by (destruct (decide (a = h)); [done|by destruct Heq]).
      rewrite Hc1, Hv1, Ha1, !lookup_delete_eq. done. }
  clearbody t2. destruct Ht2 as (? & ? & ? & ? & Hal). simpl. split_and!; try done.
  - apply map_lookup_filter_None. right. intros b _ (Hb & _). done.
  - intros k b Hk1 Hk2 Hb1 Hb2 Hkb. rewrite Hal. by apply map_lookup_filter_Some.
Qed.

(** ** Concrete instances *)

#[export] Instance track_platform : Platform := {|
  real_dlsym h _ := Some (if bool_decide (h = RTLD_NEXT) then Real else Ours); stack_depth := 100; getpid := 4242
|}.

Definition linked_fns : gmap string fnptr := list_to_map ((λ p, (p, Real)) <$> core_ptrs).

Lemma linked_fns_ok : linked linked_fns.
Proof.
  intros p Hp. assert (Hall : forallb (λ p, bool_decide (linked_fns !! p = Some Real)) core_ptrs = true)
    by (vm_compute; reflexivity).
  rewrite forallb_forall in Hall. apply list_elem_of_In, Hall in Hp. by apply bool_decide_eq_true in Hp.
Qed.

Definition fresh_ipc : ipc cusim :=
  MkIpcSt (cusim_start (λ _, 0) (λ a, a)) ipc_start linked_fns ∅ ∅ [] 0.

Definition some_calls : list hook_call :=
  [HCreate 64 (MkProp 1 0); HMap 4096 64 1; HSetAccess 4096 64 [MkDesc 1 0 3; MkDesc 1 1 3];
   HExport 1 1; HImport 1 1; HMap 8192 64 2; HUnmap 8192 64; HRelease 2].

Lemma tables_stay_indexed_witness : ∃ s',
  foldM (λ _ c, run_hook c) tt some_calls fresh_ipc = Ret tt s' ∧ indexed_ok (tb s').
Proof. exact (tables_stay_indexed some_calls fresh_ipc linked_fns_ok eq_refl indexed_ok_start). Defined.

Definition mapped_ipc : ipc cusim :=
  set_cu (with_maps (<[4096 := MkCMap 64 1 []]> ∅) (cusim_start (λ _, 0) (λ a, a)))
    (set_tb (track_set_access 4096 [MkDesc 1 0 1; MkDesc 2 0 3] ipc_start) fresh_ipc).

Lemma set_access_updates_map_witness : ∃ s',
  hook_cuMemSetAccess 4096 64 [MkDesc 1 0 3; MkDesc 1 1 3] mapped_ipc = Ret 0 s' ∧
  find_desc (1, 0) (tracked (tb s') 4096) = Some 3 ∧ find_desc (2, 0) (tracked (tb s') 4096) = Some 3.
Proof.
  destruct (set_access_updates_map mapped_ipc 4096 64 [MkDesc 1 0 3; MkDesc 1 1 3] 0 _
    ltac:(vm_compute; reflexivity) eq_refl) as (s' & Hs & _ & Hf).
  exists s'. split; [exact Hs|]. rewrite !(Hf eq_refl). vm_compute. done.
Defined.

Definition aliased_ipc : ipc cusim :=
  set_cu (with_handles (<[5 := 64]> ∅) (cusim_start (λ _, 0) (λ a, a)))
    (set_tb (set_alias (<[1 := 5]> (<[2 := 6]> ∅)) ipc_start) fresh_ipc).

Lemma release_follows_alias_witness : ∃ s',
  hook_cuMemRelease 1 aliased_ipc = Ret 0 s' ∧ g_rebuilt_handle_alias (tb s') !! 2 = Some 6.
Proof.
  destruct (release_follows_alias aliased_ipc 1 5 _ ltac:(vm_compute; reflexivity) eq_refl eq_refl)
    as (s' & Hs & _ & _ & _ & _ & _ & _ & Hk).
  exists s'. split; [exact Hs|]. by apply Hk.
Defined.


