(* ===== verification/IpcTheorems.v ===== *)
(** Properties of the IPC module.

    The theorems about [src/src/ipc_hooks.cpp]: exported memory survives a save and a
    rebuild, the tracking tables, the alias of a rebuilt handle, the publication of
    exports, the teardown and rebuild of imports, peer access and the launch hooks.
    Each comes with a concrete instance on the reference driver [CuSim]. *)
From S2P Require Import Prelude Common Gpu Copies IpcState IpcDriver IpcHooks LaunchHooks IpcExports IpcRules IpcSave IpcRebuild IpcRoundtrip Sim CuSim IpcTracking.
Open Scope Z_scope.

(** ** Exports *)

(** What may happen between a save and a rebuild: anything but a change of the tables,
    the function pointers, the saved bytes or the addresses kept free. *)
Record undisturbed {D} `{CuDriver D} (hb n : Z) (s1 s2 : ipc D) : Prop := {
  un_fns : fns s2 = fns s1;
  un_tb : tb s2 = tb s1;
  un_idle : cv_queue (view s2) = [];
  un_host : ∀ a, hb ≤ a < hb + n → cv_host (view s2) a = cv_host (view s1) a;
  un_maps : ∀ p, cv_maps (view s1) !! p = None → cv_maps (view s2) !! p = None
}.

Definition saved_total (es : list IpcExportRecord) : Z := sum_by mapped_size (filter saves es).
Definition saved_count (es : list IpcExportRecord) : Z := Z.of_nat (length (filter saves es)).

Lemma parked_undisturbed {D} `{CuDriver D} es hb dev (s1 s2 : ipc D) :
  undisturbed hb (saved_total es) s1 s2 → parked_exports es hb dev (tb s1) (view s1) →
  parked_exports es hb dev (tb s2) (view s2).
Proof.
  intros [Hf Ht Hi Hh Hm] [Hl Hr Ho Hb Hu Hq]. split; try (rewrite Ht); try done.
  - intros x j Hx Hj. rewrite Hh; [by apply Hb|]. destruct x as [ir o].
    pose proof (with_offsets_bounds isize 0 _ _ _ (isize_nonneg es) Hx) as Hbd.
    rewrite save_order_sum in Hbd. unfold isize, saved_total in *. simpl in *. lia.
  - intros x Hx. apply Hm. by apply Hu.
Qed.

(** C3: the contents of every mapped export survive a checkpoint.
    [ipc_save_and_teardown_all_exports] succeeds, unmaps and releases every mapped
    export, and a later [ipc_rebuild_and_restore_all_exports] puts each one back at its
    address with a new handle, an open fd, the tracked access and its bytes, whatever
    the devices they live on and whatever happened in between to the rest. *)
Theorem export_roundtrip {D} {CD : CuDriver D} {CL : CuLaws D} {CR : CuReliable D} {PF : Platform}
    (s : ipc D) (hb buf_size : Z) :
  linked (fns s) → cv_queue (view s) = [] → exports_ok (g_ipc_exports (tb s)) (view s) →
  saved_total (g_ipc_exports (tb s)) ≤ buf_size →
  ∃ s1, ipc_save_and_teardown_all_exports hb buf_size s = Ret (saved_count (g_ipc_exports (tb s))) s1 ∧
    cv_queue (view s1) = [] ∧
    (∀ r, r ∈ g_ipc_exports (tb s) → saves r → cv_maps (view s1) !! mapped_vaddr r = None ∧
       cv_handles (view s1) !! local_handle r = None) ∧
    ∀ s2, undisturbed hb (saved_total (g_ipc_exports (tb s))) s1 s2 →
    ∃ s3, ipc_rebuild_and_restore_all_exports hb buf_size s2 = Ret (saved_count (g_ipc_exports (tb s))) s3 ∧
      ∀ i r, g_ipc_exports (tb s) !! i = Some r → saves r →
        export_restored (cv_dev (view s)) (tb s) (tb s3) (view s3) i r.
Proof.
  intros Hl Hq Hok Hbuf. set (es := g_ipc_exports (tb s)) in *.
  assert (Hat : at_ (fns s) (tb s) (view s) s) by done.
  destruct (wp_elim _ _ _ (save_parks _ _ _ hb buf_size s Hat Hl Hq Hok Hbuf))
    as (n & s1 & Hrun & -> & g & t1 & v1 & (<- & <- & <-) & Hg & Ht1 & Hpk & Hout & Hh & Hfd).
  exists s1. split; [exact Hrun|]. split; [apply Hpk|]. split.
  { intros r [i Hi]%list_elem_of_lookup Hs. split; [|apply Hh; [by eapply list_elem_of_lookup_2|done]].
    destruct (with_offsets_lookup isize 0 (save_order es) (i, r)) as [o Ho]; [by apply save_order_elem|].
    exact (pk_unmapped _ _ _ _ _ Hpk _ Ho). }
  intros s2 Hun. pose proof (parked_undisturbed _ _ _ _ _ Hun Hpk) as Hpk2.
  assert (Hl2 : linked (fns s2)) by (rewrite (un_fns _ _ _ _ Hun); by eapply grows_linked).
  destruct (wp_elim _ _ _ (rebuild_restores es hb buf_size _ _ _ _ _ s2 (conj eq_refl (conj eq_refl eq_refl))
    Hl2 Hok Hpk2 Hbuf)) as (n & s3 & Hrun3 & -> & g3 & t3 & v3 & (<- & <- & <-) & Hg3 & Hres & _).
  exists s3. split; [exact Hrun3|]. intros i r Hi Hs. specialize (Hres i r Hi Hs).
  rewrite (un_tb _ _ _ _ Hun), Ht1 in Hres. destruct Hres as [Hrec Hbytes]. split; [exact Hrec|done].
Qed.

(** A process with two exports on two devices, and a third that is not mapped. *)
Definition ex_desc (d : Z) : access_desc := MkDesc CU_MEM_LOCATION_TYPE_DEVICE d 3.

Definition ex_tables : ipc_tables :=
  track_export 3 1 9 (track_create 3 16 (MkProp 1 0)
    (track_export 2 1 8 (track_export 1 1 7
      (track_set_access 8192 [ex_desc 0] (track_set_access 4096 [ex_desc 1; ex_desc 0]
        (track_map 8192 32 2 (track_map 4096 64 1
          (track_create 2 32 (MkProp 1 0) (track_create 1 64 (MkProp 1 1) ipc_start))))))))).

Definition ex_view : cview :=
  MkCView (λ _, 0) (λ a, a) []
    (<[4096 := MkCMap 64 1 [ex_desc 1; ex_desc 0]]> (<[8192 := MkCMap 32 2 [ex_desc 0]]> ∅))
    (<[1 := 64]> (<[2 := 32]> (<[3 := 16]> ∅))) (<[7 := 64]> (<[8 := 32]> (<[9 := 16]> ∅))) [].

Definition ex_ipc : ipc cusim := MkIpcSt ex_view ex_tables linked_fns ∅ ∅ [] 0.

(** A claim about every record of a concrete list, record by record. *)
Ltac each_record := match goal with |- ∀ r, r ∈ ?l → @?P r => apply (proj1 (Forall_forall P l)) end.

Lemma ex_exports_ok : exports_ok (g_ipc_exports ex_tables) ex_view.
Proof.
  assert (Hes : g_ipc_exports ex_tables = [
    MkExport 1 1 7 1 64 4096 64 true (-1) zero_desc false false (MkProp 1 1) true 0 false;
    MkExport 2 2 8 1 32 8192 32 true (-1) zero_desc false false (MkProp 1 0) true 0 false;
    MkExport 3 3 9 1 16 0 0 false (-1) zero_desc false false (MkProp 1 0) true 0 false]) by (vm_compute; reflexivity).
  rewrite Hes. clear Hes. split.
  - each_record. repeat constructor.
  - split.
    + each_record. repeat (constructor; [simpl; lia || done|]). constructor.
    + each_record. repeat (constructor; [first [by intros []|intros _; by eexists]|]). constructor.
    + each_record. repeat (constructor; [first [by intros []|intros _; by eexists]|]). constructor.
    + intros i j ri rj Hi Hj Hne Hsi Hsj.
      destruct i as [|[|[|i]]], j as [|[|[|j]]]; simpl in *; simplify_eq; try (by destruct Hsi);
        try (by destruct Hsj); unfold disjoint_ranges; simpl; lia.
  - intros r m Hr. revert r Hr m. each_record.
    repeat (constructor; [intros m _ Hm; vm_compute in Hm; first [discriminate Hm|by injection Hm as <-]|]).
    constructor.
  - each_record. repeat constructor.
  - vm_compute. reflexivity.
Qed.

Lemma export_roundtrip_witness : ∃ s1,
  ipc_save_and_teardown_all_exports 100 96 ex_ipc = Ret 2 s1 ∧
  ∃ s3, ipc_rebuild_and_restore_all_exports 100 96 s1 = Ret 2 s3 ∧
    cv_dev (view s3) 8200 = 8200.
Proof.
  destruct (export_roundtrip (D:=cusim) (CD:=cusim_driver) ex_ipc 100 96 linked_fns_ok ltac:(reflexivity) ex_exports_ok)
    as (s1 & H1 & Hidle & Hgone & H2).
  { vm_compute. discriminate. }
  exists s1. split; [exact H1|].
  destruct (H2 s1) as (s3 & H3 & Hres).
  { by split. }
  exists s3. split; [exact H3|].
  destruct (Hres 1%nat _ ltac:(vm_compute; reflexivity) ltac:(exact I)) as [_ Hb].
  exact (Hb 8 ltac:(simpl; lia)).
Defined.

(** ** Symbol resolution *)

Section Resolution.
Context {D : Type} {CD : CuDriver D} {PF : Platform}.
Implicit Types (s : ipc D).

(** A hook whose pointer is the hook itself never comes back. *)
Lemma release_loops n : ∀ h s, fns s !! "fn_cuMemRelease"%string = Some Ours →
  release_hook n h s = Stuck OutOfFuel s.
Proof.
  induction n as [|n IH]; intros h s Hp; cbn [release_hook];
    unfold mbind, M_bind, get, if_has, non_null, mret, M_ret; cbn [forallb];
    rewrite Hp; simpl; rewrite Hp; [done|]. by rewrite IH.
Qed.

Lemma resolve_self q s : fns s !! "fn_cuMemRelease"%string = None →
  real_dlsym RTLD_DEFAULT "cuMemRelease" = Some q →
  ∃ f, resolve RTLD_DEFAULT "fn_cuMemRelease" "cuMemRelease" s = Ret tt (set_fns f s) ∧
       f !! "fn_cuMemRelease"%string = Some Ours.
Proof.
  intros Hp Hq. exists (<["fn_cuMemRelease"%string := Ours]> (<["fn_cuMemRelease"%string := q]> (fns s))).
  split; [|apply lookup_insert_eq].
  unfold resolve, if_has, non_null. cbn [forallb]. rewrite Hp. simpl.
  unfold dlsym. rewrite bool_decide_eq_false_2 by done. simpl. rewrite Hq. done.
Qed.

Lemma helpers_resolve_self q s : fns s !! "fn_cuMemRelease"%string = None →
  real_dlsym RTLD_DEFAULT "cuMemRelease" = Some q →
  wp resolve_helper_fns (λ _ s', tb s' = tb s ∧ fns s' !! "fn_cuMemRelease"%string = Some Ours) s.
Proof.
  intros Hp Hq. unfold resolve_helper_fns, helper_symbols. cbn [foldM]. apply wp_bind.
  destruct (resolve_self q s Hp Hq) as (f & Hr & Hf). eapply wp_intro; [exact Hr|].
  eapply wp_mono; [eapply (resolve_list_grows (tail helper_symbols)); [reflexivity|by split_and!]|].
  intros ? s' (g & (Hg & Ht & _) & Hgr). rewrite Ht, Hg. split; [done|]. apply Hgr; [|exact Hf].
  unfold ctx_storage. set_solver.
Qed.

End Resolution.

(** C40: a checkpoint can break [cuMemRelease] for the rest of the process.  When
    [fn_cuMemRelease] is still null, [resolve_helper_fns] asks the interposed [dlsym]
    for it, which answers with the hook.  A checkpoint of a process without imports
    then reports success, and the next [cuMemRelease] of the application calls itself
    until the stack is exhausted, however deep it is. *)
Theorem release_hook_resolves_to_itself {D} {CD : CuDriver D} {PF : Platform} (s : ipc D) q :
  fns s !! "fn_cuMemRelease"%string = None → real_dlsym RTLD_DEFAULT "cuMemRelease" = Some q →
  g_ipc_imports (tb s) = [] →
  ∃ s1, ipc_teardown_all_imports s = Ret 0 s1 ∧ tb s1 = tb s ∧
    ∀ h, cuMemRelease_ h s1 = Stuck OutOfFuel s1.
Proof.
  intros Hp Hq Hi.
  assert (Hw : wp ipc_teardown_all_imports (λ n s1, n = 0 ∧ tb s1 = tb s ∧
                 fns s1 !! "fn_cuMemRelease"%string = Some Ours) s).
  { unfold ipc_teardown_all_imports. apply wp_bind.
    eapply wp_mono; [by eapply helpers_resolve_self|]. intros ? s1 [Ht1 Hf1]. apply wp_bind.
    eapply wp_mono.
    { apply (resolve_grows RTLD_DEFAULT ("real_cuMemUnmap", "cuMemUnmap")%string s1 (fns s1) (tb s1) (view s1));
        [done|by split_and!]. }
    intros ? s2 (g & (Hg & Ht & _) & Hgr).
    assert (Hf2 : fns s2 !! "fn_cuMemRelease"%string = Some Ours).
    { rewrite Hg. apply Hgr; [|done]. unfold ctx_storage. set_solver. }
    apply wp_if_has_yes; [intros p ->%list_elem_of_singleton; by rewrite Hf2|].
    apply wp_bind, wp_get. rewrite Ht, Ht1, Hi. apply wp_ret. split_and!; [done|congruence|done]. }
  destruct (wp_elim _ _ _ Hw) as (n & s1 & Hr & -> & Ht & Hf). exists s1.
  split; [exact Hr|]. split; [done|]. intros h. unfold cuMemRelease_, mbind, M_bind.
  rewrite resolve_resolved by (by rewrite Hf). by apply release_loops.
Qed.

Definition unresolved_ipc : ipc cusim := MkIpcSt (cusim_start (λ _, 0) (λ a, a)) ipc_start ∅ ∅ ∅ [] 0.

Lemma release_hook_resolves_to_itself_witness : ∃ s1,
  ipc_teardown_all_imports unresolved_ipc = Ret 0 s1 ∧ cuMemRelease_ 1 s1 = Stuck OutOfFuel s1.
Proof.
  destruct (release_hook_resolves_to_itself (PF:=track_platform) unresolved_ipc Ours eq_refl
    ltac:(vm_compute; reflexivity) eq_refl) as (s1 & H1 & _ & H2).
  exists s1. split; [exact H1|exact (H2 1)].
Defined.
