(* ===== verification/IpcPublish.v ===== *)
(** Publication of the exports and peer access.

    What [ipc_write_export_info_to_shm] leaves in a shared block and what an importer
    reads there, and the round trip of peer access through a checkpoint. *)
From S2P Require Import Prelude Common Gpu IpcState IpcDriver IpcHooks IpcRules CuSim IpcTracking.
Open Scope Z_scope.

(** ** Publication *)

Section Publication.
Context {PF : Platform}.

Definition published (r : IpcExportRecord) : bool := bool_decide (0 ≤ exported_fd r).

Lemma write_entries es : ∀ b, 0 ≤ num_exports b →
  num_exports b + Z.of_nat (length (filter published es)) ≤ Z.of_nat (length (entries b)) →
  let b' := foldl write_entry b es in
  num_exports b' = num_exports b + Z.of_nat (length (filter published es)) ∧
  length (entries b') = length (entries b) ∧
  take (Z.to_nat (num_exports b')) (entries b') =
    take (Z.to_nat (num_exports b)) (entries b) ++ (export_entry <$> filter published es) ∧
  drop (Z.to_nat (num_exports b')) (entries b') = drop (Z.to_nat (num_exports b')) (entries b).
Proof.
  induction es as [|r es IH]; intros b H0 Hb; cbn zeta.
  { rewrite filter_nil in *. simpl. rewrite Z.add_0_r, app_nil_r. done. }
  cbn [foldl]. destruct (published r) eqn:Hp.
  - rewrite filter_cons_True in * by (by rewrite Hp). cbn [length] in *.
    apply bool_decide_eq_true in Hp. 
    set (b1 := MkBlock (num_exports b + 1) (<[Z.to_nat (num_exports b) := export_entry r]> (entries b))).
    assert (Hw : write_entry b r = b1) by (unfold write_entry; by rewrite bool_decide_eq_false_2 by lia).
    rewrite Hw. assert (Hlen : length (entries b1) = length (entries b)) by (simpl; apply length_insert).
    destruct (IH b1) as (Hn & Hl & Ht & Hd); [simpl; lia|rewrite Hlen; simpl; lia|].
    rewrite Ht, Hd, Hn, Hl, Hlen. cbn [num_exports b1]. split_and!; [lia|done| |].
    + rewrite fmap_cons. replace (Z.to_nat (num_exports b + 1)) with (S (Z.to_nat (num_exports b))) by lia.
      cbn [entries b1]. rewrite (take_S_r _ _ (export_entry r)) by (apply list_lookup_insert_eq; lia).
      rewrite take_insert_ge by lia. by rewrite <- app_assoc.
    + cbn [entries b1]. apply drop_insert_lt. lia.
  - rewrite filter_cons_False in * by (rewrite Hp; intros []). apply bool_decide_eq_false in Hp.
    assert (Hw : write_entry b r = b) by (unfold write_entry; by rewrite bool_decide_eq_true_2 by lia).
    rewrite Hw. by apply IH.
Qed.

(** The records [ipc_write_export_info_to_shm] publishes. *)
Definition publishable (es : list IpcExportRecord) : list IpcExportRecord :=
  filter published (take (Z.to_nat IPC_MAX_EXPORTS_PER_PROC) es).

Lemma publishable_length es : Z.of_nat (length (publishable es)) ≤ IPC_MAX_EXPORTS_PER_PROC.
Proof.
  unfold publishable. pose proof (length_filter published (take (Z.to_nat IPC_MAX_EXPORTS_PER_PROC) es)) as H1.
  rewrite length_take in H1. unfold IPC_MAX_EXPORTS_PER_PROC in *. lia.
Qed.

Lemma all_valid (l : list IpcExportRecord) k :
  filter (λ ie : nat * IpcExportShmEntry, valid ie.2 ≠ 0) (imap (λ i x, (k + i, x)%nat) (export_entry <$> l)) =
  imap (λ i x, (k + i, x)%nat) (export_entry <$> l).
Proof.
  revert k. induction l as [|r l IH]; intros k; [done|]. rewrite fmap_cons. cbn [imap].
  rewrite filter_cons_True by (simpl; lia). f_equal.
  specialize (IH (S k)). rewrite !(imap_ext (_ ∘ S) (λ i x, (S k + i, x)%nat)) by
    (intros; unfold compose; simpl; f_equal; lia). exact IH.
Qed.

End Publication.

(** C28: what a process publishes is what a peer reads.  [ipc_write_export_info_to_shm]
    puts the exports with an open fd among the first 64 records into the block, in
    order, and leaves the stale entries behind them as they were; the importing side
    then reads back exactly these entries, with the publisher's pid, fds, addresses and
    sizes. *)
Theorem publish_read {D} {CD : CuDriver D} {PF : Platform} (s peer : ipc D) b :
  Z.of_nat (length (entries b)) = IPC_MAX_EXPORTS_PER_PROC →
  let pub := publishable (g_ipc_exports (tb s)) in
  ∃ b', ipc_write_export_info_to_shm b s = Ret (Z.of_nat (length pub), b') s ∧
    length (entries b') = length (entries b) ∧
    drop (length pub) (entries b') = drop (length pub) (entries b) ∧
    block_entries b' peer = Ret (imap pair (export_entry <$> pub)) peer.
Proof.
  intros Hlen pub. unfold ipc_write_export_info_to_shm.
  pose proof (publishable_length (g_ipc_exports (tb s))) as Hpub. fold pub in Hpub.
  destruct (write_entries (take (Z.to_nat IPC_MAX_EXPORTS_PER_PROC) (g_ipc_exports (tb s)))
    (MkBlock 0 (entries b))) as (Hn & Hl & Ht & Hd); [done|simpl; unfold pub, publishable in Hpub; lia|].
  fold (publishable (g_ipc_exports (tb s))) in Hn, Ht. fold pub in Hn, Ht.
  set (b' := foldl write_entry _ _) in *. simpl in Hn, Ht. rewrite Z.add_0_l in Hn. rewrite Hn, Nat2Z.id in Ht, Hd.
  simpl in Hl, Hd. exists b'.
  unfold mbind, M_bind, get, mret, M_ret. fold b'. rewrite Hn. split_and!; [done|done|done|].
  unfold block_entries. rewrite Hn, bool_decide_eq_false_2 by (rewrite Hl; simpl; lia).
  unfold mret, M_ret. rewrite Nat2Z.id, Ht. f_equal. apply (all_valid pub 0).
Qed.

Definition stale_entry : IpcExportShmEntry := MkEntry 7 3 0 0 1.
Definition old_block : IpcRebuildShmBlock := MkBlock 64 (replicate 64 stale_entry).

(** Two exports with fds 8 and 9, and one whose fd is closed. *)
Definition publisher : ipc cusim :=
  set_tb (set_exports [export_fd 8 (new_export 1 1 8 ipc_start); export_fd (-1) (new_export 2 1 5 ipc_start);
                       export_fd 9 (new_export 3 1 9 ipc_start)] ipc_start) fresh_ipc.

Lemma publish_read_witness : ∃ b', ipc_write_export_info_to_shm old_block publisher = Ret (2, b') publisher ∧
  entries b' !! 2%nat = Some stale_entry ∧
  ∃ es, block_entries b' fresh_ipc = Ret es fresh_ipc ∧ (λ ie, (ie.1, ent_fd ie.2)) <$> es = [(0%nat, 8); (1%nat, 9)].
Proof.
  destruct (publish_read publisher fresh_ipc old_block eq_refl) as (b' & H1 & _ & H2 & H3).
  exists b'. split_and!; [exact H1| |].
  - change (length (publishable (g_ipc_exports (tb publisher)))) with 2%nat in H2.
    rewrite <- (Nat.add_0_r 2), <- lookup_drop, H2. reflexivity.
  - eexists. split; [exact H3|]. reflexivity.
Defined.

(** ** Peer access *)

Definition peer_ptrs : list string :=
  ["real_cudaDeviceEnablePeerAccess"; "real_cudaDeviceDisablePeerAccess"; "real_cudaGetLastError"]%string.

Section Peers.
Context {D : Type} {CD : CuDriver D} {PF : Platform}.
Implicit Types (s : ipc D).

Definition peers_linked (f : gmap string fnptr) : Prop := ∀ p, p ∈ peer_ptrs → f !! p = Some Real.

(** The answers of the driver: [rc dev] when access to [dev] is enabled. *)
Context (rc : Z → Z) (rcd : Z → Z).
Hypothesis enable_answers : ∀ dev d, ∃ d', cudaDeviceEnablePeerAccess dev 0 d = Ret (rc dev) d'.
Hypothesis disable_answers : ∀ dev d, ∃ d', cudaDeviceDisablePeerAccess dev d = Ret (rcd dev) d'.
Hypothesis error_answers : ∀ d, ∃ e d', cudaGetLastError d = Ret e d'.

Definition enabled_rc (r : Z) : bool := bool_decide (r = 0 ∨ r = cudaErrorPeerAccessAlreadyEnabled).

Definition peer_st (f : gmap string fnptr) (t : ipc_tables) (p q : gset Z) s : Prop :=
  fns s = f ∧ tb s = t ∧ g_peer_access_devices s = p ∧ g_saved_peer_access_devices s = q.

Lemma wp_drv_peer {A} (m : M D A) f t p q a s : (∀ d, ∃ d', m d = Ret a d') → peer_st f t p q s →
  wp (drv m) (λ r s', r = a ∧ peer_st f t p q s') s.
Proof. intros Hm Hs. apply wp_zoom. destruct (Hm (cu s)) as [d' Hd]. eapply wp_intro; [exact Hd|]. done. Qed.

Lemma wp_last_error f t p q s : peers_linked f → peer_st f t p q s →
  wp cudaGetLastError_ (λ _ s', peer_st f t p q s') s.
Proof.
  intros Hf Hs. unfold cudaGetLastError_, forward. assert (Hp : fns s !! "real_cudaGetLastError"%string = Some Real).
  { rewrite (proj1 Hs). apply Hf. set_solver. }
  apply wp_bind. eapply wp_intro; [apply resolve_resolved; by rewrite Hp|].
  destruct stack_depth; simpl; apply wp_bind, wp_get; rewrite Hp; apply wp_bind, wp_zoom;
    destruct (error_answers (cu s)) as (e & d' & Hd); (eapply wp_intro; [exact Hd|]); apply wp_bind, wp_ret, wp_ret; done.
Qed.

Lemma resolve_peer h p y f t a b s : peers_linked f → p ∈ peer_ptrs → peer_st f t a b s →
  wp (resolve h p y) (λ _ s', peer_st f t a b s') s.
Proof.
  intros Hf Hp Hs. eapply wp_intro; [apply resolve_resolved|done]. rewrite (proj1 Hs), Hf by done. done.
Qed.

Lemma disable_spec f t p q s : peers_linked f → peer_st f t p q s →
  wp ipc_disable_all_peer_access (λ _ s', peer_st f t ∅ p s') s.
Proof.
  intros Hf Hs. unfold ipc_disable_all_peer_access. apply wp_bind.
  eapply wp_mono; [eapply resolve_peer; [done|set_solver|done]|]. intros ? s1 H1. cbv beta in H1.
  apply wp_if_has_yes; [intros x ->%list_elem_of_singleton; rewrite (proj1 H1), Hf; [done|set_solver]|].
  apply wp_bind, wp_modify, wp_bind, wp_get, wp_bind. destruct H1 as (Hfn & Ht & Hp & Hq).
  eapply wp_mono.
  { apply (wp_foldM (λ _ _ s', peer_st f t p p s')); [by rewrite <- Hp|].
    intros pre dev post n s2 _ H2. unfold disable_one. apply wp_bind.
    eapply wp_mono; [eapply wp_drv_peer; [apply disable_answers|done]|]. intros r s3 [-> H3]. apply wp_bind.
    eapply wp_mono; [by eapply wp_last_error|]. done. }
  intros n s2 (? & ? & ? & Hq2). apply wp_bind, wp_modify, wp_ret. by split_and!.
Qed.

Definition reenabled (l : list Z) : gset Z := list_to_set (filter (λ d, enabled_rc (rc d)) l).

Lemma reenable_spec f t q s : peers_linked f → peer_st f t ∅ q s →
  wp ipc_reenable_all_peer_access (λ n s', n = Z.of_nat (size (reenabled (elements q))) ∧
    peer_st f t (reenabled (elements q)) ∅ s') s.
Proof.
  intros Hf Hs. unfold ipc_reenable_all_peer_access. apply wp_bind.
  eapply wp_mono; [eapply resolve_peer; [done|set_solver|done]|]. intros ? s1 H1. cbv beta in H1.
  apply wp_if_has_yes; [intros x ->%list_elem_of_singleton; rewrite (proj1 H1), Hf; [done|set_solver]|].
  apply wp_bind, wp_get, wp_bind. rewrite (proj2 (proj2 (proj2 H1))).
  assert (Hperm : set_entries_ q ≡ₚ elements q) by apply merge_sort_Permutation.
  eapply wp_mono.
  { apply (wp_foldM (λ pre n s', peer_st f t (reenabled pre) q s' ∧
      n = Z.of_nat (length (filter (λ d, enabled_rc (rc d)) pre)))); [done|].
    intros pre dev post n s2 _ [H2 ->]. unfold enable_one. apply wp_bind.
    eapply wp_mono; [eapply wp_drv_peer; [apply enable_answers|done]|]. intros r s3 [-> H3].
    fold (enabled_rc (rc dev)). destruct (enabled_rc (rc dev)) eqn:Hok; apply wp_bind.
    - apply wp_modify, wp_bind. eapply wp_mono; [eapply wp_last_error; [done|]|].
      { instantiate (1 := q). instantiate (1 := reenabled (pre ++ [dev])). destruct H3 as (? & ? & Hp & ?).
        split_and!; [done|done| |done]. simpl. rewrite Hp. unfold reenabled.
        rewrite (filter_snoc_true (λ d, enabled_rc (rc d))) by done. rewrite list_to_set_app_L. set_solver. }
      intros ? s4 H4. apply wp_ret. split; [done|].
      rewrite (filter_snoc_true (λ d, enabled_rc (rc d))) by done. rewrite length_app. simpl. lia.
    - apply wp_ret, wp_bind. eapply wp_mono; [by eapply wp_last_error|]. intros ? s4 H4. apply wp_ret.
      unfold reenabled. rewrite (filter_snoc_false (λ d, enabled_rc (rc d))) by done. by split. }
  intros n s2 ((? & ? & Hp & ?) & ->). apply wp_bind, wp_modify, wp_ret.
  assert (Hre : reenabled (set_entries_ q) = reenabled (elements q)).
  { unfold reenabled. apply leibniz_equiv. by rewrite Hperm. }
  assert (Hnd : NoDup (filter (λ d, enabled_rc (rc d)) (set_entries_ q))).
  { apply NoDup_filter. rewrite Hperm. apply NoDup_elements. }
  split; [|split_and!; [done|done|simpl; congruence|done]].
  rewrite <- Hre. unfold reenabled. by rewrite size_list_to_set.
Qed.

Lemma reenabled_all q : (∀ d, d ∈ q → enabled_rc (rc d)) → reenabled (elements q) = q.
Proof. intros Hall. unfold reenabled. apply leibniz_equiv. intros d. rewrite elem_of_list_to_set, list_elem_of_filter, elem_of_elements. naive_solver. Qed.

End Peers.

(** Peer access survives a checkpoint.  [ipc_disable_all_peer_access] leaves no
    device enabled and remembers which were; a later [ipc_reenable_all_peer_access]
    enables exactly those of them the driver accepts, whatever it answered to the
    disables, and reports how many. *)
Theorem peer_access_roundtrip {D} {CD : CuDriver D} {PF : Platform} (rc rcd : Z → Z) (s : ipc D) :
  (∀ dev d, ∃ d', cudaDeviceEnablePeerAccess dev 0 d = Ret (rc dev) d') →
  (∀ dev d, ∃ d', cudaDeviceDisablePeerAccess dev d = Ret (rcd dev) d') →
  (∀ d, ∃ e d', cudaGetLastError d = Ret e d') → peers_linked (fns s) →
  ∃ n s1, ipc_disable_all_peer_access s = Ret n s1 ∧ g_peer_access_devices s1 = ∅ ∧
    ∀ d2, ∃ k s3, ipc_reenable_all_peer_access (set_cu d2 s1) = Ret k s3 ∧
      g_saved_peer_access_devices s3 = ∅ ∧ k = Z.of_nat (size (g_peer_access_devices s3)) ∧
      g_peer_access_devices s3 = reenabled rc (elements (g_peer_access_devices s)) ∧
      ((∀ d, d ∈ g_peer_access_devices s → rc d = 0 ∨ rc d = cudaErrorPeerAccessAlreadyEnabled) →
       g_peer_access_devices s3 = g_peer_access_devices s).
Proof.
  intros He Hd Hg Hf.
  destruct (wp_elim _ _ _ (disable_spec rc rcd He Hd Hg (fns s) (tb s) _ _ s Hf ltac:(by split_and!)))
    as (n & s1 & H1 & Hf1 & Ht1 & Hp1 & Hq1). exists n, s1. split_and!; [done|done|]. intros d2.
  destruct (wp_elim _ _ _ (reenable_spec rc rcd He Hd Hg (fns s) (tb s) (g_peer_access_devices s) (set_cu d2 s1) Hf
    ltac:(by split_and!))) as (k & s3 & H3 & -> & _ & _ & Hp3 & Hq3). exists (Z.of_nat (size (reenabled rc (elements (g_peer_access_devices s))))), s3.
  split_and!; [done|done|by rewrite Hp3|done|]. intros Hall. rewrite Hp3. apply reenabled_all.
  intros d Hin. apply Is_true_true, bool_decide_eq_true. by apply Hall.
Qed.

Definition peer_fns : gmap string fnptr := list_to_map ((λ p, (p, Real)) <$> peer_ptrs).
Definition peering_ipc : ipc cusim :=
  MkIpcSt (cusim_start (λ _, 0) (λ a, a)) ipc_start peer_fns {[1; 3]} ∅ [] 0.

Lemma peer_access_roundtrip_witness : ∃ s1 s3,
  ipc_disable_all_peer_access peering_ipc = Ret 2 s1 ∧ g_peer_access_devices s1 = ∅ ∧
  ipc_reenable_all_peer_access s1 = Ret 2 s3 ∧ g_peer_access_devices s3 = {[1; 3]}.
Proof.
  destruct (peer_access_roundtrip (λ _, 0) (λ _, 0) peering_ipc) as (n & s1 & H1 & Hp & H2).
  { intros dev d. by eexists. }
  { intros dev d. by eexists. }
  { intros d. by eexists _, _. }
  { intros p Hp. assert (Hall : forallb (λ p, bool_decide (peer_fns !! p = Some Real)) peer_ptrs = true)
      by (vm_compute; reflexivity).
    rewrite forallb_forall in Hall. apply list_elem_of_In, Hall in Hp. by apply bool_decide_eq_true in Hp. }
  destruct (H2 (cu s1)) as (k & s3 & H3 & _ & Hk & _ & Hall). specialize (Hall ltac:(by left)).
  exists s1, s3. assert (n = 2) as -> by (vm_compute in H1; congruence).
  assert (k = 2) as -> by (rewrite Hk, Hall; vm_compute; reflexivity).
  split_and!; [exact H1|exact Hp|by destruct s1|exact Hall].
Defined.
