(* ===== verification/ImportTheorems.v ===== *)
(** Imports through a checkpoint: the theorem and a concrete instance. *)
From S2P Require Import Prelude Common Gpu IpcState IpcDriver FdExchange IpcHooks IpcRules IpcImports Sim CuSim IpcTracking IpcTheorems.
Open Scope Z_scope.

Lemma all_torn imps : (∀ r, r ∈ imps → i_torn_down r = false) →
  torn_imports (torn_import <$> imps) = seq 0 (length imps).
Proof.
  intros Hall. unfold torn_imports.
  assert (Hg : ∀ k, fst <$> filter (λ ir, i_torn_down ir.2 = true) (imap (λ i, pair (k + i)%nat) (torn_import <$> imps)) =
    seq k (length imps)).
  { induction imps as [|r imps IH]; intros k; [done|]. rewrite fmap_cons. cbn [imap].
    rewrite filter_cons_True. 2:{ unfold torn_import. simpl. by rewrite (Hall r) by left. }
    rewrite fmap_cons. cbn [length seq fst]. rewrite Nat.add_0_r. f_equal. specialize (IH ltac:(set_solver) (S k)).
    rewrite <- IH. f_equal. f_equal. apply imap_ext. intros i x _. unfold compose. f_equal. lia. }
  exact (Hg 0%nat).
Qed.

(** Where a restore starts: the addresses of the torn imports are free. *)
Lemma torn_free_at imps v w : imports_ok imps v → (∀ r, r ∈ imps → cv_maps w !! i_vaddr r = None) →
  torn_free (torn_import <$> imps) w.
Proof.
  intros Hok Hfree. assert (Hva : ∀ r, i_vaddr (torn_import r) = i_vaddr r).
  { intros r. unfold torn_import. by destruct (i_torn_down r). }
  split.
  - intros i r (x & -> & Hx)%list_lookup_fmap_Some _. rewrite Hva. apply Hfree. by eapply list_elem_of_lookup_2.
  - intros i j ri rj (x & -> & Hx)%list_lookup_fmap_Some (y & -> & Hy)%list_lookup_fmap_Some Hij _ _.
    rewrite !Hva. by destruct (io_apart _ _ Hok i j x y Hx Hy Hij).
Qed.

Section Matched.
Context (imps imps' : list IpcImportRecord) (F new : gmap Z Z) (ves : list Z) (v : cview).
Context (d : mem) (m : gmap Z cmapping) (h : gmap Z Z) (n : Z).
Context (Hall : ∀ r, r ∈ imps → i_torn_down r = false) (Hrec : received F ves new).
Context (Hpg : progress (torn_import <$> imps) v new (zip ves (torn_imports (torn_import <$> imps))) imps' d m h n).

Lemma received_size k x sz : ves !! k = Some x → (new ∪ F) !! x = Some sz → new !! x = Some sz.
Proof.
  intros Hk [Hn|[_ Hn]]%lookup_union_Some_raw; [done|].
  apply list_elem_of_lookup_2, (rv_fresh _ _ _ Hrec) in Hk as [_ Hk]. congruence.
Qed.

Lemma torn_record k r : imps !! k = Some r → torn_import r = import_handle 0 (import_torn r).
Proof. intros Hk. unfold torn_import. by rewrite (Hall r) by (by eapply list_elem_of_lookup_2). Qed.

(** The descriptor in the k-th place brings the k-th import back. *)
Lemma matched_back k fd r : ves !! k = Some fd → imps !! k = Some r → (new ∪ F) !! fd = Some (i_size r) →
  import_back imps' m h k r.
Proof.
  intros Hfd Hr Hsz. pose proof (torn_record k r Hr) as Ht.
  destruct (pg_done _ _ _ _ _ _ _ _ _ Hpg fd k (torn_import r)) as (hn & Hhn & Hi & Hh & Hm).
  - rewrite all_torn by done. apply list_elem_of_lookup. exists k. apply lookup_zip_with_Some. exists fd, k. split_and!; [done|done|].
    apply lookup_seq. split; [done|]. by eapply lookup_lt_Some.
  - by rewrite list_lookup_fmap, Hr.
  - rewrite Ht. by apply (received_size k).
  - exists hn. rewrite Ht in *. by split_and!.
Qed.
End Matched.

(** C4: imports survive a checkpoint.  [ipc_teardown_all_imports] unmaps and releases
    every import; a later [ipc_import_from_shm_block] maps the allocation behind the
    m-th fd it received at the address of the m-th import, with the access it had, and
    marks the import live, whenever the sizes agree.  No fd that was received for the
    block stays open, whether it was used, refused or had no import left. *)
Theorem import_roundtrip {D} {CD : CuDriver D} {CL : CuLaws D} {CR : CuReliable D} {PF : Platform}
    {SK : Sockets D} {SL : SockLaws D} (s : ipc D) (block : IpcRebuildShmBlock) :
  let imps := g_ipc_imports (tb s) in
  linked (fns s) → cv_queue (view s) = [] → imports_ok imps (view s) →
  (∀ r, r ∈ imps → i_torn_down r = false) →
  0 < num_exports block ≤ Z.of_nat (length (entries block)) →
  ∃ s1, ipc_teardown_all_imports s = Ret (Z.of_nat (length imps)) s1 ∧
    (∀ r, r ∈ imps → cv_maps (view s1) !! i_vaddr r = None ∧
       (i_handle r ≠ 0 → cv_handles (view s1) !! i_handle r = None)) ∧
    ∀ s2, fns s2 = fns s1 → tb s2 = tb s1 → cv_queue (view s2) = [] →
      (∀ r, r ∈ imps → cv_maps (view s2) !! i_vaddr r = None) →
    ∃ fds sx n s3, exchange block s2 = Ret fds sx ∧ ipc_import_from_shm_block block s2 = Ret n s3 ∧
      let ves := valid_exports fds (read_entries block) in
      cv_fds (view s3) = cv_fds (view s2) ∧
      (∀ m fd r, ves !! m = Some fd → imps !! m = Some r → cv_fds (view sx) !! fd = Some (i_size r) →
         import_back (g_ipc_imports (tb s3)) (cv_maps (view s3)) (cv_handles (view s3)) m r) ∧
      ((∀ m fd r, ves !! m = Some fd → imps !! m = Some r → cv_fds (view sx) !! fd = Some (i_size r)) →
       n = Z.of_nat (Nat.min (length ves) (length imps))).
Proof.
  intros imps Hl Hq Hok Hall Hb.
  destruct (wp_elim _ _ _ (teardown_spec (fns s) (tb s) (view s) s Hl Hq Hok (conj eq_refl (conj eq_refl eq_refl))))
    as (n1 & s1 & H1 & -> & g & d & Hg & (Hf1 & Ht1 & Hv1) & _). exists s1.
  fold imps in Ht1, Hv1, H1.
  assert (Hlive : filter live imps = imps).
  { clear -Hall. induction imps as [|r imps IH]; [done|]. rewrite filter_cons_True, IH; [done|set_solver|].
    unfold live. rewrite (Hall r) by left. done. }
  rewrite Hlive in H1. split; [done|]. split.
  { intros r Hr. rewrite Hv1. unfold torn_off, live_vas, live_handles. rewrite Hlive. split.
    - apply delete_all_in, list_elem_of_fmap. by exists r.
    - intros Hh. apply delete_all_in, list_elem_of_filter. split; [done|]. apply list_elem_of_fmap. by exists r. }
  intros s2 Hf2 Ht2 Hq2 Hfree.
  assert (Htf : torn_free (g_ipc_imports (tb s2)) (view s2)) by (rewrite Ht2, Ht1; by apply (torn_free_at imps (view s))).
  assert (Hl2 : linked (fns s2)) by (rewrite Hf2, Hf1; by eapply grows_linked).
  destruct (wp_elim _ _ _ (import_block_spec (fns s2) (tb s2) (view s2) block s2 Hl2 Hq2
    (conj eq_refl (conj eq_refl eq_refl)) ltac:(lia) ltac:(lia) Htf))
    as (n & s3 & H3 & fds & new & imps' & d' & m' & h' & sx & Hx & Hvx & (Hf3 & Ht3 & Hv3) & Hrec & Hpg).
  exists fds, sx, n, s3. split; [done|]. split; [done|].
  cbv zeta. set (ves := valid_exports fds (read_entries block)) in *.
  rewrite Ht2, Ht1 in Hpg. cbn [g_ipc_imports set_imports] in Hpg.
  split; [by rewrite Hv3|]. split.
  - intros m fd r Hfd Hr Hsz. rewrite Ht3, Hv3. rewrite Hvx in Hsz.
    exact (matched_back imps imps' _ new ves _ d' m' h' n Hall Hrec Hpg m fd r Hfd Hr Hsz).
  - intros Hsz. rewrite all_torn in Hpg by done. rewrite (pg_count _ _ _ _ _ _ _ _ _ Hpg).
    + by rewrite length_zip_with, length_seq.
    + intros fd i r (k & Hk)%list_elem_of_lookup Hr. apply lookup_zip_with_Some in Hk as (x & y & [= -> ->] & Hx' & Hy).
      apply lookup_seq in Hy as [-> Hlt]. apply list_lookup_fmap_Some in Hr as (r0 & -> & Hr0).
      rewrite (torn_record imps Hall k r0 Hr0). specialize (Hsz k x r0 Hx' Hr0). rewrite Hvx in Hsz.
      exact (received_size _ _ _ Hrec k x _ Hx' Hsz).
Qed.

(** Peers that serve one allocation of 64 bytes per request. *)
#[export] Instance cusim_sockets : Sockets cusim := {|
  socket := λ v, Ret (fresh_key (cv_fds v)) v; connect _ _ := λ v, Ret 0 v;
  bind _ _ := λ v, Ret (-1) v; listen _ _ := λ v, Ret (-1) v; accept _ := λ v, Ret (-1, 0) v;
  setsockopt _ := λ v, Ret 0 v; send _ l := λ v, Ret (4 * Z.of_nat (length l)) v;
  recv _ _ := λ v, Ret (4, [1]) v; sendmsg _ _ := λ v, Ret (-1) v;
  recvmsg fd n := λ v, if bool_decide (1 ≤ n) then
      let x := fresh_key (<[fd := 0]> (cv_fds v)) in
      Ret (1, Some [x]) (with_fds (<[x := 64]> (cv_fds v)) v)
    else Ret (0, None) v;
  fcntl_getfd _ := λ v, Ret 0 v; sclose fd := @close cusim cusim_driver fd; unlink _ := λ v, Ret tt v;
  chmod _ _ := λ v, Ret 0 v; pthread_create := λ v, Ret (-1) v
|}.

#[export] Instance cusim_sock_laws : SockLaws cusim.
Proof.
  split; try (intros; by eexists _, _); try (intros; by eexists _, _, _).
  - intros d. destruct (fresh_key_spec (cv_fds d)). by eexists _, _.
  - intros d fd l r1 d1 r2 d2 r3 v d3 Hl _ _ [= _ <- _]. destruct l; [done|]. simpl. lia.
  - intros d fd n. simpl. case_bool_decide; [|by eexists _, _, _]. set (x := fresh_key _).
    destruct (fresh_key_spec (<[fd := 0]> (cv_fds d))) as [Hx Hp]. fold x in Hx, Hp.
    apply lookup_insert_None in Hx as [Hx Hne]. eexists _, (Some [x]), _. split; [done|].
    split_and!; [done|simpl; lia|apply NoDup_singleton|]. exists {[x := 64]}. split_and!.
    + intros y. rewrite list_elem_of_singleton, lookup_singleton_is_Some. done.
    + intros y ->%list_elem_of_singleton. split_and!; [lia|congruence|done].
    + by rewrite insert_union_singleton_l.
  - intros d fd. by eexists.
Qed.

(** Two imports from two peers, and what the peers publish. *)
Definition importing_ipc : ipc cusim :=
  set_cu (MkCView (λ _, 0) (λ a, a) [] (<[4096 := MkCMap 64 1 [MkDesc 1 0 3]]> (<[8192 := MkCMap 64 2 []]> ∅))
            (<[1 := 64]> (<[2 := 64]> ∅)) ∅ [])
    (set_tb (track_set_access 4096 [MkDesc 1 0 3] (track_map 8192 64 2 (track_map 4096 64 1
       (track_import 2 (track_import 1 ipc_start))))) fresh_ipc).

Definition peer_block : IpcRebuildShmBlock := MkBlock 2 [MkEntry 10 5 4096 64 1; MkEntry 20 6 8192 64 1].

Definition first_import : IpcImportRecord := MkImport 4096 64 1 0 (MkDesc 1 0 3) [MkDesc 1 0 3] false.
Definition second_import : IpcImportRecord := MkImport 8192 64 2 (-1) zero_desc [] false.

Lemma importing_records : g_ipc_imports (tb importing_ipc) = [first_import; second_import].
Proof. vm_compute. reflexivity. Qed.

Lemma importing_ok : imports_ok (g_ipc_imports (tb importing_ipc)) (view importing_ipc).
Proof.
  rewrite importing_records. split.
  - intros [|[|i]] r [= <-] _; (split; [eexists; split; [vm_compute; reflexivity|done]|]); intros _; by eexists.
  - intros [|[|i]] [|[|j]] ri rj [= <-] [= <-] Hij; try done.
Qed.

Lemma import_roundtrip_witness : ∃ s1 s3, ipc_teardown_all_imports importing_ipc = Ret 2 s1 ∧
  cv_maps (view s1) !! 4096 = None ∧ ipc_import_from_shm_block peer_block s1 = Ret 2 s3 ∧
  cv_fds (view s3) = ∅ ∧
  import_back (g_ipc_imports (tb s3)) (cv_maps (view s3)) (cv_handles (view s3)) 0
    first_import.
Proof.
  destruct (import_roundtrip (CD:=cusim_driver) (PF:=track_platform) (SK:=cusim_sockets) importing_ipc peer_block linked_fns_ok ltac:(vm_compute; reflexivity) importing_ok) as (s1 & H1 & Hgone & H2).
  { rewrite importing_records. each_record. by repeat constructor. }
  { simpl. lia. }
  assert (Hfree : ∀ r, r ∈ g_ipc_imports (tb importing_ipc) → cv_maps (view s1) !! i_vaddr r = None).
  { intros r Hr. by apply Hgone. }
  assert (Hq1 : match ipc_teardown_all_imports importing_ipc with Ret _ s1 => cv_queue (view s1) = [] | _ => False end)
    by (vm_compute; reflexivity).
  rewrite H1 in Hq1.
  destruct (H2 s1 eq_refl eq_refl Hq1 Hfree) as (fds & sx & n & s3 & Hx & H3 & Hfd & Hback & Hn).
  exists s1, s3.
  assert (Hrun : match ipc_teardown_all_imports importing_ipc with
                 | Ret _ s1 => cv_fds (view s1) = ∅ ∧
                     match exchange peer_block s1 with
                     | Ret fds sx => ∃ x y, valid_exports fds (read_entries peer_block) = [x; y] ∧
                                            cv_fds (view sx) !! x = Some 64 ∧ cv_fds (view sx) !! y = Some 64
                     | _ => False
                     end
                 | _ => False
                 end) by (vm_compute; split; [reflexivity|]; eexists _, _; split_and!; reflexivity).
  rewrite H1, Hx in Hrun. destruct Hrun as (Hempty & x & y & Hves & Hsx & Hsy).
  rewrite Hves in Hn, Hback. rewrite Hn in H3.
  - split_and!; [exact H1| |exact H3|by rewrite Hfd|].
    + exact (Hfree first_import ltac:(rewrite importing_records; left)).
    + by apply (Hback 0%nat x).
  - intros m fd r Hm Hr. rewrite importing_records in Hr.
    destruct m as [|[|m]]; cbn in Hm, Hr; [injection Hm as <-; injection Hr as <-; exact Hsx|
      injection Hm as <-; injection Hr as <-; exact Hsy|discriminate].
Defined.
