(* ===== verification/HookTheorems.v ===== *)
(** Launch hooks and local allocations: theorems on [LaunchHooks] and [IpcExports]. *)
From S2P Require Import Prelude Common Gpu IpcState IpcDriver IpcHooks LaunchHooks IpcExports IpcRules Sim CuSim IpcTracking IpcTheorems Copies LocalSave LocalRebuild.
Open Scope Z_scope.

(** Every kernel launch runs in the captured context.  Each of the nine launch
    hooks calls the real launch once, with its arguments and on a context stack whose
    top is the captured context when there is one; it returns the launch's result and
    leaves the caller's context stack as it was. *)
Theorem launch_in_captured_ctx {D} {CD : CuDriver D} {CL : CuLaws D} {CR : CuReliable D} {PF : Platform}
    (s : ipc D) args hook name storage :
  (hook, name, storage) ∈ launch_table args → fns s !! storage = Some Real →
  ∃ r s' d1 d2, hook s = Ret r s' ∧ launch name args d1 = Ret r d2 ∧
    (captured s ≠ 0 → head (cv_ctx (cu_view d1)) = Some (captured s)) ∧
    (captured s = 0 → cv_ctx (cu_view d1) = stack_of s) ∧
    stack_of s' = stack_of s ∧ tb s' = tb s.
Proof.
  intros Hin Hp. assert (Hw : ∃ unknown, hook = launch_hook name storage unknown args).
  { unfold launch_table in Hin. repeat (apply elem_of_cons in Hin as [[= -> -> ->]|Hin]; [by eexists|]).
    by apply elem_of_nil in Hin. }
  destruct Hw as [unknown ->].
  destruct (wp_elim _ _ _ (launch_loop_spec stack_depth name storage unknown args s Hp))
    as (r & s' & Hr & d1 & d2 & Hl & Hc & Hst & _ & Ht).
  exists r, s', d1, d2. split_and!; try done; rewrite Hc; unfold launch_stack; intros Hz.
  - case_bool_decide as Hb; [done|]. destruct (stack_of s) as [|c st]; simpl in *; [|f_equal]; destruct (decide (captured s = 0));
      try done; [destruct Hb; naive_solver|].
    destruct (decide (c = captured s)); [done|]. destruct Hb. naive_solver.
  - by rewrite bool_decide_eq_false_2 by naive_solver.
Qed.

Definition capturing_ipc : ipc cusim :=
  MkIpcSt (with_ctx [5] (cusim_start (λ _, 0) (λ a, a))) ipc_start
    (<["real_cuLaunchKernelEx"%string := Real]> ∅) ∅ ∅ [] 9.

Lemma launch_in_captured_ctx_witness : ∃ r s' d1, cuLaunchKernelEx 77 capturing_ipc = Ret r s' ∧
  head (cv_ctx (cu_view d1)) = Some 9 ∧ stack_of s' = [5].
Proof.
  destruct (launch_in_captured_ctx (CD:=cusim_driver) (PF:=track_platform) capturing_ipc 77 (cuLaunchKernelEx 77)
    "cuLaunchKernelEx" "real_cuLaunchKernelEx") as (r & s' & d1 & d2 & H1 & _ & H2 & _ & H3 & _).
  - unfold launch_table. do 4 right. left.
  - vm_compute. reflexivity.
  - exists r, s', d1. split_and!; [exact H1|by apply H2|exact H3].
Defined.

(** ** Local allocations *)

(** A process with IPC-capable allocations that were never exported: handle, device,
    address; 64 bytes each. *)
Definition local_tables (l : list (Z * Z * Z)) : ipc_tables :=
  foldl (λ t x, track_map x.2 64 x.1.1 (track_create x.1.1 64 (MkProp 1 x.1.2) t)) ipc_start l.
Definition local_view (l : list (Z * Z * Z)) (dev : mem) : cview :=
  MkCView (λ _, 0) dev []
    (list_to_map ((λ x, (x.2, MkCMap 64 x.1.1 [MkDesc 1 x.1.2 3])) <$> l))
    (list_to_map ((λ x, (x.1.1, 64)) <$> l)) ∅ [].
Definition local_ipc (l : list (Z * Z * Z)) (dev : mem) : ipc cusim :=
  MkIpcSt (local_view l dev) (local_tables l) linked_fns ∅ ∅ [] 0.

(** A checkpoint and a restore of the local allocations, through a buffer at 65536. *)
Definition local_cycle (n : Z) : M (ipc cusim) (Z * Z) :=
  a ← ipc_save_and_teardown_local_allocs 65536 n;
  b ← ipc_rebuild_local_allocs 65536 n;
  mret (a, b).

(** The value of a run, and a projection of its final state. *)
Definition run_obs {S A B} (o : outcome S A) (f : S → B) : option (A * B) :=
  match o with Ret a s => Some (a, f s) | _ => None end.

(** Two allocations: handle 1 on device 1 holding ones, handle 2 on device 0 holding twos. *)
Definition two_devices : ipc cusim := local_ipc [(1, 1, 4096); (2, 0, 8192)] (λ a, if a <? 8000 then 1 else 2).

(** with allocations on several devices the local rebuild exchanges their contents.
    The save lays the data out in handle order and records the allocations grouped by
    device; the rebuild assumes the data is in the order of the records.  Both report
    success, and each allocation comes back with the other one's bytes. *)
Theorem local_rebuild_swaps_devices :
  run_obs (local_cycle 128 two_devices) (λ s, (cv_dev (view s) 4096, cv_dev (view s) 8192)) = Some ((2, 2), (2, 1)) ∧
  (cv_dev (view two_devices) 4096, cv_dev (view two_devices) 8192) = (1, 2).
Proof. vm_compute. done. Qed.

(** A rebuilt local allocation can be forgotten.  When the driver gives the new
    allocation the handle value of the old one, the rebuild first records it and then
    deletes that same key: the memory is mapped with its bytes, but the next checkpoint
    finds no local allocation to save. *)
Theorem local_rebuild_loses_tracking :
  run_obs (local_cycle 64 (local_ipc [(1, 0, 4096)] (λ a, a)))
    (λ s, (cm_handle <$> cv_maps (view s) !! 4096, cv_dev (view s) 4100,
           g_created_allocs (tb s) !! 1, local_candidates (tb s))) =
  Some ((1, 1), (Some 1, 4100, None, [])).
Proof. vm_compute. done. Qed.

(** ** The allocations that are not exported *)





