(* ===== verification/Process.v ===== *)
(** The worker process: control page, backing files, initialisation.

    Models [src/src/comm/share_mem.cpp] (the control page a worker shares with the
    coordinator), [src/src/backend/mmap_backend.cpp] (the dump file and the staging
    memory), [src/src/GPUs/gpu_factory.cpp], and [get_id] and [init_CR] of
    [src/src/vGPU.cpp].  The file system calls are parameters ([Posix]).  [proc] is
    the state of the whole worker: the checkpointer of [Ckpt], the hooks of
    [IpcHooks], the descriptor server of [FdExchange] and the process's own
    globals.  The contents of the mapped files are fields of the state, as in
    [Ckpt]: the file table ([fs]), the control page ([control]) and the two rebuild
    blocks of the header page. *)
From stdpp Require Import pretty.
From S2P Require Import Prelude Common Gpu Ckpt IpcState IpcDriver FdExchange IpcHooks.
Open Scope Z_scope.

(** ** Messages and signals *)

Definition INIT_MSG : Z := 10.
Definition CKPT_MSG : Z := 11.
Definition RESTORE_MSG : Z := 12.
Definition FINISH_MSG : Z := 0.
Definition IPC_TEARDOWN_MSG : Z := 15.
Definition IPC_EXPORT_MSG : Z := 16.
Definition IPC_IMPORT_MSG : Z := 17.
Definition SELECTIVE_CKPT_MSG : Z := 20.
Definition SELECTIVE_RESTORE_MSG : Z := 21.

(** The numbers of Linux. *)
Definition SIGUSR1 : Z := 10.
Definition SIGUSR2 : Z := 12.
Definition SIGRTMAX : Z := 64.
Definition CR_INIT_SIGNAL : Z := SIGRTMAX.
Definition CR_CKPT_SIGNAL : Z := SIGUSR1.
Definition CR_RESTORE_SIGNAL : Z := SIGUSR2.
Definition CR_IPC_TEARDOWN_SIGNAL : Z := SIGRTMAX - 1.
Definition CR_IPC_REBUILD_SIGNAL : Z := SIGRTMAX - 2.
Definition CR_IPC_VALIDATE_SIGNAL : Z := SIGRTMAX - 3.



(** ** The operating system *)

(** What is mapped: anonymous memory, or a file. *)
Inductive mapping_of := Anonymous | SharedFile (fd : Z).

Class Posix (P : Type) := {
  getenv : string → option string;
  open_file : string → bool → Z → M P Z;          (* path, create, mode: descriptor or negative *)
  ftruncate : Z → Z → M P Z;
  mmap : Z → mapping_of → M P (option Z);         (* length; [None] is [MAP_FAILED] *)
  munmap : Z → Z → M P Z;
  close_file : Z → M P Z;
  fetch_add : Z → Z → M P Z;                      (* address, increment: the old value *)
  write_text : string → string → M P bool         (* [fopen "w"], [fprintf], [fclose], [chmod 0666] *)
}.

(** The build: [-DSHM_SIZE_GB] and the platform. *)
Class Build := { SHM_SIZE_GB : Z; HIP_PLATFORM_AMD : bool }.

(** [snprintf(buf, n, ...)] cuts the text; [sprintf] writes past the buffer. *)
Definition snprintf (n : nat) (text : string) : string := String.substring 0 (n - 1) text.
Definition sprintf {S} (n : nat) (text : string) : M S string :=
  if bool_decide (String.length text < n)%nat then mret text else fail OutOfBounds.

(** ** The object behind the [GPU] interface, as the process sees it *)

Class GPUObject (W : Type) := {
  new_gpu : M W unit;                      (* the constructor *)
  pushContext : M W Z;
  popContext : M W Z;
  registerHostMemory : Z → Z → M W Z
}.

(** ** State *)

Record signal_controls := MkCtl { signal : Z; selective_req : selective_cr_request }.

(** [g_ipc_export_data_buf] or [g_local_alloc_data_buf], with its size. *)
Record data_buf := MkBuf { data_ptr : option Z; data_size : Z }.

Record proc (W D P : Type) := MkProc {
  vg : vstate W;
  hooks : ipc D;
  server : UdsServerCtx;
  server_thread : option thread_pc;
  os : P;
  control : signal_controls;
  my_block : IpcRebuildShmBlock;
  peer_block : IpcRebuildShmBlock;
  mapped : env;                            (* where the backing files are mapped *)
  cr_id : Z;                               (* the [id] of the backend *)
  CR_initialized : bool;
  g_ipc_export_data : data_buf;
  g_local_alloc_data : data_buf
}.
Arguments MkProc {W D P}. Arguments vg {W D P}. Arguments hooks {W D P}. Arguments server {W D P}.
Arguments server_thread {W D P}. Arguments os {W D P}. Arguments control {W D P}.
Arguments my_block {W D P}. Arguments peer_block {W D P}. Arguments mapped {W D P}. Arguments cr_id {W D P}.
Arguments CR_initialized {W D P}. Arguments g_ipc_export_data {W D P}.
Arguments g_local_alloc_data {W D P}.

Section Process.
Context {W D P : Type}.
Abbreviation proc := (proc W D P).

Definition set_vg x (s : proc) : proc := MkProc x (hooks s) (server s) (server_thread s) (os s) (control s)
  (my_block s) (peer_block s) (mapped s) (cr_id s) (CR_initialized s) (g_ipc_export_data s) (g_local_alloc_data s).
Definition set_hooks x (s : proc) : proc := MkProc (vg s) x (server s) (server_thread s) (os s) (control s)
  (my_block s) (peer_block s) (mapped s) (cr_id s) (CR_initialized s) (g_ipc_export_data s) (g_local_alloc_data s).
Definition set_fdx (x : fdx D) (s : proc) : proc := MkProc (vg s) (set_cu (kern x) (hooks s)) (g_server x)
  (thread x) (os s) (control s) (my_block s) (peer_block s) (mapped s) (cr_id s) (CR_initialized s)
  (g_ipc_export_data s) (g_local_alloc_data s).
Definition set_os x (s : proc) : proc := MkProc (vg s) (hooks s) (server s) (server_thread s) x (control s)
  (my_block s) (peer_block s) (mapped s) (cr_id s) (CR_initialized s) (g_ipc_export_data s) (g_local_alloc_data s).
Definition set_control x (s : proc) : proc := MkProc (vg s) (hooks s) (server s) (server_thread s) (os s) x
  (my_block s) (peer_block s) (mapped s) (cr_id s) (CR_initialized s) (g_ipc_export_data s) (g_local_alloc_data s).
Definition set_my_block x (s : proc) : proc := MkProc (vg s) (hooks s) (server s) (server_thread s) (os s)
  (control s) x (peer_block s) (mapped s) (cr_id s) (CR_initialized s) (g_ipc_export_data s) (g_local_alloc_data s).
Definition set_peer_block x (s : proc) : proc := MkProc (vg s) (hooks s) (server s) (server_thread s) (os s)
  (control s) (my_block s) x (mapped s) (cr_id s) (CR_initialized s) (g_ipc_export_data s) (g_local_alloc_data s).
Definition set_mapped x (s : proc) : proc := MkProc (vg s) (hooks s) (server s) (server_thread s) (os s)
  (control s) (my_block s) (peer_block s) x (cr_id s) (CR_initialized s) (g_ipc_export_data s) (g_local_alloc_data s).
Definition set_cr_id x (s : proc) : proc := MkProc (vg s) (hooks s) (server s) (server_thread s) (os s)
  (control s) (my_block s) (peer_block s) (mapped s) x (CR_initialized s) (g_ipc_export_data s) (g_local_alloc_data s).
Definition set_initialized x (s : proc) : proc := MkProc (vg s) (hooks s) (server s) (server_thread s) (os s)
  (control s) (my_block s) (peer_block s) (mapped s) (cr_id s) x (g_ipc_export_data s) (g_local_alloc_data s).
Definition set_export_data x (s : proc) : proc := MkProc (vg s) (hooks s) (server s) (server_thread s) (os s)
  (control s) (my_block s) (peer_block s) (mapped s) (cr_id s) (CR_initialized s) x (g_local_alloc_data s).
Definition set_local_data x (s : proc) : proc := MkProc (vg s) (hooks s) (server s) (server_thread s) (os s)
  (control s) (my_block s) (peer_block s) (mapped s) (cr_id s) (CR_initialized s) (g_ipc_export_data s) x.

(** The components run on their part of the state. *)
Definition v_do {A} (m : M (vstate W) A) : M proc A := zoom vg set_vg m.
Definition g_do {A} (m : M W A) : M proc A := v_do (gpu_do m).
Definition ipc_do {A} (m : M (ipc D) A) : M proc A := zoom hooks set_hooks m.
Definition os_do {A} (m : M P A) : M proc A := zoom os set_os m.
Definition fd_do {A} (m : M (fdx D) A) : M proc A :=
  zoom (λ s, MkFdx (cu (hooks s)) (server s) (server_thread s)) set_fdx m.

(** [ShareMemComm] *)
Definition put_msg (msg : Z) (c : signal_controls) : signal_controls := MkCtl msg (selective_req c).
Definition send_msg (msg : Z) : M proc unit := modify (λ s, set_control (put_msg msg (control s)) s).
Definition recv_msg : M proc Z := get (λ s, signal (control s)).
Definition is_finished : M proc bool := m ← recv_msg; mret (bool_decide (m = FINISH_MSG)).

Context {PX : Posix P} {BD : Build} {PF : Platform} {GO : GPUObject W}.

Definition ctl_dir : string := default "/mnt/huge-ckpt" (getenv "EXPORT_FILE_PATH").

(** Open, size and map one file, or exit. *)
Definition map_file (path : string) (mode size : Z) : M P Z :=
  fd ← open_file path true mode;
  if bool_decide (fd < 0) then exit EXIT_FAILURE else
  r ← ftruncate fd size;
  if bool_decide (r < 0) then exit EXIT_FAILURE else
  p ← mmap size (SharedFile fd);
  match p with
  | None => exit EXIT_FAILURE
  | Some p => mret p
  end.

(** [ShareMemComm::setup] on the page of process [pid]; the page keeps its contents. *)
Definition comm_setup (pid : Z) : M P unit :=
  _ ← map_file (snprintf 512 (ctl_dir +:+ "/control-" +:+ pretty pid)) 493 HUGE_PAGE_SIZE; mret tt.

(** The dump file of worker [id]. *)
Definition dump_path (id : Z) : string :=
  match getenv "EXPORT_FILE_PATH" with
  | Some dir => dir +:+ "/ckpt-" +:+ pretty id +:+ ".data"
  | None => "/mnt/huge-ckpt/" +:+ pretty id
  end.

(** Its staging file. *)
Definition host_path (id : Z) : string :=
  snprintf 512 (match getenv "EXPORT_FILE_PATH" with
                | Some dir => dir +:+ "/ckpt-" +:+ pretty id +:+ "-host.data"
                | None => "/mnt/huge-ckpt/" +:+ pretty id +:+ "-host"
                end).

(** [ShareMem::setup]: the dump file with an empty file table, then the staging file. *)
Definition backend_setup (id : Z) : M proc unit :=
  _ ← modify (set_cr_id id);
  name ← sprintf 512 (dump_path id);
  p ← os_do (map_file name (match getenv "EXPORT_FILE_PATH" with Some _ => 420 | None => 493 end)
        (SHM_SIZE SHM_SIZE_GB));
  _ ← v_do (_ ← lock_fs; _ ← modify (λ v, with_fs (MkFs 0 payload_base (files (fs v))) v); unlock_fs);
  h ← os_do (map_file (host_path id) 493 (STAGING_BUF_SIZE * STAGING_BUF_NUM));
  modify (set_mapped (MkEnv SHM_SIZE_GB p h)).

Definition newline : string := String.String (Ascii.ascii_of_nat 10) "".

(** [int id = id_ptr->fetch_add(1)] on the counter all workers share. *)
Definition get_id : M proc Z :=
  p ← os_do (map_file (snprintf 512 (ctl_dir +:+ "/control")) 493 HUGE_PAGE_SIZE);
  os_do (fetch_add p 1).

(** [strcasecmp(s, t) == 0] *)
Definition lower (c : Ascii.ascii) : Ascii.ascii :=
  let n := Ascii.nat_of_ascii c in
  if (65 <=? n)%nat && (n <=? 90)%nat then Ascii.ascii_of_nat (n + 32) else c.
Fixpoint strcasecmp (s t : string) : bool :=
  match s, t with
  | EmptyString, EmptyString => true
  | String.String a s', String.String b t' => bool_decide (lower a = lower b) && strcasecmp s' t'
  | _, _ => false
  end.

Definition vendor_names : list string :=
  if HIP_PLATFORM_AMD then ["AMD"; "ROCM"; "HIP"]%string else ["NVIDIA"; "CUDA"]%string.

Definition createGPU : M proc unit :=
  match getenv "GPU_VENDOR" with
  | None => exit EXIT_FAILURE
  | Some vendor => if existsb (strcasecmp vendor) vendor_names then g_do new_gpu else exit EXIT_FAILURE
  end.

Definition init_CR : M proc unit :=
  i ← get CR_initialized;
  if i : bool then mret tt else
  id ← get_id;
  _ ← os_do (write_text (snprintf 512 (ctl_dir +:+ "/pid_map_" +:+ pretty getpid)) (pretty id +:+ newline));
  _ ← os_do (comm_setup getpid);
  _ ← backend_setup id;
  _ ← createGPU;
  e ← get mapped;
  if bool_decide (host_buf e = 0) then exit EXIT_FAILURE else
  _ ← g_do (registerHostMemory (host_buf e) (STAGING_BUF_SIZE * STAGING_BUF_NUM));
  modify (set_initialized true).

End Process.
