(* ===== verification/Handlers.v ===== *)
(** The signal handlers of [src/src/vGPU.cpp].

    A coordinator writes a message to the control page and sends a signal; the
    handler runs the checkpoint, the restore or one IPC phase and answers
    [FINISH_MSG].  Timing, diagnostics and the dump of the tables are left out. *)
From S2P Require Import Prelude Common Gpu Ckpt Restore IpcState IpcDriver FdExchange IpcHooks IpcExports Process.
Open Scope Z_scope.

Section Handlers.
Context {W D P : Type} {GW : GPU W} {GO : GPUObject W} {CD : CuDriver D} {SK : Sockets D}.
Context {PX : Posix P} {BD : Build} {PF : Platform}.
Abbreviation proc := (proc W D P).

(** Where the local variable [probe] of the validation is. *)
Context (probe_addr : Z).

Definition ensure_init : M proc unit :=
  i ← get CR_initialized;
  if i : bool then mret tt else init_CR.

Definition run_ckpt : M proc unit := e ← get mapped; _ ← v_do (ckpt e); mret tt.
Definition run_restore : M proc unit := e ← get mapped; _ ← v_do (restore_ptr_and_content e); mret tt.
Definition run_ckpt_selective : M proc unit :=
  e ← get mapped; req ← get (λ s, selective_req (control s)); _ ← v_do (ckpt_selective e req); mret tt.
Definition run_restore_selective : M proc unit :=
  e ← get mapped; _ ← v_do (restore_ptr_and_content_selective e); mret tt.

(** [#if !defined(__HIP_PLATFORM_AMD__)] *)
Definition on_nvidia (m : M (ipc D) Z) : M proc unit :=
  if HIP_PLATFORM_AMD then mret tt else _ ← ipc_do m; mret tt.

(** What the message asks for; an unknown one is ignored. *)
Definition run_msg (msg : Z) : M proc unit :=
  if bool_decide (msg = SELECTIVE_CKPT_MSG) then _ ← g_do syncAllKernels; run_ckpt_selective
  else if bool_decide (msg = SELECTIVE_RESTORE_MSG) then run_restore_selective
  else if bool_decide (msg = CKPT_MSG) then
    _ ← g_do syncAllKernels;
    _ ← run_ckpt;
    on_nvidia ipc_disable_all_peer_access
  else if bool_decide (msg = RESTORE_MSG) then
    _ ← run_restore;
    on_nvidia ipc_reenable_all_peer_access
  else mret tt.

Definition cr_signal_handler (signum : Z) : M proc unit :=
  if bool_decide (signum ≠ CR_INIT_SIGNAL ∧ signum ≠ CR_CKPT_SIGNAL ∧ signum ≠ CR_RESTORE_SIGNAL)
  then mret tt else
  if bool_decide (signum = CR_INIT_SIGNAL) then _ ← ensure_init; send_msg FINISH_MSG else
  _ ← ensure_init;
  msg ← recv_msg;
  _ ← g_do pushContext;
  _ ← run_msg msg;
  _ ← g_do popContext;
  send_msg FINISH_MSG.

(** ** The IPC phases *)

(** [if (needed > 0)]: a fresh anonymous buffer in the place of the old one. *)
Definition fresh_buf (buf : proc → data_buf) (set_buf : data_buf → proc → proc) (needed : Z)
    : M proc unit :=
  if bool_decide (0 < needed) then
    b ← get buf;
    _ ← (match data_ptr b with
         | Some p => _ ← os_do (munmap p (data_size b)); modify (set_buf (MkBuf None (data_size b)))
         | None => mret tt
         end);
    p ← os_do (mmap needed Anonymous);
    modify (set_buf (MkBuf p (match p with Some _ => needed | None => 0 end)))
  else mret tt.

(** [if (buf && size > 0)] *)
Definition with_buf (buf : proc → data_buf) (f : Z → Z → M proc unit) : M proc unit :=
  b ← get buf;
  match data_ptr b with
  | Some p => if bool_decide (0 < data_size b) then f p (data_size b) else mret tt
  | None => mret tt
  end.

Definition drop_buf (set_buf : data_buf → proc → proc) (p n : Z) : M proc unit :=
  _ ← os_do (munmap p n); modify (set_buf (MkBuf None 0)).

(** [IPC_TEARDOWN_MSG]: all of it but peer access. *)
Definition teardown_tables : M proc unit :=
  _ ← g_do syncAllKernels;
  _ ← ipc_do ipc_teardown_all_imports;
  n ← ipc_do ipc_get_export_data_size;
  _ ← fresh_buf g_ipc_export_data set_export_data n;
  _ ← with_buf g_ipc_export_data (λ p n,
        _ ← ipc_do (ipc_save_and_teardown_all_exports p n); mret tt);
  _ ← ipc_do ipc_teardown_all_events;
  n ← ipc_do ipc_get_local_alloc_data_size;
  _ ← fresh_buf g_local_alloc_data set_local_data n;
  with_buf g_local_alloc_data (λ p n,
    _ ← ipc_do (ipc_save_and_teardown_local_allocs p n); mret tt).

Definition teardown_phase : M proc unit :=
  _ ← teardown_tables;
  on_nvidia ipc_disable_all_peer_access.

(** [IPC_EXPORT_MSG] *)
Definition export_phase : M proc unit :=
  _ ← with_buf g_ipc_export_data (λ p n,
        _ ← ipc_do (ipc_rebuild_and_restore_all_exports p n); drop_buf set_export_data p n);
  _ ← with_buf g_local_alloc_data (λ p n,
        _ ← ipc_do (ipc_rebuild_local_allocs p n); drop_buf set_local_data p n);
  b ← get my_block;
  r ← ipc_do (ipc_write_export_info_to_shm b);
  _ ← modify (set_my_block r.2);
  _ ← fd_do (uds_fd_server_start getpid);
  mret tt.

(** The steps the server thread may still take once [running] is cleared. *)
Definition join_steps : nat := 4.

(** [IPC_IMPORT_MSG] *)
Definition import_phase : M proc unit :=
  b ← get peer_block;
  _ ← (if bool_decide (0 < num_exports b) then _ ← ipc_do (ipc_import_from_shm_block b); mret tt
       else mret tt);
  _ ← fd_do (uds_fd_server_stop join_steps);
  _ ← ipc_do (ipc_validate_all_mappings probe_addr);
  on_nvidia ipc_reenable_all_peer_access.

Definition cr_ipc_signal_handler : M proc unit :=
  _ ← ensure_init;
  msg ← recv_msg;
  _ ← (if bool_decide (msg = IPC_TEARDOWN_MSG) then teardown_phase
       else if bool_decide (msg = IPC_EXPORT_MSG) then export_phase
       else if bool_decide (msg = IPC_IMPORT_MSG) then import_phase
       else mret tt);
  send_msg FINISH_MSG.

(** What [init] installs for a signal. *)
Definition installed (signum : Z) : option (M proc unit) :=
  if bool_decide (signum ∈ [CR_INIT_SIGNAL; CR_CKPT_SIGNAL; CR_RESTORE_SIGNAL])
  then Some (cr_signal_handler signum)
  else if bool_decide (signum ∈ [CR_IPC_TEARDOWN_SIGNAL; CR_IPC_REBUILD_SIGNAL])
  then Some cr_ipc_signal_handler
  else if bool_decide (signum = CR_IPC_VALIDATE_SIGNAL)
  then Some (_ ← ipc_do (ipc_validate_all_mappings probe_addr); mret tt)
  else None.

End Handlers.
