(* ===== verification/IpcSafe.v ===== *)
(** No table state makes the IPC module crash.

    Every entry point of [ipc_hooks.cpp] that a signal handler calls returns, from any
    contents of the tracking tables and whatever the driver answers, once the function
    pointers it uses are resolved: it calls no null pointer and indexes no table out of
    range.  [keeps I m P]: from a state in [I], [m] returns in [I] with a value in [P]. *)
From S2P Require Import Prelude Common Gpu IpcState IpcDriver FdExchange FdFacts IpcHooks IpcExports IpcRules.
Open Scope Z_scope.

Section Keeps.
Context {S : Type}.
Implicit Types (I : S → Prop).

Definition keeps {A} I (m : M S A) (P : A → Prop) : Prop := ∀ s, I s → wp m (λ a s', I s' ∧ P a) s.
Definition any {A} (_ : A) : Prop := True.

Lemma keeps_mono {A} I (m : M S A) (P Q : A → Prop) : keeps I m P → (∀ a, P a → Q a) → keeps I m Q.
Proof.
  intros Hm HPQ s Hs. eapply wp_mono; [by apply Hm|]. intros a s' [HI HP]. split; [done|by apply HPQ].
Qed.
Lemma keeps_any {A} I (m : M S A) (P : A → Prop) : keeps I m P → keeps I m any.
Proof. intros Hm. by eapply keeps_mono. Qed.
Lemma keeps_bind {A B} I (m : M S A) (f : A → M S B) P Q :
  keeps I m P → (∀ a, P a → keeps I (f a) Q) → keeps I (m ≫= f) Q.
Proof. intros Hm Hf s Hs. apply wp_bind. eapply wp_mono; [by apply Hm|]. intros a s' [HI HP]. by apply Hf. Qed.
Lemma keeps_seq {A B} I (m : M S A) (f : A → M S B) Q :
  keeps I m any → (∀ a, keeps I (f a) Q) → keeps I (m ≫= f) Q.
Proof. intros Hm Hf. eapply keeps_bind; [done|]. intros a _. apply Hf. Qed.
Lemma keeps_ret {A} I (a : A) (P : A → Prop) : P a → keeps I (mret a) P.
Proof. by intros HP s Hs. Qed.
Lemma keeps_get {A} I (f : S → A) : keeps I (get f) (λ a, ∃ s, I s ∧ a = f s).
Proof. intros s Hs. split; [done|by exists s]. Qed.
Lemma keeps_if {A} I (b : bool) (m1 m2 : M S A) P :
  keeps I m1 P → keeps I m2 P → keeps I (if b then m1 else m2) P.
Proof. by destruct b. Qed.
Lemma keeps_modify I (g : S → S) : (∀ s, I s → I (g s)) → keeps I (modify g) any.
Proof. intros Hg s Hs. split; [by apply Hg|done]. Qed.

Lemma keeps_foldM {L X} I (f : L → X → M S L) (P : L → Prop) xs : ∀ l,
  P l → (∀ l x, P l → x ∈ xs → keeps I (f l x) P) → keeps I (foldM f l xs) P.
Proof.
  induction xs as [|x xs IH]; intros l Hl Hf; [by apply keeps_ret|]. simpl.
  eapply keeps_bind; [apply Hf; [done|by left]|]. intros l' Hl'. apply IH; [done|].
  intros. apply Hf; [done|by right].
Qed.
Lemma keeps_for_ret {L R X} I (f : L → X → M S (L + R)) xs : ∀ l,
  (∀ l x, x ∈ xs → keeps I (f l x) any) → keeps I (for_ret f l xs) any.
Proof.
  induction xs as [|x xs IH]; intros l Hf; [by apply keeps_ret|]. simpl.
  eapply keeps_seq; [apply Hf; by left|]. intros [l'|r]; [|by apply keeps_ret].
  apply IH. intros. apply Hf. by right.
Qed.
End Keeps.

(** The pointers the handlers' code calls. *)
Definition used_ptrs : list string :=
  core_ptrs ++ (fst <$> helper_symbols) ++
  ["real_cudaDeviceEnablePeerAccess"; "real_cudaDeviceDisablePeerAccess"; "real_cudaGetLastError"]%string.

Definition resolved (f : gmap string fnptr) : Prop := ∀ p, p ∈ used_ptrs → f !! p = Some Real.

(** Every driver call comes back, with whatever result. *)
Class CuReturns (D : Type) {CD : CuDriver D} := {
  cuMemCreate_ret n p : returns (cuMemCreate n p);
  cuMemMap_ret p n h : returns (cuMemMap p n h);
  cuMemUnmap_ret p n : returns (cuMemUnmap p n);
  cuMemRelease_ret h : returns (cuMemRelease h);
  cuMemSetAccess_ret p n d : returns (cuMemSetAccess p n d);
  cuMemExport_ret h t : returns (cuMemExportToShareableHandle h t);
  cuMemImport_ret h t : returns (cuMemImportFromShareableHandle h t);
  close_ret fd : returns (close fd);
  cuRetain_ret n : returns (cuDevicePrimaryCtxRetain n);
  cuRelease_ret n : returns (cuDevicePrimaryCtxRelease n);
  cuPush_ret c : returns (cuCtxPushCurrent c);
  cuPop_ret : returns cuCtxPopCurrent;
  cuRegister_ret p n : returns (cuMemHostRegister p n);
  cuUnregister_ret p : returns (cuMemHostUnregister p);
  cuStreamCreate_ret : returns cuStreamCreate;
  cuStreamSync_ret x : returns (cuStreamSynchronize x);
  cuStreamDestroy_ret x : returns (cuStreamDestroy x);
  cuDtoHAsync_ret h p n x : returns (cuMemcpyDtoHAsync h p n x);
  cuHtoDAsync_ret h p n x : returns (cuMemcpyHtoDAsync h p n x);
  cuDtoH_ret h p n : returns (cuMemcpyDtoH h p n);
  cuHtoD_ret h p n : returns (cuMemcpyHtoD h p n);
  cuEnable_ret d x : returns (cudaDeviceEnablePeerAccess d x);
  cuDisable_ret d : returns (cudaDeviceDisablePeerAccess d);
  cuLastError_ret : returns cudaGetLastError;
  cuEventDestroy_ret e : returns (cudaEventDestroy e)
}.

Create HintDb cu discriminated.
#[export] Hint Resolve cuMemCreate_ret cuMemMap_ret cuMemUnmap_ret cuMemRelease_ret cuMemSetAccess_ret
  cuMemExport_ret cuMemImport_ret close_ret cuRetain_ret cuRelease_ret cuPush_ret cuPop_ret
  cuRegister_ret cuUnregister_ret cuStreamCreate_ret cuStreamSync_ret cuStreamDestroy_ret
  cuDtoHAsync_ret cuHtoDAsync_ret cuDtoH_ret cuHtoD_ret cuEnable_ret cuDisable_ret cuLastError_ret
  cuEventDestroy_ret : cu.

Section Safe.
Context {D : Type} {CD : CuDriver D} {CT : CuReturns D} {PF : Platform}.
Context (f : gmap string fnptr) (Hf : resolved f).
Implicit Types (s : ipc D) (I : ipc D → Prop).

(** ** Invariants the driver calls respect *)

Record good I : Prop := {
  gd_fns : ∀ s, I s → fns s = f;
  gd_cu : ∀ s d, I s → I (set_cu d s)
}.

Definition used (p : string) : Prop := bool_decide (p ∈ used_ptrs) = true.

Lemma used_real p : used p → f !! p = Some Real.
Proof. intros Hp. apply Hf. by apply bool_decide_eq_true in Hp. Qed.

Section Calls.
Context I (HI : good I).

Lemma keeps_drv {A} (m : M D A) : returns m → keeps I (drv m) any.
Proof.
  intros Hm s Hs. apply wp_zoom. eapply wp_mono; [apply Hm|]. intros a d _. split; [by apply gd_cu|done].
Qed.

Lemma keeps_call_real {A} p (m : M D A) : used p → returns m → keeps I (call_real p m) any.
Proof.
  intros Hp Hm s Hs. apply wp_call_fn; [rewrite (gd_fns _ HI _ Hs); by apply used_real|].
  by apply keeps_drv.
Qed.

Lemma keeps_call_fn {A} p (m : M D A) o : used p → returns m → keeps I (call_fn p (drv m) o) any.
Proof.
  intros Hp Hm s Hs. apply wp_call_fn; [rewrite (gd_fns _ HI _ Hs); by apply used_real|].
  by apply keeps_drv.
Qed.

Lemma keeps_has {A} ps (yes no : M (ipc D) A) P : Forall used ps → keeps I yes P →
  keeps I (if_has ps yes no) P.
Proof.
  intros Hps Hy s Hs. apply wp_if_has_yes; [|by apply Hy].
  intros p Hp. rewrite (gd_fns _ HI _ Hs), used_real; [done|]. rewrite Forall_forall in Hps. by apply Hps.
Qed.

Lemma keeps_resolve h p symbol : used p → keeps I (resolve h p symbol) any.
Proof.
  intros Hp s Hs. eapply wp_intro; [apply resolve_resolved; rewrite (gd_fns _ HI _ Hs), used_real; done|done].
Qed.

Lemma keeps_helpers : keeps I resolve_helper_fns any.
Proof.
  apply (keeps_foldM _ _ any); [done|]. intros [] e _ He. apply keeps_resolve. unfold used.
  assert (Hall : forallb (λ e, bool_decide (e.1 ∈ used_ptrs)) helper_symbols = true) by (vm_compute; done).
  rewrite forallb_forall in Hall. apply Hall. by apply list_elem_of_In.
Qed.

Lemma keeps_forward name st (m : M D Z) : used st → returns m → keeps I (forward name st m) any.
Proof.
  intros Hp Hm. eapply keeps_seq; [by apply keeps_resolve|]. intros [] s Hs.
  assert (Hr : wp (r ← drv m; _ ← mret tt; mret r) (λ a s', I s' ∧ any a) s).
  { apply wp_bind. eapply wp_mono; [by apply keeps_drv|]. intros r s' [Hs' _]. done. }
  destruct stack_depth; apply wp_bind, wp_get; rewrite (gd_fns _ HI _ Hs), used_real by done; exact Hr.
Qed.
End Calls.

(** ** Automation: one step of a straight-line body *)

Ltac used_tac := unfold used; vm_compute; reflexivity.
Ltac keeps_step :=
  match goal with
  | |- keeps _ (_ ≫= _) _ => eapply keeps_seq; [|intros ?]
  | |- keeps _ (if _ then _ else _) _ => apply keeps_if
  | |- keeps _ (match ?x with _ => _ end) _ => destruct x
  | |- keeps _ (mret _) _ => apply keeps_ret; done
  | |- keeps _ (get _) any => eapply keeps_any, keeps_get
  | |- keeps _ resolve_helper_fns _ => by apply keeps_helpers
  | |- keeps _ (resolve _ _ _) _ => apply keeps_resolve; [done|used_tac]
  | |- keeps _ (call_real _ _) _ => apply keeps_call_real; [done|used_tac|auto with cu]
  | |- keeps _ (call_fn _ _ _) _ => apply keeps_call_fn; [done|used_tac|auto with cu]
  | |- keeps _ (drv _) _ => apply keeps_drv; [done|auto with cu]
  | |- keeps _ (if_has _ _ _) _ => apply keeps_has; [done|repeat constructor; used_tac|]
  | |- keeps _ (foldM _ _ _) any => apply (keeps_foldM _ _ any); [done|intros ? ? _ ?]
  | |- keeps _ (for_ret _ _ _) any => apply keeps_for_ret; intros ? ? ?
  | H : keeps _ ?m _ |- keeps _ ?m _ => exact H
  end.
Ltac keeps_tac := repeat keeps_step.

Section Calls2.
Context I (HI : good I).

Lemma keeps_push_ctx g dev : keeps I (push_ctx g dev) any.
Proof. unfold push_ctx. keeps_tac. Qed.
Lemma keeps_pop_ctx b dev : keeps I (pop_ctx b dev) any.
Proof. unfold pop_ctx. keeps_tac. Qed.
Lemma keeps_pin hb n : keeps I (pin hb n) any.
Proof. unfold pin. keeps_tac. Qed.
Lemma keeps_unregister hb : keeps I (unregister hb) any.
Proof. unfold unregister. keeps_tac. Qed.
Lemma keeps_unpin b hb : keeps I (unpin b hb) any.
Proof. unfold unpin, unregister. keeps_tac. Qed.
Lemma keeps_use_async b c : used c → keeps I (use_async b c) any.
Proof.
  intros Hc. unfold use_async. apply keeps_if; [|keeps_tac].
  apply keeps_has; [done|repeat constructor; [used_tac..|done]|keeps_tac].
Qed.
Lemma keeps_new_stream : keeps I new_stream any.
Proof. unfold new_stream. keeps_tac. Qed.
Lemma keeps_sync_stream x : keeps I (sync_stream x) any.
Proof. unfold sync_stream. keeps_tac. Qed.
Lemma keeps_destroy_stream x : keeps I (destroy_stream x) any.
Proof. unfold destroy_stream. keeps_tac. Qed.
Lemma keeps_last_error : keeps I cudaGetLastError_ any.
Proof. apply keeps_forward; [done|used_tac|auto with cu]. Qed.
Lemma keeps_try_unmap p n : keeps I (try_unmap p n) any.
Proof. unfold try_unmap, real_unmap. keeps_tac. Qed.
Lemma keeps_load_device hb n async dev xs : keeps I (load_device hb n async dev xs) any.
Proof.
  unfold load_device, load_one. eapply keeps_seq; [apply keeps_push_ctx|]. intros pushed.
  eapply keeps_seq; [|intros ?; apply keeps_pop_ctx]. destruct async.
  - eapply keeps_seq; [apply keeps_new_stream|]. intros x. eapply keeps_seq; [keeps_tac|]. intros ?.
    eapply keeps_seq; [apply keeps_sync_stream|]. intros ?. apply keeps_destroy_stream.
  - keeps_tac.
Qed.
Lemma keeps_probe_one a dev push acc va : keeps I (probe_one a dev push acc va) any.
Proof.
  unfold probe_one. eapply keeps_seq; [apply keeps_push_ctx|]. intros pushed.
  eapply keeps_seq; [keeps_tac|]. intros res. eapply keeps_seq; [apply keeps_pop_ctx|]. intros ?. keeps_tac.
Qed.
End Calls2.

(** ** Table sizes *)

(** The pointers and the lengths of the import, export and event tables; [sized] also
    fixes the number of local allocations. *)
Definition shaped (ni ne nv : nat) s : Prop :=
  fns s = f ∧ length (g_ipc_imports (tb s)) = ni ∧ length (g_ipc_exports (tb s)) = ne ∧
  length (g_ipc_events s) = nv.
Definition sized (ni ne nv nl : nat) s : Prop := shaped ni ne nv s ∧ length (g_local_allocs (tb s)) = nl.

Lemma good_shaped ni ne nv : good (shaped ni ne nv).
Proof. split; [by intros s (? & _)|done]. Qed.
Lemma good_sized ni ne nv nl : good (sized ni ne nv nl).
Proof. split; [by intros s ((? & _) & _)|done]. Qed.

Lemma keeps_track I g : (∀ s, I s → I (set_tb (g (tb s)) s)) → keeps I (track g) any.
Proof. intros Hg. by apply keeps_modify. Qed.

(** Every entry point returns, and leaves the pointers and all but the local table's
    length alone. *)
Definition safe {A} (m : M (ipc D) A) : Prop :=
  ∀ ni ne nv, keeps (shaped ni ne nv) m any.

Lemma safe_sized {A} (m : M (ipc D) A) :
  (∀ ni ne nv nl, keeps (sized ni ne nv nl) m any) → safe m.
Proof. intros Hm ni ne nv s Hs. eapply wp_mono; [by apply (Hm ni ne nv (length (g_local_allocs (tb s))) s)|].
  intros a s' [[Hs' _] Ha]. done. Qed.

Lemma safe_get {A} (g : ipc D → A) : safe (get g).
Proof. intros ni ne nv. keeps_tac. Qed.

Section Imports.
Context (ni ne nv : nat).
Let I := shaped ni ne nv.
Let HI : good I := good_shaped ni ne nv.

Lemma keeps_import_at i : (i < ni)%nat → keeps I (import_at i) any.
Proof.
  intros Hi s Hs. unfold import_at, wp. pose proof Hs as (_ & Hn & _).
  destruct (lookup_lt_is_Some_2 (g_ipc_imports (tb s)) i ltac:(lia)) as [r ->]. done.
Qed.

Lemma keeps_set_import i g : keeps I (set_import i g) any.
Proof.
  apply keeps_track. unfold I, shaped. intros s (Hs & Hn & He). simpl. by rewrite length_alter.
Qed.

Lemma keeps_tear_import torn i : (i < ni)%nat → keeps I (tear_import torn i) any.
Proof.
  pose proof HI. intros Hi. unfold tear_import. eapply keeps_seq; [by apply keeps_import_at|]. intros r.
  apply keeps_if; [keeps_tac|]. eapply keeps_seq; [by apply keeps_try_unmap|]. intros [].
  eapply keeps_seq; [unfold real_release; keeps_tac|]. intros [].
  eapply keeps_seq; [apply keeps_set_import|]. intros []. keeps_tac.
Qed.

Lemma keeps_count {A} (g : ipc D → list A) n : (∀ s, I s → length (g s) = n) →
  keeps I (get (λ s, length (g s))) (λ k, k = n).
Proof. intros Hg s Hs. split; [done|]. by apply Hg. Qed.

Lemma keeps_indices {L} (g : L → nat → M (ipc D) L) n l :
  (∀ l i, (i < n)%nat → keeps I (g l i) any) → keeps I (foldM g l (seq 0 n)) any.
Proof.
  intros Hg. apply (keeps_foldM _ _ any); [done|]. intros l' i _ Hi%elem_of_seq. apply Hg. lia.
Qed.

Lemma keeps_teardown_imports : keeps I ipc_teardown_all_imports any.
Proof.
  pose proof HI. unfold ipc_teardown_all_imports. do 2 (eapply keeps_seq; [keeps_tac|]; intros ?).
  apply keeps_has; [done|repeat constructor; used_tac|].
  eapply keeps_bind; [apply (keeps_count _ ni); by intros s (_ & ? & _)|].
  intros n ->. apply keeps_indices. by apply keeps_tear_import.
Qed.
End Imports.

Lemma safe_teardown_imports : safe ipc_teardown_all_imports.
Proof. intros ni ne nv. apply keeps_teardown_imports. Qed.

(** ** Events *)

Lemma keeps_tear_event ni ne nv torn i : (i < nv)%nat → keeps (shaped ni ne nv) (tear_event torn i) any.
Proof.
  pose proof (good_shaped ni ne nv) as HI. intros Hi s Hs. unfold tear_event. apply wp_bind, wp_get.
  pose proof Hs as (_ & _ & _ & Hn). destruct (lookup_lt_is_Some_2 (g_ipc_events s) i ltac:(lia)) as [e ->].
  revert s Hs Hn. enough (Hk : keeps (shaped ni ne nv) (if ev_torn_down e then mret torn else
    _ ← (if is_opened e then _ ← drv (cudaEventDestroy (ev_event e)); mret tt else mret tt);
    _ ← modify (λ s, set_events (alter (λ e, MkEvent (ev_event e) (is_opened e) true) i (g_ipc_events s)) s);
    mret (torn + 1)) any) by (intros s Hs _; by apply Hk).
  apply keeps_if; [keeps_tac|]. eapply keeps_seq; [keeps_tac|]. intros [].
  eapply keeps_seq; [|intros []; keeps_tac]. apply keeps_modify. intros s (? & ? & ? & ?).
  unfold shaped. simpl. by rewrite length_alter.
Qed.

Lemma safe_teardown_events : safe ipc_teardown_all_events.
Proof.
  intros ni ne nv. unfold ipc_teardown_all_events.
  eapply keeps_bind; [apply (keeps_count _ _ _ _ nv); by intros s (_ & _ & _ & ?)|].
  intros n ->. destruct nv as [|nv]; [keeps_tac|]. destruct (real_dlsym _ _); [|keeps_tac].
  apply keeps_indices. by apply keeps_tear_event.
Qed.

(** ** Peer access *)

Lemma keeps_peers ni ne nv (p q : ipc D → gset Z) :
  keeps (shaped ni ne nv) (modify (λ s, set_peers (p s) (q s) s)) any.
Proof. by apply keeps_modify. Qed.

Lemma safe_disable_peers : safe ipc_disable_all_peer_access.
Proof.
  intros ni ne nv. pose proof (good_shaped ni ne nv) as HI. unfold ipc_disable_all_peer_access.
  eapply keeps_seq; [keeps_tac|]. intros []. apply keeps_has; [done|repeat constructor; used_tac|].
  eapply keeps_seq; [apply keeps_peers|]. intros []. eapply keeps_seq; [keeps_tac|]. intros devs.
  eapply keeps_seq; [|intros n; eapply keeps_seq; [apply keeps_peers|intros []; keeps_tac]].
  apply (keeps_foldM _ _ any); [done|]. intros l dev _ _. unfold disable_one.
  eapply keeps_seq; [keeps_tac|]. intros err. eapply keeps_seq; [by apply keeps_last_error|]. intros ?. keeps_tac.
Qed.

Lemma safe_reenable_peers : safe ipc_reenable_all_peer_access.
Proof.
  intros ni ne nv. pose proof (good_shaped ni ne nv) as HI. unfold ipc_reenable_all_peer_access.
  eapply keeps_seq; [keeps_tac|]. intros []. apply keeps_has; [done|repeat constructor; used_tac|].
  eapply keeps_seq; [keeps_tac|]. intros devs.
  eapply keeps_seq; [|intros n; eapply keeps_seq; [apply keeps_peers|intros []; keeps_tac]].
  apply (keeps_foldM _ _ any); [done|]. intros l dev _ _. unfold enable_one, note_peer.
  eapply keeps_seq; [keeps_tac|]. intros err. eapply keeps_seq; [|intros []; eapply keeps_seq;
    [by apply keeps_last_error|intros ?; keeps_tac]].
  apply keeps_if; [apply keeps_peers|keeps_tac].
Qed.

(** ** Publication and validation *)

Lemma safe_write_info b : safe (ipc_write_export_info_to_shm b).
Proof. intros ni ne nv. unfold ipc_write_export_info_to_shm. keeps_tac. Qed.

Lemma safe_validate a : safe (ipc_validate_all_mappings a).
Proof.
  intros ni ne nv. pose proof (good_shaped ni ne nv) as HI. unfold ipc_validate_all_mappings.
  do 2 (eapply keeps_seq; [keeps_tac|]; intros ?).
  do 3 (eapply keeps_seq; [apply (keeps_foldM _ _ any); [done|intros; by apply keeps_probe_one]|]; intros ?).
  keeps_tac.
Qed.

(** ** Exports *)

Section Exports.
Context (ni ne nv : nat).
Let I := shaped ni ne nv.
Let HI : good I := good_shaped ni ne nv.

Lemma keeps_export_at i : (i < ne)%nat → keeps I (export_at i) any.
Proof.
  intros Hi s Hs. unfold export_at, wp. pose proof Hs as (_ & _ & Hn & _).
  destruct (lookup_lt_is_Some_2 (g_ipc_exports (tb s)) i ltac:(lia)) as [r ->]. done.
Qed.

Lemma keeps_set_export i g : keeps I (set_export i g) any.
Proof.
  apply keeps_track. unfold I, shaped. intros s (Hs & Hn & He). simpl. by rewrite length_alter.
Qed.

Lemma keeps_save_one c hb acc ir : (∀ h p n, keeps I (c h p n) any) → keeps I (save_one c hb acc ir) any.
Proof.
  intros Hc. unfold save_one. destruct acc as [o k]. eapply keeps_seq; [apply keeps_set_export|]. intros [].
  eapply keeps_seq; [apply Hc|]. intros res. keeps_tac.
Qed.

Lemma keeps_save_device hb pinned async acc dg : keeps I (save_device hb pinned async acc dg) any.
Proof.
  pose proof HI. unfold save_device. eapply keeps_seq; [by apply keeps_push_ctx|]. intros pushed.
  eapply keeps_seq.
  - destruct async.
    + eapply keeps_seq; [by apply keeps_new_stream|]. intros x. eapply keeps_seq.
      { apply keeps_for_ret. intros. apply keeps_save_one. intros. keeps_tac. }
      intros r. eapply keeps_seq; [destruct r; [by apply keeps_sync_stream|keeps_tac]|]. intros [].
      eapply keeps_seq; [by apply keeps_destroy_stream|]. intros []. keeps_tac.
    + apply keeps_for_ret. intros. apply keeps_save_one. intros. keeps_tac.
  - intros [acc'|]; [eapply keeps_seq; [by apply keeps_pop_ctx|]; intros []; keeps_tac|].
    eapply keeps_seq; [keeps_tac|]. intros []. eapply keeps_seq; [|intros []; keeps_tac].
    apply keeps_if; [by apply keeps_unregister|keeps_tac].
Qed.

Lemma keeps_close_fd i : (i < ne)%nat → keeps I (close_export_fd i) any.
Proof.
  pose proof HI. intros Hi. unfold close_export_fd. eapply keeps_seq; [by apply keeps_export_at|]. intros r.
  apply keeps_if; [keeps_tac|]. apply keeps_if; [|keeps_tac].
  eapply keeps_seq; [keeps_tac|]. intros []. apply keeps_set_export.
Qed.

Lemma keeps_tear_export torn i : (i < ne)%nat → keeps I (tear_export torn i) any.
Proof.
  pose proof HI. intros Hi. unfold tear_export. eapply keeps_seq; [by apply keeps_export_at|]. intros r.
  apply keeps_if; [keeps_tac|]. apply keeps_if; [keeps_tac|].
  eapply keeps_seq; [by apply keeps_try_unmap|]. intros []. eapply keeps_seq; [unfold real_release; keeps_tac|].
  intros ?. eapply keeps_seq; [apply keeps_set_export|]. intros []. keeps_tac.
Qed.

Lemma keeps_save_exports hb n : keeps I (ipc_save_and_teardown_all_exports hb n) any.
Proof.
  pose proof HI. unfold ipc_save_and_teardown_all_exports. do 2 (eapply keeps_seq; [keeps_tac|]; intros ?).
  apply keeps_has; [done|repeat constructor; used_tac|].
  eapply keeps_bind; [apply keeps_get|]. intros es (s0 & Hs0 & ->).
  assert (Hes : length (g_ipc_exports (tb s0)) = ne) by apply Hs0.
  apply keeps_if; [keeps_tac|]. eapply keeps_seq; [by apply keeps_pin|]. intros pinned.
  eapply keeps_seq; [apply keeps_use_async; [done|used_tac]|]. intros async.
  eapply keeps_seq; [apply keeps_for_ret; intros; apply keeps_save_device|]. intros [?|?]; [|keeps_tac].
  eapply keeps_seq; [by apply keeps_unpin|]. intros []. rewrite Hes.
  eapply keeps_seq; [apply keeps_indices; intros; by apply keeps_close_fd|]. intros [].
  apply keeps_indices. by apply keeps_tear_export.
Qed.
End Exports.

Lemma safe_save_exports hb n : safe (ipc_save_and_teardown_all_exports hb n).
Proof. intros ni ne nv. apply keeps_save_exports. Qed.

(** The entries of a rebuild point into a table of length [n]. *)
Definition within (n : nat) (es : list RebuildEntry) : Prop := Forall (λ e, (export_idx e < n)%nat) es.

Lemma within_groups n es : within n es → within n (concat (snd <$> group_by re_dev es)).
Proof. unfold within. intros H. by rewrite group_by_perm. Qed.

Section Rebuild.
Context (ni ne nv : nat).
Let I := shaped ni ne nv.
Let HI : good I := good_shaped ni ne nv.

Lemma keeps_replay_export r : keeps I (replay_export r) any.
Proof. pose proof HI. unfold replay_export, real_set_access. keeps_tac. Qed.

Lemma keeps_alloc_export acc i : (i < ne)%nat → within ne acc.1 →
  keeps I (alloc_export acc i) (λ a, within ne a.1).
Proof.
  pose proof HI. intros Hi Ha. unfold alloc_export. eapply keeps_seq; [by apply keeps_export_at|]. intros r.
  do 3 (apply keeps_if; [by apply keeps_ret|]).
  eapply keeps_seq; [unfold real_create; keeps_tac|]. intros h. apply keeps_if; [by apply keeps_ret|].
  eapply keeps_seq; [unfold real_map; keeps_tac|]. intros res. apply keeps_if.
  { eapply keeps_seq; [unfold real_release; keeps_tac|]. intros ?. by apply keeps_ret. }
  eapply keeps_seq; [apply keeps_replay_export|]. intros []. apply keeps_ret. simpl.
  apply Forall_app; split; [done|]. by repeat constructor.
Qed.

Lemma keeps_reexport e : (export_idx e < ne)%nat → keeps I (reexport e) any.
Proof.
  pose proof HI. intros Hi. unfold reexport. eapply keeps_seq; [by apply keeps_export_at|]. intros r.
  eapply keeps_seq; [unfold real_export; keeps_tac|]. intros fd. eapply keeps_seq.
  { apply keeps_if; [|keeps_tac]. by apply keeps_track. }
  intros []. eapply keeps_seq; [apply keeps_set_export|]. intros []. by apply keeps_track.
Qed.

Lemma keeps_rebuild_exports hb n : keeps I (ipc_rebuild_and_restore_all_exports hb n) any.
Proof.
  pose proof HI. unfold ipc_rebuild_and_restore_all_exports. eapply keeps_seq; [keeps_tac|]. intros [].
  eapply keeps_seq; [keeps_tac|]. intros []. apply keeps_has; [done|repeat constructor; used_tac|].
  eapply keeps_bind; [apply (keeps_count _ _ _ _ ne); by intros s (_ & _ & ? & _)|]. intros k ->.
  eapply (keeps_bind _ _ _ (λ a, within ne a.1)).
  { apply keeps_foldM; [constructor|]. intros l i Hl Hi%elem_of_seq. apply keeps_alloc_export; [lia|done]. }
  intros acc Hacc. eapply keeps_seq; [by apply keeps_pin|]. intros pinned.
  eapply keeps_seq; [apply keeps_use_async; [done|used_tac]|]. intros async.
  eapply keeps_seq; [keeps_tac|]. intros es.
  eapply keeps_seq; [apply (keeps_foldM _ _ any); [done|]; intros; by apply keeps_load_device|]. intros [].
  eapply keeps_seq; [by apply keeps_unpin|]. intros []. eapply keeps_seq; [|intros []; keeps_tac].
  apply (keeps_foldM _ _ any); [done|]. intros [] e _ He. apply keeps_reexport.
  apply within_groups in Hacc. unfold within in Hacc. rewrite Forall_forall in Hacc. by apply Hacc.
Qed.
End Rebuild.

Lemma safe_rebuild_exports hb n : safe (ipc_rebuild_and_restore_all_exports hb n).
Proof. intros ni ne nv. apply keeps_rebuild_exports. Qed.

(** ** Local allocations *)

Section Local.
Context (ni ne nv : nat).

Lemma keeps_local_at nl i : (i < nl)%nat → keeps (sized ni ne nv nl) (local_at i) any.
Proof.
  intros Hi s Hs. unfold local_at, wp. pose proof Hs as (_ & Hn).
  destruct (lookup_lt_is_Some_2 (g_local_allocs (tb s)) i ltac:(lia)) as [r ->]. done.
Qed.

Lemma keeps_set_local_at nl i g : keeps (sized ni ne nv nl) (set_local_at i g) any.
Proof. apply keeps_track. intros s [Hs Hn]. split; [exact Hs|]. simpl. by rewrite length_alter. Qed.

Lemma keeps_tear_local nl torn i : (i < nl)%nat → keeps (sized ni ne nv nl) (tear_local torn i) any.
Proof.
  pose proof (good_sized ni ne nv nl) as HI. intros Hi. unfold tear_local.
  eapply keeps_seq; [by apply keeps_local_at|]. intros r. eapply keeps_seq; [by apply keeps_try_unmap|]. intros [].
  eapply keeps_seq; [unfold real_release; keeps_tac|]. intros ?.
  eapply keeps_seq; [apply keeps_set_local_at|]. intros []. keeps_tac.
Qed.

Lemma keeps_save_local_device hb pinned async l dg :
  keeps (shaped ni ne nv) (save_local_device hb pinned async l dg) any.
Proof.
  pose proof (good_shaped ni ne nv) as HI. unfold save_local_device.
  eapply keeps_seq; [by apply keeps_push_ctx|]. intros pushed. eapply keeps_seq.
  - destruct async; [|keeps_tac]. eapply keeps_seq; [by apply keeps_new_stream|]. intros x.
    eapply keeps_seq; [keeps_tac|]. intros []. eapply keeps_seq; [by apply keeps_sync_stream|]. intros [].
    eapply keeps_seq; [by apply keeps_destroy_stream|]. intros []. keeps_tac.
  - intros [?|?].
    + eapply keeps_seq; [by apply keeps_pop_ctx|]. intros []. eapply keeps_seq; [|intros []; keeps_tac].
      by apply keeps_track.
    + eapply keeps_seq; [keeps_tac|]. intros []. eapply keeps_seq; [|intros []; keeps_tac].
      apply keeps_if; [by apply keeps_unregister|keeps_tac].
Qed.

(** The last loop runs over the allocations there are by then. *)
Lemma keeps_tear_locals : keeps (shaped ni ne nv)
  (n ← get (λ s, length (g_local_allocs (tb s))); foldM tear_local 0 (seq 0 n)) any.
Proof.
  intros s Hs. apply wp_bind, wp_get.
  assert (Hk : keeps (sized ni ne nv (length (g_local_allocs (tb s))))
    (foldM tear_local 0 (seq 0 (length (g_local_allocs (tb s))))) any).
  { apply (keeps_foldM _ _ any); [done|]. intros l i _ Hi%elem_of_seq. apply keeps_tear_local. lia. }
  eapply wp_mono; [by apply Hk|]. by intros a s' [[Hs' _] _].
Qed.

Lemma keeps_save_locals hb n : keeps (shaped ni ne nv) (ipc_save_and_teardown_local_allocs hb n) any.
Proof.
  pose proof (good_shaped ni ne nv) as HI. unfold ipc_save_and_teardown_local_allocs.
  do 2 (eapply keeps_seq; [keeps_tac|]; intros ?). apply keeps_has; [done|repeat constructor; used_tac|].
  eapply keeps_seq; [by apply keeps_track|]. intros []. eapply keeps_seq; [keeps_tac|]. intros rs.
  destruct (collect_local n 0 rs) as [[xs o]|]; [|keeps_tac].
  eapply keeps_seq; [by apply keeps_pin|]. intros pinned.
  eapply keeps_seq; [apply keeps_use_async; [done|used_tac]|]. intros async.
  eapply keeps_seq; [apply keeps_for_ret; intros; apply keeps_save_local_device|]. intros [?|?]; [|keeps_tac].
  eapply keeps_seq; [by apply keeps_unpin|]. intros []. apply keeps_tear_locals.
Qed.

Lemma keeps_replay_local nl r : keeps (sized ni ne nv nl) (replay_local r) any.
Proof. pose proof (good_sized ni ne nv nl). unfold replay_local, real_set_access. keeps_tac. Qed.

Lemma keeps_alloc_local nl acc i : (i < nl)%nat → within nl acc.1 →
  keeps (sized ni ne nv nl) (alloc_local acc i) (λ a, within nl a.1).
Proof.
  pose proof (good_sized ni ne nv nl) as HI. intros Hi Ha. unfold alloc_local.
  eapply keeps_seq; [by apply keeps_local_at|]. intros r. apply keeps_if; [by apply keeps_ret|].
  eapply keeps_seq; [unfold real_create; keeps_tac|]. intros h. apply keeps_if; [by apply keeps_ret|].
  eapply keeps_seq; [unfold real_map; keeps_tac|]. intros res. apply keeps_if.
  { eapply keeps_seq; [unfold real_release; keeps_tac|]. intros ?. by apply keeps_ret. }
  eapply keeps_seq; [apply keeps_replay_local|]. intros []. apply keeps_ret. simpl.
  apply Forall_app; split; [done|]. by repeat constructor.
Qed.

Lemma keeps_retrack_local nl e : (export_idx e < nl)%nat → keeps (sized ni ne nv nl) (retrack_local e) any.
Proof.
  intros Hi. unfold retrack_local. eapply keeps_seq; [by apply keeps_local_at|]. intros r.
  eapply keeps_seq; [by apply keeps_track|]. intros []. apply keeps_set_local_at.
Qed.

Lemma keeps_rebuild_local_device nl hb n async dg : within nl dg.2 →
  keeps (sized ni ne nv nl) (rebuild_local_device hb n async dg) any.
Proof.
  pose proof (good_sized ni ne nv nl) as HI. intros Hd. unfold rebuild_local_device.
  eapply keeps_seq; [keeps_tac|]. intros rs. eapply keeps_seq; [by apply keeps_load_device|]. intros [].
  apply (keeps_foldM _ _ any); [done|]. intros [] e _ He. apply keeps_retrack_local.
  unfold within in Hd. rewrite Forall_forall in Hd. by apply Hd.
Qed.

Lemma keeps_rebuild_locals nl hb n : keeps (sized ni ne nv nl) (ipc_rebuild_local_allocs hb n) any.
Proof.
  pose proof (good_sized ni ne nv nl) as HI. unfold ipc_rebuild_local_allocs.
  eapply keeps_seq; [keeps_tac|]. intros []. apply keeps_has; [done|repeat constructor; used_tac|].
  eapply (keeps_bind _ _ _ (λ k, k = nl)); [intros s Hs; split; [done|apply Hs]|]. intros k ->.
  eapply (keeps_bind _ _ _ (λ a, within nl a.1)).
  { apply keeps_foldM; [constructor|]. intros l i Hl Hi%elem_of_seq. apply keeps_alloc_local; [lia|done]. }
  intros acc Hacc. eapply keeps_seq; [by apply keeps_pin|]. intros pinned.
  eapply keeps_seq; [apply keeps_use_async; [done|used_tac]|]. intros async.
  eapply keeps_seq; [|intros []; eapply keeps_seq; [by apply keeps_unpin|intros []; keeps_tac]].
  apply (keeps_foldM _ _ any); [done|]. intros [] dg _ Hdg. apply keeps_rebuild_local_device.
  apply within_groups in Hacc. unfold within in *. rewrite Forall_forall in *. intros e He. apply Hacc.
  rewrite list_elem_of_In, in_concat. exists dg.2. rewrite <- !list_elem_of_In. split; [|done].
  apply list_elem_of_fmap. by exists dg.
Qed.
End Local.

Lemma safe_save_locals hb n : safe (ipc_save_and_teardown_local_allocs hb n).
Proof. intros ni ne nv. apply keeps_save_locals. Qed.
Lemma safe_rebuild_locals hb n : safe (ipc_rebuild_local_allocs hb n).
Proof. apply safe_sized. intros. apply keeps_rebuild_locals. Qed.

(** ** The rebuild of the imports *)

Lemma torn_imports_lt imps i : i ∈ torn_imports imps → (i < length imps)%nat.
Proof.
  unfold torn_imports. intros ([j r] & -> & [_ Hin]%list_elem_of_filter)%list_elem_of_fmap.
  apply elem_of_lookup_imap in Hin as (k & r' & [= <- <-] & Hl). by eapply lookup_lt_Some.
Qed.

Context {SK : Sockets D} {SR : SockReturns D} {TP : TalkingPeers D}.

Section ImportBlock.
Context (ni ne nv : nat) (Hpeers : honest_peers (D:=D)).
Let I := shaped ni ne nv.
Let HI : good I := good_shaped ni ne nv.

Lemma keeps_request_peer fds req : keeps I (request_peer fds req) any.
Proof.
  pose proof HI. unfold request_peer. eapply keeps_seq; [|intros r; keeps_tac]. apply keeps_drv; [done|].
  apply receive_returns; [done|]. by rewrite length_replicate, length_fmap.
Qed.

Lemma keeps_rebuild_import rebuilt m : (m.2 < ni)%nat → keeps I (rebuild_import rebuilt m) any.
Proof.
  pose proof HI. intros Hi. unfold rebuild_import. eapply keeps_seq; [by apply keeps_import_at|]. intros target.
  eapply keeps_seq; [unfold real_import; keeps_tac|]. intros r. eapply keeps_seq; [keeps_tac|]. intros [].
  apply keeps_if; [keeps_tac|]. eapply keeps_seq; [unfold real_map; keeps_tac|]. intros res. apply keeps_if.
  { eapply keeps_seq; [unfold real_release; keeps_tac|]. intros ?. keeps_tac. }
  eapply keeps_seq; [unfold replay_import, real_set_access; keeps_tac|]. intros [].
  eapply keeps_seq; [apply keeps_set_import|]. intros []. keeps_tac.
Qed.

Lemma keeps_import_block b : num_exports b ≤ Z.of_nat (length (entries b)) →
  keeps I (ipc_import_from_shm_block b) any.
Proof.
  pose proof HI. intros Hb. unfold ipc_import_from_shm_block. apply keeps_if; [keeps_tac|].
  eapply keeps_seq; [keeps_tac|]. intros []. apply keeps_has; [done|repeat constructor; used_tac|].
  eapply keeps_seq; [unfold block_entries; rewrite bool_decide_eq_false_2 by lia; keeps_tac|]. intros es.
  eapply keeps_seq; [apply (keeps_foldM _ _ any); [done|]; intros; apply keeps_request_peer|]. intros fds.
  eapply keeps_bind; [apply keeps_get|]. intros torn (s0 & Hs0 & ->).
  eapply keeps_seq; [|intros rebuilt; eapply keeps_seq; [keeps_tac|intros []; keeps_tac]].
  apply (keeps_foldM _ _ any); [done|]. intros l [fd i] _ Hin. apply keeps_rebuild_import. simpl.
  apply elem_of_zip_r, torn_imports_lt in Hin. by destruct Hs0 as (_ & <- & _).
Qed.
End ImportBlock.

Lemma safe_import_block b : honest_peers (D:=D) → num_exports b ≤ Z.of_nat (length (entries b)) →
  safe (ipc_import_from_shm_block b).
Proof. intros Hp Hb ni ne nv. by apply keeps_import_block. Qed.

(** Reads of the tables keep everything. *)
Lemma safe_wp {A} (m : M (ipc D) A) (Q : A → ipc D → Prop) s : safe m → fns s = f →
  (∀ a s', fns s' = f → length (g_ipc_imports (tb s')) = length (g_ipc_imports (tb s)) →
     length (g_ipc_exports (tb s')) = length (g_ipc_exports (tb s)) → Q a s') → wp m Q s.
Proof.
  intros Hm Hs HQ. eapply wp_mono; [by apply (Hm (length (g_ipc_imports (tb s))) (length (g_ipc_exports (tb s)))
    (length (g_ipc_events s)))|].
  intros a s' [(? & ? & ? & ?) _]. by apply HQ.
Qed.
End Safe.
