(* ===== verification/HandlerFacts.v ===== *)
(** The IPC signal handler always answers.

    From every process state of [serviceable] each IPC phase returns, keeps the state
    serviceable and ends with [FINISH_MSG] on the control page, whatever the tables
    contain and whatever the driver, the sockets and [mmap] answer, as long as they do and no peer announces
    more descriptors than it was asked for. *)
From S2P Require Import Prelude Common Gpu Ckpt IpcState IpcDriver FdExchange FdFacts IpcHooks IpcExports.
From S2P Require Import IpcSafe IpcPublish Process Handlers.
Open Scope Z_scope.

(** The file system calls come back. *)
Class PosixReturns (P : Type) {PX : Posix P} := {
  mmap_ret n k : returns (mmap n k);
  munmap_ret a n : returns (munmap a n)
}.

(** A rebuild block has its 64 entries, and counts no more. *)
Definition block_ok (b : IpcRebuildShmBlock) : Prop :=
  Z.of_nat (length (entries b)) = IPC_MAX_EXPORTS_PER_PROC ∧ 0 ≤ num_exports b ≤ IPC_MAX_EXPORTS_PER_PROC.

Lemma written_block_ok {PF : Platform} b es : block_ok b →
  block_ok (foldl write_entry (MkBlock 0 (entries b)) (take (Z.to_nat IPC_MAX_EXPORTS_PER_PROC) es)).
Proof.
  intros [Hl _]. pose proof (publishable_length es) as Hp. unfold publishable in Hp.
  destruct (write_entries (take (Z.to_nat IPC_MAX_EXPORTS_PER_PROC) es) (MkBlock 0 (entries b))) as (Hn & Hl' & _);
    [done|simpl; lia|]. split; [by rewrite Hl'|]. rewrite Hn. simpl. lia.
Qed.

Section Server.
Context {D : Type} {SK : Sockets D} {SR : SockReturns D} {TP : TalkingPeers D}.

Lemma returns_sys {A} (m : M D A) : returns m → returns (sys m).
Proof. intros Hm s. by apply wp_sys. Qed.

Lemma start_returns pid : returns (uds_fd_server_start pid).
Proof.
  unfold uds_fd_server_start, set_server, set_thread. apply returns_bind; [done|]. intros g.
  repeat first
    [ apply returns_if | apply returns_ret | apply returns_sys; auto with sock; done
    | apply returns_bind; [|intros ?] | done ].
Qed.

Lemma stop_returns fuel : (3 < fuel)%nat → returns (uds_fd_server_stop fuel).
Proof.
  intros Hf s. unfold uds_fd_server_stop. apply wp_bind, wp_get. destruct (running (g_server s)); [|done].
  apply wp_bind, wp_set_server. apply wp_bind.
  eapply (wp_mono _ (λ _ s', running (g_server s') = false)).
  - case_bool_decide; [|done]. apply wp_bind, wp_sys; [auto with sock|]. intros _ d. by apply wp_set_server.
  - intros _ s1 H1. apply wp_bind. eapply wp_mono; [apply pthread_join_spec; [|done]|].
    { unfold rank. destruct (thread s1) as [[]|]; lia. }
    intros _ s2 _. apply wp_bind, wp_get. case_bool_decide; [done|].
    apply wp_bind, wp_sys; [auto with sock|]. by intros _ d.
Qed.
End Server.

Section Answers.
Context {W D P : Type} {GW : GPU W} {GL : GPULaws W} {GO : GPUObject W} {CD : CuDriver D} {CT : CuReturns D}.
Context {SK : Sockets D} {SR : SockReturns D} {TP : TalkingPeers D} {PX : Posix P} {PR : PosixReturns P} {BD : Build} {PF : Platform}.
Context (probe_addr : Z).
Abbreviation proc := (proc W D P).

(** What the handler needs, and what it leaves as it was in [p0]: the device memory,
    the dump and the mappings of the backing files. *)
Record serving (p0 p : proc) : Prop := {
  sv_init : CR_initialized p = true;
  sv_fns : resolved (fns (hooks p));
  sv_wf : gpu_wf (vgpu (vg p));
  sv_queue : g_queue (gpu_view (vgpu (vg p))) = [];
  sv_block : block_ok (peer_block p);
  sv_my : block_ok (my_block p);
  sv_view : gpu_view (vgpu (vg p)) = gpu_view (vgpu (vg p0));
  sv_fs : fs (vg p) = fs (vg p0);
  sv_locks : (fs_mutex (vg p), gpu_mem_mutex (vg p)) = (fs_mutex (vg p0), gpu_mem_mutex (vg p0));
  sv_mapped : mapped p = mapped p0;
  sv_id : cr_id p = cr_id p0
}.

Context (p0 : proc).
Abbreviation serviceable := (serving p0).

(** One component's run inside the process. *)
Lemma ipc_do_service {A} (m : M (ipc D) A) p : (∀ f, resolved f → safe f m) → serviceable p →
  wp (ipc_do m) (λ _ p', serviceable p') p.
Proof.
  intros Hm [? Hf ? ? ? ? ? ? ? ? ?]. unfold ipc_do. apply wp_zoom. eapply safe_wp; [by apply Hm|done|].
  intros a h Hh _ _. split; simpl; try done. by rewrite Hh.
Qed.

Lemma os_do_service {A} (m : M P A) p : returns m → serviceable p → wp (os_do m) (λ _ p', serviceable p') p.
Proof.
  intros Hm [? ? ? ? ? ? ? ? ? ? ?]. apply wp_zoom. eapply wp_mono; [apply Hm|]. intros a o _. by split.
Qed.

Lemma fd_do_service {A} (m : M (fdx D) A) p : returns m → serviceable p →
  wp (fd_do m) (λ _ p', serviceable p') p.
Proof.
  intros Hm [? ? ? ? ? ? ? ? ? ? ?]. apply wp_zoom. eapply wp_mono; [apply Hm|]. intros a o _. by split.
Qed.

Lemma sync_service p : serviceable p → wp (g_do syncAllKernels) (λ _ p', serviceable p') p.
Proof.
  intros [? ? Hw Hq ? ? Hvw ? ? ? ?]. unfold g_do, v_do, gpu_do. do 2 apply wp_zoom.
  destruct (syncAllKernels_law _ Hq Hw) as (w' & Hm & Hw' & Hv). eapply wp_intro; [exact Hm|].
  split; simpl; try done; by rewrite Hv.
Qed.

(** [service m]: from a serviceable state [m] returns in one. *)
Definition service {A} (m : M proc A) : Prop := ∀ p, serviceable p → wp m (λ _ p', serviceable p') p.

Lemma service_bind {A B} (m : M proc A) (f : A → M proc B) :
  service m → (∀ a, service (f a)) → service (m ≫= f).
Proof. intros Hm Hf p Hp. apply wp_bind. eapply wp_mono; [by apply Hm|]. intros a p' Hp'. by apply Hf. Qed.
Lemma service_ret {A} (a : A) : service (mret a).
Proof. by intros p Hp. Qed.
Lemma service_get {A} (f : proc → A) : service (get f).
Proof. by intros p Hp. Qed.
Lemma service_modify g : (∀ p, serviceable p → serviceable (g p)) → service (modify g).
Proof. intros Hg p Hp. by apply Hg. Qed.
Lemma service_if {A} (b : bool) (m1 m2 : M proc A) : service m1 → service m2 → service (if b then m1 else m2).
Proof. by destruct b. Qed.
Lemma service_ipc {A} (m : M (ipc D) A) : (∀ f, resolved f → safe f m) → service (ipc_do m).
Proof. intros Hm p Hp. by apply ipc_do_service. Qed.
Lemma service_os {A} (m : M P A) : returns m → service (os_do m).
Proof. intros Hm p Hp. by apply os_do_service. Qed.

Lemma serviceable_export b p : serviceable p → serviceable (set_export_data b p).
Proof. intros []; by split. Qed.
Lemma serviceable_local b p : serviceable p → serviceable (set_local_data b p).
Proof. intros []; by split. Qed.

Create HintDb service discriminated.
Hint Resolve service_bind service_ret service_get service_modify service_if service_ipc service_os
  serviceable_export serviceable_local : service.

Section Bufs.
Context (buf : proc → data_buf) (set_buf : data_buf → proc → proc).
Context (Hset : ∀ b p, serviceable p → serviceable (set_buf b p)).

Lemma service_fresh_buf n : service (fresh_buf buf set_buf n).
Proof.
  unfold fresh_buf. apply service_if; [|apply service_ret]. apply service_bind; [apply service_get|]. intros b.
  apply service_bind.
  - destruct (data_ptr b); [|apply service_ret].
    apply service_bind; [apply service_os, munmap_ret|]. intros _. apply service_modify. auto.
  - intros _. apply service_bind; [apply service_os, mmap_ret|]. intros q. apply service_modify. auto.
Qed.

Lemma service_with_buf g : (∀ a n, service (g a n)) → service (with_buf buf g).
Proof.
  intros Hg. unfold with_buf. apply service_bind; [apply service_get|]. intros b.
  destruct (data_ptr b); [|apply service_ret]. apply service_if; [apply Hg|apply service_ret].
Qed.

Lemma service_drop_buf a n : service (drop_buf set_buf a n).
Proof.
  unfold drop_buf. apply service_bind; [apply service_os, munmap_ret|]. intros _. apply service_modify. auto.
Qed.
End Bufs.

Lemma service_on_nvidia m : (∀ f, resolved f → safe f m) → service (on_nvidia m).
Proof.
  intros Hm. unfold on_nvidia. destruct HIP_PLATFORM_AMD; [apply service_ret|].
  apply service_bind; [by apply service_ipc|]. intros _. apply service_ret.
Qed.

Tactic Notation "ipc_step" uconstr(l) := apply service_bind; [apply service_ipc; intros; by apply l|intros ?].

Lemma service_teardown_tables : service teardown_tables.
Proof.
  unfold teardown_tables. apply service_bind; [exact sync_service|]. intros _.
  ipc_step safe_teardown_imports. ipc_step safe_get.
  apply service_bind; [apply service_fresh_buf, serviceable_export|]. intros _.
  apply service_bind; [apply service_with_buf; intros; ipc_step safe_save_exports; apply service_ret|]. intros _.
  ipc_step safe_teardown_events. ipc_step safe_get.
  apply service_bind; [apply service_fresh_buf, serviceable_local|]. intros _.
  apply service_with_buf; intros; ipc_step safe_save_locals; apply service_ret.
Qed.

Lemma service_teardown : service teardown_phase.
Proof.
  apply service_bind; [apply service_teardown_tables|]. intros _.
  apply service_on_nvidia. intros. by apply safe_disable_peers.
Qed.

(** Publication keeps the block well formed. *)
Lemma service_publish {B} (k : M proc B) : service k → service (b ← get my_block;
  r ← ipc_do (ipc_write_export_info_to_shm b); _ ← modify (set_my_block r.2); k).
Proof.
  intros Hk p Hp. apply wp_bind, wp_get, wp_bind, wp_zoom. unfold ipc_write_export_info_to_shm.
  apply wp_bind, wp_get, wp_ret, wp_bind, wp_modify, Hk. pose proof (sv_my _ _ Hp) as Hb.
  destruct Hp. split; try done. by apply written_block_ok.
Qed.

Lemma service_export : service export_phase.
Proof.
  unfold export_phase. apply service_bind.
  { apply service_with_buf. intros. ipc_step safe_rebuild_exports. apply service_drop_buf, serviceable_export. }
  intros _. apply service_bind.
  { apply service_with_buf. intros. ipc_step safe_rebuild_locals. apply service_drop_buf, serviceable_local. }
  intros _. apply service_publish.
  apply service_bind; [intros p; by apply fd_do_service, start_returns|]. intros _. apply service_ret.
Qed.

Lemma service_import : honest_peers (D:=D) → service (import_phase probe_addr).
Proof.
  intros Hpeers p Hp. unfold import_phase. apply wp_bind, wp_get.
  pose proof (sv_block _ _ Hp) as Hb.
  assert (Hs : service (_ ← (if bool_decide (0 < num_exports (peer_block p))
      then _ ← ipc_do (ipc_import_from_shm_block (peer_block p)); mret tt else mret tt);
    _ ← fd_do (uds_fd_server_stop join_steps);
    _ ← ipc_do (ipc_validate_all_mappings probe_addr);
    on_nvidia ipc_reenable_all_peer_access)); [|by apply Hs].
  apply service_bind.
  { apply service_if; [|apply service_ret]. apply service_bind; [|intros _; apply service_ret].
    apply service_ipc. intros. apply safe_import_block; [done..|]. destruct Hb; lia. }
  intros _. apply service_bind.
  { intros q. apply fd_do_service, stop_returns. unfold join_steps. lia. }
  intros _. ipc_step safe_validate. apply service_on_nvidia. intros. by apply safe_reenable_peers.
Qed.

(** One request of the coordinator: the message, the signal, and what it reads back. *)
Definition request (answers : list Z) (msg : Z) : M proc (list Z) :=
  _ ← send_msg msg; _ ← cr_ipc_signal_handler probe_addr; r ← recv_msg; mret (answers ++ [r]).

(** The handler of a serviceable process answers. *)
Lemma handler_answers p : honest_peers (D:=D) → serviceable p →
  wp (cr_ipc_signal_handler probe_addr) (λ _ p', signal (control p') = FINISH_MSG ∧ serviceable p') p.
Proof.
  intros Hpeers Hp. unfold cr_ipc_signal_handler, ensure_init. apply wp_bind, wp_bind, wp_get.
  rewrite (sv_init _ _ Hp). apply wp_ret, wp_bind, wp_get. apply wp_bind. set (msg := signal (control p)).
  eapply (wp_mono _ (λ _ p', serviceable p')).
  - assert (Hs : service (if bool_decide (msg = IPC_TEARDOWN_MSG) then teardown_phase
       else if bool_decide (msg = IPC_EXPORT_MSG) then export_phase
       else if bool_decide (msg = IPC_IMPORT_MSG) then import_phase probe_addr else mret tt)).
    { repeat apply service_if; [apply service_teardown|apply service_export|by apply service_import|apply service_ret]. }
    by apply Hs.
  - intros _ p' []. apply wp_modify. split; [done|]. by split.
Qed.

Lemma request_answers answers msg p : honest_peers (D:=D) → serviceable p →
  wp (request answers msg) (λ l p', l = answers ++ [FINISH_MSG] ∧ serviceable p') p.
Proof.
  intros Hpeers Hp. unfold request. apply wp_bind, wp_modify. apply wp_bind.
  eapply (wp_mono _ (λ _ p', signal (control p') = FINISH_MSG ∧ serviceable p')).
  2:{ intros _ p' [Hs Hp']. apply wp_bind, wp_get, wp_ret. by rewrite Hs. }
  apply handler_answers; [done|]. destruct Hp. by split.
Qed.
End Answers.
