(* ===== verification/Cluster.v ===== *)
(** The machine a coordinator works on: worker processes, signals, shared pages.

    A worker ([node]) is a process of [Process] with its pending signals; it runs the
    handlers of [Handlers] when it is scheduled, each to its end.  A coordinator
    ([src/coordinator/]) reaches the workers through the control pages, [kill] and the
    dump files; between any two of its calls an arbitrary schedule lets workers run.
    [calls] records what the coordinator did, for the statements on its order. *)
From S2P Require Import Prelude Common Gpu Ckpt IpcState IpcDriver FdExchange IpcHooks Process Handlers.
Open Scope Z_scope.

(** A worker process. *)
Record node (W D P : Type) := MkNode {
  n_pid : Z;
  n_proc : proc W D P;
  n_alive : bool;
  n_pending : list Z           (* signals sent and not yet delivered *)
}.
Arguments MkNode {W D P}. Arguments n_pid {W D P}. Arguments n_proc {W D P}.
Arguments n_alive {W D P}. Arguments n_pending {W D P}.

(** What [waitpid] reports of a child. *)
Inductive child_status := ForkFailed | WaitFailed | Exited (code : Z) | Signaled.

(** The coordinator's own system calls.  Its helper programs ([cuda-checkpoint], [criu])
    act on the workers. *)
Class Host (W D P : Type) := {
  readlink_exe : nat → M P (option string);          (* at most that many bytes *)
  realpath : string → M P (option string);
  can_access : string → bool → M P bool;             (* [F_OK], or [X_OK] if [true] *)
  chmod : string → Z → M P Z;
  popen_lines : string → M P (option (list string)); (* what [fgets] reads of the output *)
  spawn : list string → M (P * list (node W D P)) child_status;  (* fork, execvp, waitpid *)
  system : string → M (P * list (node W D P)) Z
}.

(** The calls of a coordinator. *)
Inductive call :=
  | CSend (pid msg : Z)
  | CKill (pid sig : Z)
  | CSeen (pid : Z)                                  (* [is_finished] answered true *)
  | CSpawn (argv : list string)
  | CSystem (cmd : string)
  | CExchange.

Record world (W D P : Type) := MkWorld {
  nodes : list (node W D P);
  clock : nat;                                       (* how often the workers were let run *)
  host : P;
  stale_pages : gmap Z signal_controls;              (* control pages no process owns *)
  stale_blocks : gmap Z (IpcRebuildShmBlock * IpcRebuildShmBlock);  (* dump files likewise *)
  calls : list call
}.
Arguments MkWorld {W D P}. Arguments nodes {W D P}. Arguments clock {W D P}. Arguments host {W D P}.
Arguments stale_pages {W D P}. Arguments stale_blocks {W D P}. Arguments calls {W D P}.

Section Cluster.
Context {W D P : Type} {GW : GPU W} {GO : GPUObject W} {CD : CuDriver D} {SK : Sockets D}.
Context {PX : Posix P} {BD : Build} {HS : Host W D P}.
(** The dynamic linker, the stack and the pid each process sees. *)
Context (platform_of : Z → Platform).
Context (probe_addr : Z).
(** Which workers run before the coordinator's [n]-th call. *)
Context (sched : nat → list nat).
Abbreviation node := (node W D P).
Abbreviation world := (world W D P).

Definition set_nodes x (w : world) : world :=
  MkWorld x (clock w) (host w) (stale_pages w) (stale_blocks w) (calls w).
Definition set_clock x (w : world) : world :=
  MkWorld (nodes w) x (host w) (stale_pages w) (stale_blocks w) (calls w).
Definition set_host x (w : world) : world :=
  MkWorld (nodes w) (clock w) x (stale_pages w) (stale_blocks w) (calls w).
Definition set_stale_pages x (w : world) : world :=
  MkWorld (nodes w) (clock w) (host w) x (stale_blocks w) (calls w).
Definition set_stale_blocks x (w : world) : world :=
  MkWorld (nodes w) (clock w) (host w) (stale_pages w) x (calls w).
Definition set_calls x (w : world) : world :=
  MkWorld (nodes w) (clock w) (host w) (stale_pages w) (stale_blocks w) x.

(** ** Workers *)

(** The handler a worker has installed. *)
Definition handler (pid sig : Z) : option (M (proc W D P) unit) :=
  installed (PF:=platform_of pid) probe_addr sig.

Definition lowest (l : list Z) : option Z :=
  match l with [] => None | s :: l => Some (foldr Z.min s l) end.
Fixpoint remove_one (x : Z) (l : list Z) : list Z :=
  match l with [] => [] | y :: l => if bool_decide (x = y) then l else y :: remove_one x l end.

(** The delivery of one signal: the lowest number first; no handler ends the process. *)
Definition deliver (n : node) : node :=
  if n_alive n then
    match lowest (n_pending n) with
    | None => n
    | Some sig =>
        match handler (n_pid n) sig with
        | None => MkNode (n_pid n) (n_proc n) false []
        | Some h =>
            match h (n_proc n) with
            | Ret _ p => MkNode (n_pid n) p true (remove_one sig (n_pending n))
            | Exit _ p | Stuck _ p => MkNode (n_pid n) p false []
            end
        end
    end
  else n.

(** A standard signal that is pending already is not queued again. *)
Definition raise (sig : Z) (n : node) : node :=
  if bool_decide (sig < 32 ∧ sig ∈ n_pending n) then n
  else MkNode (n_pid n) (n_proc n) (n_alive n) (n_pending n ++ [sig]).

Definition run_workers (l : list nat) (ns : list node) : list node :=
  foldl (λ ns i, alter deliver i ns) ns l.

(** The workers run. *)
Definition tick : M world unit :=
  modify (λ w, set_clock (S (clock w)) (set_nodes (run_workers (sched (clock w)) (nodes w)) w)).

Definition log (c : call) : M world unit := modify (λ w, set_calls (calls w ++ [c]) w).

Definition find_node (f : node → bool) (ns : list node) : option node := snd <$> list_find (λ n, f n) ns.
Definition with_pid (pid : Z) (n : node) : bool := bool_decide (n_pid n = pid).
Definition update_nodes (f : node → bool) (g : node → node) (ns : list node) : list node :=
  (λ n, if f n then g n else n) <$> ns.

Definition on_proc (g : proc W D P → proc W D P) (n : node) : node :=
  MkNode (n_pid n) (g (n_proc n)) (n_alive n) (n_pending n).

(** ** The coordinator's calls *)

Definition no_page : signal_controls := MkCtl 0 (MkReq 0 []).

(** The control page of a pid. *)
Definition page_of (pid : Z) (w : world) : signal_controls :=
  match find_node (with_pid pid) (nodes w) with
  | Some n => control (n_proc n)
  | None => default no_page (stale_pages w !! pid)
  end.
Definition set_page (pid : Z) (c : signal_controls) (w : world) : world :=
  match find_node (with_pid pid) (nodes w) with
  | Some _ => set_nodes (update_nodes (with_pid pid) (on_proc (set_control c)) (nodes w)) w
  | None => set_stale_pages (<[pid := c]> (stale_pages w)) w
  end.

(** [comm->send_msg], [comm->is_finished] and [comm->control->selective_req = req] *)
Definition comm_send (pid msg : Z) : M world unit :=
  _ ← tick; _ ← log (CSend pid msg); modify (λ w, set_page pid (put_msg msg (page_of pid w)) w).
Definition comm_request (pid : Z) (req : selective_cr_request) : M world unit :=
  _ ← tick; modify (λ w, set_page pid (MkCtl (signal (page_of pid w)) req) w).
Definition comm_finished (pid : Z) : M world bool :=
  _ ← tick;
  m ← get (λ w, signal (page_of pid w));
  if bool_decide (m = FINISH_MSG) then _ ← log (CSeen pid); mret true else mret false.

Definition kill (pid sig : Z) : M world Z :=
  _ ← tick; _ ← log (CKill pid sig);
  ns ← get nodes;
  match find_node (λ n, with_pid pid n && n_alive n) ns with
  | None => mret (-1)
  | Some _ => _ ← modify (λ w, set_nodes (update_nodes (with_pid pid) (raise sig) (nodes w)) w); mret 0
  end.

(** [while (!comm->is_finished()) usleep(1000);] *)
Definition wait_finished (fuel : nat) (pid : Z) : M world unit :=
  iter fuel (λ _, f ← comm_finished pid;
                  if f : bool then mret (inr tt) else _ ← tick; mret (inl tt)) tt.

(** The system calls of the coordinator itself, and the programs it runs. *)
Definition host_do {A} (m : M P A) : M world A := _ ← tick; zoom host set_host m.
Definition tool_do {A} (m : M (P * list node) A) : M world A :=
  _ ← tick; zoom (λ w, (host w, nodes w)) (λ x w, set_nodes x.2 (set_host x.1 w)) m.

(** ** The dump files as the coordinator sees them *)

(** The file of worker [id]: the process that mapped it, or nobody's. *)
Definition with_id (id : Z) (n : node) : bool := bool_decide (cr_id (n_proc n) = id).
Definition no_block : IpcRebuildShmBlock :=
  MkBlock 0 (replicate (Z.to_nat IPC_MAX_EXPORTS_PER_PROC) (MkEntry 0 0 0 0 0)).
Definition blocks_of_file (id : Z) (w : world) : IpcRebuildShmBlock * IpcRebuildShmBlock :=
  match find_node (with_id id) (nodes w) with
  | Some n => (my_block (n_proc n), peer_block (n_proc n))
  | None => default (no_block, no_block) (stale_blocks w !! id)
  end.
Definition set_peer_block_of (id : Z) (b : IpcRebuildShmBlock) (w : world) : world :=
  match find_node (with_id id) (nodes w) with
  | Some _ => set_nodes (update_nodes (with_id id) (on_proc (set_peer_block b)) (nodes w)) w
  | None => set_stale_blocks (<[id := ((blocks_of_file id w).1, b)]> (stale_blocks w)) w
  end.

End Cluster.
