(* ===== verification/SignalFacts.v ===== *)
(** The checkpoint and restore signals.

    The steps of [cr_signal_handler] around [ckpt] and [restore_ptr_and_content]: the
    context calls and the synchronisation leave the device's view alone, the
    checkpoint and restore rules apply, and peer access is given up and taken back. *)
From S2P Require Import Prelude Common Gpu Layout Ckpt SaveFacts CkptFacts Restore RestoreFacts CrTheorems.
From S2P Require Import IpcState IpcDriver FdExchange FdFacts IpcHooks IpcExports IpcSafe IpcPublish Process Handlers HandlerFacts.
Open Scope Z_scope.

(** The context calls succeed or fail, and leave the device's view alone. *)
Definition silent {W} {GW : GPU W} (m : M W Z) : Prop := ∀ w, gpu_wf w →
  ∃ r w', m w = Ret r w' ∧ gpu_wf w' ∧ gpu_view w' = gpu_view w.
Class GPUObjectLaws (W : Type) {GW : GPU W} {GO : GPUObject W} := {
  pushContext_law : silent (GW:=GW) pushContext;
  popContext_law : silent (GW:=GW) popContext
}.

(** The same memories, tables, dump and locks. *)
Record alike {W} {GW : GPU W} (s s' : vstate W) : Prop := {
  ak_view : gpu_view (vgpu s') = gpu_view (vgpu s);
  ak_fs : fs s' = fs s;
  ak_locks : (fs_mutex s', gpu_mem_mutex s') = (fs_mutex s, gpu_mem_mutex s);
  ak_wf : gpu_wf (vgpu s) → gpu_wf (vgpu s')
}.

Section Alike.
Context {W : Type} {GW : GPU W}.
Implicit Types (s : vstate W).

Lemma alike_refl s : alike s s.
Proof. by split. Qed.
Lemma alike_trans s1 s2 s3 : alike s1 s2 → alike s2 s3 → alike s1 s3.
Proof. intros [? ? ? ?] [? ? ? ?]. split; [congruence..|auto]. Qed.
Lemma alike_ready s s' : alike s s' → ready s → ready s'.
Proof.
  intros [Hv Hf Hl Hw] [? ? ? [? ?]]. injection Hl as H1 H2. split; [auto|congruence|congruence|].
  split; congruence.
Qed.
Lemma alike_checkpointable e bs s s' : alike s s' → checkpointable e bs s → checkpointable e bs s'.
Proof.
  intros Ha [He Hr Hal Hfit Hd Hfree]. pose proof (alike_ready _ _ Ha Hr). destruct Ha as [Hv Hf Hl Hw].
  split; try done; by rewrite Hv.
Qed.
Lemma alike_resumed e s1 s1' s2 s2' : alike s1 s1' → alike s2 s2' → resumed e s1' s2 → resumed e s1 s2'.
Proof.
  intros [Hv1 Hf1 _ _] Ha [Hr Hal Hb Hf Hfs Hh]. pose proof (alike_ready _ _ Ha Hr).
  destruct Ha as [Hv2 Hf2 _ _].
  split; [done|rewrite Hv2; congruence..|congruence|]. intros i Hi. rewrite Hv2, <- Hv1. by apply Hh.
Qed.
End Alike.

Section Signals.
Context {W D P : Type} {GW : GPU W} {GL : GPULaws W} {GO : GPUObject W} {GOL : GPUObjectLaws W}.
Context {CD : CuDriver D} {SK : Sockets D} {PX : Posix P} {BD : Build} {PF : Platform}.
Abbreviation proc := (proc W D P).
Implicit Types (p : proc).

Definition with_vg (v : vstate W) p : proc := set_vg v p.

(** The process changes at most in its device state, which stays alike. *)
Definition nudged p p' : Prop := ∃ v, alike (vg p) v ∧ p' = set_vg v p.

Lemma nudge_vg p v : vg (set_vg v p) = v.
Proof. done. Qed.

Lemma g_do_silent m p : silent (GW:=GW) m → gpu_wf (vgpu (vg p)) → wp (g_do m) (λ _ p', nudged p p') p.
Proof.
  intros Hm Hw. unfold g_do, v_do, gpu_do. do 2 apply wp_zoom.
  destruct (Hm _ Hw) as (r & w' & Hr & Hw' & Hv). eapply wp_intro; [exact Hr|].
  eexists. split; [|done]. by split.
Qed.

Lemma sync_nudges p : gpu_wf (vgpu (vg p)) → g_queue (gpu_view (vgpu (vg p))) = [] →
  wp (g_do syncAllKernels) (λ _ p', nudged p p') p.
Proof.
  intros Hw Hq. unfold g_do, v_do, gpu_do. do 2 apply wp_zoom.
  destruct (syncAllKernels_law _ Hq Hw) as (w' & Hm & Hw' & Hv). eapply wp_intro; [exact Hm|].
  eexists. split; [|done]. by split.
Qed.

Lemma v_do_ret {A} (m : M (vstate W) A) p a v : m (vg p) = Ret a v → v_do m p = Ret a (set_vg v p).
Proof. intros Hm. unfold v_do, zoom. by rewrite Hm. Qed.

(** [run_msg] between the context calls. *)
Lemma handler_frame sig p (Q : proc → Prop) : CR_initialized p = true →
  sig = CR_CKPT_SIGNAL ∨ sig = CR_RESTORE_SIGNAL → gpu_wf (vgpu (vg p)) →
  (∀ p1, nudged p p1 → wp (run_msg (signal (control p))) (λ _ p2, gpu_wf (vgpu (vg p2)) ∧
     ∀ p3, nudged p2 p3 → Q (set_control (MkCtl FINISH_MSG (selective_req (control p3))) p3)) p1) →
  wp (cr_signal_handler sig) (λ _ p', Q p') p.
Proof.
  intros Hi Hsig Hw Hrun. unfold cr_signal_handler.
  rewrite bool_decide_eq_false_2 by (intros (? & Hn1 & Hn2); destruct Hsig; auto).
  rewrite bool_decide_eq_false_2 by (destruct Hsig as [-> | ->]; done).
  unfold ensure_init. apply wp_bind, wp_bind, wp_get. rewrite Hi. apply wp_ret, wp_bind, wp_get, wp_bind.
  eapply wp_mono; [apply g_do_silent; [apply pushContext_law|done]|]. intros ? p1 H1; cbv beta in H1. apply wp_bind.
  eapply wp_mono; [by apply Hrun|]. intros ? p2 [Hw2 HQ]. apply wp_bind.
  eapply wp_mono; [apply g_do_silent; [apply popContext_law|done]|]. intros ? p3 H3; cbv beta in H3.
  by apply wp_modify, HQ.
Qed.

(** ** Peer access *)

Context (rc rcd : Z → Z).
Hypothesis enable_answers : ∀ dev d, ∃ d', cudaDeviceEnablePeerAccess dev 0 d = Ret (rc dev) d'.
Hypothesis disable_answers : ∀ dev d, ∃ d', cudaDeviceDisablePeerAccess dev d = Ret (rcd dev) d'.
Hypothesis error_answers : ∀ d, ∃ e d', cudaGetLastError (D:=D) d = Ret e d'.
Hypothesis on_nv : HIP_PLATFORM_AMD = false.

Lemma disable_wp p : peers_linked (fns (hooks p)) →
  wp (on_nvidia ipc_disable_all_peer_access) (λ _ p', ∃ h, p' = set_hooks h p ∧
    peer_st (fns (hooks p)) (tb (hooks p)) ∅ (g_peer_access_devices (hooks p)) h) p.
Proof.
  intros Hl. unfold on_nvidia. rewrite on_nv. apply wp_bind, wp_zoom.
  eapply wp_mono; [eapply (disable_spec rc rcd); try done|]. intros n h Hh. apply wp_ret. by exists h.
Qed.

Lemma serving_alike p0 p : serving p0 p → alike (vg p0) (vg p).
Proof. intros [? ? ? ? ? ? Hv Hf Hl ? ?]. by split. Qed.

(** The IPC teardown gives up peer access last. *)
Lemma teardown_signal_wp {CT : CuReturns D} {PR : PosixReturns P} probe p : serving p p → signal (control p) = IPC_TEARDOWN_MSG →
  wp (cr_ipc_signal_handler probe) (λ _ p', serving p p' ∧ signal (control p') = FINISH_MSG ∧
    g_peer_access_devices (hooks p') = ∅) p.
Proof.
  intros Hp Hmsg. unfold cr_ipc_signal_handler, ensure_init.
  apply wp_bind, wp_bind, wp_get. rewrite (sv_init _ _ Hp). apply wp_ret, wp_bind, wp_get.
  rewrite Hmsg. cbv beta. apply wp_bind. rewrite bool_decide_eq_true_2 by done.
  apply wp_bind. eapply wp_mono; [apply service_teardown_tables; exact Hp|].
  intros ? p1 H1; cbv beta in H1. eapply wp_mono; [apply disable_wp; intros q Hq; apply (sv_fns _ _ H1)|].
  { unfold used_ptrs. rewrite !elem_of_app. by right; right. }
  cbv beta. intros ? ? (h & -> & (Hf & _ & Hpe & _)). apply wp_modify. split; [|done].
  destruct H1. split; try done. simpl. by rewrite Hf.
Qed.

Lemma reenable_wp p q : peers_linked (fns (hooks p)) → g_peer_access_devices (hooks p) = ∅ →
  g_saved_peer_access_devices (hooks p) = q →
  wp (on_nvidia ipc_reenable_all_peer_access) (λ _ p', ∃ h, p' = set_hooks h p ∧
    peer_st (fns (hooks p)) (tb (hooks p)) (reenabled rc (elements q)) ∅ h) p.
Proof.
  intros Hl Hp Hq. unfold on_nvidia. rewrite on_nv. apply wp_bind, wp_zoom.
  eapply wp_mono; [eapply (reenable_spec rc rcd); try done|]. intros n h [_ Hh]. apply wp_ret. by exists h.
Qed.

(** ** The two signals *)

Definition blocks_of p : list (Z * Z) := ckpt_blocks (g_alloc (gpu_view (vgpu (vg p)))).

(** What a checkpoint or restore leaves as it is. *)
Record framed p p' : Prop := {
  fr_init : CR_initialized p' = CR_initialized p;
  fr_mapped : mapped p' = mapped p;
  fr_peer : peer_block p' = peer_block p;
  fr_my : my_block p' = my_block p;
  fr_id : cr_id p' = cr_id p;
  fr_fns : fns (hooks p') = fns (hooks p)
}.

Lemma ckpt_signal_wp p : CR_initialized p = true → signal (control p) = CKPT_MSG →
  checkpointable (mapped p) (blocks_of p) (vg p) → peers_linked (fns (hooks p)) →
  wp (cr_signal_handler CR_CKPT_SIGNAL) (λ _ p', signal (control p') = FINISH_MSG ∧
    (∃ v v1, alike (vg p) v ∧ ckpt (mapped p) v = Ret (payload_size (blocks_of p)) v1 ∧ alike v1 (vg p')) ∧
    peer_st (fns (hooks p)) (tb (hooks p)) ∅ (g_peer_access_devices (hooks p)) (hooks p') ∧
    framed p p') p.
Proof.
  intros Hi Hmsg Hc Hl. apply handler_frame; [done|by left|apply (cp_ready _ _ _ Hc)|].
  intros ? (v1 & Ha1 & ->). rewrite Hmsg. unfold run_msg.
  repeat (first [rewrite bool_decide_eq_false_2 by done|rewrite bool_decide_eq_true_2 by done]).
  pose proof (alike_checkpointable _ _ _ _ Ha1 Hc) as Hc1. apply wp_bind.
  eapply wp_mono; [apply sync_nudges; apply (cp_ready _ _ _ Hc1)|]. intros ? ? (v2 & Ha2 & ->).
  pose proof (alike_checkpointable _ _ _ _ Ha2 Hc1) as Hc2. pose proof (alike_trans _ _ _ Ha1 Ha2) as Ha.
  assert (Hb : blocks_of p = ckpt_blocks (g_alloc (gpu_view (vgpu v2)))).
  { unfold blocks_of. by rewrite (ak_view _ _ Ha). }
  rewrite Hb in Hc2. destruct (roundtrip_full _ _ Hc2) as (v3 & Hck & Hp3 & _). apply wp_bind.
  unfold run_ckpt. apply wp_bind, wp_get, wp_bind. eapply wp_intro; [apply v_do_ret; exact Hck|].
  apply wp_ret. eapply wp_mono; [by apply disable_wp|]. intros ? ? (h & -> & Hh).
  split; [apply (pk_ready _ _ _ Hp3)|]. intros ? (v4 & Ha4 & ->). split; [done|].
  split; [|split; [exact Hh|split; try done; apply Hh]].
  exists v2, v3. split_and!; [exact Ha| |exact Ha4]. by rewrite Hb.
Qed.

Lemma restore_signal_wp p t : CR_initialized p = true → signal (control p) = RESTORE_MSG →
  gpu_wf (vgpu (vg p)) → peers_linked (fns (hooks p)) → g_peer_access_devices (hooks p) = ∅ →
  (∀ v, alike (vg p) v → ∃ v1, restore_ptr_and_content (mapped p) v = Ret t v1 ∧ ready v1) →
  wp (cr_signal_handler CR_RESTORE_SIGNAL) (λ _ p', signal (control p') = FINISH_MSG ∧
    (∃ v v1, alike (vg p) v ∧ restore_ptr_and_content (mapped p) v = Ret t v1 ∧ alike v1 (vg p')) ∧
    g_peer_access_devices (hooks p') = reenabled rc (elements (g_saved_peer_access_devices (hooks p))) ∧
    framed p p') p.
Proof.
  intros Hi Hmsg Hw Hl Hpe Hre. apply handler_frame; [done|by right|done|].
  intros ? (v2 & Ha1 & ->). rewrite Hmsg. unfold run_msg.
  repeat (first [rewrite bool_decide_eq_false_2 by done|rewrite bool_decide_eq_true_2 by done]).
  destruct (Hre v2 Ha1) as (v3 & Hr3 & Hrd). apply wp_bind.
  unfold run_restore. apply wp_bind, wp_get, wp_bind. eapply wp_intro; [apply v_do_ret; exact Hr3|].
  apply wp_ret. eapply wp_mono; [by apply reenable_wp|]. intros ? ? (h & -> & Hh).
  split; [apply Hrd|]. intros ? (v4 & Ha4 & ->). split; [done|]. split; [|split; [apply Hh|split; try done; apply Hh]].
  by exists v2, v3.
Qed.
End Signals.
