(* ===== verification/WorkerPhases.v ===== *)
(** What each message does to a worker, phase by phase.

    [serving] before the checkpoint, [suspended] between the two, [recovered] after the
    restore: the handlers take a worker from one to the next, and the coordinator's
    theorems use only these rules. *)
From S2P Require Import Prelude Common Gpu Layout Ckpt SaveFacts CkptFacts Restore RestoreFacts CrTheorems.
From S2P Require Import IpcState IpcDriver FdExchange FdFacts IpcHooks IpcExports IpcSafe IpcPublish Process Handlers HandlerFacts.
From S2P Require Import SignalFacts Cluster.
Open Scope Z_scope.

Lemma resolved_peers f : resolved f → peers_linked f.
Proof. intros Hf p Hp. apply Hf. unfold used_ptrs. rewrite !elem_of_app. by right; right. Qed.

(** The driver's answers to the peer access calls. *)
Record peer_answers {D} {CD : CuDriver D} (rc rcd : Z → Z) : Prop := {
  pa_enable : ∀ dev (d : D), ∃ d', cudaDeviceEnablePeerAccess dev 0 d = Ret (rc dev) d';
  pa_disable : ∀ dev (d : D), ∃ d', cudaDeviceDisablePeerAccess dev d = Ret (rcd dev) d';
  pa_error : ∀ d : D, ∃ e d', cudaGetLastError d = Ret e d'
}.

Lemma resumed_refl {W} {GW : GPU W} e (v : vstate W) : ready v → resumed e v v.
Proof. intros Hr. by split. Qed.
Lemma resumed_trans {W} {GW : GPU W} e (v1 v2 v3 : vstate W) : resumed e v1 v2 → resumed e v2 v3 → resumed e v1 v3.
Proof.
  intros [_ Ha1 Hb1 Hf1 Hs1 Hh1] [Hr Ha2 Hb2 Hf2 Hs2 Hh2]. split; [done|congruence..|].
  intros i Hi. by rewrite Hh2, Hh1.
Qed.

Section Phases.
Context {W D P : Type} {GW : GPU W} {GL : GPULaws W} {GO : GPUObject W} {GOL : GPUObjectLaws W}.
Context {CD : CuDriver D} {CT : CuReturns D} {SK : Sockets D} {SR : SockReturns D} {TP : TalkingPeers D}.
Context {PX : Posix P} {PR : PosixReturns P} {BD : Build} {PF : Platform}.
Context (rc rcd : Z → Z) (Hpa : peer_answers (D:=D) rc rcd) (on_nv : HIP_PLATFORM_AMD = false).
Abbreviation proc := (proc W D P).
Implicit Types (p : proc).

(** A worker whose data has been dumped: its memory is parked, the dump and the tables
    are those of a checkpoint of [p0]. *)
Record suspended p0 p : Prop := {
  su_init : CR_initialized p = true;
  su_fns : resolved (fns (hooks p));
  su_peer : block_ok (peer_block p);
  su_my : block_ok (my_block p);
  su_mapped : mapped p = mapped p0;
  su_id : cr_id p = cr_id p0;
  su_access : g_peer_access_devices (hooks p) = ∅;
  su_ckpt : ∃ v v1, alike (vg p0) v ∧ ckpt (mapped p0) v = Ret (payload_size (blocks_of p0)) v1 ∧
    resumed (mapped p0) v1 (vg p)
}.

(** A worker that has its data back. *)
Record recovered p0 p : Prop := {
  re_serving : serving p p;
  re_mapped : mapped p = mapped p0;
  re_id : cr_id p = cr_id p0;
  re_data : ∀ ptr sz a, g_alloc (gpu_view (vgpu (vg p0))) !! ptr = Some sz → ptr ≤ a < ptr + ROUND_UP_2MB sz →
    g_dev (gpu_view (vgpu (vg p))) a = g_dev (gpu_view (vgpu (vg p0))) a
}.

Lemma serving_self p0 p : serving p0 p → serving p p.
Proof. intros []. by split. Qed.
Lemma serving_page p0 p c : serving p0 p → serving p0 (set_control c p).
Proof. intros []. by split. Qed.
Lemma serving_peer p0 p b : block_ok b → serving p0 p → serving p0 (set_peer_block b p).
Proof. intros Hb []. by split. Qed.
Lemma suspended_page p0 p c : suspended p0 p → suspended p0 (set_control c p).
Proof. intros []. by split. Qed.
Lemma recovered_page p0 p c : recovered p0 p → recovered p0 (set_control c p).
Proof. intros [Hs ? ? ?]. split; try done. eapply serving_self, serving_page, Hs. Qed.
Lemma recovered_peer p0 p b : block_ok b → recovered p0 p → recovered p0 (set_peer_block b p).
Proof. intros Hb [Hs ? ? ?]. split; try done. eapply serving_self, serving_peer, Hs. done. Qed.

Lemma suspended_parked p0 p : checkpointable (mapped p0) (blocks_of p0) (vg p0) → suspended p0 p →
  ∀ ptr, is_Some (g_alloc (gpu_view (vgpu (vg p0))) !! ptr) → g_backed (gpu_view (vgpu (vg p))) !! ptr = None.
Proof.
  intros Hc [_ _ _ _ _ _ _ (v & v1 & Hav & Hck & Hrm)] ptr Hptr.
  assert (Hb : blocks_of p0 = ckpt_blocks (g_alloc (gpu_view (vgpu v)))) by (unfold blocks_of; by rewrite (ak_view _ _ Hav)).
  pose proof (alike_checkpointable _ _ _ _ Hav Hc) as Hcv. rewrite Hb in Hcv.
  destruct (roundtrip_full _ _ Hcv) as (v1' & Hck' & Hpk & _). assert (v1' = v1) as -> by congruence.
  rewrite (rm_backed _ _ _ Hrm), (pk_backed _ _ _ Hpk), lookup_unback, decide_True; [done|].
  apply elem_of_keys. by rewrite (ak_view _ _ Hav).
Qed.

Lemma ckpt_phase p0 p : checkpointable (mapped p0) (blocks_of p0) (vg p0) → serving p0 p →
  signal (control p) = CKPT_MSG →
  wp (cr_signal_handler CR_CKPT_SIGNAL) (λ _ p', suspended p0 p' ∧ signal (control p') = FINISH_MSG) p.
Proof.
  intros Hc Hs Hmsg. pose proof (serving_alike _ _ Hs) as Ha. destruct Hpa as [He Hd Hg].
  assert (Hb : blocks_of p = blocks_of p0) by (unfold blocks_of; by rewrite (ak_view _ _ Ha)).
  pose proof (alike_checkpointable _ _ _ _ Ha Hc) as Hcp. rewrite <- Hb, <- (sv_mapped _ _ Hs) in Hcp.
  eapply wp_mono; [apply (ckpt_signal_wp rc rcd He Hd Hg on_nv p (sv_init _ _ Hs) Hmsg Hcp), resolved_peers, Hs|].
  intros _ p' (Hf & (v & v1 & Hv & Hck & Hv1) & (Hfn & _ & Hpe & _) & [Hi Hm Hpb Hmb Hid _]). split; [|done].
  pose proof (sv_mapped _ _ Hs) as Hmp. destruct Hs. split; [congruence|by rewrite Hfn|by rewrite Hpb|by rewrite Hmb|congruence|congruence|done|]. exists v, v1. rewrite <- Hb, <- Hmp.
  split; [by eapply alike_trans|]. split; [done|]. eapply alike_resumed; [apply alike_refl|exact Hv1|].
  apply resumed_refl. pose proof (alike_checkpointable _ _ _ _ Hv Hcp) as Hcv.
  assert (Hbv : blocks_of p = ckpt_blocks (g_alloc (gpu_view (vgpu v)))) by (unfold blocks_of; by rewrite (ak_view _ _ Hv)).
  rewrite Hbv in Hcv. destruct (roundtrip_full _ _ Hcv) as (v1' & Hck' & Hpk & _).
  assert (v1' = v1) as -> by congruence. apply Hpk.
Qed.

Lemma restore_phase p0 p : checkpointable (mapped p0) (blocks_of p0) (vg p0) → suspended p0 p →
  signal (control p) = RESTORE_MSG →
  wp (cr_signal_handler CR_RESTORE_SIGNAL) (λ _ p', recovered p0 p' ∧ signal (control p') = FINISH_MSG) p.
Proof.
  intros Hc [Hi Hfn Hpb Hmb Hm Hid Hac (v & v1 & Hav & Hck & Hrm)] Hmsg. destruct Hpa as [He Hd Hg].
  assert (Hb : blocks_of p0 = ckpt_blocks (g_alloc (gpu_view (vgpu v)))) by (unfold blocks_of; by rewrite (ak_view _ _ Hav)).
  pose proof (alike_checkpointable _ _ _ _ Hav Hc) as Hcv. rewrite Hb in Hcv, Hck.
  destruct (roundtrip_full _ _ Hcv) as (v1' & Hck' & Hpk & Hres). assert (v1' = v1) as -> by congruence.
  eapply wp_mono; [apply (restore_signal_wp rc rcd He Hd Hg on_nv p (payload_size (ckpt_blocks (g_alloc (gpu_view (vgpu v))))) Hi Hmsg (rd_wf _ (rm_ready _ _ _ Hrm))
    (resolved_peers _ Hfn) Hac)|].
  { intros v2 Hv2. rewrite Hm. destruct (Hres v2) as (v3 & Hv3 & Hre); [by eapply alike_resumed; [apply alike_refl|..]|].
    exists v3. split; [exact Hv3|]. by destruct Hre. }
  intros _ p' (Hf & (v2 & v3 & Hv2 & Hr & Hv3) & _ & [Hi' Hm' Hpb' Hmb' Hid' Hfn']). split; [|done]. rewrite Hm in Hr.
  destruct (Hres v2) as (v3' & Hr' & Hre); [by eapply alike_resumed; [apply alike_refl|..]|].
  assert (v3' = v3) as -> by congruence.
  assert (Hrd : ready (vg p')) by (eapply alike_ready; [exact Hv3|]; by destruct Hre). split; [|congruence..|].
  - split; [congruence|by rewrite Hfn'|apply Hrd|apply Hrd|by rewrite Hpb'|by rewrite Hmb'|done..].
  - intros ptr sz a Hsz Hin. rewrite (ak_view _ _ Hv3), (rd_data _ _ _ _ Hre ptr (ROUND_UP_2MB sz)); [by rewrite (ak_view _ _ Hav)| |done].
    apply elem_of_ckpt_blocks. exists sz. by rewrite (ak_view _ _ Hav).
Qed.

Lemma ipc_phase probe p0 p : honest_peers (D:=D) → serving p0 p →
  wp (cr_ipc_signal_handler probe) (λ _ p', serving p0 p' ∧ signal (control p') = FINISH_MSG) p.
Proof. intros Hp Hs. eapply wp_mono; [by apply handler_answers|]. by intros _ p' [? ?]. Qed.

Lemma recovered_ipc probe p0 p : honest_peers (D:=D) → recovered p0 p →
  wp (cr_ipc_signal_handler probe) (λ _ p', recovered p0 p' ∧ signal (control p') = FINISH_MSG) p.
Proof.
  intros Hp [Hs Hm Hid Hd]. eapply wp_mono; [by apply (ipc_phase probe p)|]. intros _ p' [Hs' Hf]. split; [|done].
  pose proof (serving_self _ _ Hs') as Hself. destruct Hs'. split; [done|congruence..|].
  intros ptr sz a Hsz Ha. rewrite sv_view. by eapply Hd.
Qed.
End Phases.
