(* ===== verification/ProcSim.v ===== *)
(** A reference worker process.

    The NVIDIA backend on [sim], the IPC module on [cusim], and a file system
    [osim] that hands out fresh descriptors and addresses and keeps what the
    files begin with, the shared counter of [get_id] among them.  The concrete instances of the process theorems run on it. *)
From S2P Require Import Prelude Common Gpu Ckpt Driver Nv Sim NvFacts CrTheorems.
From S2P Require Import IpcState IpcDriver FdExchange FdFacts IpcHooks IpcSafe CuSim IpcTracking IpcTheorems ImportTheorems.
From S2P Require Import Process Handlers HandlerFacts SignalFacts.
Open Scope Z_scope.

(** [nv] as an object of the process. *)
#[export] Instance nv_object_ops {D} {DR : Driver D} : GPUObject (nv D) := {|
  new_gpu := modify (set_obj (MkObj (-1) 0 false));
  Process.pushContext := Nv.pushContext;
  Process.popContext := Nv.popContext;
  Process.registerHostMemory := Nv.registerHostMemory
|}.

(** Descriptors and addresses given out so far, the first word of every file, and which file is
    open at a descriptor and mapped at an address. *)
Record osim := MkOsim {
  os_fds : Z; os_addr : Z; os_words : gmap string Z; os_open : gmap Z string; os_maps : gmap Z string
}.

(** The file of the shared counter holds [c]. *)
Definition MkOs (fds addr c : Z) : osim := MkOsim fds addr {["/mnt/huge-ckpt/control"%string := c]} ∅ ∅.

Definition word_of (f : string) (o : osim) : Z := default 0 (os_words o !! f).
Definition set_word (f : string) (x : Z) (o : osim) : osim :=
  MkOsim (os_fds o) (os_addr o) (<[f := x]> (os_words o)) (os_open o) (os_maps o).
(** The file behind a mapping. *)
Definition mapped_file (k : mapping_of) (o : osim) : option string :=
  match k with Anonymous => None | SharedFile fd => os_open o !! fd end.

#[export] Instance osim_posix : Posix osim := {|
  getenv name := if bool_decide (name = "GPU_VENDOR") then Some "nvidia"%string else None;
  open_file f _ _ := λ o, let fd := Z.max 3 (os_fds o) in
    Ret fd (MkOsim (os_fds o + 1) (os_addr o) (os_words o) (<[fd := f]> (os_open o)) (os_maps o));
  ftruncate fd n := λ o, Ret 0 (match os_open o !! fd with
                                | Some f => if n <? 4 then set_word f 0 o else o
                                | None => o
                                end);
  mmap n k := λ o, Ret (Some (os_addr o)) (MkOsim (os_fds o) (os_addr o + ROUND_UP_2MB n) (os_words o) (os_open o)
    (partial_alter (λ _, mapped_file k o) (os_addr o) (os_maps o)));
  munmap _ _ := λ o, Ret 0 o;
  close_file _ := λ o, Ret 0 o;
  fetch_add a n := λ o, match os_maps o !! a with
                        | Some f => Ret (word_of f o) (set_word f (word_of f o + n) o)
                        | None => Ret 0 o
                        end;
  write_text f _ := λ o, Ret true (set_word f 0 o)
|}.

#[export] Instance osim_returns : PosixReturns osim.
Proof. split; intros *; done. Qed.

#[export] Instance nvidia_build : Build := {| SHM_SIZE_GB := SHM_SIZE_GB_DEFAULT; HIP_PLATFORM_AMD := false |}.

#[export] Instance cusim_returns : CuReturns cusim.
Proof.
  split; intros * v; try done; unfold wp; simpl; unfold cs_map, cs_unmap, cs_release, cs_access, cs_export,
    cs_import, cs_if; repeat case_match; done.
Qed.

#[export] Instance cusim_sock_returns : SockReturns cusim.
Proof. refine {| timed _ _ := True |}; done. Defined.

#[export] Instance cusim_talks : TalkingPeers cusim.
Proof. split; [done|]. intros fd n v. unfold wp. cbn. by case_bool_decide. Qed.

Lemma cusim_honest : honest_peers (D:=cusim).
Proof. intros fd l d d1 d2 v d3 Hl _ _ [= <- _]. destruct l; [done|]. simpl. lia. Qed.

(** All the pointers resolved. *)
Definition used_fns : gmap string fnptr := list_to_map ((λ p, (p, Real)) <$> used_ptrs).

Lemma used_fns_ok : resolved used_fns.
Proof.
  intros p Hp. assert (Hall : forallb (λ p, bool_decide (used_fns !! p = Some Real)) used_ptrs = true)
    by (vm_compute; reflexivity).
  rewrite forallb_forall in Hall. apply list_elem_of_In, Hall in Hp. by apply bool_decide_eq_true in Hp.
Qed.

(** The context calls of [nv] on [sim] all succeed. *)
Lemma ensure_silent (w : nv sim) : nv_wf w → ensureCudaInitialized w = Ret tt w.
Proof. intros [Hi _]. unfold ensureCudaInitialized, mbind, M_bind, get. by rewrite Hi. Qed.

#[export] Instance nv_object_laws : GPUObjectLaws (nv sim).
Proof.
  split; intros w Hw.
  - simpl. unfold Nv.pushContext, mbind, M_bind. rewrite (ensure_silent w Hw).
    eexists _, _. split; [reflexivity|]. by destruct w.
  - eexists _, _. split; [reflexivity|]. by destruct w.
Qed.
