(* ===== verification/HandlerTheorems.v ===== *)
(** The worker process: the theorems. *)
From S2P Require Import Prelude Common Gpu Layout Ckpt SaveFacts CkptFacts Restore RestoreFacts.
From S2P Require Import Driver Nv Sim NvFacts CrTheorems IpcState IpcDriver FdExchange FdFacts IpcHooks IpcExports.
From S2P Require Import IpcSafe CuSim IpcTracking IpcTheorems IpcPublish ImportTheorems Process Handlers Cluster HandlerFacts SignalFacts WorkerPhases ProcSim.
Open Scope Z_scope.

(** A worker on the reference systems, before [init_CR]. *)
Definition no_buf : data_buf := MkBuf None 0.
Definition worker_at (w : vstate (nv sim)) (h : ipc cusim) (msg : Z) : proc (nv sim) cusim osim :=
  MkProc w h (MkServer (-1) false "") None (MkOs 3 (2 ^ 40) 0) (MkCtl msg (MkReq 0 []))
    no_block no_block (MkEnv 0 0 0) (-1) false no_buf no_buf.

Definition idle_hooks (peers : gset Z) : ipc cusim :=
  MkIpcSt (cusim_start (λ _, 0) (λ a, a)) ipc_start used_fns peers ∅ [] 0.

(** C25: the IPC handler always answers.  In a worker that is [serving] (initialised, the function
    pointers resolved, nothing queued on the device, rebuild blocks that count at most the 64 entries
    they have), whatever sequence of messages the coordinator sends, in whatever order, and whatever the
    tracking tables contain, every run of [cr_ipc_signal_handler] returns (no null call,
    no access out of range, no lost loop) with [FINISH_MSG] on the control page.  The calls below may answer
    anything, errors included, but have to come back: the driver ([CuReturns]), [mmap] and [munmap]
    ([PosixReturns]), the sockets ([SockReturns], an [accept] after its timeout was set), and reads
    from peers that talk or hang up ([TalkingPeers]).  No peer announces more
    descriptors than it was asked for ([honest_peers]); one that does makes the source write past its array
    ([oversized_answer_overruns]). *)
Theorem ipc_signal_answers {W D P} {GW : GPU W} {GL : GPULaws W} {GO : GPUObject W} {CD : CuDriver D}
    {CT : CuReturns D} {SK : Sockets D} {SR : SockReturns D} {TP : TalkingPeers D} {PX : Posix P} {PR : PosixReturns P}
    {BD : Build} {PF : Platform} (probe_addr : Z) (p : proc W D P) (msgs : list Z) :
  honest_peers (D:=D) → serving p p →
  ∃ p', foldM (request probe_addr) [] msgs p = Ret (replicate (length msgs) FINISH_MSG) p' ∧ serving p p'.
Proof.
  intros Hpeers Hp.
  assert (Hw : wp (foldM (request probe_addr) [] msgs)
    (λ l p', l = replicate (length msgs) FINISH_MSG ∧ serving p p') p).
  { apply (wp_foldM (λ pre l p', l = replicate (length pre) FINISH_MSG ∧ serving p p')); [done|].
    intros pre msg post l p1 -> [-> H1]. eapply wp_mono; [by apply request_answers|].
    intros l' p2 [-> H2]. split; [|done]. by rewrite length_app, replicate_add. }
  destruct (wp_elim _ _ _ Hw) as (l & p' & Hr & -> & Hs). by exists p'.
Qed.

(** A worker with two exports, two imports' worth of pointers and an enabled peer. *)
Definition busy_worker : proc (nv sim) cusim osim :=
  set_initialized true (worker_at ex_state
    (MkIpcSt ex_view ex_tables used_fns {[1]} ∅ [MkEvent 5 true false] 0) FINISH_MSG).

Lemma busy_serving : serving busy_worker busy_worker.
Proof.
  split; [reflexivity|exact used_fns_ok| | |done|done|reflexivity..].
  - exact (rd_wf _ (cp_ready _ _ _ ex_checkpointable)).
  - exact (rd_queue _ (cp_ready _ _ _ ex_checkpointable)).
Qed.

Lemma ipc_signal_answers_witness : ∃ p',
  foldM (request 77) [] [IPC_TEARDOWN_MSG; IPC_EXPORT_MSG; IPC_IMPORT_MSG; 99] busy_worker =
    Ret [0; 0; 0; 0] p' ∧ serving busy_worker p'.
Proof.
  exact (ipc_signal_answers 77 busy_worker [IPC_TEARDOWN_MSG; IPC_EXPORT_MSG; IPC_IMPORT_MSG; 99]
    cusim_honest busy_serving).
Defined.

(** ** The checkpoint and restore signals *)

(** C7: a checkpoint signal and a restore signal together give the process back what it
    had.  On a checkpointable process the [CKPT_MSG] handler answers [FINISH_MSG] with
    every allocation parked and no peer access left; from any later state that still has
    the dump and the tables, the [RESTORE_MSG] handler answers [FINISH_MSG] with every byte of
    every allocation back, and peer access to every device that accepts it. *)
Theorem signal_roundtrip {W D P} {GW : GPU W} {GL : GPULaws W} {GO : GPUObject W} {GOL : GPUObjectLaws W}
    {CD : CuDriver D} {PX : Posix P} {BD : Build} {PF : Platform} rc rcd (p : proc W D P) :
  peer_answers (D:=D) rc rcd → HIP_PLATFORM_AMD = false → CR_initialized p = true →
  resolved (fns (hooks p)) → signal (control p) = CKPT_MSG →
  checkpointable (mapped p) (blocks_of p) (vg p) →
  ∃ p1, cr_signal_handler CR_CKPT_SIGNAL p = Ret tt p1 ∧ signal (control p1) = FINISH_MSG ∧
    (∀ ptr, is_Some (g_alloc (gpu_view (vgpu (vg p))) !! ptr) →
       g_backed (gpu_view (vgpu (vg p1))) !! ptr = None) ∧
    g_peer_access_devices (hooks p1) = ∅ ∧
    (ready (vg p1) ∧ CR_initialized p1 = true ∧ mapped p1 = mapped p) ∧
    ∀ p2 d, resumed (mapped p) (vg p1) (vg p2) → hooks p2 = set_cu d (hooks p1) →
      CR_initialized p2 = true → mapped p2 = mapped p → signal (control p2) = RESTORE_MSG →
      ∃ p3, cr_signal_handler CR_RESTORE_SIGNAL p2 = Ret tt p3 ∧ signal (control p3) = FINISH_MSG ∧
        (∀ ptr sz a, g_alloc (gpu_view (vgpu (vg p))) !! ptr = Some sz → ptr ≤ a < ptr + ROUND_UP_2MB sz →
           g_dev (gpu_view (vgpu (vg p3))) a = g_dev (gpu_view (vgpu (vg p))) a) ∧
        g_peer_access_devices (hooks p3) = reenabled rc (elements (g_peer_access_devices (hooks p))).
Proof.
  intros [He Hd Hg] Hnv Hi Hf Hmsg Hc. pose proof (resolved_peers _ Hf) as Hl.
  destruct (wp_elim _ _ _ (ckpt_signal_wp rc rcd He Hd Hg Hnv p Hi Hmsg Hc Hl))
    as ([] & p1 & H1 & Hs1 & (v & v1 & Hav & Hck & Hav1) & (Hfn1 & Htb1 & Hpe1 & Hsv1) & [Hi1 Hm1 _ _ _ _]).
  pose proof (alike_checkpointable _ _ _ _ Hav Hc) as Hcv.
  assert (Hb : blocks_of p = ckpt_blocks (g_alloc (gpu_view (vgpu v)))) by (unfold blocks_of; by rewrite (ak_view _ _ Hav)).
  rewrite Hb in Hcv. destruct (roundtrip_full _ _ Hcv) as (v1' & Hck' & Hpk & Hres).
  assert (v1' = v1) as -> by congruence. exists p1. split; [done|]. split; [done|]. split.
  { intros ptr Hptr. rewrite (ak_view _ _ Hav1), (pk_backed _ _ _ Hpk), lookup_unback, decide_True; [done|].
    apply elem_of_keys. by rewrite (ak_view _ _ Hav). }
  split; [done|]. split.
  { split; [|by rewrite Hi1, Hm1]. eapply alike_ready; [exact Hav1|]. apply (pk_ready _ _ _ Hpk). }
  intros p2 d Hrm Hh2 Hi2 Hm2 Hmsg2.
  destruct (wp_elim _ _ _ (restore_signal_wp (P:=P) rc rcd He Hd Hg Hnv p2 (payload_size (blocks_of p)) Hi2 Hmsg2
    (rd_wf _ (rm_ready _ _ _ Hrm)) ltac:(rewrite Hh2; simpl; by rewrite Hfn1) ltac:(by rewrite Hh2)
    ltac:(intros v2 Ha2; destruct (Hres v2 (alike_resumed _ _ _ _ _ Hav1 Ha2 Hrm)) as (v3 & Hv3 & Hre);
          exists v3; rewrite Hm2, Hb; split; [exact Hv3|by destruct Hre])))
    as ([] & p3 & H3 & Hs3 & (v2 & v3 & Ha2 & Hr3 & Ha3) & Hpe3 & _).
  exists p3. split; [done|]. split; [done|]. split; [|by rewrite Hpe3, Hh2; simpl; rewrite Hsv1].
  intros ptr sz a Hsz Ha. destruct (Hres v2 (alike_resumed _ _ _ _ _ Hav1 Ha2 Hrm)) as (v3' & Hv3 & Hre).
  rewrite Hm2, Hb in Hr3. assert (v3' = v3) as -> by congruence.
  rewrite (ak_view _ _ Ha3), (rd_data _ _ _ _ Hre ptr (ROUND_UP_2MB sz)); [by rewrite (ak_view _ _ Hav)| |done].
  apply elem_of_ckpt_blocks. exists sz. by rewrite (ak_view _ _ Hav).
Qed.

(** The worker of the checkpoint theorems, with two peers. *)
Definition signalled_worker : proc (nv sim) cusim osim :=
  set_mapped ex_env (set_initialized true (worker_at ex_state (idle_hooks {[1; 3]}) CKPT_MSG)).

Lemma cusim_answers : peer_answers (D:=cusim) (λ _, 0) (λ _, 0).
Proof. split; [intros dev d|intros dev d|intros d]; repeat eexists. Qed.

Lemma signal_roundtrip_witness : ∃ p1 p3,
  cr_signal_handler CR_CKPT_SIGNAL signalled_worker = Ret tt p1 ∧ g_peer_access_devices (hooks p1) = ∅ ∧
  cr_signal_handler CR_RESTORE_SIGNAL (set_control (MkCtl RESTORE_MSG (MkReq 0 [])) p1) = Ret tt p3 ∧
  signal (control p3) = FINISH_MSG ∧ g_peer_access_devices (hooks p3) = {[1; 3]}.
Proof.
  assert (Hc : checkpointable (mapped signalled_worker) (blocks_of signalled_worker) (vg signalled_worker))
    by exact ex_checkpointable.
  destruct (signal_roundtrip (P:=osim) (BD:=nvidia_build) (λ _, 0) (λ _, 0) signalled_worker cusim_answers eq_refl eq_refl used_fns_ok
    eq_refl Hc) as (p1 & H1 & _ & _ & Hpe & Hrd & H2).
  destruct (H2 (set_control (MkCtl RESTORE_MSG (MkReq 0 [])) p1) (cu (hooks p1))) as (p3 & H3 & Hs3 & _ & Hpe3).
  - split; try reflexivity; apply Hrd.
  - destruct p1 as [? h]. by destruct h.
  - apply Hrd.
  - apply Hrd.
  - done.
  - exists p1, p3. split_and!; [exact H1|exact Hpe|exact H3|exact Hs3|]. rewrite Hpe3. vm_compute. reflexivity.
Defined.

(** ** A checkpoint of several workers *)

(** C39: with several workers peer access is lost.  The coordinator of several workers
    sends [IPC_TEARDOWN_MSG] before [CKPT_MSG], and each of the two handlers saves the
    set of enabled devices and then empties it: the second one saves the empty set.
    Both answer [FINISH_MSG], and the re-enabling step of the rebuild and of the restore
    then enables nothing, whatever was enabled before the checkpoint. *)
Theorem multi_gpu_forgets_peers {W D P} {GW : GPU W} {GL : GPULaws W} {GO : GPUObject W} {GOL : GPUObjectLaws W}
    {CD : CuDriver D} {CT : CuReturns D} {SK : Sockets D} {PX : Posix P} {PR : PosixReturns P} {BD : Build}
    {PF : Platform} (probe_addr : Z) rc rcd (p : proc W D P) :
  peer_answers (D:=D) rc rcd → HIP_PLATFORM_AMD = false → serving p p →
  checkpointable (mapped p) (blocks_of p) (vg p) → signal (control p) = IPC_TEARDOWN_MSG →
  ∃ p1 p2, cr_ipc_signal_handler probe_addr p = Ret tt p1 ∧ signal (control p1) = FINISH_MSG ∧
    cr_signal_handler CR_CKPT_SIGNAL (set_control (MkCtl CKPT_MSG (selective_req (control p1))) p1) = Ret tt p2 ∧
    signal (control p2) = FINISH_MSG ∧
    ∀ d, ∃ n h, ipc_reenable_all_peer_access (set_cu d (hooks p2)) = Ret n h ∧ n = 0 ∧
      g_peer_access_devices h = ∅.
Proof.
  intros [He Hd Hg] Hnv Hp Hc Hmsg.
  destruct (wp_elim _ _ _ (teardown_signal_wp rc rcd He Hd Hg Hnv probe_addr p Hp Hmsg))
    as ([] & p1 & H1 & Hs1 & Hf1 & Hpe1). exists p1.
  set (p1' := set_control (MkCtl CKPT_MSG (selective_req (control p1))) p1).
  pose proof (serving_alike _ _ Hs1) as Ha. pose proof (alike_checkpointable _ _ _ _ Ha Hc) as Hc1.
  assert (Hb : blocks_of p = blocks_of p1') by (unfold blocks_of; simpl; by rewrite (ak_view _ _ Ha)).
  rewrite Hb in Hc1. rewrite <- (sv_mapped _ _ Hs1) in Hc1.
  pose proof (resolved_peers _ (sv_fns _ _ Hs1)) as Hl.
  destruct (wp_elim _ _ _ (ckpt_signal_wp rc rcd He Hd Hg Hnv p1' (sv_init _ _ Hs1) eq_refl Hc1 Hl))
    as ([] & p2 & H2 & Hs2 & _ & (Hfn2 & Htb2 & Hpe2 & Hsv2) & _). exists p2.
  split_and!; [done..|]. intros d. simpl in Hsv2, Hfn2. rewrite Hpe1 in Hsv2.
  destruct (wp_elim _ _ _ (reenable_spec rc rcd He Hd Hg (fns (hooks p1)) (tb (hooks p2)) ∅ (set_cu d (hooks p2)) Hl
    ltac:(by split_and!))) as (n & h & Hr & -> & _ & _ & Hpe3 & _).
  exists 0, h. split_and!; [exact Hr|done|]. by rewrite Hpe3.
Qed.

Definition leaving_worker : proc (nv sim) cusim osim :=
  set_control (MkCtl IPC_TEARDOWN_MSG (MkReq 0 [])) (set_mapped ex_env busy_worker).

Lemma leaving_serving : serving leaving_worker leaving_worker.
Proof. destruct busy_serving. by split. Qed.

Lemma multi_gpu_forgets_peers_witness : g_peer_access_devices (hooks leaving_worker) = {[1]} ∧
  ∃ p1 p2, cr_ipc_signal_handler 77 leaving_worker = Ret tt p1 ∧
    cr_signal_handler CR_CKPT_SIGNAL (set_control (MkCtl CKPT_MSG (selective_req (control p1))) p1) = Ret tt p2 ∧
    ∃ n h, ipc_reenable_all_peer_access (hooks p2) = Ret n h ∧ g_peer_access_devices h = ∅.
Proof.
  split; [reflexivity|].
  assert (Hc : checkpointable (mapped leaving_worker) (blocks_of leaving_worker) (vg leaving_worker))
    by exact ex_checkpointable.
  destruct (multi_gpu_forgets_peers (BD:=nvidia_build) 77 (λ _, 0) (λ _, 0) leaving_worker cusim_answers eq_refl
    leaving_serving Hc eq_refl) as (p1 & p2 & H1 & _ & H2 & _ & H3).
  exists p1, p2. split; [exact H1|]. split; [exact H2|].
  destruct (H3 (cu (hooks p2))) as (n & h & Hr & _ & Hh). exists n, h. split; [|exact Hh].
  rewrite <- Hr. f_equal. by destruct (hooks p2).
Defined.
