(* ===== verification/Text.v ===== *)
(** The C string functions the coordinators use, and their round trips.

    [strtok] with one separator, [atoi], [strtoull(s, nullptr, 0)] and [strchr], as the
    C library defines them on the "C" locale; [print_hex] is what [%p] prints and
    [pretty] what [std::to_string] prints. *)
From stdpp Require Import pretty.
From S2P Require Import Prelude.
Open Scope Z_scope.
#[local] Arguments String.append !_ _ /.

Abbreviation ascii := Ascii.ascii.
Abbreviation Str := String.String.

(** ** Definitions *)

(** [strtok(s, d)], called until it answers null. *)
Fixpoint split_on (d : ascii) (s : string) : list string :=
  match s with
  | EmptyString => [""%string]
  | Str c s' =>
      match split_on d s' with
      | [] => []
      | t :: ts => if bool_decide (c = d) then ""%string :: t :: ts else Str c t :: ts
      end
  end.
Definition strtok (d : ascii) (s : string) : list string := filter (λ t, t ≠ ""%string) (split_on d s).

(** [strchr(s, d)]: what is before and after the first [d]. *)
Fixpoint strchr (d : ascii) (s : string) : option (string * string) :=
  match s with
  | EmptyString => None
  | Str c s' =>
      if bool_decide (c = d) then Some (""%string, s')
      else match strchr d s' with Some (a, b) => Some (Str c a, b) | None => None end
  end.

Definition is_space (c : ascii) : bool :=
  let n := Ascii.nat_of_ascii c in (n =? 32)%nat || ((9 <=? n)%nat && (n <=? 13)%nat).
Fixpoint skip_space (s : string) : string :=
  match s with Str c s' => if is_space c then skip_space s' else s | EmptyString => s end.

Definition digit_val (c : ascii) : Z :=
  let n := Z.of_nat (Ascii.nat_of_ascii c) in
  if (48 <=? n) && (n <=? 57) then n - 48
  else if (97 <=? n) && (n <=? 122) then n - 87
  else if (65 <=? n) && (n <=? 90) then n - 55
  else 99.
Fixpoint digits (base acc : Z) (s : string) : Z :=
  match s with
  | Str c s' => if digit_val c <? base then digits base (acc * base + digit_val c) s' else acc
  | EmptyString => acc
  end.

Definition minus : ascii := Ascii.ascii_of_nat 45.
Definition plus : ascii := Ascii.ascii_of_nat 43.
Definition zero : ascii := Ascii.ascii_of_nat 48.
Definition letter_x : ascii := Ascii.ascii_of_nat 120.
Definition letter_X : ascii := Ascii.ascii_of_nat 88.

(** The sign: [true] for a minus. *)
Definition sign (s : string) : bool * string :=
  match s with
  | Str c s' => if bool_decide (c = minus) then (true, s')
                else if bool_decide (c = plus) then (false, s') else (false, s)
  | EmptyString => (false, s)
  end.

(** [(int) strtol(s, nullptr, 10)]: the [long] saturates, the conversion wraps. *)
Definition signed32 (x : Z) : Z := (x + 2 ^ 31) mod 2 ^ 32 - 2 ^ 31.
Definition atoi (s : string) : Z :=
  let '(neg, s) := sign (skip_space s) in
  let v := digits 10 0 s in
  signed32 (Z.max (- 2 ^ 63) (Z.min (2 ^ 63 - 1) (if neg then - v else v))).

(** [strtol(s, &end, 10)] when [*end] is the end of the text: there is a digit, and
    nothing after the digits. *)
Fixpoint all_digits (s : string) : bool :=
  match s with Str c s' => (digit_val c <? 10) && all_digits s' | EmptyString => true end.
Definition strtol_all (s : string) : option Z :=
  let '(neg, s) := sign (skip_space s) in
  let v := digits 10 0 s in
  if bool_decide (s = "") || negb (all_digits s) then None
  else Some (Z.max (- 2 ^ 63) (Z.min (2 ^ 63 - 1) (if neg then - v else v))).

(** The base prefix: [0x] before a hexadecimal digit, [0], or none. *)
Definition auto_base (s : string) : Z * string :=
  match s with
  | Str z (Str x (Str h r)) =>
      if bool_decide (z = zero) then
        if bool_decide (x = letter_x ∨ x = letter_X) && (digit_val h <? 16) then (16, Str h r) else (8, s)
      else (10, s)
  | Str z _ => if bool_decide (z = zero) then (8, s) else (10, s)
  | EmptyString => (10, s)
  end.
Definition strtoull (s : string) : Z :=
  let '(neg, s) := sign (skip_space s) in
  let '(base, s) := auto_base s in
  let v := digits base 0 s in
  if v <? 2 ^ 64 then (if neg then wrap64 (- v) else v) else 2 ^ 64 - 1.

(** [%p] *)
Definition hex_char (d : Z) : ascii :=
  Ascii.ascii_of_nat (Z.to_nat (if d <? 10 then d + 48 else d + 87)).
Fixpoint hex_go (fuel : nat) (x : Z) (s : string) : string :=
  match fuel with
  | O => s
  | S n => if bool_decide (x = 0) then s else hex_go n (x / 16) (Str (hex_char (x mod 16)) s)
  end.
Definition print_hex (x : Z) : string :=
  "0x" +:+ (if bool_decide (x = 0) then "0" else hex_go 64 x "").

(** Texts joined by one separator. *)
Definition join (d : ascii) (ts : list string) : string :=
  match ts with
  | [] => ""
  | t :: ts => foldl (λ s u, s +:+ Str d u) t ts
  end.

(** ** Separators *)

(** The characters of a text. *)
Abbreviation chars := String.list_ascii_of_string.

Lemma sapp_assoc s t u : s +:+ (t +:+ u) = (s +:+ t) +:+ u.
Proof. induction s as [|c s IH]; [done|]. cbn. by rewrite IH. Qed.

Lemma chars_app s t : chars (s +:+ t) = chars s ++ chars t.
Proof. induction s as [|c s IH]; [done|]. cbn. by rewrite IH. Qed.

Lemma split_on_cons d s : ∃ t ts, split_on d s = t :: ts.
Proof.
  induction s as [|c s (t & ts & IH)]; [by eexists _, _|]. simpl. rewrite IH. case_bool_decide; by eexists _, _.
Qed.

Lemma split_on_app d s t : d ∉ chars s → split_on d (s +:+ Str d t) = s :: split_on d t.
Proof.
  destruct (split_on_cons d t) as (u & us & Ht). induction s as [|c s IH]; simpl; intros Hd.
  - by rewrite Ht, bool_decide_eq_true_2.
  - apply not_elem_of_cons in Hd as [Hc Hd]. rewrite IH by done. by rewrite bool_decide_eq_false_2.
Qed.

Lemma split_on_none d s : d ∉ chars s → split_on d s = [s].
Proof.
  induction s as [|c s IH]; simpl; intros Hd; [done|]. apply not_elem_of_cons in Hd as [Hc Hd].
  rewrite IH by done. by rewrite bool_decide_eq_false_2.
Qed.

Lemma join_cons d t u ts : join d (t :: u :: ts) = t +:+ Str d (join d (u :: ts)).
Proof.
  unfold join. revert t u. induction ts as [|v ts IH]; intros t u; [done|]. simpl. simpl in IH.
  rewrite IH, (IH u v). by rewrite <- sapp_assoc.
Qed.

Lemma split_on_join d ts : ts ≠ [] → Forall (λ t, d ∉ chars t) ts → split_on d (join d ts) = ts.
Proof.
  intros Hne Hall. induction ts as [|t ts IH]; [done|]. apply Forall_cons in Hall as [Ht Hall].
  destruct ts as [|u ts]; [by apply split_on_none|]. rewrite join_cons, split_on_app by done.
  by rewrite IH.
Qed.

(** [strtok] undoes [join] on texts that are not empty. *)
Lemma strtok_join d ts : Forall (λ t, t ≠ ""%string ∧ d ∉ chars t) ts → strtok d (join d ts) = ts.
Proof.
  intros Hall. unfold strtok. destruct (decide (ts = [])) as [->|Hne]; [done|].
  rewrite split_on_join; [|done|eapply Forall_impl; [exact Hall|]; naive_solver].
  clear Hne. induction Hall as [|t ts [Ht _] _ IH]; [done|]. by rewrite filter_cons_True, IH.
Qed.

Lemma strchr_app d s t : d ∉ chars s → strchr d (s +:+ Str d t) = Some (s, t).
Proof.
  induction s as [|c s IH]; simpl; intros Hd; [by rewrite bool_decide_eq_true_2|].
  apply not_elem_of_cons in Hd as [Hc Hd]. by rewrite bool_decide_eq_false_2, IH.
Qed.

(** ** Numerals *)

(** [s] is how [x > 0] is written in [base]. *)
Record numeral (base x : Z) (s : string) : Prop := {
  nu_digits : Forall (λ c, digit_val c < base) (chars s);
  nu_value : ∀ r, digits base 0 (s +:+ r) = digits base x r;
  nu_head : ∃ c t, s = Str c t ∧ c ≠ zero
}.

Lemma digit_char_val d : 0 ≤ d < 16 → digit_val (hex_char d) = d ∧ (d ≠ 0 → hex_char d ≠ zero).
Proof.
  intros Hd. assert (Hin : d ∈ seqZ 0 16) by (apply elem_of_seqZ; lia).
  assert (Hall : Forall (λ d, digit_val (hex_char d) = d ∧ (d ≠ 0 → hex_char d ≠ zero)) (seqZ 0 16)).
  { apply (bool_decide_unpack _). vm_compute. exact I. }
  rewrite Forall_forall in Hall. by apply Hall.
Qed.

(** One more digit. *)
Lemma numeral_snoc base x c s : (x = 0 ∧ s = ""%string ∧ c ≠ zero) ∨ numeral base x s → digit_val c < base →
  numeral base (x * base + digit_val c) (s +:+ Str c "").
Proof.
  intros [(-> & -> & Hc)|[Hd Hv (h & t & -> & Hh)]] Hlt; split.
  - by repeat constructor.
  - intros r. simpl. by rewrite (proj2 (Z.ltb_lt _ _) Hlt).
  - by eexists _, _.
  - rewrite chars_app. apply Forall_app. split; [done|]. by repeat constructor.
  - intros r. rewrite <- sapp_assoc, Hv. simpl. by rewrite (proj2 (Z.ltb_lt _ _) Hlt).
  - by eexists _, _.
Qed.

Lemma hex_go_numeral n : ∀ x s, 0 < x < 16 ^ Z.of_nat n → ∃ t, hex_go n x s = t +:+ s ∧ numeral 16 x t.
Proof.
  induction n as [|n IH]; intros x s Hx; [simpl in Hx; lia|]. cbn [hex_go]. rewrite bool_decide_eq_false_2 by lia.
  rewrite Nat2Z.inj_succ, Z.pow_succ_r in Hx by lia.
  pose proof (Z.mod_pos_bound x 16 ltac:(lia)) as Hm. pose proof (Z_div_mod_eq_full x 16) as Heq.
  destruct (digit_char_val (x mod 16) Hm) as [Hv Hc].
  assert (Hx' : x = x / 16 * 16 + digit_val (hex_char (x mod 16))) by lia.
  destruct (decide (x / 16 = 0)) as [H0|H0].
  - exists (Str (hex_char (x mod 16)) ""). split.
    + rewrite H0. by destruct n.
    + rewrite Hx' at 1. apply (numeral_snoc 16 (x / 16) _ ""); [|lia]. left. split_and!; [done|done|]. apply Hc. lia.
  - assert (0 < x / 16) by (pose proof (Z.div_pos x 16); lia).
    destruct (IH (x / 16) (Str (hex_char (x mod 16)) s)) as (t & -> & Ht).
    { split; [done|]. apply Z.div_lt_upper_bound; lia. }
    exists (t +:+ Str (hex_char (x mod 16)) ""). split; [by rewrite <- sapp_assoc|].
    rewrite Hx' at 1. apply numeral_snoc; [by right|lia].
Qed.

Lemma pretty_char_val d : (d < 10)%N → digit_val (pretty_N_char d) = Z.of_N d ∧ (d ≠ 0%N → pretty_N_char d ≠ zero).
Proof.
  intros Hd. assert (H : pretty_N_char d = hex_char (Z.of_N d)).
  { assert (Hin : (N.to_nat d) ∈ seq 0 10) by (apply elem_of_seq; lia).
    assert (Hall : Forall (λ d, pretty_N_char (N.of_nat d) = hex_char (Z.of_nat d)) (seq 0 10)).
    { apply (bool_decide_unpack _). vm_compute. exact I. }
    rewrite Forall_forall in Hall. specialize (Hall _ Hin). rewrite N2Nat.id in Hall. rewrite Hall. f_equal. lia. }
  rewrite H. destruct (digit_char_val (Z.of_N d)) as [H1 H2]; [lia|]. split; [done|]. intros ?. apply H2. lia.
Qed.

Lemma pretty_go_numeral x : ∀ s, (0 < x)%N → ∃ t, pretty_N_go x s = t +:+ s ∧ numeral 10 (Z.of_N x) t.
Proof.
  induction (N.lt_wf_0 x) as [x _ IH]. intros s Hx. rewrite pretty_N_go_step by done.
  pose proof (N.mod_lt x 10 ltac:(lia)) as Hm. pose proof (N.div_mod x 10 ltac:(lia)) as Heq.
  destruct (pretty_char_val (x `mod` 10) Hm) as [Hv Hc].
  assert (Hx' : Z.of_N x = Z.of_N (x / 10) * 10 + digit_val (pretty_N_char (x `mod` 10))) by lia.
  destruct (decide (x / 10 = 0)%N) as [H0|H0].
  - exists (Str (pretty_N_char (x `mod` 10)) ""). split.
    + rewrite H0. by rewrite pretty_N_go_0.
    + rewrite Hx'. apply (numeral_snoc 10 _ _ ""); [|lia]. left. split_and!; [lia|done|]. apply Hc. lia.
  - destruct (IH (x / 10)%N ltac:(apply N.div_lt; lia) (Str (pretty_N_char (x `mod` 10)) s) ltac:(lia)) as (t & -> & Ht).
    exists (t +:+ Str (pretty_N_char (x `mod` 10)) ""). split; [by rewrite <- sapp_assoc|].
    rewrite Hx'. apply numeral_snoc; [by right|lia].
Qed.

Lemma app_nil s : s +:+ "" = s.
Proof. induction s as [|c s IH]; [done|]. cbn. by rewrite IH. Qed.

Lemma pretty_numeral x : 0 < x → numeral 10 x (pretty x).
Proof.
  intros Hx. destruct x as [|x|x]; [lia| |lia].
  destruct (pretty_go_numeral (N.pos x) "" ltac:(lia)) as (t & Ht & Hn). rewrite app_nil in Ht.
  subst t. exact Hn.
Qed.

Lemma numeral_free base x s c : numeral base x s → base ≤ digit_val c → c ∉ chars s.
Proof. intros [Hd _ _] Hc Hin. rewrite Forall_forall in Hd. specialize (Hd _ Hin). simpl in Hd. lia. Qed.

Lemma numeral_digits base x s : numeral base x s → digits base 0 s = x.
Proof. intros Hn. rewrite <- (app_nil s), (nu_value _ _ _ Hn). done. Qed.

(** A digit starts neither a space nor a sign. *)
Lemma numeral_start base x s : base ≤ 99 → numeral base x s → skip_space s = s ∧ sign s = (false, s).
Proof.
  intros Hb [Hd _ (c & t & -> & _)]. simpl in Hd. apply Forall_cons in Hd as [Hc _].
  assert (Hne : ∀ k, digit_val k = 99 → c ≠ k) by (intros k Hk ->; lia). split; simpl.
  - destruct (is_space c) eqn:Hs; [|done]. exfalso.
    assert (Hall : digit_val c = 99); [|lia]. unfold is_space in Hs. unfold digit_val.
    apply orb_true_iff in Hs as [Hs%Nat.eqb_eq|[H1%Nat.leb_le H2%Nat.leb_le]%andb_true_iff];
      repeat (case_match; [exfalso; lia|]); done.
  - rewrite !bool_decide_eq_false_2; [done|by apply Hne..].
Qed.

(** ** Round trips *)

Lemma signed32_small x : - 2 ^ 31 ≤ x < 2 ^ 31 → signed32 x = x.
Proof. intros Hx. unfold signed32. rewrite Z.mod_small; lia. Qed.

Lemma atoi_pretty x : 0 < x < 2 ^ 31 → atoi (pretty x) = x.
Proof.
  intros Hx. pose proof (pretty_numeral x ltac:(lia)) as Hn. destruct (numeral_start 10 x _ ltac:(lia) Hn) as [H1 H2].
  unfold atoi. rewrite H1, H2, (numeral_digits _ _ _ Hn). rewrite signed32_small; lia.
Qed.

Lemma strtoull_pretty x : 0 < x < 2 ^ 64 → strtoull (pretty x) = x.
Proof.
  intros Hx. pose proof (pretty_numeral x ltac:(lia)) as Hn. destruct (numeral_start 10 x _ ltac:(lia) Hn) as [H1 H2].
  unfold strtoull. rewrite H1, H2. assert (Ha : auto_base (pretty x) = (10, pretty x)).
  { destruct (nu_head _ _ _ Hn) as (c & t & -> & Hc). unfold auto_base. rewrite bool_decide_eq_false_2 by done.
    by destruct t as [|? []]. }
  rewrite Ha, (numeral_digits _ _ _ Hn). by rewrite (proj2 (Z.ltb_lt _ _)) by lia.
Qed.

Lemma strtoull_hex x : 0 ≤ x < 2 ^ 64 → strtoull (print_hex x) = x.
Proof.
  intros Hx. unfold print_hex. case_bool_decide as H0; [by subst|].
  destruct (hex_go_numeral 64 x "" ltac:(lia)) as (t & -> & Hn). rewrite app_nil.
  pose proof (nu_digits _ _ _ Hn) as Hd. pose proof (numeral_digits _ _ _ Hn) as Hv.
  destruct (nu_head _ _ _ Hn) as (h & t' & -> & _). simpl in Hd. apply Forall_cons in Hd as [Hh _].
  unfold strtoull. change ("0x" +:+ Str h t') with (Str zero (Str letter_x (Str h t'))).
  cbn [skip_space]. change (is_space zero) with false. cbn iota. change (sign (Str zero (Str letter_x (Str h t'))))
    with (false, Str zero (Str letter_x (Str h t'))). cbn iota. unfold auto_base.
  rewrite bool_decide_eq_true_2 by done. rewrite bool_decide_eq_true_2 by auto.
  rewrite (proj2 (Z.ltb_lt _ _) Hh). simpl andb. cbn iota. rewrite Hv. by rewrite (proj2 (Z.ltb_lt _ _)) by lia.
Qed.
