(* ===== verification/InitTheorems.v ===== *)
(** The initialisation of the workers: ids and files.

    [init_CR] takes the next number of a counter that all workers share; the numbers
    keep the dump and staging files of the workers apart. *)
From stdpp Require Import pretty.
From S2P Require Import Prelude Frames Text Common Gpu Ckpt IpcState IpcDriver FdExchange IpcHooks Process.
From S2P Require Import Nv Sim CrTheorems CuSim ProcSim IpcTracking HandlerTheorems.
Open Scope Z_scope.
#[local] Arguments String.append !_ _ /.

(** ** File names *)

Lemma sapp_inj_r s t u : s +:+ t = s +:+ u → t = u.
Proof. induction s as [|c s IH]; [done|]. cbn. intros [= H]. by apply IH. Qed.

Lemma substring_app s t n : String.substring 0 (String.length s + n) (s +:+ t) = s +:+ String.substring 0 n t.
Proof. induction s as [|c s IH]; [done|]. cbn. by rewrite IH. Qed.

Lemma length_sapp s t : String.length (s +:+ t) = (String.length s + String.length t)%nat.
Proof. induction s as [|c s IH]; [done|]. cbn. by rewrite IH. Qed.

(** Numbers have no letters in them. *)

Definition dot : ascii := Ascii.ascii_of_nat 46.

Lemma pretty_free x c : 0 ≤ x → 10 ≤ digit_val c → c ∉ chars (pretty x).
Proof.
  intros Hx Hc. destruct (decide (x = 0)) as [->|Hne].
  - change (c ∉ [zero]). intros ->%list_elem_of_singleton. vm_compute in Hc. by apply Hc.
  - eapply numeral_free; [apply pretty_numeral; lia|done].
Qed.

(** A number is read off the text before the first [c]. *)
Lemma pretty_before x y c s t : 0 ≤ x → 0 ≤ y → 10 ≤ digit_val c →
  pretty x +:+ Str c s = pretty y +:+ Str c t → x = y.
Proof.
  intros Hx Hy Hc Heq. pose proof (strchr_app c (pretty x) s (pretty_free x c Hx Hc)) as H1.
  rewrite Heq, strchr_app in H1 by (by apply pretty_free). injection H1 as H1 _. by apply (inj pretty).
Qed.

Lemma pretty_go_length n : ∀ x s, (x < 10 ^ N.of_nat n)%N → (String.length (pretty_N_go x s) ≤ n + String.length s)%nat.
Proof.
  induction n as [|n IH]; intros x s Hx.
  - replace x with 0%N by lia. rewrite pretty_N_go_0. lia.
  - destruct (decide (x = 0)%N) as [->|Hne]; [rewrite pretty_N_go_0; lia|]. rewrite pretty_N_go_step by lia.
    etransitivity; [apply IH|simpl; lia]. rewrite Nat2N.inj_succ, N.pow_succ_r' in Hx. apply N.Div0.div_lt_upper_bound. lia.
Qed.
Lemma pretty_length x : 0 ≤ x < 2 ^ 31 → (String.length (pretty x) ≤ 10)%nat.
Proof.
  intros Hx. destruct x as [|x|x]; [simpl; lia| |lia].
  pose proof (pretty_go_length 10 (N.pos x) "" ltac:(simpl; lia)) as H. cbn [String.length] in H. rewrite Nat.add_0_r in H. exact H.
Qed.

Section Names.
Context {P : Type} {PX : Posix P}.

(** The common beginning of the names, and the ending of a dump file. *)
Definition stem : string := match getenv "EXPORT_FILE_PATH" with Some dir => dir +:+ "/ckpt-" | None => "/mnt/huge-ckpt/" end.
Definition ending : string := match getenv "EXPORT_FILE_PATH" with Some _ => ".data" | None => "" end.

Lemma dump_path_split id : dump_path id = stem +:+ pretty id +:+ ending.
Proof.
  unfold dump_path, stem, ending. destruct (getenv _); [by rewrite <- sapp_assoc|].
  by rewrite app_nil.
Qed.

(** The staging name is cut at 511 characters, but never inside the number. *)
Lemma host_path_split id : 0 ≤ id < 2 ^ 31 → (String.length (dump_path id) < 512)%nat →
  ∃ t, host_path id = stem +:+ pretty id +:+ Str minus t.
Proof.
  intros Hid. pose proof (pretty_length id Hid) as Hlen. rewrite dump_path_split. unfold host_path, snprintf, stem, ending.
  destruct (getenv "EXPORT_FILE_PATH") as [dir|]; rewrite !length_sapp; cbn [String.length]; intros Hl.
  - exists (String.substring 0 (511 - String.length dir - 6 - String.length (pretty id) - 1) "host.data").
    replace (dir +:+ "/ckpt-" +:+ pretty id +:+ "-host.data") with (((dir +:+ "/ckpt-") +:+ pretty id) +:+ "-host.data")
      by (by rewrite <- !sapp_assoc).
    replace (512 - 1)%nat with (String.length ((dir +:+ "/ckpt-") +:+ pretty id) +
      S (511 - String.length dir - 6 - String.length (pretty id) - 1))%nat.
    + rewrite substring_app, <- !sapp_assoc. reflexivity.
    + rewrite !length_sapp. cbn [String.length]. lia.
  - exists (String.substring 0 (511 - 15 - String.length (pretty id) - 1) "host").
    replace ("/mnt/huge-ckpt/" +:+ pretty id +:+ "-host") with (("/mnt/huge-ckpt/" +:+ pretty id) +:+ "-host") by (by rewrite <- !sapp_assoc).
    replace (512 - 1)%nat with (String.length ("/mnt/huge-ckpt/" +:+ pretty id) + S (511 - 15 - String.length (pretty id) - 1))%nat.
    + rewrite substring_app, <- !sapp_assoc. reflexivity.
    + rewrite !length_sapp. cbn [String.length]. lia.
Qed.

Lemma ending_free : minus ∉ chars ending.
Proof.
  unfold ending. destruct (getenv _); [|by intros ?%elem_of_nil].
  intros H. apply (bool_decide_unpack _) in H || (repeat (apply elem_of_cons in H as [H|H]; [discriminate H|]); by apply elem_of_nil in H).
Qed.

Lemma names_apart x y : 0 ≤ x < 2 ^ 31 → 0 ≤ y < 2 ^ 31 →
  (String.length (dump_path x) < 512)%nat → (String.length (dump_path y) < 512)%nat →
  (dump_path x = dump_path y → x = y) ∧ (host_path x = host_path y → x = y) ∧ dump_path x ≠ host_path y.
Proof.
  intros Hx Hy Hlx Hly. destruct (host_path_split x Hx Hlx) as [t Ht], (host_path_split y Hy Hly) as [u Hu].
  rewrite Ht, Hu, !dump_path_split. split_and!.
  - intros H%sapp_inj_r. revert H. unfold ending. destruct (getenv _); [|rewrite !app_nil; by intros ?%(inj pretty)].
    apply (pretty_before x y dot "data" "data"); [lia|lia|by vm_compute].
  - intros H%sapp_inj_r. eapply (pretty_before x y minus); [lia|lia|by vm_compute|exact H].
  - intros H%sapp_inj_r. assert (Hin : minus ∈ chars (pretty x +:+ ending)).
    { rewrite H, chars_app. apply elem_of_app. right. by left. }
    rewrite chars_app in Hin. apply elem_of_app in Hin as [Hin|Hin]; [|by apply ending_free in Hin].
    revert Hin. apply pretty_free; [lia|by vm_compute].
Qed.
End Names.

(** ** The shared counter *)

(** The first word of each file, and which file is open at a descriptor and mapped at an
    address.  [fetch_add] acts on the file that is mapped where it adds. *)
Class FileWords (P : Type) {PX : Posix P} := {
  file_word : string → P → Z;
  fd_path : P → gmap Z string;
  map_path : P → gmap Z string;
  word_open f c m o : post (open_file f c m) (λ fd o', (∀ g, file_word g o' = file_word g o) ∧
    (0 ≤ fd → fd_path o' !! fd = Some f)) o;
  word_size fd n o : post (ftruncate fd n) (λ _ o', fd_path o' = fd_path o ∧
    ∀ g, fd_path o !! fd ≠ Some g ∨ 4 ≤ n → file_word g o' = file_word g o) o;
  word_mmap n fd o : post (mmap n (SharedFile fd)) (λ r o', (∀ g, file_word g o' = file_word g o) ∧
    ∀ p, r = Some p → map_path o' !! p = fd_path o !! fd) o;
  word_add a k f o : map_path o !! a = Some f → post (fetch_add a k) (λ old o', old = file_word f o ∧
    file_word f o' = file_word f o + k ∧ ∀ g, g ≠ f → file_word g o' = file_word g o) o;
  word_text f t o : post (write_text f t) (λ _ o', ∀ g, g ≠ f → file_word g o' = file_word g o) o
}.

Section Init.
Context {W D P : Type} {PX : Posix P} {FW : FileWords P} {BD : Build} {GO : GPUObject W}.
Abbreviation proc := (proc W D P).

(** The number in the file [control]. *)
Definition counter_path : string := snprintf 512 (ctl_dir +:+ "/control").
Definition counter (o : P) : Z := file_word counter_path o.

(** The other files of a worker are not that file, as long as the name of its dump fits its buffer. *)
Lemma snprintf_app n s t : (String.length s ≤ n)%nat → snprintf (S n) (s +:+ t) = s +:+ String.substring 0 (n - String.length s) t.
Proof.
  intros Hn. unfold snprintf. rewrite <- substring_app. f_equal. cbn. lia.
Qed.

Lemma short_dir id : (String.length (dump_path id) < 512)%nat → (String.length ctl_dir < 501)%nat.
Proof.
  unfold dump_path, ctl_dir. destruct (getenv "EXPORT_FILE_PATH") as [dir|]; [|cbn; lia].
  rewrite !length_sapp. cbn. lia.
Qed.

Lemma counter_path_uncut id : (String.length (dump_path id) < 512)%nat →
  ∃ t, counter_path = ctl_dir +:+ "/con" +:+ t.
Proof.
  intros H%short_dir. unfold counter_path. rewrite snprintf_app by lia.
  destruct (511 - String.length ctl_dir)%nat as [|[|[|[|n]]]] eqn:Hn; [lia..|]. by eexists.
Qed.

Lemma pid_map_apart id pid : (String.length (dump_path id) < 512)%nat →
  counter_path ≠ snprintf 512 (ctl_dir +:+ "/pid_map_" +:+ pid).
Proof.
  intros H. destruct (counter_path_uncut id H) as [t ->]. apply short_dir in H. rewrite snprintf_app by lia.
  destruct (511 - String.length ctl_dir)%nat as [|[|n]] eqn:Hn; [lia..|]. by intros E%sapp_inj_r.
Qed.

Lemma dump_apart id : 0 ≤ id → (String.length (dump_path id) < 512)%nat → counter_path ≠ dump_path id.
Proof.
  intros Hid H. destruct (counter_path_uncut id H) as [t ->]. unfold ctl_dir, dump_path.
  destruct (getenv "EXPORT_FILE_PATH") as [dir|]; cbn [default]; [by intros E%sapp_inj_r|].
  change ("/mnt/huge-ckpt" +:+ "/con" +:+ t) with ("/mnt/huge-ckpt/" +:+ "con" +:+ t).
  intros E%sapp_inj_r. assert (Hc : Ascii.ascii_of_nat 99 ∈ chars (pretty id)) by (rewrite <- E; left).
  revert Hc. apply pretty_free; [done|by vm_compute].
Qed.

(** What a worker has once [init_CR] is through, with number [c]. *)
Record came_up (c : Z) (s : proc) : Prop := {
  up_id : cr_id s = c;
  up_flag : CR_initialized s = true;
  up_name : (String.length (dump_path c) < 512)%nat;
  up_files : file_num (fs (vg s)) = 0 ∧ current_offset (fs (vg s)) = payload_base;
  up_env : shm_size_gb (mapped s) = SHM_SIZE_GB ∧ host_buf (mapped s) ≠ 0
}.

(** [map_file] maps the file that it names. *)
Lemma map_file_maps path mode n g o : g ≠ path ∨ 4 ≤ n → post (map_file path mode n) (λ p o',
  file_word g o' = file_word g o ∧ map_path o' !! p = Some path) o.
Proof.
  intros Hg. unfold map_file. eapply post_bind; [apply word_open|]. intros fd o1 [Hw1 Hfd].
  case_bool_decide; [done|]. specialize (Hfd ltac:(lia)). eapply post_bind; [apply word_size|]. intros r o2 [Hp2 Hw2].
  case_bool_decide; [done|]. eapply post_bind; [apply word_mmap|]. intros [p|] o3 [Hw3 Hm]; [|done].
  apply post_ret. rewrite Hm, Hp2, Hfd, Hw3, Hw2, Hw1 by first [done|rewrite Hfd; destruct Hg; [left; congruence|by right]].
  done.
Qed.

(** What the vendor object cannot reach. *)
Definition around (s : proc) := (cr_id s, CR_initialized s, fs (vg s), mapped s, os s).

Lemma around_g_do {A} (m : M W A) : still around (g_do (D:=D) (P:=P) m).
Proof. intros s. unfold post, g_do, v_do, gpu_do, zoom. by destruct (m (vgpu (vg s))). Qed.

Lemma createGPU_still : still around (createGPU (D:=D)).
Proof. unfold createGPU. destruct (getenv _); [|done]. apply still_if; [apply around_g_do|done]. Qed.

(** A call on the system. *)
Lemma os_do_then {A B} (m : M P A) (k : A → M proc B) (R : A → P → Prop) (Q : B → proc → Prop) s : post m R (os s) →
  (∀ a o, R a o → post (k a) Q (set_os o s)) → post (os_do m ≫= k) Q s.
Proof.
  unfold post, os_do, zoom, mbind, M_bind. destruct (m (os s)) as [a o| |]; [|done|done]. intros HR HQ. by apply HQ.
Qed.
Lemma os_do_last {A} (m : M P A) (R : A → P → Prop) (Q : A → proc → Prop) s : post m R (os s) →
  (∀ a o, R a o → Q a (set_os o s)) → post (os_do m) Q s.
Proof. intros Hm HQ. unfold post, os_do, zoom in *. destruct (m (os s)); auto. Qed.
Lemma set_os_twice o o' (s : proc) : set_os o (set_os o' s) = set_os o s.
Proof. by destruct s. Qed.

(** [get_id] takes the number in the file [control] and leaves the next one there. *)
Lemma get_id_post (s : proc) :
  post get_id (λ id s', id = counter (os s) ∧ ∃ o, s' = set_os o s ∧ counter o = counter (os s) + 1) s.
Proof.
  unfold get_id. fold counter_path. eapply os_do_then; [apply (map_file_maps _ _ _ counter_path); by right|].
  intros p o [Ho Hp]. eapply os_do_last; [by apply word_add|]. intros old o' (-> & Ho' & _).
  split; [done|]. exists o'. rewrite set_os_twice. split; [done|]. unfold counter in *. cbn in Ho'. congruence.
Qed.

Lemma backend_setup_post id (s : proc) : 0 ≤ id → post (backend_setup id) (λ _ s', cr_id s' = id ∧
  CR_initialized s' = CR_initialized s ∧
  (String.length (dump_path id) < 512)%nat ∧ file_num (fs (vg s')) = 0 ∧ current_offset (fs (vg s')) = payload_base ∧
  shm_size_gb (mapped s') = SHM_SIZE_GB ∧ counter (os s') = counter (os s)) s.
Proof.
  intros Hid. unfold backend_setup. apply (post_bind _ _ (λ _ s', s' = set_cr_id id s)); [done|]. intros _ s1 ->.
  apply (post_bind _ _ (λ name s', name = dump_path id ∧ (String.length name < 512)%nat ∧ s' = set_cr_id id s)).
  { unfold sprintf. case_bool_decide; [by apply post_ret|done]. }
  intros name s1 (-> & Hlen & ->).
  eapply os_do_then; [apply (map_file_maps _ _ _ counter_path); left; by apply dump_apart|].
  intros p o [Ho _]. apply (post_bind _ _ (λ _ s', ∃ v, s' = set_vg v (set_os o (set_cr_id id s)) ∧
    file_num (fs v) = 0 ∧ current_offset (fs v) = payload_base)).
  { unfold post, v_do, zoom, lock_fs, mbind, M_bind. destruct (fs_mutex _); [done|]. by eexists. }
  intros _ s1 (v & -> & Hn & Hoff).
  eapply os_do_then; [apply (map_file_maps _ _ _ counter_path); by right|].
  intros h o' [Ho' _]. unfold post, modify. cbn. split_and!; try done. unfold counter in *. cbn in *. congruence.
Qed.

(** [init_CR] gives the worker the number in the file [control]. *)
Lemma init_post {PF : Platform} (s : proc) : CR_initialized s = false → 0 ≤ counter (os s) →
  post (init_CR (D:=D)) (λ _ s', came_up (counter (os s)) s' ∧ counter (os s') = counter (os s) + 1) s.
Proof.
  intros Hi Hpos. unfold init_CR. apply post_get_bind. rewrite Hi.
  eapply post_bind; [apply get_id_post|]. intros id s1 [-> (o & -> & Ho)].
  eapply os_do_then; [apply word_text|]. intros ? o1 Ho1. cbv beta in Ho1.
  unfold comm_setup. eapply os_do_then.
  { eapply post_bind; [apply (map_file_maps _ _ _ counter_path); by right|].
    intros p o2 [Ho2 _]. apply (post_ret tt (λ _ o2, file_word counter_path o2 = file_word counter_path o1)). exact Ho2. }
  intros ? o2 Ho2. cbv beta in Ho2. eapply post_bind; [by apply backend_setup_post|].
  intros _ s2 (Hid & Hf & Hlen & Hn & Hoff & Hg & Hc).
  assert (Hcount : counter (os s2) = counter (os s) + 1).
  { rewrite Hc, <- Ho. unfold counter. cbn in *. rewrite Ho2. apply Ho1. by eapply pid_map_apart. }
  eapply post_bind; [apply createGPU_still|].
  intros _ s3 [= H1 H2 H3 H4 H5]. apply post_get_bind. case_bool_decide as Hb; [done|]. eapply post_bind; [apply around_g_do|].
  intros r s4 [= E1 E2 E3 E4 E5]. unfold post, modify. split; [split|]; simpl.
  - congruence.
  - done.
  - done.
  - rewrite E3, H3. auto.
  - rewrite E4. split; [congruence|done].
  - rewrite E5, H5. exact Hcount.
Qed.

Lemma init_again {PF : Platform} (s : proc) : CR_initialized s = true → init_CR (D:=D) s = Ret tt s.
Proof. intros Hi. unfold init_CR, mbind, M_bind, get. by rewrite Hi. Qed.

(** Workers that come up one after the other on one system; the one that is starting
    holds the system. *)
Definition init_one (w : Platform * proc) : M P proc := λ o,
  match init_CR (PF := w.1) (set_os o w.2) with
  | Ret _ s => Ret s (os s)
  | Exit c s => Exit c (os s)
  | Stuck why s => Stuck why (os s)
  end.

(** The files a worker writes to. *)
Definition own_files (s : proc) : list string := [dump_path (cr_id s); host_path (cr_id s)].

Lemma init_one_post w o : CR_initialized w.2 = false → 0 ≤ counter o →
  post (init_one w) (λ s o', came_up (counter o) s ∧ counter o' = counter o + 1) o.
Proof.
  intros Hw Ho. pose proof (init_post (PF:=w.1) (set_os o w.2) Hw Ho) as H. unfold post, init_one in *.
  by destruct (init_CR _).
Qed.

Lemma init_all_post ws o : Forall (λ w, CR_initialized w.2 = false) ws → 0 ≤ counter o →
  post (each init_one ws) (λ ss o', counter o' = counter o + Z.of_nat (length ws) ∧ length ss = length ws ∧
    ∀ i s, ss !! i = Some s → came_up (counter o + Z.of_nat i) s) o.
Proof.
  intros Hws Hpos. apply (post_mono _ (λ ss o', Forall (λ w, CR_initialized w.2 = false) ws → 
    counter o' = counter o + Z.of_nat (length ws) ∧ length ss = length ws ∧
    ∀ i s, ss !! i = Some s → came_up (counter o + Z.of_nat i) s)); [|by auto].
  apply (post_each (λ ws ss o', Forall (λ w, CR_initialized w.2 = false) ws → 
    counter o' = counter o + Z.of_nat (length ws) ∧ length ss = length ws ∧
    ∀ i s, ss !! i = Some s → came_up (counter o + Z.of_nat i) s)).
  - intros _. split; [simpl; lia|]. split; [done|]. intros i s. by rewrite lookup_nil.
  - intros pre w ss o1 IH. destruct (decide (Forall (λ w, CR_initialized w.2 = false) (pre ++ [w]))) as [HF|HF];
      [|unfold post; destruct (init_one w o1); [by intros HF'; destruct HF|done|done]].
    apply Forall_app in HF as [HF Hw]. apply Forall_cons in Hw as [Hw _]. destruct (IH HF) as (Hc1 & Hl & Hss).
    eapply post_mono; [apply init_one_post; [done|lia]|]. intros s o2 [Hup Hc] _. rewrite !length_app. simpl.
    split; [lia|]. split; [lia|]. intros i s' [Hi|[Hi Hs]]%lookup_app_Some; [by apply Hss|].
    destruct (i - length ss)%nat eqn:Hk; [|done]. injection Hs as <-.
    replace (counter o + Z.of_nat i) with (counter o1) by lia. done.
Qed.

(** The files of workers with consecutive numbers are all different. *)
Lemma own_files_nodup ss : ∀ c, 0 ≤ c → c + Z.of_nat (length ss) ≤ 2 ^ 31 →
  (∀ i s, ss !! i = Some s → came_up (c + Z.of_nat i) s) → NoDup (ss ≫= own_files).
Proof.
  assert (Hap : ∀ c ss s0 i s, 0 ≤ c → c + Z.of_nat (length ss) < 2 ^ 31 → came_up c s0 → ss !! i = Some s →
    came_up (c + 1 + Z.of_nat i) s → ∀ f, f ∈ own_files s0 → f ∉ own_files s).
  { intros c ss0 s0 i s Hc Hb [Hi0 _ Hl0 _ _] Hi%lookup_lt_Some [Hi1 _ Hl1 _ _] f. unfold own_files. rewrite Hi0, Hi1.
    destruct (names_apart c (c + 1 + Z.of_nat i)) as (N1 & N2 & N3); [lia|lia|done|done|].
    destruct (names_apart (c + 1 + Z.of_nat i) c) as (_ & _ & N4); [lia|lia|done|done|].
    rewrite !elem_of_cons, !elem_of_nil. intros [->|[->|[]]] [H|[H|[]]]; [apply N1 in H|done|by symmetry in H|apply N2 in H]; lia. }
  induction ss as [|s0 ss IH]; intros c Hc Hb Hup; [by constructor|]. simpl in Hb. cbn [mbind list_bind].
  pose proof (Hup 0%nat s0 eq_refl) as H0. rewrite Z.add_0_r in H0.
  assert (Hrest : ∀ i s, ss !! i = Some s → came_up (c + 1 + Z.of_nat i) s).
  { intros i s Hi. replace (c + 1 + Z.of_nat i) with (c + Z.of_nat (S i)) by lia. by apply Hup. }
  apply NoDup_app. split; [|split].
  - destruct H0 as [Hi _ Hl _ _]. unfold own_files. rewrite Hi. destruct (names_apart c c) as (_ & _ & N); [lia|lia|done|done|].
    apply NoDup_cons. split; [|apply NoDup_singleton]. by rewrite list_elem_of_singleton.
  - intros f Hf (s & Hfs & Hin)%list_elem_of_bind. apply list_elem_of_lookup in Hin as [i Hi].
    eapply (Hap c ss s0 i s); eauto. lia.
  - eapply (IH (c + 1)); [lia|lia|done].
Qed.

(** C20: workers do not share a dump. Workers that come up one after the other get the next
    numbers of the shared counter, which is the word at the head of the file [control], each has an empty file table and a mapped staging buffer, a
    second [init_CR] of any of them changes nothing, and no file is the dump or the
    staging file of two of them, nor both of one, even where the staging name is cut. *)
Theorem init_distinct ws o : Forall (λ w, CR_initialized w.2 = false) ws →
  0 ≤ counter o → counter o + Z.of_nat (length ws) ≤ 2 ^ 31 →
  post (each init_one ws) (λ ss o', counter o' = counter o + Z.of_nat (length ws) ∧
    cr_id <$> ss = seqZ (counter o) (Z.of_nat (length ws)) ∧
    Forall (λ s, file_num (fs (vg s)) = 0 ∧ host_buf (mapped s) ≠ 0 ∧
      ∀ PF : Platform, init_CR (D:=D) s = Ret tt s) ss ∧
    NoDup (ss ≫= own_files)) o.
Proof.
  intros Hws Hc Hb. eapply post_mono; [by apply init_all_post|]. intros ss o' (Hc' & Hl & Hup). split_and!; [done|..].
  - apply list_eq. intros i. rewrite list_lookup_fmap. destruct (ss !! i) as [s|] eqn:Hi.
    + apply lookup_lt_Some in Hi as Hlt. rewrite lookup_seqZ_lt by lia. simpl. by rewrite (up_id _ _ (Hup i s Hi)).
    + apply lookup_ge_None in Hi. rewrite lookup_seqZ_ge by lia. done.
  - apply Forall_forall. intros s [i Hi]%list_elem_of_lookup. destruct (Hup i s Hi) as [_ Hf _ [Hn _] [_ He]].
    split; [done|]. split; [done|]. intros PF. by apply init_again.
  - eapply own_files_nodup; [exact Hc|lia|exact Hup].
Qed.

End Init.

(** On [osim]. *)
#[export] Instance osim_words : FileWords osim.
Proof.
  refine {| file_word := word_of; fd_path := os_open; map_path := os_maps |}.
  - intros f c m o. unfold post. cbn. split; [done|]. intros _. by rewrite lookup_insert_eq.
  - intros fd n o. unfold post. cbn. destruct (os_open o !! fd) as [f|] eqn:Hf; [|done].
    destruct (Z.ltb_spec n 4); [|done]. split; [done|]. intros g [Hg|?]; [|lia]. unfold word_of, set_word. cbn.
    by rewrite lookup_insert_ne by congruence.
  - intros n fd o. unfold post. cbn. split; [done|]. intros p [= <-]. apply lookup_partial_alter_eq.
  - intros a k f o Ha. unfold post. cbn. rewrite Ha. unfold word_of, set_word. cbn.
    split; [done|]. split; [by rewrite lookup_insert_eq|]. intros g Hg. by rewrite lookup_insert_ne.
  - intros f t o. unfold post. cbn. intros g Hg. unfold word_of, set_word. cbn. by rewrite lookup_insert_ne.
Defined.

(** Three processes. *)
Definition platform_with (pid : Z) : Platform := {| real_dlsym := @real_dlsym track_platform;
  stack_depth := @stack_depth track_platform; getpid := pid |}.
Definition cold_worker : proc (nv sim) cusim osim := worker_at ex_state (idle_hooks ∅) 0.
Definition cold_workers : list (Platform * proc (nv sim) cusim osim) :=
  (λ pid, (platform_with pid, cold_worker)) <$> [100; 200; 300].

(** Three workers do come up. *)
Example cold_workers_start : match each init_one cold_workers (MkOs 3 (2 ^ 40) 7) with
  | Ret ss _ => (λ s, (cr_id s, dump_path (cr_id s), host_path (cr_id s))) <$> ss
  | _ => []
  end = [(7, "/mnt/huge-ckpt/7", "/mnt/huge-ckpt/7-host"); (8, "/mnt/huge-ckpt/8", "/mnt/huge-ckpt/8-host");
         (9, "/mnt/huge-ckpt/9", "/mnt/huge-ckpt/9-host")]%string.
Proof. vm_compute. reflexivity. Qed.

Lemma init_distinct_witness : post (each init_one cold_workers) (λ ss o', counter o' = 7 + 3 ∧
    cr_id <$> ss = seqZ 7 3 ∧
    Forall (λ s, file_num (fs (vg s)) = 0 ∧ host_buf (mapped s) ≠ 0 ∧
      ∀ PF : Platform, init_CR (D:=cusim) s = Ret tt s) ss ∧
    NoDup (ss ≫= own_files)) (MkOs 3 (2 ^ 40) 7).
Proof.
  apply (init_distinct (FW:=osim_words) cold_workers (MkOs 3 (2 ^ 40) 7)); [by repeat constructor|by vm_compute|by vm_compute].
Defined.
