(* ===== verification/MultiClient.v ===== *)
(** The coordinator of several workers, [src/coordinator/multi_cr_client.cpp].

    The global [workers] is the list of pids, worker [i] having [cr_id] [i];
    [g_use_action_mode] is an argument.  Messages and timing are left out. *)
From stdpp Require Import pretty.
From S2P Require Import Prelude Text Common Gpu Ckpt IpcState IpcDriver FdExchange IpcHooks Process Handlers Cluster.
Open Scope Z_scope.

Definition comma : ascii := Ascii.ascii_of_nat 44.
Definition slash : ascii := Ascii.ascii_of_nat 47.
Definition space : ascii := Ascii.ascii_of_nat 32.
Definition quote : string := Str (Ascii.ascii_of_nat 34) "".

Definition parse_pids (arg : string) : list Z := filter (λ pid, 0 < pid) (atoi <$> strtok comma arg).

(** The arguments of [cuda_ckpt_run] cut at spaces: the token being read, and the tokens. *)
Fixpoint arg_tokens (args : string) (token : string) (tokens : list string) : list string :=
  match args with
  | EmptyString => if bool_decide (token = "") then tokens else tokens ++ [token]
  | Str c args =>
      if bool_decide (c = space) then
        if bool_decide (token = "") then arg_tokens args token tokens
        else arg_tokens args "" (tokens ++ [token])
      else arg_tokens args (token +:+ Str c "") tokens
  end.

(** [dirname] of an absolute path. *)
Fixpoint cut_last (d : ascii) (s : string) : option string :=
  match s with
  | EmptyString => None
  | Str c s' =>
      match cut_last d s' with
      | Some t => Some (Str c t)
      | None => if bool_decide (c = d) then Some "" else None
      end
  end.
Definition dirname (path : string) : string :=
  match cut_last slash path with
  | None => "."
  | Some "" => Str slash ""
  | Some t => t
  end.

(** [strstr(s, t) != nullptr] *)
Fixpoint strstr (s t : string) : bool :=
  String.prefix t s || match s with EmptyString => false | Str _ s' => strstr s' t end.

Inductive action := DoInit | DoCheckpoint | DoRestore.

(** The command line: the options in order; [None] is [-h] or an unknown one. *)
Inductive option_ := OptI | OptC | OptR | OptN | OptB | OptA | OptP (arg : string) | OptH | OptUnknown.
Record flags := MkFlags {
  do_init_flag : bool; do_ckpt_flag : bool; do_restore_flag : bool;
  skip_nccl : bool; buffer_only : bool; use_action_mode : bool; pid_str : option string
}.

(** The coordinator's state: the machine, and [g_cuda_ckpt_path]. *)
Record coord (W D P : Type) := MkCoord { machine : world W D P; g_cuda_ckpt_path : string }.
Arguments MkCoord {W D P}. Arguments machine {W D P}. Arguments g_cuda_ckpt_path {W D P}.

Section MultiClient.
Context {W D P : Type} {GW : GPU W} {GO : GPUObject W} {CD : CuDriver D} {SK : Sockets D}.
Context {PX : Posix P} {BD : Build} {HS : Host W D P}.
Context (platform_of : Z → Platform) (probe_addr : Z) (sched : nat → list nat).
(** The order in which the threads of [cuda_ckpt_all_parallel] get to run their program. *)
Context (threads : nat → list nat → list nat).
Abbreviation coord := (coord W D P).

Definition set_machine w (s : coord) : coord := MkCoord w (g_cuda_ckpt_path s).
Definition set_path p (s : coord) : coord := MkCoord (machine s) p.
Definition on_machine {A} (m : M (world W D P) A) : M coord A := zoom machine set_machine m.
Abbreviation sys m := (on_machine (host_do platform_of probe_addr sched m)).

(** ** The [cuda-checkpoint] program *)

(** The first of the candidates that exists. *)
Definition find_program (candidates : list string) : M coord string :=
  r ← for_ret (λ _ path,
        ok ← sys (can_access path false);
        if (ok : bool) then
          x ← sys (can_access path true);
          _ ← (if (x : bool) then mret tt else _ ← sys (chmod path 493); mret tt);
          mret (inr path)
        else mret (inl tt)) tt candidates;
  match r with inl _ => mret "" | inr path => mret path end.

Definition get_cuda_checkpoint_path : M coord string :=
  exe ← sys (readlink_exe 1023);
  match exe with
  | None => mret ""
  | Some exe_path =>
      let build_dir := dirname exe_path in
      let project_root := build_dir +:+ "/.." in
      resolved ← sys (realpath project_root);
      let project_root := default project_root resolved in
      let rel := "/cuda-checkpoint/bin/x86_64_Linux/cuda-checkpoint" in
      find_program [project_root +:+ rel; build_dir +:+ rel]
  end.

Definition init_cuda_checkpoint_path : M coord bool :=
  p ← get g_cuda_ckpt_path;
  _ ← (if bool_decide (p = "") then q ← get_cuda_checkpoint_path; modify (set_path q) else mret tt);
  p ← get g_cuda_ckpt_path;
  mret (negb (bool_decide (p = ""))).

Definition detect_action_mode_support : M coord bool :=
  ok ← init_cuda_checkpoint_path;
  if negb ok then mret false else
  p ← get g_cuda_ckpt_path;
  out ← sys (popen_lines (quote +:+ p +:+ quote +:+ " --help 2>&1"));
  match out with
  | None => mret false
  | Some lines => mret (existsb (λ l, strstr l "--action") lines)
  end.

Definition cuda_ckpt_run (pid : Z) (args : string) : M coord Z :=
  p ← get g_cuda_ckpt_path;
  let argv := p :: arg_tokens args "" [] ++ ["--pid"; pretty pid] in
  _ ← on_machine (log (CSpawn argv));
  status ← on_machine (tool_do platform_of probe_addr sched (spawn argv));
  match status with
  | ForkFailed | WaitFailed | Signaled => mret (-1)
  | Exited code => mret code
  end.

(** [results[i]] of the threads, and how many are not 0. *)
Definition cuda_ckpt_all_parallel (workers : list Z) (args : string) : M coord Z :=
  now ← get (λ s, clock (machine s));
  results ← foldM (λ results i,
      r ← cuda_ckpt_run (nth i workers 0) args;
      mret (<[i := r]> results))
    (replicate (length workers) (-1)) (threads now (seq 0 (length workers)));
  mret (Z.of_nat (length (filter (λ r, r ≠ 0) results))).

(** The sequential fallback, which nothing calls. *)
Definition cuda_ckpt_all (workers : list Z) (args : string) : M coord Z :=
  foldM (λ failures pid,
    r ← cuda_ckpt_run pid args;
    mret (if bool_decide (r ≠ 0) then failures + 1 else failures)) 0 workers.

(** [if (buffer_only) return 0; #if !AMD if (!init_cuda_checkpoint_path()) return n; ...] *)
Definition with_program (workers : list Z) (buffer_only : bool) (m : M coord Z) : M coord Z :=
  if buffer_only then mret 0 else
  if HIP_PLATFORM_AMD then mret 0 else
  ok ← init_cuda_checkpoint_path;
  if negb ok then mret (Z.of_nat (length workers)) else m.

Definition cuda_checkpoint_toggle_all (workers : list Z) (buffer_only : bool) : M coord Z :=
  with_program workers buffer_only (cuda_ckpt_all_parallel workers "--toggle").

Definition cuda_checkpoint_freeze_action (workers : list Z) (buffer_only : bool) : M coord Z :=
  with_program workers buffer_only (
    failures ← cuda_ckpt_all_parallel workers "--action lock";
    if bool_decide (0 < failures) then
      _ ← cuda_ckpt_all_parallel workers "--action unlock"; mret failures
    else
    failures ← cuda_ckpt_all_parallel workers "--action checkpoint";
    if bool_decide (0 < failures) then
      _ ← cuda_ckpt_all_parallel workers "--action unlock"; mret failures
    else mret failures).

Definition cuda_checkpoint_restore_action (workers : list Z) (buffer_only : bool) : M coord Z :=
  with_program workers buffer_only (
    failures ← cuda_ckpt_all_parallel workers "--action restore";
    unlock_failures ← cuda_ckpt_all_parallel workers "--action unlock";
    mret (failures + unlock_failures)).

(** ** The phases *)

Definition send_one (msg sig pid : Z) : M coord unit :=
  _ ← on_machine (comm_send platform_of probe_addr sched pid msg);
  r ← on_machine (kill platform_of probe_addr sched pid sig);
  if bool_decide (r ≠ 0) then exit EXIT_FAILURE else mret tt.

Definition broadcast_and_wait (fuel : nat) (workers : list Z) (msg sig : Z) : M coord unit :=
  _ ← foldM (λ _ pid, send_one msg sig pid) tt workers;
  foldM (λ _ pid, on_machine (wait_finished platform_of probe_addr sched fuel pid)) tt workers.

(** The mapping of the dump file of worker [id]; false if it cannot be had. *)
Definition open_worker_shm (id : Z) : M coord bool :=
  path ← sprintf 512 (dump_path id);
  fd ← sys (open_file path false 493);
  if bool_decide (fd < 0) then mret false else
  p ← sys (mmap (SHM_SIZE SHM_SIZE_GB) (SharedFile fd));
  _ ← sys (close_file fd);
  mret (match p with Some _ => true | None => false end).

(** [export_block.entries[k]], [k < num_exports]. *)
Definition exported_entries (b : IpcRebuildShmBlock) : M coord (list IpcExportShmEntry) :=
  if bool_decide (Z.of_nat (length (entries b)) < num_exports b) then fail OutOfBounds
  else mret (take (Z.to_nat (num_exports b)) (entries b)).

(** One entry appended, unless the block is full. *)
Definition append_entry (b : IpcRebuildShmBlock) (e : IpcExportShmEntry) : IpcRebuildShmBlock :=
  if bool_decide (IPC_MAX_EXPORTS_PER_PROC ≤ num_exports b) then b
  else MkBlock (num_exports b + 1) (<[Z.to_nat (num_exports b) := e]> (entries b)).

Definition exchange_ipc_export_info (workers : list Z) : M coord unit :=
  let n := length workers in
  _ ← foldM (λ _ i, ok ← open_worker_shm (Z.of_nat i);
                    if (ok : bool) then mret tt else exit EXIT_FAILURE) tt (seq 0 n);
  _ ← on_machine (_ ← tick platform_of probe_addr sched; log CExchange);
  export_blocks ← get (λ s, (λ i, (blocks_of_file (Z.of_nat i) (machine s)).1) <$> seq 0 n);
  foldM (λ _ i,
    _ ← on_machine (tick platform_of probe_addr sched);
    dst ← get (λ s, (blocks_of_file (Z.of_nat i) (machine s)).2);
    dst ← foldM (λ dst j,
            if bool_decide (j = i) then mret dst else
            es ← exported_entries (nth j export_blocks no_block);
            mret (foldl append_entry dst es)) (MkBlock 0 (entries dst)) (seq 0 n);
    on_machine (modify (set_peer_block_of (Z.of_nat i) dst))) tt (seq 0 n).

(** ** The flows *)

Definition do_init (fuel : nat) (workers : list Z) : M coord unit :=
  broadcast_and_wait fuel workers INIT_MSG CR_INIT_SIGNAL.

Definition do_checkpoint (fuel : nat) (g_use_action_mode : bool) (workers : list Z)
    (buffer_only skip_nccl : bool) : M coord unit :=
  _ ← (if skip_nccl then mret tt
       else broadcast_and_wait fuel workers IPC_TEARDOWN_MSG CR_IPC_TEARDOWN_SIGNAL);
  _ ← broadcast_and_wait fuel workers CKPT_MSG CR_CKPT_SIGNAL;
  _ ← (if g_use_action_mode then cuda_checkpoint_freeze_action workers buffer_only
       else cuda_checkpoint_toggle_all workers buffer_only);
  mret tt.

Definition do_restore (fuel : nat) (g_use_action_mode : bool) (workers : list Z)
    (buffer_only skip_nccl : bool) : M coord unit :=
  unfreeze_failures ← (if g_use_action_mode then cuda_checkpoint_restore_action workers buffer_only
                       else cuda_checkpoint_toggle_all workers buffer_only);
  if bool_decide (0 < unfreeze_failures) && negb buffer_only then exit EXIT_FAILURE else
  _ ← broadcast_and_wait fuel workers RESTORE_MSG CR_RESTORE_SIGNAL;
  if skip_nccl then mret tt else
  _ ← broadcast_and_wait fuel workers IPC_EXPORT_MSG CR_IPC_REBUILD_SIGNAL;
  _ ← exchange_ipc_export_info workers;
  broadcast_and_wait fuel workers IPC_IMPORT_MSG CR_IPC_REBUILD_SIGNAL.

(** ** Main *)

Definition set_option (f : flags) (o : option_) : M coord flags :=
  let '(MkFlags i c r n b a p) := f in
  match o with
  | OptI => mret (MkFlags true c r n b a p)
  | OptC => mret (MkFlags i true r n b a p)
  | OptR => mret (MkFlags i c true n b a p)
  | OptN => mret (MkFlags i c r true b a p)
  | OptB => mret (MkFlags i c r n true a p)
  | OptA => mret (MkFlags i c r n b true p)
  | OptP arg => mret (MkFlags i c r n b a (Some arg))
  | OptH => exit 0
  | OptUnknown => exit EXIT_FAILURE
  end.

Definition the_action (f : flags) : option action :=
  match do_init_flag f, do_ckpt_flag f, do_restore_flag f with
  | true, false, false => Some DoInit
  | false, true, false => Some DoCheckpoint
  | false, false, true => Some DoRestore
  | _, _, _ => None
  end.

(** [getopt(argc, argv, "icrnbap:h")] has read the options [opts]. *)
Definition main (fuel : nat) (opts : list option_) : M coord Z :=
  f ← foldM set_option (MkFlags false false false false false false None) opts;
  match the_action f, pid_str f with
  | None, _ | _, None => exit EXIT_FAILURE
  | Some act, Some arg =>
      let pids := parse_pids arg in
      if bool_decide (pids = []) then exit EXIT_FAILURE else
      g_use_action_mode ← (if use_action_mode f then mret true else detect_action_mode_support);
      if bool_decide (MAX_MULTI_GPU_PROCS < Z.of_nat (length pids)) then exit EXIT_FAILURE else
      _ ← foldM (λ _ pid, sys (comm_setup pid)) tt pids;
      _ ← (match act with
           | DoInit => do_init fuel pids
           | DoCheckpoint => do_checkpoint fuel g_use_action_mode pids (buffer_only f) (skip_nccl f)
           | DoRestore => do_restore fuel g_use_action_mode pids (buffer_only f) (skip_nccl f)
           end);
      mret 0
  end.

End MultiClient.
