(* ===== verification/ClusterFacts.v ===== *)
(** Waiting for workers: the rules.

    [live m Q s]: with enough fuel [m] returns, in a state of [Q].  A broadcast is live
    when every worker is scheduled again and again and answers its message. *)
From S2P Require Import Prelude Common Gpu Ckpt IpcState IpcDriver FdExchange IpcHooks Process Handlers Cluster MultiClient.
Open Scope Z_scope.

(** ** Computations that need fuel *)

Definition live {S A} (m : nat → M S A) (Q : A → S → Prop) (s : S) : Prop :=
  ∃ n a s', (∀ k, (n ≤ k)%nat → m k s = Ret a s') ∧ Q a s'.

Section Live.
Context {S : Type}.
Implicit Types (s : S).

Lemma live_wp {A} (m : M S A) Q s : wp m Q s → live (λ _, m) Q s.
Proof. intros (a & s' & Hm & HQ)%wp_elim. exists 0%nat, a, s'. by split. Qed.
Lemma live_mono {A} (m : nat → M S A) (P Q : A → S → Prop) s :
  live m P s → (∀ a s', P a s' → Q a s') → live m Q s.
Proof. intros (n & a & s' & Hm & HP) HPQ. exists n, a, s'. split; [done|auto]. Qed.
Lemma live_bind {A B} (m : nat → M S A) (f : nat → A → M S B) Q s :
  live m (λ a s', live (λ k, f k a) Q s') s → live (λ k, m k ≫= f k) Q s.
Proof.
  intros (n & a & s1 & Hm & n' & b & s2 & Hf & HQ). exists (n `max` n')%nat, b, s2. split; [|done].
  intros k Hk. unfold mbind, M_bind. rewrite Hm by lia. apply Hf. lia.
Qed.
Lemma live_ext {A} (m m' : nat → M S A) Q s : (∀ k, m k s = m' k s) → live m Q s → live m' Q s.
Proof. intros Hext (n & a & s' & Hm & HQ). exists n, a, s'. split; [|done]. intros k Hk. by rewrite <- Hext, Hm. Qed.

Lemma live_foldM_aux {L X} (I : list X → L → S → Prop) (f : nat → L → X → M S L) xs :
  (∀ pre x post l s, xs = pre ++ x :: post → I pre l s → live (λ k, f k l x) (I (pre ++ [x])) s) →
  ∀ ys pre l s, xs = pre ++ ys → I pre l s → live (λ k, foldM (f k) l ys) (I xs) s.
Proof.
  intros Hf ys. induction ys as [|x ys IH]; intros pre l s -> HI; simpl.
  - apply live_wp, wp_ret. by rewrite app_nil_r.
  - apply (live_bind (λ k, f k l x) (λ k l', foldM (f k) l' ys)). eapply live_mono; [by eapply Hf|].
    intros l' s' HI'. apply (IH (pre ++ [x])); [|done]. by rewrite <- app_assoc.
Qed.
Lemma live_foldM {L X} (I : list X → L → S → Prop) (f : nat → L → X → M S L) xs l s :
  I [] l s →
  (∀ pre x post l s, xs = pre ++ x :: post → I pre l s → live (λ k, f k l x) (I (pre ++ [x])) s) →
  live (λ k, foldM (f k) l xs) (I xs) s.
Proof. intros HI Hf. by apply (live_foldM_aux I f xs Hf xs [] l s). Qed.

Lemma live_zoom {T A} (proj : S → T) (upd : T → S → S) (m : nat → M T A) (Q : A → S → Prop) s :
  live m (λ a t, Q a (upd t s)) (proj s) → live (λ k, zoom proj upd (m k)) Q s.
Proof.
  intros (n & a & t & Hm & HQ). exists n, a, (upd t s). split; [|done]. intros k Hk. unfold zoom. by rewrite Hm.
Qed.
End Live.

Section Cluster.
Context {W D P : Type} {GW : GPU W} {GO : GPUObject W} {CD : CuDriver D} {SK : Sockets D}.
Context {PX : Posix P} {BD : Build} {HS : Host W D P}.
Context (platform_of : Z → Platform) (probe_addr : Z) (sched : nat → list nat).
Abbreviation node := (node W D P).
Abbreviation world := (world W D P).
Abbreviation proc := (proc W D P).
Abbreviation deliver := (deliver platform_of probe_addr).
Abbreviation tick := (tick platform_of probe_addr sched).
Implicit Types (w : world) (n : node) (p : proc).

(** Every worker runs again and again. *)
Definition fair (k : nat) : Prop := ∀ i t, (i < k)%nat → ∃ t', (t ≤ t')%nat ∧ i ∈ sched t'.

Lemma deliver_pid n : n_pid (deliver n) = n_pid n.
Proof. unfold Cluster.deliver. repeat (case_match; try done). Qed.

Lemma run_lookup l : ∀ (ns : list node) i n, ns !! i = Some n →
  ∃ m, run_workers platform_of probe_addr l ns !! i = Some (Nat.iter m deliver n) ∧ (i ∈ l → (0 < m)%nat).
Proof.
  induction l as [|j l IH] using rev_ind; intros ns i n Hi.
  - exists 0%nat. split; [done|]. by intros ?%elem_of_nil.
  - destruct (IH ns i n Hi) as (m & Hm & Hpos). unfold run_workers in *. rewrite foldl_app. simpl.
    destruct (decide (i = j)) as [->|Hij].
    + exists (S m). split; [|lia]. by rewrite list_lookup_alter_eq, Hm.
    + exists m. split; [by rewrite list_lookup_alter_ne|]. rewrite elem_of_app, list_elem_of_singleton. naive_solver.
Qed.

Lemma run_ids l (ns : list node) : n_pid <$> run_workers platform_of probe_addr l ns = n_pid <$> ns.
Proof.
  unfold run_workers. revert ns. induction l as [|i l IH]; intros ns; [done|]. simpl. rewrite IH.
  apply list_eq. intros j. rewrite !list_lookup_fmap. destruct (decide (i = j)) as [->|Hij].
  - rewrite list_lookup_alter_eq. destruct (ns !! j) as [n|]; [|done]. simpl. by rewrite deliver_pid.
  - by rewrite list_lookup_alter_ne.
Qed.

(** ** Calls and the workers *)

(** The pids of the workers, all different. *)
Context (L : list Z) (L_nodup : NoDup L).

(** The workers of [w], each in [Q]. *)
Record nodes_in (Q : node → Prop) (w : world) : Prop := {
  ni_ids : n_pid <$> nodes w = L;
  ni_all : ∀ n, n ∈ nodes w → Q n
}.
Definition stable (Q : node → Prop) : Prop := ∀ n, Q n → Q (deliver n).

Lemma nodes_in_mono (Q Q' : node → Prop) w : (∀ n, Q n → Q' n) → nodes_in Q w → nodes_in Q' w.
Proof. intros HQ [Hi Ha]. split; [done|]. auto. Qed.

Lemma stable_iter Q m n : stable Q → Q n → Q (Nat.iter m deliver n).
Proof. intros HQ Hn. induction m as [|m IH]; [done|]. by apply HQ. Qed.

Lemma tick_wp Q w : stable Q → nodes_in Q w →
  wp tick (λ _ w', nodes_in Q w' ∧ clock w' = S (clock w) ∧
    ∀ i n, nodes w !! i = Some n → ∃ m, nodes w' !! i = Some (Nat.iter m deliver n) ∧ (i ∈ sched (clock w) → (0 < m)%nat)) w.
Proof.
  intros HQ [Hi Ha]. apply wp_modify. simpl. split_and!; [|done|].
  - split; [simpl; by rewrite run_ids|]. simpl. intros n (i & Hn)%list_elem_of_lookup.
    destruct (nodes w !! i) as [n0|] eqn:H0.
    + destruct (run_lookup (sched (clock w)) _ _ _ H0) as (m & Hm & _). rewrite Hm in Hn. injection Hn as <-.
      apply stable_iter; [done|]. apply Ha. by eapply list_elem_of_lookup_2.
    + apply (f_equal length) in Hi. pose proof (run_ids (sched (clock w)) (nodes w)) as Hr.
      apply (f_equal length) in Hr. rewrite !length_fmap in Hr. apply lookup_lt_Some in Hn.
      apply lookup_ge_None in H0. lia.
  - intros i n Hn. by apply run_lookup.
Qed.

Lemma find_member Q w pid : nodes_in Q w → pid ∈ L → ∃ i n, nodes w !! i = Some n ∧ n_pid n = pid ∧ Q n ∧
  ∀ (f : node → bool), (∀ n', f n' = true → n_pid n' = pid) → f n = true → find_node f (nodes w) = Some n.
Proof.
  intros [Hi Ha] Hpid. rewrite <- Hi in Hpid. apply list_elem_of_fmap in Hpid as (n & -> & Hn).
  pose proof Hn as (i & Hlk)%list_elem_of_lookup. exists i, n. split_and!; [done|done|by apply Ha|].
  intros f Hf Hfn. unfold find_node. replace (list_find (λ n0, f n0) (nodes w)) with (Some (i, n)); [done|].
  symmetry. apply list_find_Some. split_and!; [done|by rewrite Hfn|].
  intros j y Hj Hlt Hy. apply Is_true_true in Hy. assert (Heq : n_pid y = n_pid n) by auto.
  rewrite <- Hi in L_nodup. assert (i = j); [|lia].
  eapply (NoDup_lookup (n_pid <$> nodes w)); [done|by rewrite list_lookup_fmap, Hlk|by rewrite list_lookup_fmap, Hj; simpl; rewrite Heq].
Qed.

Lemma with_pid_true pid n : with_pid pid n = true ↔ n_pid n = pid.
Proof. unfold with_pid. apply bool_decide_eq_true. Qed.

(** An update of the worker [pid]. *)
Lemma update_nodes_in (Q Q' : node → Prop) w pid g : nodes_in Q w →
  (∀ n, n_pid (g n) = n_pid n) → (∀ n, Q n → n_pid n = pid → Q' (g n)) → (∀ n, Q n → n_pid n ≠ pid → Q' n) →
  nodes_in Q' (set_nodes (update_nodes (with_pid pid) g (nodes w)) w).
Proof.
  intros [Hi Ha] Hg H1 H2. split; simpl.
  - rewrite <- Hi. unfold update_nodes. rewrite <- list_fmap_compose. apply list_fmap_ext. intros j n _. simpl.
    destruct (with_pid pid n); [apply Hg|done].
  - intros n' (n & -> & Hn)%list_elem_of_fmap. specialize (Ha n Hn). destruct (with_pid pid n) eqn:Hp.
    + apply with_pid_true in Hp. auto.
    + apply H2; [done|]. intros ?%with_pid_true. congruence.
Qed.

Lemma page_member Q w pid : nodes_in Q w → pid ∈ L → ∃ n, n ∈ nodes w ∧ n_pid n = pid ∧ Q n ∧
  page_of pid w = control (n_proc n) ∧
  ∀ c, set_page pid c w = set_nodes (update_nodes (with_pid pid) (on_proc (set_control c)) (nodes w)) w.
Proof.
  intros Hw Hpid. destruct (find_member Q w pid Hw Hpid) as (i & n & Hlk & Hn & HQ & Hf).
  assert (Hfind : find_node (with_pid pid) (nodes w) = Some n).
  { apply Hf; [intros n'; apply with_pid_true|by apply with_pid_true]. }
  exists n. split_and!; [by eapply list_elem_of_lookup_2|done|done|unfold page_of; by rewrite Hfind|].
  intros c. unfold set_page. by rewrite Hfind.
Qed.

Lemma comm_send_wp (Q Q' : node → Prop) w pid msg : stable Q → pid ∈ L → nodes_in Q w →
  (∀ n c, Q n → n_pid n = pid → Q' (on_proc (set_control (put_msg msg c)) n)) → (∀ n, Q n → n_pid n ≠ pid → Q' n) →
  wp (comm_send platform_of probe_addr sched pid msg) (λ _ w', nodes_in Q' w') w.
Proof.
  intros HQ Hpid Hw H1 H2. apply wp_bind. eapply wp_mono; [by apply tick_wp|]. intros ? w1 (Hw1 & _).
  apply wp_bind, wp_modify, wp_modify. set (w2 := set_calls _ w1).
  assert (Hw2 : nodes_in Q w2) by (by destruct Hw1).
  destruct (page_member Q w2 pid Hw2 Hpid) as (n & _ & _ & _ & -> & ->).
  apply (update_nodes_in Q); [done|done| |done]. intros n' Hn' Hp'. by apply H1.
Qed.

Lemma kill_wp (Q Q' : node → Prop) w pid sig : stable Q → pid ∈ L → nodes_in Q w →
  (∀ n, Q n → n_pid n = pid → n_alive n = true) →
  (∀ n, Q n → n_pid n = pid → Q' (raise sig n)) → (∀ n, Q n → n_pid n ≠ pid → Q' n) →
  wp (kill platform_of probe_addr sched pid sig) (λ r w', r = 0 ∧ nodes_in Q' w') w.
Proof.
  intros HQ Hpid Hw Ha H1 H2. apply wp_bind. eapply wp_mono; [by apply tick_wp|]. intros ? w1 (Hw1 & _).
  apply wp_bind, wp_modify, wp_bind, wp_get. set (w2 := set_calls _ w1).
  assert (Hw2 : nodes_in Q w2) by (by destruct Hw1).
  destruct (find_member Q w2 pid Hw2 Hpid) as (i & n & Hlk & Hn & HQn & Hf).
  rewrite (Hf (λ n, with_pid pid n && n_alive n)).
  - apply wp_bind, wp_modify, wp_ret. split; [done|]. apply (update_nodes_in Q); try done.
    intros n'. unfold raise. by case_bool_decide.
  - intros n' [Hp _]%andb_true_iff. by apply with_pid_true.
  - apply andb_true_iff. split; [by apply with_pid_true|by apply Ha].
Qed.

Lemma finished_wp Q w pid : stable Q → pid ∈ L → nodes_in Q w →
  wp (comm_finished platform_of probe_addr sched pid) (λ r w', nodes_in Q w' ∧ clock w' = S (clock w) ∧
    ∀ i n, nodes w !! i = Some n → n_pid n = pid → ∃ m, nodes w' !! i = Some (Nat.iter m deliver n) ∧
      (i ∈ sched (clock w) → (0 < m)%nat) ∧
      r = bool_decide (signal (control (n_proc (Nat.iter m deliver n))) = FINISH_MSG)) w.
Proof.
  intros HQ Hpid Hw. apply wp_bind. eapply wp_mono; [by apply tick_wp|]. intros ? w1 (Hw1 & Hc & Hm).
  apply wp_bind, wp_get. destruct (page_member Q w1 pid Hw1 Hpid) as (n1 & Hin1 & Hn1 & _ & -> & _).
  assert (Hsame : ∀ i n m, nodes w1 !! i = Some (Nat.iter m deliver n) → n_pid n = pid → Nat.iter m deliver n = n1).
  { intros i n m Hlk Hn. apply list_elem_of_lookup in Hin1 as (j & Hj).
    assert (Hp : n_pid (Nat.iter m deliver n) = pid).
    { clear Hlk. induction m as [|m IH]; [done|]. simpl. by rewrite deliver_pid. }
    assert (i = j) as ->; [|congruence].
    pose proof (ni_ids _ _ Hw1) as Hi. rewrite <- Hi in L_nodup.
    eapply (NoDup_lookup (n_pid <$> nodes w1)); [done|by rewrite list_lookup_fmap, Hlk|].
    rewrite list_lookup_fmap, Hj. simpl. congruence. }
  case_bool_decide as Hb.
  - apply wp_bind, wp_modify, wp_ret. split_and!; [by destruct Hw1|done|]. intros i n Hi Hn.
    destruct (Hm i n Hi) as (m & Hlk & Hpos). exists m. split_and!; [done|done|].
    by rewrite (Hsame i n m Hlk Hn), bool_decide_eq_true_2.
  - apply wp_ret. split_and!; [done|done|]. intros i n Hi Hn.
    destruct (Hm i n Hi) as (m & Hlk & Hpos). exists m. split_and!; [done|done|].
    by rewrite (Hsame i n m Hlk Hn), bool_decide_eq_false_2.
Qed.

(** ** One request to every worker *)

Lemma live_iter {S A} (body : unit → M S (unit + A)) Q s :
  wp (body tt) (λ r s', match r with inl _ => live (λ k, iter k body tt) Q s' | inr a => Q a s' end) s →
  live (λ k, iter k body tt) Q s.
Proof.
  intros (r & s1 & Hb & Hr)%wp_elim. destruct r as [[]|a].
  - destruct Hr as (n & a & s2 & Hm & HQ). exists (Datatypes.S n), a, s2. split; [|done].
    intros [|k] Hk; [lia|]. simpl. unfold mbind, M_bind. rewrite Hb. apply Hm. lia.
  - exists 1%nat, a, s1. split; [|done]. intros [|k] Hk; [lia|]. simpl. unfold mbind, M_bind. by rewrite Hb.
Qed.

(** What a worker's handler promises: from [I] and the message [msg], the signal [sig]
    ends in [J] with [FINISH_MSG].  Both are properties of one worker that do not look at
    its control page. *)
Record answers (I J : Z → proc → Prop) (msg sig : Z) : Prop := {
  an_page : ∀ pid p c, I pid p → I pid (set_control c p);
  an_page' : ∀ pid p c, J pid p → J pid (set_control c p);
  an_msg : msg ≠ FINISH_MSG;
  an_run : ∀ pid p, pid ∈ L → I pid p → signal (control p) = msg →
    ∃ h, handler platform_of probe_addr pid sig = Some h ∧
      wp h (λ _ p', J pid p' ∧ signal (control p') = FINISH_MSG) p
}.

Section Broadcast.
Context (I J : Z → proc → Prop) (msg sig : Z) (Hans : answers I J msg sig).

(** A worker at rest. *)
Definition idle (K : Z → proc → Prop) n : Prop := n_alive n = true ∧ n_pending n = [] ∧ K (n_pid n) (n_proc n).
(** Told, and not signalled yet; signalled; and answering or done. *)
Definition told n : Prop := idle I n ∧ signal (control (n_proc n)) = msg.
Definition called n : Prop :=
  n_alive n = true ∧ n_pending n = [sig] ∧ I (n_pid n) (n_proc n) ∧ signal (control (n_proc n)) = msg.
Definition done_ n : Prop := idle J n ∧ signal (control (n_proc n)) = FINISH_MSG.
Definition busy n : Prop := called n ∨ done_ n.

Lemma deliver_none n : n_pending n = [] → deliver n = n.
Proof. intros Hp. unfold Cluster.deliver. rewrite Hp. by destruct (n_alive n). Qed.

Lemma deliver_called n : n_pid n ∈ L → called n → done_ (deliver n).
Proof.
  intros HL (Ha & Hp & HI & Hm). destruct (an_run _ _ _ _ Hans _ _ HL HI Hm) as (h & Hh & (u & p' & Hr & HJ & Hf)%wp_elim).
  unfold Cluster.deliver. rewrite Ha, Hp. simpl. rewrite Hh, Hr. split; [|done]. split_and!; [done| |done].
  simpl. by rewrite bool_decide_eq_true_2.
Qed.

Lemma idle_stable K : stable (idle K).
Proof. intros n Hn. rewrite deliver_none; [done|]. apply Hn. Qed.
Lemma told_stable : stable told.
Proof. intros n Hn. rewrite deliver_none; [done|]. apply Hn. Qed.
Lemma done_stable : stable done_.
Proof. intros n Hn. rewrite deliver_none; [done|]. apply Hn. Qed.
Lemma busy_deliver n : n_pid n ∈ L → busy n → done_ (deliver n).
Proof. intros HL [Hn|Hn]; [by apply deliver_called|by apply done_stable]. Qed.

Lemma iter_pid m n : n_pid (Nat.iter m deliver n) = n_pid n.
Proof. induction m as [|m IH]; [done|]. simpl. by rewrite deliver_pid. Qed.
Lemma busy_iter m n : n_pid n ∈ L → busy n → (0 < m)%nat → done_ (Nat.iter m deliver n).
Proof.
  intros HL Hn. induction m as [|m IH]; [lia|]. intros _. simpl. destruct m as [|m]; [by apply busy_deliver|].
  apply done_stable, IH. lia.
Qed.
Lemma busy_finished n : busy n → signal (control (n_proc n)) = FINISH_MSG → done_ n.
Proof. intros [(_ & _ & _ & Hm)|Hn] Hf; [|done]. by destruct (an_msg _ _ _ _ Hans); rewrite <- Hm. Qed.

(** The workers while the coordinator calls them one by one: those of [pre] have been
    called, the others are at rest. *)
Definition calling (pre : list Z) n : Prop :=
  n_pid n ∈ L ∧ (n_pid n ∈ pre → busy n) ∧ (n_pid n ∉ pre → idle I n).
Definition calling_one (pre : list Z) (x : Z) n : Prop :=
  n_pid n ∈ L ∧ (n_pid n ∈ pre → busy n) ∧ (n_pid n = x → told n) ∧ (n_pid n ∉ pre → n_pid n ≠ x → idle I n).
(** While it waits: those of [pre] are done. *)
Definition waiting (pre : list Z) n : Prop := n_pid n ∈ L ∧ busy n ∧ (n_pid n ∈ pre → done_ n).

Lemma calling_stable pre : stable (calling pre).
Proof.
  intros n (HL & H1 & H2). split; rewrite deliver_pid; [done|]. split; intros Hp.
  - right. by apply busy_deliver, H1.
  - by apply idle_stable, H2.
Qed.
Lemma calling_one_stable pre x : stable (calling_one pre x).
Proof.
  intros n (HL & H1 & H2 & H3). split; rewrite deliver_pid; [done|]. split_and!; intros Hp.
  - right. by apply busy_deliver, H1.
  - by apply told_stable, H2.
  - intros Hx. by apply idle_stable, H3.
Qed.
Lemma waiting_stable pre : stable (waiting pre).
Proof.
  intros n (HL & H1 & H2). pose proof (busy_deliver n HL H1) as Hd. split; rewrite deliver_pid; [done|].
  split; [by right|done].
Qed.

Abbreviation sys m := (on_machine (D:=D) (P:=P) m).

(** One worker is told and signalled. *)
Lemma signal_one_wp pre x post w : L = pre ++ x :: post → nodes_in (calling pre) w →
  wp (_ ← comm_send platform_of probe_addr sched x msg; kill platform_of probe_addr sched x sig)
    (λ r w', r = 0 ∧ nodes_in (calling (pre ++ [x])) w') w.
Proof.
  intros HL Hw. assert (Hx : x ∈ L) by (rewrite HL; set_solver).
  assert (Hpre : x ∉ pre). { rewrite HL in L_nodup. apply NoDup_app in L_nodup as (_ & Hd & _). intros ?. eapply Hd; [done|set_solver]. }
  apply wp_bind.
  eapply wp_mono; [apply (comm_send_wp (calling pre) (calling_one pre x)); [apply calling_stable|done|done|..]|].
  - intros n c (Hn & H1 & H2) Hp. split; [done|]. simpl. split_and!; [rewrite Hp; done| |rewrite Hp; done].
    intros _. destruct (H2 ltac:(by rewrite Hp)) as (Ha & Hpe & HI). split; [|done]. split_and!; [done|done|].
    by apply (an_page _ _ _ _ Hans).
  - intros n (Hn & H1 & H2) Hp. split; [done|]. split_and!; [done|by intros ?|auto].
  - intros ? w1 Hw1; cbv beta in Hw1.
    apply (kill_wp (calling_one pre x) (calling (pre ++ [x]))); [apply calling_one_stable|done|done|..].
    + intros n (_ & _ & H2 & _) Hp. apply H2. done.
    + intros n (Hn & H1 & H2 & _) Hp. destruct (H2 Hp) as ((Ha & Hpe & HI) & Hm). unfold raise.
      rewrite Hpe, bool_decide_eq_false_2 by (intros [_ ?%elem_of_nil]; done). split; [done|]. simpl. split.
      * intros _. by left.
      * rewrite Hp. set_solver.
    + intros n (Hn & H1 & H2 & H3) Hp. split; [done|]. split; [set_solver|]. intros Hnp. apply H3; [set_solver|done].
Qed.

Lemma send_one_wp pre x post (s : coord W D P) : L = pre ++ x :: post → nodes_in (calling pre) (machine s) →
  wp (send_one platform_of probe_addr sched msg sig x) (λ _ s', nodes_in (calling (pre ++ [x])) (machine s') ∧
    g_cuda_ckpt_path s' = g_cuda_ckpt_path s) s.
Proof.
  intros HL Hw. destruct (wp_elim _ _ _ (signal_one_wp pre x post (machine s) HL Hw)) as (r & w2 & Hr & -> & Hw2).
  unfold mbind, M_bind in Hr. unfold send_one. apply wp_bind. unfold on_machine, wp, zoom at 1.
  destruct (comm_send _ _ _ _ _ (machine s)) as [[] w1|c w1|y w1]; try discriminate.
  apply wp_bind, wp_zoom. eapply wp_intro; [exact Hr|]. by apply wp_ret.
Qed.

Lemma same_index Q w i j n n' : nodes_in Q w → nodes w !! i = Some n → nodes w !! j = Some n' →
  n_pid n = n_pid n' → i = j.
Proof.
  intros Hw Hi Hj Hp. pose proof (ni_ids _ _ Hw) as Hid. rewrite <- Hid in L_nodup.
  eapply (NoDup_lookup (n_pid <$> nodes w)); [done|by rewrite list_lookup_fmap, Hi|].
  rewrite list_lookup_fmap, Hj. simpl. by rewrite Hp.
Qed.

Lemma waiting_snoc pre x w i n : nodes_in (waiting pre) w → nodes w !! i = Some n → n_pid n = x → done_ n →
  nodes_in (waiting (pre ++ [x])) w.
Proof.
  intros Hw Hi Hn Hd. split; [apply Hw|]. intros n' Hn'. destruct (ni_all _ _ Hw n' Hn') as (HL & Hb & Hpre).
  split; [done|]. split; [done|]. rewrite elem_of_app, list_elem_of_singleton. intros [?|Hx]; [auto|].
  apply list_elem_of_lookup in Hn' as (j & Hj). assert (i = j) as -> by (eapply same_index; [done..|congruence]).
  congruence.
Qed.

Lemma wait_live pre x w : nodes_in (waiting pre) w → x ∈ L → fair (length L) →
  live (λ k, wait_finished platform_of probe_addr sched k x) (λ _ w', nodes_in (waiting (pre ++ [x])) w') w.
Proof.
  intros Hw Hx Hfair. destruct (find_member (waiting pre) w x Hw Hx) as (i & n & Hi & Hn & _).
  assert (Hlt : (i < length L)%nat).
  { rewrite <- (ni_ids _ _ Hw), length_fmap. by eapply lookup_lt_Some. }
  destruct (Hfair i (clock w) Hlt) as (t & Ht & Hin). clear Hlt.
  remember (t - clock w)%nat as d eqn:Hd. revert w n Hw Hi Hn Ht Hd.
  induction (lt_wf d) as [d _ IH]. intros w n Hw Hi Hn Ht Hd.
  assert (Hbusy : busy n) by (eapply (ni_all _ _ Hw), list_elem_of_lookup_2, Hi).
  unfold wait_finished. apply live_iter, wp_bind.
  eapply wp_mono; [by apply (finished_wp (waiting pre)); [apply waiting_stable|..]|].
  intros r w1 (Hw1 & Hc1 & Hm1). destruct (Hm1 i n Hi Hn) as (m & Hlk & Hpos & ->).
  set (n1 := Nat.iter m deliver n) in *. assert (Hn1 : n_pid n1 = x) by (unfold n1; by rewrite iter_pid).
  assert (Hb1 : busy n1) by (eapply (ni_all _ _ Hw1), list_elem_of_lookup_2, Hlk).
  case_bool_decide as Hf.
  - apply wp_ret. eapply waiting_snoc; [done|exact Hlk|done|by apply busy_finished].
  - assert (Hns : i ∉ sched (clock w)).
    { intros Hs. apply Hf. eapply busy_iter; [|exact Hbusy|by apply Hpos]. by rewrite Hn. }
    assert (clock w ≠ t) by (intros <-; done).
    apply wp_bind. eapply wp_mono; [by apply (tick_wp (waiting pre)); [apply waiting_stable|]|].
    intros ? w2 (Hw2 & Hc2 & Hm2). apply wp_ret. destruct (Hm2 i n1 Hlk) as (m2 & Hlk2 & Hpos2).
    destruct (decide (t = S (clock w))) as [->|Hts].
    + (* it has run: the next poll sees it *)
      rewrite Hc1 in Hpos2. specialize (Hpos2 Hin).
      assert (Hd2 : done_ (Nat.iter m2 deliver n1)) by (apply busy_iter; [by rewrite Hn1|done|done]).
      apply live_iter, wp_bind. eapply wp_mono; [apply (finished_wp (waiting (pre ++ [x]))); [apply waiting_stable|done|]|].
      { eapply waiting_snoc; [done|exact Hlk2|by rewrite iter_pid|done]. }
      intros r w3 (Hw3 & _ & Hm3). destruct (Hm3 i _ Hlk2 ltac:(by rewrite iter_pid)) as (m3 & _ & _ & ->).
      rewrite bool_decide_eq_true_2; [by apply wp_ret|].
      by apply (stable_iter done_); [apply done_stable|].
    + eapply (IH (t - clock w2)%nat); [lia|exact Hw2|exact Hlk2|by rewrite iter_pid|lia|lia].
Qed.

(** A request to the only worker. *)
Lemma tell_live x w : L = [x] → nodes_in (idle I) w → fair 1 →
  live (λ k, _ ← comm_send platform_of probe_addr sched x msg; _ ← kill platform_of probe_addr sched x sig;
             wait_finished platform_of probe_addr sched k x) (λ _ w', nodes_in (idle J) w') w.
Proof.
  intros HL Hw Hfair. assert (H0 : nodes_in (calling []) w).
  { split; [apply Hw|]. intros n Hn. split_and!; [|set_solver|by intros _; apply (ni_all _ _ Hw)].
    rewrite <- (ni_ids _ _ Hw). by apply list_elem_of_fmap_2. }
  destruct (wp_elim _ _ _ (signal_one_wp [] x [] w HL H0)) as (r & w1 & Hr & -> & H1).
  eapply (live_ext (λ k, r ← (_ ← comm_send platform_of probe_addr sched x msg; kill platform_of probe_addr sched x sig);
    wait_finished platform_of probe_addr sched k x)).
  { intros k. unfold mbind, M_bind. by destruct (comm_send _ _ _ _ _ w). }
  apply (live_bind _ (λ k _, _)), live_wp. eapply wp_intro; [exact Hr|].
  eapply live_mono; [apply (wait_live [] x w1)|].
  - eapply nodes_in_mono; [|exact H1]. intros n (Hn & Hb & _). split; [done|]. split; [apply Hb; by rewrite <- HL|set_solver].
  - rewrite HL. set_solver.
  - by rewrite HL.
  - intros ? w2 H2; cbv beta in H2. eapply nodes_in_mono; [|exact H2]. intros n (Hn & _ & Hd). apply Hd. by rewrite <- HL.
Qed.

(** Every worker gets the message and its signal before any is waited for; with enough
    fuel all of them have answered. *)
Lemma broadcast_live (s : coord W D P) : nodes_in (idle I) (machine s) → fair (length L) →
  live (λ k, broadcast_and_wait platform_of probe_addr sched k L msg sig)
    (λ _ s', nodes_in (idle J) (machine s') ∧ g_cuda_ckpt_path s' = g_cuda_ckpt_path s) s.
Proof.
  intros Hw Hfair. unfold broadcast_and_wait. apply (live_bind _ (λ k _, _)).
  eapply live_mono.
  { apply live_wp. apply (wp_foldM (λ pre _ s', nodes_in (calling pre) (machine s') ∧ g_cuda_ckpt_path s' = g_cuda_ckpt_path s)).
    - split; [|done]. split; [apply Hw|]. intros n Hn. split_and!; [|set_solver|by intros _; apply (ni_all _ _ Hw)].
      rewrite <- (ni_ids _ _ Hw). by apply list_elem_of_fmap_2.
    - intros pre x post _ s1 HL [H1 Hp1]. eapply wp_mono; [by eapply send_one_wp|]. intros _ s2 [H2 Hp2].
      split; [done|congruence]. }
  intros _ s1 [H1 Hp1]. eapply live_mono.
  { apply (live_foldM (λ pre _ s', nodes_in (waiting pre) (machine s') ∧ g_cuda_ckpt_path s' = g_cuda_ckpt_path s)
      (λ k _ pid, on_machine (wait_finished platform_of probe_addr sched k pid))).
    - split; [|done]. eapply nodes_in_mono; [|exact H1]. intros n (HL & Hb & _).
      split; [done|]. split; [by apply Hb|set_solver].
    - intros pre x post _ s2 HL [H2 Hp2]. apply live_zoom. eapply live_mono.
      + apply wait_live; [exact H2| |done]. rewrite HL. set_solver.
      + intros ? w' Hw'; cbv beta in Hw'. done. }
  intros _ s2 [H2 Hp2]. split; [|done]. eapply nodes_in_mono; [|exact H2].
  intros n (HL & _ & Hd). by apply Hd.
Qed.
End Broadcast.
End Cluster.
