(* ===== verification/CoordFacts.v ===== *)
(** The coordinator of several workers: rules for its phases. *)
From S2P Require Import Prelude Common Gpu Layout Ckpt SaveFacts CkptFacts Restore RestoreFacts CrTheorems.
From S2P Require Import IpcState IpcDriver FdExchange FdFacts IpcHooks IpcExports IpcSafe IpcPublish Process Handlers HandlerFacts.
From S2P Require Import SignalFacts Cluster WorkerPhases Text MultiClient ClusterFacts.
Open Scope Z_scope.

(** ** The exchange of export records *)

(** The entries one process published. *)
Definition published_entries (b : IpcRebuildShmBlock) : list IpcExportShmEntry :=
  take (Z.to_nat (num_exports b)) (entries b).

(** What worker [i] of [blocks] gets: the entries of all the others in the order of
    their ids, as far as they fit. *)
Definition entries_but (blocks : list IpcRebuildShmBlock) (i : nat) (js : list nat) : list IpcExportShmEntry :=
  concat ((λ j, if decide (j = i) then [] else published_entries (nth j blocks no_block)) <$> js).
Definition others_entries (blocks : list IpcRebuildShmBlock) (i : nat) : list IpcExportShmEntry :=
  entries_but blocks i (seq 0 (length blocks)).

Lemma append_entries es : ∀ b, block_ok b →
  let b' := foldl append_entry b es in
  block_ok b' ∧ published_entries b' = take 64 (published_entries b ++ es).
Proof.
  induction es as [|e es IH]; intros b [Hl [H0 H1]]; cbn zeta.
  - rewrite app_nil_r. split; [done|]. rewrite take_ge; [done|]. unfold published_entries. rewrite length_take.
    unfold IPC_MAX_EXPORTS_PER_PROC in *. lia.
  - cbn [foldl]. unfold append_entry at 2 4. case_bool_decide as Hf.
    + destruct (IH b) as [H2 H3]; [by split|]. split; [done|]. rewrite H3.
      assert (Hlen : length (published_entries b) = 64%nat).
      { unfold published_entries. rewrite length_take. unfold IPC_MAX_EXPORTS_PER_PROC in *. lia. }
      rewrite !take_app_le by lia. done.
    + set (b1 := MkBlock _ _). destruct (IH b1) as [H2 H3].
      { split; [by cbn; rewrite length_insert|]. cbn [b1 num_exports]. lia. }
      split; [done|]. rewrite H3. f_equal. rewrite (cons_middle e), app_assoc. f_equal.
      unfold published_entries, b1. cbn. replace (Z.to_nat (num_exports b + 1)) with (S (Z.to_nat (num_exports b))) by lia.
      rewrite (take_S_r _ _ e) by (apply list_lookup_insert_eq; unfold IPC_MAX_EXPORTS_PER_PROC in *; lia).
      by rewrite take_insert_ge by lia.
Qed.

Lemma take_app_take {A} n (l1 l2 : list A) : take n (take n l1 ++ l2) = take n (l1 ++ l2).
Proof.
  destruct (decide (n ≤ length l1)%nat).
  - rewrite !take_app_le by (rewrite ?length_take; lia). by rewrite take_take, Nat.min_id.
  - by rewrite (take_ge l1) by lia.
Qed.

(** The peer block of worker [i] after the exchange. *)
Definition gather (blocks : list IpcRebuildShmBlock) (i : nat) (js : list nat) (old : IpcRebuildShmBlock)
    : IpcRebuildShmBlock :=
  foldl (λ dst j, if decide (j = i) then dst else foldl append_entry dst (published_entries (nth j blocks no_block)))
    (MkBlock 0 (entries old)) js.

Lemma gather_spec blocks i js old : block_ok old →
  block_ok (gather blocks i js old) ∧ published_entries (gather blocks i js old) = take 64 (entries_but blocks i js).
Proof.
  intros Hold. induction js as [|j js [IH1 IH2]] using rev_ind.
  - destruct Hold. split; [by split|]. done.
  - unfold gather, entries_but in *. rewrite foldl_app, fmap_app, concat_app. cbn [foldl fmap list_fmap concat].
    rewrite app_nil_r. case_decide as Hj; [by rewrite app_nil_r|].
    destruct (append_entries (published_entries (nth j blocks no_block)) _ IH1) as [H1 H2]. split; [exact H1|].
    rewrite H2, IH2. apply take_app_take.
Qed.

Section Exchange.
Context {W D P : Type} {GW : GPU W} {GO : GPUObject W} {CD : CuDriver D} {SK : Sockets D}.
Context {PX : Posix P} {BD : Build} {HS : Host W D P}.
Context (platform_of : Z → Platform) (probe_addr : Z) (sched : nat → list nat).
Abbreviation node := (node W D P).
Abbreviation coord := (coord W D P).
Abbreviation exchange := (exchange_ipc_export_info platform_of probe_addr sched).
Abbreviation tick := (tick platform_of probe_addr sched).

Definition quiet (ns : list node) : Prop := ∀ n, n ∈ ns → n_pending n = [].

Lemma run_quiet l (ns : list node) : quiet ns → run_workers platform_of probe_addr l ns = ns.
Proof.
  intros Hq. unfold run_workers. induction l as [|i l IH] using rev_ind; [done|].
  rewrite foldl_app, IH. cbn [foldl]. apply list_eq. intros j. destruct (decide (i = j)) as [->|Hij].
  - rewrite list_lookup_alter_eq. destruct (ns !! j) as [n|] eqn:Hn; [|done]. simpl. f_equal.
    apply deliver_none, Hq. by eapply list_elem_of_lookup_2.
  - by rewrite list_lookup_alter_ne.
Qed.

(** The dump files of the first [n] ids can be opened and mapped. *)
Record shm_opens (n : nat) : Prop := {
  so_path i : (i < n)%nat → (String.length (dump_path (Z.of_nat i)) < 512)%nat;
  so_open i h : (i < n)%nat → wp (open_file (dump_path (Z.of_nat i)) false 493) (λ fd _, 0 ≤ fd) h;
  so_mmap len fd (h : P) : wp (mmap len (SharedFile fd)) (λ p _, is_Some p) h;
  so_close fd (h : P) : wp (close_file fd) (λ _ _, True) h
}.

(** The coordinator's own calls leave idle workers alone. *)
Definition untouched (s s' : coord) : Prop :=
  nodes (machine s') = nodes (machine s) ∧ g_cuda_ckpt_path s' = g_cuda_ckpt_path s.

Lemma tick_quiet (Q : unit → coord → Prop) s : quiet (nodes (machine s)) →
  (∀ s', untouched s s' → Q tt s') → wp (on_machine tick) Q s.
Proof. intros Hq HQ. apply wp_zoom, wp_modify, HQ. split; [|done]. simpl. by apply run_quiet. Qed.

Lemma host_quiet {A} (m : M P A) (R : A → Prop) s : quiet (nodes (machine s)) →
  (∀ h, wp m (λ a _, R a) h) →
  wp (on_machine (host_do platform_of probe_addr sched m)) (λ a s', R a ∧ untouched s s') s.
Proof.
  intros Hq Hm. apply wp_zoom. unfold host_do. apply wp_bind, wp_modify, wp_zoom.
  eapply wp_mono; [apply Hm|]. intros a h Ha. split; [done|]. split; [|done]. simpl. by apply run_quiet.
Qed.

Lemma untouched_trans s1 s2 s3 : untouched s1 s2 → untouched s2 s3 → untouched s1 s3.
Proof. intros [? ?] [? ?]. split; congruence. Qed.
Lemma untouched_quiet s s' : untouched s s' → quiet (nodes (machine s)) → quiet (nodes (machine s')).
Proof. by intros [-> _]. Qed.

Lemma open_worker_wp n i s : shm_opens n → (i < n)%nat → quiet (nodes (machine s)) →
  wp (open_worker_shm platform_of probe_addr sched (Z.of_nat i)) (λ r s', r = true ∧ untouched s s') s.
Proof.
  intros [Hp Ho Hm Hc] Hi Hq. unfold open_worker_shm, sprintf. rewrite bool_decide_eq_true_2 by auto.
  apply wp_bind, wp_ret, wp_bind. eapply wp_mono; [apply host_quiet; [done|intros h; by apply Ho]|].
  intros fd s1 [Hfd H1]; cbv beta in *. rewrite bool_decide_eq_false_2 by lia. apply wp_bind.
  eapply wp_mono; [apply host_quiet; [by eapply untouched_quiet|apply Hm]|]. intros p s2 [Hp2 H2]. apply wp_bind.
  pose proof (untouched_trans _ _ _ H1 H2) as H12.
  eapply wp_mono; [apply (host_quiet _ (λ _, True)); [by eapply untouched_quiet|intros h; apply Hc]|].
  intros ? s3 [_ H3]. apply wp_ret. split; [by destruct Hp2 as [? ->]|by eapply untouched_trans].
Qed.

Definition node_id (n : node) : Z := cr_id (n_proc n).

(** Workers with the ids 0, 1, ... in some order, and well-formed blocks. *)
Record numbered (ns : list node) : Prop := {
  nb_ids : NoDup (node_id <$> ns);
  nb_all i : (i < length ns)%nat → Z.of_nat i ∈ node_id <$> ns;
  nb_my n : n ∈ ns → block_ok (my_block (n_proc n));
  nb_peer n : n ∈ ns → block_ok (peer_block (n_proc n))
}.

Lemma find_id (ns : list node) i : NoDup (node_id <$> ns) → i ∈ node_id <$> ns →
  ∃ n, n ∈ ns ∧ node_id n = i ∧ find_node (with_id i) ns = Some n.
Proof.
  intros Hnd (n & -> & Hn)%list_elem_of_fmap. exists n. split_and!; [done|done|].
  apply list_elem_of_lookup in Hn as (i & Hi). unfold find_node.
  replace (list_find _ ns) with (Some (i, n)); [done|]. symmetry. apply list_find_Some.
  unfold with_id. split_and!; [done|by rewrite bool_decide_eq_true_2|].
  intros j y Hj Hlt Hy. apply Is_true_true, bool_decide_eq_true in Hy. assert (i = j); [|lia].
  eapply (NoDup_lookup _ i j); [exact Hnd|by rewrite list_lookup_fmap, Hi|].
  rewrite list_lookup_fmap, Hj. simpl. unfold node_id. by rewrite Hy.
Qed.

(** The workers once the first [k] peer blocks are written. *)
Definition exchanged (blocks : list IpcRebuildShmBlock) (n : nat) (k : Z) (nd : node) : node :=
  if bool_decide (0 ≤ node_id nd < k) then
    on_proc (set_peer_block (gather blocks (Z.to_nat (node_id nd)) (seq 0 n) (peer_block (n_proc nd)))) nd
  else nd.

Lemma exchanged_ids blocks n k (ns : list node) : node_id <$> (exchanged blocks n k <$> ns) = node_id <$> ns.
Proof.
  rewrite <- list_fmap_compose. apply list_fmap_ext. intros i nd _. simpl. unfold exchanged. by case_bool_decide.
Qed.

Lemma exchanged_quiet blocks n k (ns : list node) : quiet ns → quiet (exchanged blocks n k <$> ns).
Proof.
  intros Hq nd' (nd & -> & Hn)%list_elem_of_fmap. unfold exchanged. case_bool_decide; cbn; by apply Hq.
Qed.

Lemma gather_wp blocks i n old (s : coord) : Forall block_ok blocks →
  wp (foldM (λ dst j,
        if bool_decide (j = i) then mret dst else
        es ← exported_entries (nth j blocks no_block);
        mret (foldl append_entry dst es)) (MkBlock 0 (entries old)) (seq 0 n))
    (λ dst s', dst = gather blocks i (seq 0 n) old ∧ s' = s) s.
Proof.
  intros Hok. unfold gather.
  apply (wp_foldM (λ js dst s', dst = foldl _ (MkBlock 0 (entries old)) js ∧ s' = s)); [done|].
  intros pre j post dst s1 Hseq [-> ->]. rewrite foldl_app. cbn [foldl]. case_bool_decide as Hj.
  - apply wp_ret. by rewrite decide_True.
  - rewrite decide_False by done. apply wp_bind. assert (Hb : block_ok (nth j blocks no_block)).
    { destruct (nth_in_or_default j blocks no_block) as [Hin| ->]; [|done].
      rewrite Forall_forall in Hok. by apply Hok, list_elem_of_In. }
    unfold exported_entries. rewrite bool_decide_eq_false_2 by (destruct Hb; lia). by apply wp_ret, wp_ret.
Qed.

(** One round of the loop over the peer blocks. *)
Lemma exchange_round blocks n i (ns : list node) (s : coord) : numbered ns → quiet ns → (i < length ns)%nat →
  Forall block_ok blocks → nodes (machine s) = exchanged blocks n (Z.of_nat i) <$> ns →
  wp (_ ← on_machine tick;
      dst ← get (λ s, (blocks_of_file (Z.of_nat i) (machine s)).2);
      dst ← foldM (λ dst j,
              if bool_decide (j = i) then mret dst else
              es ← exported_entries (nth j blocks no_block);
              mret (foldl append_entry dst es)) (MkBlock 0 (entries dst)) (seq 0 n);
      on_machine (modify (set_peer_block_of (Z.of_nat i) dst)))
    (λ _ s', nodes (machine s') = exchanged blocks n (Z.of_nat (S i)) <$> ns ∧
      g_cuda_ckpt_path s' = g_cuda_ckpt_path s) s.
Proof.
  intros Hnb Hq Hi Hok Hns. apply wp_bind, tick_quiet; [rewrite Hns; by apply exchanged_quiet|].
  intros s1 [H1 Hp1]. apply wp_bind, wp_get, wp_bind.
  pose proof (nb_all _ Hnb i Hi) as Hin. rewrite <- (exchanged_ids blocks n (Z.of_nat i)) in Hin.
  pose proof (nb_ids _ Hnb) as Hnd. rewrite <- (exchanged_ids blocks n (Z.of_nat i)) in Hnd.
  destruct (find_id _ _ Hnd Hin) as (nd' & (nd & -> & Hnd')%list_elem_of_fmap & Hid & Hfind).
  assert (exchanged blocks n (Z.of_nat i) nd = nd ∧ node_id nd = Z.of_nat i) as [He Hid'].
  { unfold exchanged in *. case_bool_decide as Hlt; [|done]. exfalso. change (node_id nd = Z.of_nat i) in Hid. lia. }
  rewrite He in Hfind. assert (Hf1 : find_node (with_id (Z.of_nat i)) (nodes (machine s1)) = Some nd) by (rewrite H1, Hns; exact Hfind).
  unfold blocks_of_file at 1. rewrite Hf1. cbn [snd].
  eapply wp_mono; [by apply gather_wp|]. intros dst s2 [-> ->]. apply wp_zoom, wp_modify.
  unfold set_peer_block_of. rewrite Hf1. split; [|done]. cbn. rewrite H1, Hns. unfold update_nodes.
  rewrite <- list_fmap_compose. apply list_fmap_ext. intros j x Hx. cbn.
  assert (Hsame : x = nd ∨ node_id x ≠ Z.of_nat i).
  { destruct (decide (node_id x = Z.of_nat i)) as [Hxi|]; [|by right]. left.
    apply list_elem_of_lookup in Hnd' as (j' & Hj'). assert (j = j') as ->; [|congruence].
    eapply (NoDup_lookup _ j j'); [exact (nb_ids _ Hnb)|by rewrite list_lookup_fmap, Hx|].
    rewrite list_lookup_fmap, Hj'. cbn. congruence. }
  destruct Hsame as [->|Hne].
  - rewrite He. unfold with_id. rewrite bool_decide_eq_true_2 by exact Hid'. unfold exchanged.
    rewrite bool_decide_eq_true_2 by lia. by rewrite Hid', Nat2Z.id.
  - unfold with_id, exchanged. rewrite bool_decide_eq_false_2 by (by case_bool_decide).
    destruct (decide (0 ≤ node_id x < Z.of_nat i)).
    + by rewrite !bool_decide_eq_true_2 by lia.
    + by rewrite !bool_decide_eq_false_2 by lia.
Qed.

(** The blocks the exchange reads: those the workers published. *)
Definition my_blocks (s : coord) (n : nat) : list IpcRebuildShmBlock :=
  (λ i, (blocks_of_file (Z.of_nat i) (machine s)).1) <$> seq 0 n.

Lemma my_blocks_eq s s' (ns : list node) n : numbered ns → n = length ns → nodes (machine s) = ns → nodes (machine s') = ns →
  my_blocks s' n = my_blocks s n ∧ Forall block_ok (my_blocks s n).
Proof.
  intros Hnb -> H1 H2. assert (Hf : ∀ i, i ∈ seq 0 (length ns) → ∃ nd, nd ∈ ns ∧
    find_node (with_id (Z.of_nat i)) ns = Some nd).
  { intros i Hi%elem_of_seq. destruct (find_id ns (Z.of_nat i)) as (nd & ? & _ & ?);
      [apply Hnb|apply Hnb; lia|by exists nd]. }
  unfold my_blocks, blocks_of_file. rewrite H1, H2. split.
  - apply list_fmap_ext. intros j i Hi. apply list_elem_of_lookup_2, Hf in Hi as (nd & _ & ->). done.
  - apply Forall_fmap, Forall_forall. intros i (nd & Hnd & Hfi)%Hf. cbn. rewrite Hfi. by apply (nb_my _ Hnb).
Qed.

Lemma exchange_wp L (s : coord) n : length L = n → shm_opens n → length (nodes (machine s)) = n →
  quiet (nodes (machine s)) → numbered (nodes (machine s)) →
  wp (exchange L) (λ _ s', nodes (machine s') = exchanged (my_blocks s n) n (Z.of_nat n) <$> nodes (machine s) ∧
    g_cuda_ckpt_path s' = g_cuda_ckpt_path s) s.
Proof.
  intros HL Hop Hlen Hq Hnb. unfold exchange_ipc_export_info. rewrite HL. apply wp_bind. eapply wp_mono.
  { apply (wp_foldM (λ _ _ s', untouched s s')); [done|]. intros pre i post ? s1 Hseq H1. apply wp_bind.
    assert (Hi : (i < n)%nat). { assert (i ∈ seq 0 n) as ?%elem_of_seq by (rewrite Hseq; set_solver). lia. }
    eapply wp_mono; [apply (open_worker_wp n); [done|done|by eapply untouched_quiet]|].
    intros r s2 [-> H2]. apply wp_ret. by eapply untouched_trans. }
  intros ? s1 H1; cbv beta in H1. apply wp_bind, wp_zoom, wp_bind, wp_modify, wp_modify, wp_bind, wp_get.
  set (s2 := set_machine _ s1). assert (H2 : untouched s s2).
  { destruct H1 as [H1 ?]. split; [|done]. simpl. rewrite run_quiet; [done|by rewrite H1]. }
  destruct (my_blocks_eq s s2 _ n Hnb (eq_sym Hlen) eq_refl (proj1 H2)) as [Hbl Hok].
  fold (my_blocks s2 n). rewrite Hbl. eapply wp_mono.
  { apply (wp_foldM (λ pre _ s', nodes (machine s') = exchanged (my_blocks s n) n (Z.of_nat (length pre)) <$> nodes (machine s) ∧
      g_cuda_ckpt_path s' = g_cuda_ckpt_path s)).
    - destruct H2 as [H2 ?]. split; [|done]. rewrite H2, <- (list_fmap_id (nodes (machine s))) at 1.
      apply list_fmap_ext. intros j nd _. unfold exchanged. by rewrite bool_decide_eq_false_2 by (simpl; lia).
    - intros pre i post ? s3 Hseq [H3 Hp3]. assert (i = length pre) as ->.
      { assert (Hlk : seq 0 n !! length pre = Some i) by (rewrite Hseq; by apply list_lookup_middle).
        apply lookup_seq in Hlk. lia. }
      assert (length pre < n)%nat.
      { apply (f_equal length) in Hseq. rewrite length_seq, length_app in Hseq. simpl in Hseq. lia. }
      eapply wp_mono; [apply (exchange_round (my_blocks s n) n (length pre) (nodes (machine s))); try done; lia|].
      intros ? s4 [H4 Hp4]. rewrite length_app, Nat.add_1_r. split; [done|congruence]. }
  intros ? s3. by rewrite length_seq.
Qed.
End Exchange.
