(* ===== verification/CoordFlows.v ===== *)
(** The flows of the coordinator of several workers.

    The workers' promises ([answers]) are discharged from the rules of [WorkerPhases],
    and the phases are put together; what [cuda-checkpoint] does to a worker is the
    hypothesis [carried]. *)
From S2P Require Import Prelude Common Gpu Layout Ckpt SaveFacts CkptFacts Restore RestoreFacts CrTheorems.
From S2P Require Import IpcState IpcDriver FdExchange FdFacts IpcHooks IpcExports IpcSafe IpcPublish Process Handlers HandlerFacts.
From S2P Require Import SignalFacts Cluster WorkerPhases Text MultiClient ClusterFacts CoordFacts.
From S2P Require Import Driver Nv Sim NvFacts CuSim IpcTracking IpcTheorems ImportTheorems ProcSim HandlerTheorems.
Open Scope Z_scope.

(** What a run of [cuda-checkpoint] leaves of a worker: its host memory, its tables and
    reservations, its dump; not the contents of device memory. *)
Record carried {W D P} {GW : GPU W} (n n' : node W D P) : Prop := {
  ca_pid : n_pid n' = n_pid n;
  ca_alive : n_alive n' = n_alive n;
  ca_pending : n_pending n' = n_pending n;
  ca_proc : ∃ v d, n_proc n' = set_hooks (set_cu d (hooks (n_proc n))) (set_vg v (n_proc n)) ∧
    (ready (vg (n_proc n)) → resumed (mapped (n_proc n)) (vg (n_proc n)) v)
}.

(** The program carries the workers over; with [must] it also reports success. *)
Definition tool_ok {W D P} {GW : GPU W} {HS : Host W D P} (must : bool) : Prop := ∀ argv h ns,
  wp (spawn (W:=W) (D:=D) (P:=P) argv)
    (λ st x, (must = true → st = Exited 0) ∧ Forall2 carried ns x.2) (h, ns).

Section Flows.
Context {W D P : Type} {GW : GPU W} {GL : GPULaws W} {GO : GPUObject W} {GOL : GPUObjectLaws W}.
Context {CD : CuDriver D} {CT : CuReturns D} {SK : Sockets D} {SR : SockReturns D} {TP : TalkingPeers D}.
Context {PX : Posix P} {PR : PosixReturns P} {BD : Build} {HS : Host W D P}.
Context (platform_of : Z → Platform) (probe_addr : Z) (sched : nat → list nat).
Context (threads : nat → list nat → list nat).
Abbreviation node := (node W D P).
Abbreviation coord := (coord W D P).
Abbreviation proc := (proc W D P).

Context (rc rcd : Z → Z) (Hpa : peer_answers (D:=D) rc rcd) (on_nv : HIP_PLATFORM_AMD = false).
Context (Hpeers : honest_peers (D:=D)).
(** The workers and the state each of them starts in. *)
Context (L : list Z) (L_nodup : NoDup L) (Hfair : fair sched (length L)) (start : Z → proc).
Context (Hstart : ∀ pid, pid ∈ L → checkpointable (mapped (start pid)) (blocks_of (start pid)) (vg (start pid))).

Abbreviation answers := (answers platform_of probe_addr L).
Abbreviation Serving := (λ pid, serving (start pid)).
Abbreviation Suspended := (λ pid, suspended (start pid)).
Abbreviation Recovered := (λ pid, recovered (start pid)).
Notation workers_in K := (λ s : coord, nodes_in L (idle K) (machine s)).

(** ** The promises of the workers *)

Lemma teardown_answers : answers Serving Serving IPC_TEARDOWN_MSG CR_IPC_TEARDOWN_SIGNAL.
Proof.
  split; [intros *; apply serving_page|intros *; apply serving_page|done|]. intros pid p _ Hs _.
  eexists. split; [reflexivity|]. by apply (ipc_phase (PF:=platform_of pid)).
Qed.

Lemma ckpt_answers : answers Serving Suspended CKPT_MSG CR_CKPT_SIGNAL.
Proof.
  split; [intros *; apply serving_page|intros *; apply suspended_page|done|]. intros pid p HL Hs Hm.
  eexists. split; [reflexivity|]. eapply (ckpt_phase (PF:=platform_of pid)); [exact Hpa|done|by apply Hstart|done..].
Qed.

Lemma restore_answers : answers Suspended Recovered RESTORE_MSG CR_RESTORE_SIGNAL.
Proof.
  split; [intros *; apply suspended_page|intros *; apply recovered_page|done|]. intros pid p HL Hs Hm.
  eexists. split; [reflexivity|]. eapply (restore_phase (PF:=platform_of pid)); [exact Hpa|done|by apply Hstart|done..].
Qed.

Lemma rebuild_answers msg : msg ≠ FINISH_MSG → answers Recovered Recovered msg CR_IPC_REBUILD_SIGNAL.
Proof.
  intros Hmsg. split; [intros *; apply recovered_page|intros *; apply recovered_page|done|]. intros pid p HL Hs Hm.
  eexists. split; [reflexivity|]. by apply (recovered_ipc (PF:=platform_of pid)).
Qed.

(** ** Running the program on the workers *)

(** A property that a run of [cuda-checkpoint] does not break. *)
Definition portable (K : Z → proc → Prop) : Prop := ∀ pid p v d, K pid p →
  (ready (vg p) → resumed (mapped p) (vg p) v) → K pid (set_hooks (set_cu d (hooks p)) (set_vg v p)).

Lemma suspended_portable : portable Suspended.
Proof.
  intros pid p v d [? ? ? ? Hm ? ? (u & v1 & Hu & Hck & Hrm)] Hv. split; try done. exists u, v1.
  split; [done|]. split; [done|]. eapply resumed_trans; [exact Hrm|]. simpl. rewrite <- Hm.
  apply Hv, (rm_ready _ _ _ Hrm).
Qed.

Lemma carried_idle K n n' : portable K → carried n n' → idle K n → idle K n'.
Proof.
  intros HK [Hp Ha Hq (v & d & Hproc & Hv)] (H1 & H2 & H3). split_and!; [congruence|congruence|].
  rewrite Hproc, Hp. by apply HK.
Qed.

Lemma carried_nodes K (ns ns' : list node) (w : world W D P) : portable K → nodes_in L (idle K) w → nodes w = ns →
  Forall2 carried ns ns' → ∀ h, nodes_in L (idle K) (set_nodes ns' (set_host h w)).
Proof.
  intros HK [Hi Ha] <- Hf h. split; simpl.
  - rewrite <- Hi. clear Hi Ha. induction Hf as [|n n' ns ns' Hn _ IH]; [done|].
    rewrite !fmap_cons, IH. f_equal. apply Hn.
  - intros n' Hn'. apply list_elem_of_lookup in Hn' as (i & Hn').
    destruct (Forall2_lookup_r _ _ _ _ _ Hf Hn') as (n & Hn & Hc). eapply carried_idle; [done|exact Hc|].
    apply Ha. by eapply list_elem_of_lookup_2.
Qed.

Lemma run_one_wp must K pid args (s : coord) : tool_ok (W:=W) (D:=D) (P:=P) must → portable K → workers_in K s →
  wp (cuda_ckpt_run platform_of probe_addr sched pid args) (λ r s', (must = true → r = 0) ∧ workers_in K s' ∧
    g_cuda_ckpt_path s' = g_cuda_ckpt_path s) s.
Proof.
  intros Ht HK Hs. unfold cuda_ckpt_run. apply wp_bind, wp_get, wp_bind, wp_zoom, wp_modify, wp_bind, wp_zoom.
  unfold tool_do. apply wp_bind. set (w := set_calls _ _).
  assert (Hw : nodes_in L (idle K) w) by by destruct Hs.
  eapply wp_mono; [by apply (tick_wp platform_of probe_addr sched L (idle K)); [apply idle_stable|]|].
  intros ? w1 (H1 & _). apply wp_zoom. eapply wp_mono; [apply Ht|]. intros st [h ns'] [Hst Hc]. cbn [fst snd] in *.
  assert (H2 : ∀ s0, workers_in K (set_machine (set_nodes ns' (set_host h w1)) s0)).
  { intros s0. by eapply carried_nodes. }
  destruct st; apply wp_ret; (split; [intros Hm; specialize (Hst Hm); congruence|]); (split; [apply H2|done]).
Qed.

(** [cuda_ckpt_all_parallel], whatever the order of its threads. *)
Lemma run_all_wp must K args (s : coord) : (∀ t l, threads t l ≡ₚ l) →
  tool_ok (W:=W) (D:=D) (P:=P) must → portable K → workers_in K s →
  wp (cuda_ckpt_all_parallel platform_of probe_addr sched threads L args) (λ r s', (must = true → r = 0) ∧
    workers_in K s' ∧ g_cuda_ckpt_path s' = g_cuda_ckpt_path s) s.
Proof.
  intros Hth Ht HK Hs. unfold cuda_ckpt_all_parallel. apply wp_bind, wp_get, wp_bind.
  set (order := threads _ _). eapply wp_mono.
  { apply (wp_foldM (λ pre results s', (length results = length L ∧ (must = true → ∀ i, i ∈ pre → (i < length L)%nat → results !! i = Some 0)) ∧
      workers_in K s' ∧ g_cuda_ckpt_path s' = g_cuda_ckpt_path s)).
    - split; [|done]. split; [by rewrite length_replicate|]. intros _ i Hi. by apply elem_of_nil in Hi.
    - intros pre i post results s1 _ [[Hl Hz] [H1 Hp1]]. apply wp_bind.
      eapply wp_mono; [by apply (run_one_wp must K)|]. intros r s2 (Hr & H2 & Hp2). apply wp_ret.
      split; [|split; [done|congruence]]. split; [by rewrite length_insert|]. intros Hm j Hj Hlt.
      destruct (decide (i = j)) as [->|Hij].
      + rewrite list_lookup_insert_eq by lia. by rewrite Hr.
      + rewrite list_lookup_insert_ne by done. apply Hz; [done| |done]. set_solver. }
  intros results s1 ([Hl Hz] & H1 & Hp1). apply wp_ret. split; [|done]. intros Hm.
  rewrite filter_none; [done|]. apply Forall_lookup. intros i r Hi. assert (Hlt : (i < length results)%nat) by by eapply lookup_lt_Some.
  rewrite (Hz Hm i) in Hi; [injection Hi as <-; lia| |lia]. unfold order. rewrite Hth. apply elem_of_seq. lia.
Qed.

(** ** The flows *)

Context (Hth : ∀ t l, threads t l ≡ₚ l).
Notation freeze act buffer_only := (if act : bool
  then cuda_checkpoint_freeze_action platform_of probe_addr sched threads L buffer_only
  else cuda_checkpoint_toggle_all platform_of probe_addr sched threads L buffer_only).
Notation unfreeze act buffer_only := (if act : bool
  then cuda_checkpoint_restore_action platform_of probe_addr sched threads L buffer_only
  else cuda_checkpoint_toggle_all platform_of probe_addr sched threads L buffer_only).

Lemma with_program_wp (buffer_only : bool) K (R : Z → Prop) m (s : coord) : (buffer_only = false → g_cuda_ckpt_path s ≠ ""%string) →
  workers_in K s → R 0 → (buffer_only = false →
    wp m (λ r s', R r ∧ workers_in K s' ∧ g_cuda_ckpt_path s' = g_cuda_ckpt_path s) s) →
  wp (with_program platform_of probe_addr sched L buffer_only m)
    (λ r s', R r ∧ workers_in K s' ∧ g_cuda_ckpt_path s' = g_cuda_ckpt_path s) s.
Proof.
  intros Hp Hs H0 Hm. unfold with_program. rewrite on_nv. destruct buffer_only; [by apply wp_ret|].
  apply wp_bind. unfold init_cuda_checkpoint_path. apply wp_bind, wp_get, wp_bind.
  rewrite bool_decide_eq_false_2 by auto. apply wp_ret, wp_bind, wp_get, wp_ret.
  rewrite bool_decide_eq_false_2 by auto. by apply Hm.
Qed.

Lemma freeze_wp act buffer_only must K (s : coord) : (buffer_only = false → g_cuda_ckpt_path s ≠ ""%string) →
  tool_ok (W:=W) (D:=D) (P:=P) must → portable K → workers_in K s →
  wp (freeze act buffer_only) (λ r s', (must = true → r = 0) ∧ workers_in K s' ∧
    g_cuda_ckpt_path s' = g_cuda_ckpt_path s) s.
Proof.
  intros Hp Ht HK Hs. destruct act; apply (with_program_wp _ _ (λ r, must = true → r = 0));
    try exact Hp; try exact Hs; try (intros _; reflexivity); intros _; [|by apply run_all_wp].
  apply wp_bind. eapply wp_mono; [by apply (run_all_wp must K)|]. intros r s1 (Hr & H1 & Hp1). case_bool_decide as Hf.
  - apply wp_bind. eapply wp_mono; [by apply (run_all_wp must K)|]. intros r2 s2 (_ & H2 & Hp2).
    apply wp_ret. split; [done|]. split; [done|congruence].
  - apply wp_bind. eapply wp_mono; [by apply (run_all_wp must K)|]. intros r2 s2 (Hr2 & H2 & Hp2). case_bool_decide as Hf2.
    + apply wp_bind. eapply wp_mono; [by apply (run_all_wp must K)|]. intros r3 s3 (_ & H3 & Hp3).
      apply wp_ret. split; [done|]. split; [done|congruence].
    + apply wp_ret. split; [done|]. split; [done|congruence].
Qed.

Lemma unfreeze_wp act buffer_only must K (s : coord) : (buffer_only = false → g_cuda_ckpt_path s ≠ ""%string) →
  tool_ok (W:=W) (D:=D) (P:=P) must → portable K → workers_in K s →
  wp (unfreeze act buffer_only) (λ r s', (must = true → r = 0) ∧ workers_in K s' ∧
    g_cuda_ckpt_path s' = g_cuda_ckpt_path s) s.
Proof.
  intros Hp Ht HK Hs. destruct act; apply (with_program_wp _ _ (λ r, must = true → r = 0));
    try exact Hp; try exact Hs; try (intros _; reflexivity); intros _; [|by apply run_all_wp].
  apply wp_bind. eapply wp_mono; [by apply (run_all_wp must K)|]. intros r s1 (Hr & H1 & Hp1).
  apply wp_bind. eapply wp_mono; [by apply (run_all_wp must K)|]. intros r2 s2 (Hr2 & H2 & Hp2).
  apply wp_ret. split; [intros Hm; rewrite Hr, Hr2 by done; done|]. split; [done|congruence].
Qed.

Abbreviation broadcast k := (broadcast_and_wait platform_of probe_addr sched k L).

(** A checkpoint of all the workers, whether or not [cuda-checkpoint] succeeds. *)
Lemma do_checkpoint_live act buffer_only skip_nccl (s : coord) :
  (buffer_only = false → g_cuda_ckpt_path s ≠ ""%string) → tool_ok (W:=W) (D:=D) (P:=P) false →
  workers_in Serving s →
  live (λ k, do_checkpoint platform_of probe_addr sched threads k act L buffer_only skip_nccl)
    (λ _ s', workers_in Suspended s' ∧ g_cuda_ckpt_path s' = g_cuda_ckpt_path s) s.
Proof.
  intros Hp Ht Hs. unfold do_checkpoint. apply (live_bind _ (λ k _, _)).
  eapply (live_mono _ (λ _ s', workers_in Serving s' ∧ g_cuda_ckpt_path s' = g_cuda_ckpt_path s)).
  { destruct skip_nccl; [by apply live_wp, wp_ret|]. apply (broadcast_live platform_of probe_addr sched L L_nodup _ _ _ _ teardown_answers s); [exact Hs|exact Hfair]. }
  intros _ s1 [H1 Hp1]. apply (live_bind _ (λ k _, _)). eapply live_mono.
  { apply (broadcast_live platform_of probe_addr sched L L_nodup _ _ _ _ ckpt_answers s1); [exact H1|exact Hfair]. }
  intros _ s2 [H2 Hp2]. apply live_wp, wp_bind. eapply wp_mono.
  { apply (freeze_wp _ _ false Suspended); [by rewrite Hp2, Hp1|done|apply suspended_portable|done]. }
  intros r s3 (_ & H3 & Hp3). apply wp_ret. split; [done|congruence].
Qed.

Lemma recovered_exchanged (s : coord) n : workers_in Recovered s →
  nodes_in L (idle Recovered) (set_nodes (exchanged (my_blocks s n) n (Z.of_nat n) <$> nodes (machine s)) (machine s)).
Proof.
  intros [Hi Ha]. split; simpl.
  - rewrite <- Hi, <- list_fmap_compose. apply list_fmap_ext. intros j nd _. simpl. unfold exchanged.
    by case_bool_decide.
  - intros n' (nd & -> & Hn)%list_elem_of_fmap. specialize (Ha nd Hn). unfold exchanged.
    case_bool_decide; [|done]. destruct Ha as (H1 & H2 & H3). split_and!; [done|done|]. simpl.
    apply recovered_peer; [|done]. apply gather_spec, (sv_block _ _ (re_serving _ _ H3)).
Qed.

(** The ids of the workers are 0, 1, ... in some order. *)
Definition ids_ok : Prop := NoDup ((λ pid, cr_id (start pid)) <$> L) ∧
  ∀ i, (i < length L)%nat → Z.of_nat i ∈ (λ pid, cr_id (start pid)) <$> L.

Lemma recovered_numbered (s : coord) : ids_ok → workers_in Recovered s → numbered (nodes (machine s)).
Proof.
  intros [Hnd Hall] [Hi Ha]. assert (Heq : node_id <$> nodes (machine s) = (λ pid, cr_id (start pid)) <$> L).
  { rewrite <- Hi, <- list_fmap_compose. apply list_fmap_ext. intros j nd Hj. simpl.
    destruct (Ha nd) as (_ & _ & Hr); [by eapply list_elem_of_lookup_2|]. apply Hr. }
  assert (Hlen : length (nodes (machine s)) = length L) by (rewrite <- Hi; by rewrite length_fmap).
  split; [by rewrite Heq|rewrite Heq, Hlen; apply Hall|..]; intros nd Hn;
    destruct (Ha nd Hn) as (_ & _ & [Hsv _ _ _]); apply Hsv.
Qed.

Lemma do_restore_live act buffer_only skip_nccl (s : coord) :
  (buffer_only = false → g_cuda_ckpt_path s ≠ ""%string) → tool_ok (W:=W) (D:=D) (P:=P) true →
  ids_ok → shm_opens (P:=P) (length L) → workers_in Suspended s →
  live (λ k, do_restore platform_of probe_addr sched threads k act L buffer_only skip_nccl)
    (λ _ s', workers_in Recovered s') s.
Proof.
  intros Hp Ht Hids Hop Hs. unfold do_restore. apply (live_bind _ (λ k _, _)). eapply live_mono.
  { apply live_wp. apply (unfreeze_wp _ _ true Suspended); [done..|apply suspended_portable|done]. }
  intros r s1 (-> & H1 & Hp1); [|done]. simpl. apply (live_bind _ (λ k _, _)). eapply live_mono.
  { apply (broadcast_live platform_of probe_addr sched L L_nodup _ _ _ _ restore_answers s1); [exact H1|exact Hfair]. }
  intros _ s2 [H2 Hp2]. destruct skip_nccl; [by apply live_wp, wp_ret|]. apply (live_bind _ (λ k _, _)). eapply live_mono.
  { apply (broadcast_live platform_of probe_addr sched L L_nodup _ _ _ _ (rebuild_answers IPC_EXPORT_MSG ltac:(done)) s2); [exact H2|exact Hfair]. }
  intros _ s3 [H3 Hp3]. apply (live_bind _ (λ k _, _)). eapply live_mono.
  { apply live_wp. eapply (exchange_wp platform_of probe_addr sched L s3 (length L)); [done|done|..].
    - rewrite <- (ni_ids _ _ _ H3). by rewrite length_fmap.
    - intros nd Hn. apply (ni_all _ _ _ H3 nd Hn).
    - by apply recovered_numbered. }
  intros _ s4 [H4 Hp4]. eapply live_mono.
  { apply (broadcast_live platform_of probe_addr sched L L_nodup _ _ _ _ (rebuild_answers IPC_IMPORT_MSG ltac:(done)) s4);
      [|exact Hfair]. pose proof (recovered_exchanged s3 (length L) H3) as [Hi Ha]. simpl in *. rewrite <- H4 in Hi, Ha. by split. }
  by intros _ s5 [H5 _].
Qed.
End Flows.

(** ** A machine with two workers *)

(** Every program succeeds and changes nothing. *)
#[export] Instance osim_host : Host (nv sim) cusim osim := {|
  readlink_exe _ := mret (Some "/opt/gpu-cr/build/multi_cr_client"%string);
  realpath p := mret (Some p);
  can_access _ _ := mret true;
  chmod _ _ := mret 0;
  popen_lines _ := mret (Some ["Usage: cuda-checkpoint --action"%string]);
  spawn _ := mret (Exited 0);
  system _ := mret 0
|}.

Lemma osim_tool must : tool_ok (W:=nv sim) (D:=cusim) (P:=osim) must.
Proof.
  intros argv h ns. apply wp_ret. split; [done|]. cbn [snd]. induction ns as [|n ns IH]; constructor; [|exact IH].
  split; [done..|]. exists (vg (n_proc n)), (cu (hooks (n_proc n))). split.
  - destruct (n_proc n) as [? h']. by destruct h'.
  - apply resumed_refl.
Qed.

(** Workers 10 and 20, with the ids 1 and 0. *)
Definition two_workers (pid : Z) : proc (nv sim) cusim osim :=
  set_cr_id (if bool_decide (pid = 10) then 1 else 0) leaving_worker.
Definition two_pids : list Z := [10; 20].
Definition every_time (t : nat) : list nat := [0%nat; 1%nat].
Definition same_platform (pid : Z) : Platform := track_platform.

Definition two_machine : coord (nv sim) cusim osim :=
  MkCoord (MkWorld ((λ pid, MkNode pid (two_workers pid) true []) <$> two_pids) 0 (MkOs 3 (2 ^ 40) 0) ∅ ∅ []) "cuda-checkpoint".
