(* ===== verification/CoordTrace.v ===== *)
(** What the coordinator does, in order.

    [logs m T]: every run of [m] that returns [a] appends to [calls] a list of [T a].  The
    rules give the calls of each phase, whatever the workers and the programs do. *)
From stdpp Require Import pretty.
From S2P Require Import Prelude Common Gpu Ckpt IpcState IpcDriver FdExchange IpcHooks Process Handlers Cluster Text MultiClient.
From S2P Require Import FdFacts.
Open Scope Z_scope.

(** The calls of one phase: every worker is told and signalled, then every one is seen to
    have finished. *)
Definition phase_calls (msg sig : Z) (L : list Z) : list call :=
  concat ((λ pid, [CSend pid msg; CKill pid sig]) <$> L) ++ (CSeen <$> L).

Definition is_spawn (c : call) : bool := match c with CSpawn _ => true | _ => false end.
Definition only_spawns (tr : list call) : Prop := Forall (λ c, is_spawn c = true) tr.

Section Trace.
Context {W D P : Type} {GW : GPU W} {GO : GPUObject W} {CD : CuDriver D} {SK : Sockets D}.
Context {PX : Posix P} {BD : Build} {HS : Host W D P}.
Context (platform_of : Z → Platform) (probe_addr : Z) (sched : nat → list nat).
Context (threads : nat → list nat → list nat).
Abbreviation coord := (coord W D P).
Abbreviation world := (world W D P).

Definition logs {A} (m : M coord A) (T : A → list call → Prop) : Prop := ∀ s a s', m s = Ret a s' →
  ∃ tr, calls (machine s') = calls (machine s) ++ tr ∧ T a tr.
Definition wlogs {A} (m : M world A) (T : A → list call → Prop) : Prop := ∀ w a w', m w = Ret a w' →
  ∃ tr, calls w' = calls w ++ tr ∧ T a tr.

Lemma logs_mono {A} (m : M coord A) (T T' : A → list call → Prop) :
  logs m T → (∀ a tr, T a tr → T' a tr) → logs m T'.
Proof. intros Hm HT s a s' Hr. destruct (Hm s a s' Hr) as (tr & H & Ht). exists tr. auto. Qed.
Lemma logs_ret {A} (a : A) (T : A → list call → Prop) : T a [] → logs (mret a) T.
Proof. intros HT s b s' [= <- <-]. exists []. by rewrite app_nil_r. Qed.
Lemma logs_get {A} (f : coord → A) (T : A → list call → Prop) : (∀ a, T a []) → logs (get f) T.
Proof. intros HT s b s' [= <- <-]. exists []. by rewrite app_nil_r. Qed.
Lemma logs_exit {A} c (T : A → list call → Prop) : logs (exit c) T.
Proof. by intros s a s' [=]. Qed.
Lemma logs_fail {A} w (T : A → list call → Prop) : logs (fail w) T.
Proof. by intros s a s' [=]. Qed.
Lemma logs_if {A} (b : bool) (m1 m2 : M coord A) T : logs m1 T → logs m2 T → logs (if b then m1 else m2) T.
Proof. by destruct b. Qed.
Lemma logs_bind {A B} (m : M coord A) (f : A → M coord B) T U :
  logs m T → (∀ a tr, T a tr → logs (f a) (λ b tr', U b (tr ++ tr'))) → logs (m ≫= f) U.
Proof.
  intros Hm Hf s b s' Hr. unfold mbind, M_bind in Hr. destruct (m s) as [a s1|c s1|x s1] eqn:H1; try discriminate.
  destruct (Hm s a s1 H1) as (tr & Hc & HT). destruct (Hf a tr HT s1 b s' Hr) as (tr' & Hc' & HU).
  exists (tr ++ tr'). by rewrite Hc', Hc, app_assoc.
Qed.
(** A step that makes no call of interest, before and after. *)
Lemma logs_skip {A B} (m : M coord A) (f : A → M coord B) U :
  logs m (λ _ tr, tr = []) → (∀ a, logs (f a) U) → logs (m ≫= f) U.
Proof. intros Hm Hf. eapply logs_bind; [exact Hm|]. intros a tr ->. apply Hf. Qed.

Lemma logs_foldM {X L} (T : list X → list call → Prop) (f : L → X → M coord L) xs l :
  T [] [] → (∀ pre x post l tr, xs = pre ++ x :: post → T pre tr → logs (f l x) (λ _ tr', T (pre ++ [x]) (tr ++ tr'))) →
  logs (foldM f l xs) (λ _, T xs).
Proof.
  intros H0 Hf. assert (Haux : ∀ ys pre l tr, xs = pre ++ ys → T pre tr → logs (foldM f l ys) (λ _ tr', T xs (tr ++ tr'))).
  { intros ys. induction ys as [|y ys IH]; intros pre l' tr -> HT; simpl.
    - apply logs_ret. by rewrite !app_nil_r.
    - eapply logs_bind; [by eapply Hf|]. intros l1 tr1 H1. cbv beta in H1. eapply logs_mono.
      + apply (IH (pre ++ [y]) l1 (tr ++ tr1)); [by rewrite <- app_assoc|done].
      + intros ? tr2. cbv beta. by rewrite <- !app_assoc. }
  by apply (Haux xs [] l []).
Qed.

Lemma logs_machine {A} (m : M world A) T : wlogs m T → logs (on_machine m) T.
Proof.
  intros Hm s a s' Hr. unfold on_machine, zoom in Hr. destruct (m (machine s)) as [b w|c w|x w] eqn:H1; try discriminate.
  injection Hr as -> <-. by apply Hm.
Qed.

Lemma wlogs_tick : wlogs (tick platform_of probe_addr sched) (λ _ tr, tr = []).
Proof. intros w a w' [= <- <-]. exists []. by rewrite app_nil_r. Qed.
Lemma wlogs_bind {A B} (m : M world A) (f : A → M world B) T U :
  wlogs m T → (∀ a tr, T a tr → wlogs (f a) (λ b tr', U b (tr ++ tr'))) → wlogs (m ≫= f) U.
Proof.
  intros Hm Hf s b s' Hr. unfold mbind, M_bind in Hr. destruct (m s) as [a s1|c s1|x s1] eqn:H1; try discriminate.
  destruct (Hm s a s1 H1) as (tr & Hc & HT). destruct (Hf a tr HT s1 b s' Hr) as (tr' & Hc' & HU).
  exists (tr ++ tr'). by rewrite Hc', Hc, app_assoc.
Qed.
Lemma wlogs_log c : wlogs (log (W:=W) (D:=D) (P:=P) c) (λ _ tr, tr = [c]).
Proof. intros w a w' [= <- <-]. by exists [c]. Qed.
Lemma wlogs_ret {A} (a : A) (T : A → list call → Prop) : T a [] → wlogs (mret a) T.
Proof. intros HT w b w' [= <- <-]. exists []. by rewrite app_nil_r. Qed.
Lemma wlogs_modify (f : world → world) : (∀ w, calls (f w) = calls w) → wlogs (modify f) (λ _ tr, tr = []).
Proof. intros Hf w b w' [= <- <-]. exists []. by rewrite Hf, app_nil_r. Qed.

Lemma set_page_calls pid c (w : world) : calls (set_page pid c w) = calls w.
Proof. unfold set_page. by destruct (find_node _ _). Qed.

Lemma logs_send pid msg : wlogs (comm_send platform_of probe_addr sched pid msg) (λ _ tr, tr = [CSend pid msg]).
Proof.
  eapply wlogs_bind; [apply wlogs_tick|]. intros _ ? ->. eapply wlogs_bind; [apply wlogs_log|]. intros _ ? ->.
  intros w a w' [= <- <-]. exists []. rewrite set_page_calls. by rewrite app_nil_r.
Qed.
Lemma logs_kill pid sig : wlogs (kill platform_of probe_addr sched pid sig) (λ _ tr, tr = [CKill pid sig]).
Proof.
  eapply wlogs_bind; [apply wlogs_tick|]. intros _ ? ->. eapply wlogs_bind; [apply wlogs_log|]. intros _ ? ->.
  intros w a w' Hr. exists []. rewrite app_nil_r. unfold mbind, M_bind, get in Hr.
  destruct (find_node _ (nodes w)); injection Hr as <- <-; done.
Qed.
Lemma logs_host {A} (m : M P A) : wlogs (host_do platform_of probe_addr sched m) (λ _ tr, tr = []).
Proof.
  eapply wlogs_bind; [apply wlogs_tick|]. intros _ ? ->. intros w a w' Hr. unfold zoom in Hr.
  destruct (m (host w)); try discriminate. injection Hr as <- <-. exists []. by rewrite app_nil_r.
Qed.
Lemma logs_tool {A} (m : M (P * list (node W D P)) A) : wlogs (tool_do platform_of probe_addr sched m) (λ _ tr, tr = []).
Proof.
  eapply wlogs_bind; [apply wlogs_tick|]. intros _ ? ->. intros w a w' Hr. unfold zoom in Hr.
  destruct (m _); try discriminate. injection Hr as <- <-. exists []. by rewrite app_nil_r.
Qed.

Lemma logs_wait k pid : wlogs (wait_finished platform_of probe_addr sched k pid) (λ _ tr, tr = [CSeen pid]).
Proof.
  unfold wait_finished. induction k as [|k IH]; [by intros w a w' [=]|]. simpl.
  eapply (wlogs_bind _ _ (λ r tr, match r with inl _ => tr = [] | inr _ => tr = [CSeen pid] end)).
  - eapply (wlogs_bind _ _ (λ (f : bool) tr, tr = if f then [CSeen pid] else [])).
    + eapply wlogs_bind; [apply wlogs_tick|]. intros _ ? ->. intros w a w' Hr. unfold mbind, M_bind, get in Hr.
      case_bool_decide; injection Hr as <- <-; eexists; (split; [|done]); [done|by rewrite app_nil_r].
    + intros f tr ->. destruct f.
      * by apply wlogs_ret.
      * eapply wlogs_bind; [apply wlogs_tick|]. intros _ ? ->. by apply wlogs_ret.
  - intros [[]|[]] tr ->; [exact IH|by apply wlogs_ret].
Qed.

(** ** The phases *)

Lemma logs_broadcast k L msg sig :
  logs (broadcast_and_wait platform_of probe_addr sched k L msg sig) (λ _ tr, tr = phase_calls msg sig L).
Proof.
  unfold broadcast_and_wait, phase_calls. eapply logs_bind.
  { apply (logs_foldM (λ pre tr, tr = concat ((λ pid, [CSend pid msg; CKill pid sig]) <$> pre))); [done|].
    intros pre pid post ? tr _ ->. unfold send_one. eapply logs_bind; [apply logs_machine, logs_send|]. intros _ ? ->.
    eapply logs_bind; [apply logs_machine, logs_kill|]. intros r ? ->. rewrite fmap_app, concat_app. simpl.
    apply logs_if; [apply logs_exit|]. by apply logs_ret. }
  intros _ tr ->. eapply logs_mono.
  { apply (logs_foldM (λ pre tr, tr = CSeen <$> pre)); [done|]. intros pre pid post ? tr _ ->.
    eapply logs_mono; [apply logs_machine, logs_wait|]. intros _ ? ->. by rewrite fmap_app. }
  by intros _ ? ->.
Qed.

(** Everything but the runs of programs is silent in the third phase. *)
Lemma only_spawns_app t1 t2 : only_spawns t1 → only_spawns t2 → only_spawns (t1 ++ t2).
Proof. apply Forall_app_2. Qed.
Definition spawning {A} (m : M coord A) : Prop := logs m (λ _ tr, only_spawns tr).

Lemma spawning_bind {A B} (m : M coord A) (f : A → M coord B) : spawning m → (∀ a, spawning (f a)) → spawning (m ≫= f).
Proof.
  intros Hm Hf. eapply logs_bind; [exact Hm|]. intros a tr Ht. eapply logs_mono; [apply Hf|].
  intros b tr' Ht'. by apply only_spawns_app.
Qed.
Lemma spawning_quiet {A} (m : M coord A) : logs m (λ _ tr, tr = []) → spawning m.
Proof. intros Hm. eapply logs_mono; [exact Hm|]. intros a tr ->. apply Forall_nil_2. Qed.
Lemma spawning_ret {A} (a : A) : spawning (mret a).
Proof. apply spawning_quiet. by apply logs_ret. Qed.
Lemma spawning_get {A} (f : coord → A) : spawning (get f).
Proof. apply spawning_quiet. by apply logs_get. Qed.
Lemma spawning_foldM {X L} (f : L → X → M coord L) xs : (∀ l x, spawning (f l x)) → ∀ l, spawning (foldM f l xs).
Proof.
  intros Hf. induction xs as [|x xs IH]; intros l; [apply spawning_ret|]. simpl. apply spawning_bind; auto.
Qed.
Lemma spawning_host {A} (m : M P A) : spawning (on_machine (host_do platform_of probe_addr sched m)).
Proof. apply spawning_quiet, logs_machine, logs_host. Qed.

Lemma spawning_run pid args : spawning (cuda_ckpt_run platform_of probe_addr sched pid args).
Proof.
  unfold cuda_ckpt_run. apply spawning_bind; [apply spawning_get|]. intros p. apply spawning_bind.
  { eapply logs_mono; [apply logs_machine, wlogs_log|]. intros _ ? ->. by constructor. }
  intros _. apply spawning_bind; [apply spawning_quiet, logs_machine, logs_tool|]. intros [| |c|]; apply spawning_ret.
Qed.
Lemma spawning_all L args : spawning (cuda_ckpt_all_parallel platform_of probe_addr sched threads L args).
Proof.
  unfold cuda_ckpt_all_parallel. apply spawning_bind; [apply spawning_get|]. intros now. apply spawning_bind.
  - apply spawning_foldM. intros l i. apply spawning_bind; [apply spawning_run|]. intros r. apply spawning_ret.
  - intros l. apply spawning_ret.
Qed.
Lemma spawning_init : spawning (init_cuda_checkpoint_path platform_of probe_addr sched).
Proof.
  unfold init_cuda_checkpoint_path. apply spawning_bind; [apply spawning_get|]. intros p. apply spawning_bind.
  - apply logs_if; [|apply spawning_ret]. apply spawning_bind.
    + unfold get_cuda_checkpoint_path. apply spawning_bind; [apply spawning_host|]. intros [exe|]; [|apply spawning_ret].
      apply spawning_bind; [apply spawning_host|]. intros r. unfold find_program. apply spawning_bind.
      * set (cs := [_; _]). clearbody cs. induction cs as [|c cs IH]; [apply spawning_ret|]. simpl.
        apply spawning_bind.
        { apply spawning_bind; [apply spawning_host|]. intros []; [|apply spawning_ret].
          apply spawning_bind; [apply spawning_host|]. intros x. apply spawning_bind; [|intros _; apply spawning_ret].
          destruct x; [apply spawning_ret|]. apply spawning_bind; [apply spawning_host|]. intros _. apply spawning_ret. }
        intros [[]|q]; [exact IH|apply spawning_ret].
      * intros [?|?]; apply spawning_ret.
    + intros q. apply spawning_quiet. intros s a s' [= <- <-]. exists []. by rewrite app_nil_r.
  - intros _. apply spawning_bind; [apply spawning_get|]. intros q. apply spawning_ret.
Qed.
Lemma spawning_program L b m : spawning m → spawning (with_program platform_of probe_addr sched L b m).
Proof.
  intros Hm. unfold with_program. apply logs_if; [apply spawning_ret|]. apply logs_if; [apply spawning_ret|].
  apply spawning_bind; [apply spawning_init|]. intros ok. apply logs_if; [apply spawning_ret|done].
Qed.
Lemma spawning_freeze L (act b : bool) : spawning (if act
  then cuda_checkpoint_freeze_action platform_of probe_addr sched threads L b
  else cuda_checkpoint_toggle_all platform_of probe_addr sched threads L b).
Proof.
  apply logs_if; apply spawning_program; [|apply spawning_all].
  apply spawning_bind; [apply spawning_all|]. intros f. apply logs_if.
  - apply spawning_bind; [apply spawning_all|]. intros ?. apply spawning_ret.
  - apply spawning_bind; [apply spawning_all|]. intros g. apply logs_if; [|apply spawning_ret].
    apply spawning_bind; [apply spawning_all|]. intros ?. apply spawning_ret.
Qed.
Lemma spawning_unfreeze L (act b : bool) : spawning (if act
  then cuda_checkpoint_restore_action platform_of probe_addr sched threads L b
  else cuda_checkpoint_toggle_all platform_of probe_addr sched threads L b).
Proof.
  apply logs_if; apply spawning_program; [|apply spawning_all].
  apply spawning_bind; [apply spawning_all|]. intros f. apply spawning_bind; [apply spawning_all|].
  intros g. apply spawning_ret.
Qed.

Lemma logs_exchange L : logs (exchange_ipc_export_info platform_of probe_addr sched L) (λ _ tr, tr = [CExchange]).
Proof.
  unfold exchange_ipc_export_info. apply logs_skip.
  { apply (logs_foldM (λ _ tr, tr = [])); [done|]. intros pre i post ? tr _ ->. apply logs_skip.
    - unfold open_worker_shm, sprintf. eapply logs_skip; [apply logs_if; [by apply logs_ret|apply logs_fail]|].
      intros path. eapply logs_skip; [apply logs_machine, logs_host|]. intros fd. apply logs_if; [by apply logs_ret|].
      eapply logs_skip; [apply logs_machine, logs_host|]. intros p. eapply logs_skip; [apply logs_machine, logs_host|].
      intros ?. by apply logs_ret.
    - intros ok. apply logs_if; [by apply logs_ret|apply logs_exit]. }
  intros ?. eapply (logs_bind _ _ (λ _ tr, tr = [CExchange])).
  { apply logs_machine. eapply wlogs_bind; [apply wlogs_tick|]. intros _ ? ->. apply wlogs_log. }
  intros _ ? ->. apply (logs_mono _ (λ _ tr, tr = [])); [|by intros ? ? ->].
  apply logs_skip; [by apply logs_get|]. intros blocks.
  apply (logs_foldM (λ _ tr, tr = [])); [done|]. intros pre i post ? tr _ ->. apply logs_skip; [apply logs_machine, wlogs_tick|].
  intros ?. apply logs_skip; [by apply logs_get|]. intros dst. apply logs_skip.
  - apply (logs_foldM (λ _ tr, tr = [])); [done|]. intros pre' j post' d tr _ ->. apply logs_if; [by apply logs_ret|].
    apply logs_skip; [|intros es; by apply logs_ret]. unfold exported_entries. apply logs_if; [apply logs_fail|by apply logs_ret].
  - intros d. apply logs_machine, wlogs_modify. intros w. unfold set_peer_block_of. by destruct (find_node _ _).
Qed.

(** ** A program that fails for one worker *)

(** The command [cuda_ckpt_run] runs. *)
Definition command (path args : string) (pid : Z) : list string :=
  path :: arg_tokens args "" [] ++ ["--pid"; pretty pid].

(** [cuda-checkpoint] comes back, and never with success for the worker [bad]. *)
Record fails_for (path : string) (bad : Z) : Prop := {
  ff_returns argv : returns (spawn (W:=W) (D:=D) (P:=P) argv);
  ff_fails args x : wp (spawn (W:=W) (D:=D) (P:=P) (command path args bad)) (λ st _, st ≠ Exited 0) x
}.

(** Only programs have been run since [s], each of [must] among them. *)
Definition ran (must : list (list string)) (s s' : coord) : Prop :=
  g_cuda_ckpt_path s' = g_cuda_ckpt_path s ∧
  ∃ tr, calls (machine s') = calls (machine s) ++ tr ∧ only_spawns tr ∧ ∀ argv, argv ∈ must → CSpawn argv ∈ tr.

Lemma ran_nil s : ran [] s s.
Proof. split; [done|]. exists []. rewrite app_nil_r. split_and!; [done|by constructor|]. by intros ? ?%elem_of_nil. Qed.
Lemma ran_trans m1 m2 s1 s2 s3 : ran m1 s1 s2 → ran m2 s2 s3 → ran (m1 ++ m2) s1 s3.
Proof.
  intros [Hp1 (t1 & Hc1 & Hs1 & Hi1)] [Hp2 (t2 & Hc2 & Hs2 & Hi2)]. split; [congruence|]. exists (t1 ++ t2).
  split; [by rewrite Hc2, Hc1, app_assoc|]. split; [by apply only_spawns_app|]. intros argv. set_solver.
Qed.

Lemma run_one_fails path bad pid args (s : coord) : fails_for path bad → g_cuda_ckpt_path s = path →
  wp (cuda_ckpt_run platform_of probe_addr sched pid args)
    (λ r s', (pid = bad → r ≠ 0) ∧ ran [command path args pid] s s') s.
Proof.
  intros [Hr Hf] Hp. unfold cuda_ckpt_run. apply wp_bind, wp_get. rewrite Hp. fold (command path args pid).
  apply wp_bind, wp_zoom, wp_modify, wp_bind, wp_zoom. unfold tool_do. apply wp_bind, wp_modify, wp_zoom.
  eapply (wp_mono _ (λ st _, pid = bad → st ≠ Exited 0)).
  - destruct (decide (pid = bad)) as [->|Hne]; [eapply wp_mono; [apply Hf|]; by intros|eapply wp_mono; [apply Hr|]; by intros].
  - intros st x Hst. assert (Hran : ∀ s', g_cuda_ckpt_path s' = g_cuda_ckpt_path s →
      calls (machine s') = calls (machine s) ++ [CSpawn (command path args pid)] → ran [command path args pid] s s').
    { intros s' Hp' Hc. split; [done|]. eexists. split; [exact Hc|]. split; [by repeat constructor|].
      intros argv ->%list_elem_of_singleton. set_solver. }
    destruct st; apply wp_ret; (split; [|by apply Hran]); [lia..| |lia]. intros Hb H0. apply (Hst Hb). by subst.
Qed.

Lemma run_all_fails path bad L args (s : coord) : (∀ t l, threads t l ≡ₚ l) → bad ∈ L →
  fails_for path bad → g_cuda_ckpt_path s = path →
  wp (cuda_ckpt_all_parallel platform_of probe_addr sched threads L args)
    (λ r s', 0 < r ∧ ran (command path args <$> L) s s') s.
Proof.
  intros Hth Hbad Hf Hp. unfold cuda_ckpt_all_parallel. apply wp_bind, wp_get, wp_bind.
  set (order := threads _ _). eapply wp_mono.
  { apply (wp_foldM (λ pre results s', (length results = length L ∧ ∀ i, i ∈ pre → nth i L 0 = bad → (i < length L)%nat →
      ∃ r, results !! i = Some r ∧ r ≠ 0) ∧ ran ((λ i, command path args (nth i L 0)) <$> pre) s s')).
    - split; [|apply ran_nil]. split; [by rewrite length_replicate|]. by intros i ?%elem_of_nil.
    - intros pre i post results s1 _ [[Hl Hz] H1]. apply wp_bind.
      eapply wp_mono; [apply (run_one_fails path bad); [done|by rewrite (proj1 H1)]|]. intros r s2 [Hr H2].
      apply wp_ret. split; [|rewrite fmap_app; by eapply ran_trans]. split; [by rewrite length_insert|].
      intros j Hj Hb Hlt. destruct (decide (i = j)) as [->|Hij].
      + exists r. split; [apply list_lookup_insert_eq; lia|auto].
      + destruct (Hz j) as (r' & Hr' & Hn); [set_solver|done|done|]. exists r'.
        by rewrite list_lookup_insert_ne. }
  intros results s1 [[Hl Hz] [Hp1 (tr & Hc & Hs & Hi)]]. apply wp_ret. split.
  - apply list_elem_of_lookup in Hbad as (i & Hi'). pose proof (lookup_lt_Some _ _ _ Hi') as Hlt.
    destruct (Hz i) as (r & Hr & Hn).
    { unfold order. rewrite Hth. apply elem_of_seq. lia. }
    { by apply nth_lookup_Some. }
    { done. }
    assert (Hin : r ∈ filter (λ r, r ≠ 0) results).
    { apply list_elem_of_filter. split; [done|]. by eapply list_elem_of_lookup_2. }
    destruct (filter _ results); [by apply elem_of_nil in Hin|]. simpl. lia.
  - split; [done|]. exists tr. split; [done|]. split; [done|]. intros argv (pid & -> & Hpid)%list_elem_of_fmap. apply Hi.
    apply list_elem_of_lookup in Hpid as (i & Hi'). apply list_elem_of_fmap. exists i. split.
    + f_equal. symmetry. by apply nth_lookup_Some.
    + unfold order. rewrite Hth. apply elem_of_seq. apply lookup_lt_Some in Hi'. lia.
Qed.
End Trace.
