(* ===== verification/CoordTheorems.v ===== *)
(** The coordinator of several workers: the theorems. *)
From stdpp Require Import pretty.
From S2P Require Import Prelude Common Gpu Layout Ckpt SaveFacts CkptFacts Restore RestoreFacts Driver Nv Sim NvFacts CrTheorems.
From S2P Require Import IpcState IpcDriver FdExchange FdFacts IpcHooks IpcExports IpcSafe CuSim IpcTracking IpcTheorems ImportTheorems Process Handlers HandlerFacts.
From S2P Require Import SignalFacts Cluster WorkerPhases ProcSim Text MultiClient ClusterFacts CoordFacts CoordFlows HandlerTheorems CoordTrace.
Open Scope Z_scope.

(** The machine the theorem is about: workers that can be checkpointed, at rest, with
    the ids [get_id] handed out; a fair schedule; a program and files that work. *)
Record ready_cluster {W D P} {GW : GPU W} {GO : GPUObject W} {CD : CuDriver D} {SK : Sockets D} {PX : Posix P}
    {BD : Build} {HS : Host W D P} (sched : nat → list nat) (threads : nat → list nat → list nat)
    (L : list Z) (start : Z → proc W D P) (buffer_only : bool) (s : coord W D P) : Prop := {
  rc_pids : NoDup L;
  rc_nodes : nodes (machine s) = (λ pid, MkNode pid (start pid) true []) <$> L;
  rc_serving pid : pid ∈ L → serving (start pid) (start pid);
  rc_ckpt pid : pid ∈ L → checkpointable (mapped (start pid)) (blocks_of (start pid)) (vg (start pid));
  rc_ids : ids_ok L start;
  rc_fair : fair sched (length L);
  rc_threads t l : threads t l ≡ₚ l;
  rc_program : buffer_only = false → g_cuda_ckpt_path s ≠ ""%string;
  rc_tool : tool_ok (W:=W) (D:=D) (P:=P) true;
  rc_files : shm_opens (P:=P) (length L)
}.

Lemma tool_ok_weaken {W D P} {GW : GPU W} {HS : Host W D P} :
  tool_ok (W:=W) (D:=D) (P:=P) true → tool_ok (W:=W) (D:=D) (P:=P) false.
Proof. intros Ht argv h ns. eapply wp_mono; [apply Ht|]. by intros st x [_ ?]. Qed.

Lemma ready_checkpoint {W D P} {GW : GPU W} {GL : GPULaws W} {GO : GPUObject W} {GOL : GPUObjectLaws W}
    {CD : CuDriver D} {CT : CuReturns D} {SK : Sockets D} {SR : SockReturns D} {TP : TalkingPeers D} {PX : Posix P} {PR : PosixReturns P}
    {BD : Build} {HS : Host W D P} platform_of probe_addr sched threads rc rcd L start act buffer_only skip_nccl
    (s : coord W D P) :
  peer_answers (D:=D) rc rcd → HIP_PLATFORM_AMD = false → honest_peers (D:=D) →
  ready_cluster sched threads L start buffer_only s →
  live (λ k, do_checkpoint platform_of probe_addr sched threads k act L buffer_only skip_nccl)
    (λ _ s', nodes_in L (idle (λ pid, suspended (start pid))) (machine s') ∧
       g_cuda_ckpt_path s' = g_cuda_ckpt_path s) s.
Proof.
  intros Hpa Hnv Hpe [Hnd Hns Hsv Hck Hid Hfa Hth Hpr Hto Hfi].
  apply (do_checkpoint_live platform_of probe_addr sched threads rc rcd Hpa Hnv Hpe L Hnd Hfa start Hck Hth); try done.
  - by apply tool_ok_weaken.
  - split; rewrite Hns; [by rewrite <- list_fmap_compose, list_fmap_id|].
    intros n (pid & -> & Hp)%list_elem_of_fmap. split_and!; [done|done|]. by apply Hsv.
Qed.

(** C2: a checkpoint of several workers and the restore after it come to an end and give
    every worker its data back.  Under every fair schedule of the workers and every order
    of the coordinator's threads, [do_checkpoint] returns with the memory of every worker
    parked, and [do_restore] from there returns with every worker alive, without a
    pending signal, and every byte of every allocation as it was - in both modes of
    [cuda-checkpoint], with or without it, and with or without the IPC phases. *)
Theorem cluster_roundtrip {W D P} {GW : GPU W} {GL : GPULaws W} {GO : GPUObject W} {GOL : GPUObjectLaws W}
    {CD : CuDriver D} {CT : CuReturns D} {SK : Sockets D} {SR : SockReturns D} {TP : TalkingPeers D} {PX : Posix P} {PR : PosixReturns P}
    {BD : Build} {HS : Host W D P} platform_of probe_addr sched threads rc rcd L start
    (action_mode buffer_only skip_nccl : bool) (s : coord W D P) :
  peer_answers (D:=D) rc rcd → HIP_PLATFORM_AMD = false → honest_peers (D:=D) →
  ready_cluster sched threads L start buffer_only s →
  ∃ fuel s1 s2,
    do_checkpoint platform_of probe_addr sched threads fuel action_mode L buffer_only skip_nccl s = Ret tt s1 ∧
    (∀ n ptr, n ∈ nodes (machine s1) → is_Some (g_alloc (gpu_view (vgpu (vg (start (n_pid n))))) !! ptr) →
       g_backed (gpu_view (vgpu (vg (n_proc n)))) !! ptr = None) ∧
    do_restore platform_of probe_addr sched threads fuel action_mode L buffer_only skip_nccl s1 = Ret tt s2 ∧
    n_pid <$> nodes (machine s2) = L ∧
    ∀ n, n ∈ nodes (machine s2) → n_alive n = true ∧ n_pending n = [] ∧
      ∀ ptr sz a, g_alloc (gpu_view (vgpu (vg (start (n_pid n))))) !! ptr = Some sz → ptr ≤ a < ptr + ROUND_UP_2MB sz →
        g_dev (gpu_view (vgpu (vg (n_proc n)))) a = g_dev (gpu_view (vgpu (vg (start (n_pid n))))) a.
Proof.
  intros Hpa Hnv Hpe Hrc. pose proof Hrc as [Hnd Hns Hsv Hck Hid Hfa Hth Hpr Hto Hfi].
  destruct (ready_checkpoint platform_of probe_addr _ _ rc rcd _ _ action_mode buffer_only skip_nccl s Hpa Hnv Hpe Hrc)
    as (k1 & [] & s1 & Hc & H1 & Hp1).
  destruct (do_restore_live platform_of probe_addr sched threads rc rcd Hpa Hnv Hpe L Hnd Hfa start Hck Hth
    action_mode buffer_only skip_nccl s1 ltac:(by rewrite Hp1) Hto Hid Hfi H1) as (k2 & [] & s2 & Hr & H2).
  exists (k1 `max` k2)%nat, s1, s2. split; [apply Hc; lia|]. split.
  { intros n ptr Hn Hptr. destruct (ni_all _ _ _ H1 n Hn) as (_ & _ & Hsu).
    eapply suspended_parked; [apply Hck|exact Hsu|exact Hptr].
    rewrite <- (ni_ids _ _ _ H1). by apply list_elem_of_fmap_2. }
  split; [apply Hr; lia|]. split; [apply H2|]. intros n Hn.
  destruct (ni_all _ _ _ H2 n Hn) as (Ha & Hp & Hre). split_and!; [done|done|apply Hre].
Qed.

(** A schedule, an order of the threads and the two workers of [CoordFlows]. *)
Lemma two_ready act : ready_cluster every_time (λ _ l, reverse l) two_pids two_workers act two_machine.
Proof.
  split.
  - by apply (bool_decide_unpack _).
  - done.
  - intros pid _. destruct leaving_serving. by split.
  - intros pid _. exact ex_checkpointable.
  - split; [by apply (bool_decide_unpack _)|]. intros [|[|i]] Hi; [by apply (bool_decide_unpack _)..|simpl in Hi; lia].
  - intros i t Hi. exists t. split; [done|]. destruct i as [|[|i]]; [set_solver..|simpl in Hi; lia].
  - intros t l. apply reverse_Permutation.
  - done.
  - apply osim_tool.
  - split.
    + intros [|[|i]] Hi; [by apply Nat.ltb_lt..|simpl in Hi; lia].
    + intros i h _. apply Z.le_trans with 3; [lia|apply Z.le_max_l].
    + intros len fd h. by eexists.
    + intros fd h. exact I.
Qed.

Lemma cluster_roundtrip_witness : ∃ fuel s1 s2,
  do_checkpoint same_platform 77 every_time (λ _ l, reverse l) fuel true two_pids false false two_machine = Ret tt s1 ∧
  do_restore same_platform 77 every_time (λ _ l, reverse l) fuel true two_pids false false s1 = Ret tt s2 ∧
  n_pid <$> nodes (machine s2) = [10; 20].
Proof.
  destruct (cluster_roundtrip (BD:=nvidia_build) (HS:=osim_host) same_platform 77 every_time (λ _ l, reverse l) (λ _, 0) (λ _, 0) two_pids
    two_workers true false false two_machine cusim_answers eq_refl cusim_honest (two_ready false))
    as (fuel & s1 & s2 & H1 & _ & H2 & H3 & _).
  exists fuel, s1, s2. split; [exact H1|]. split; [exact H2|exact H3].
Defined.

(** ** Order *)

(** C9: the order of a checkpoint and of a restore.  Whatever the workers and the programs
    do, a run of the coordinator that returns has told and signalled every worker of a
    phase before it waited for any, has seen every worker finish before the next phase,
    freezes nobody before every dump is finished, and restores nobody's data before every
    run of [cuda-checkpoint] is over; the export records are exchanged when every worker
    has exported and before any imports. *)
Theorem protocol_order {W D P} {GW : GPU W} {GO : GPUObject W} {CD : CuDriver D} {SK : Sockets D} {PX : Posix P}
    {BD : Build} {HS : Host W D P} platform_of probe_addr sched threads fuel L
    (action_mode buffer_only skip_nccl : bool) (s s1 : coord W D P) :
  (do_checkpoint platform_of probe_addr sched threads fuel action_mode L buffer_only skip_nccl s = Ret tt s1 →
   ∃ frozen, only_spawns frozen ∧ calls (machine s1) = calls (machine s) ++
     (if skip_nccl then [] else phase_calls IPC_TEARDOWN_MSG CR_IPC_TEARDOWN_SIGNAL L) ++
     phase_calls CKPT_MSG CR_CKPT_SIGNAL L ++ frozen) ∧
  (do_restore platform_of probe_addr sched threads fuel action_mode L buffer_only skip_nccl s = Ret tt s1 →
   ∃ thawed, only_spawns thawed ∧ calls (machine s1) = calls (machine s) ++
     thawed ++ phase_calls RESTORE_MSG CR_RESTORE_SIGNAL L ++
     (if skip_nccl then [] else
        phase_calls IPC_EXPORT_MSG CR_IPC_REBUILD_SIGNAL L ++ [CExchange] ++
        phase_calls IPC_IMPORT_MSG CR_IPC_REBUILD_SIGNAL L)).
Proof.
  split; intros Hr.
  - assert (Hl : logs (do_checkpoint platform_of probe_addr sched threads fuel action_mode L buffer_only skip_nccl)
      (λ _ tr, ∃ frozen, only_spawns frozen ∧ tr = (if skip_nccl then [] else
        phase_calls IPC_TEARDOWN_MSG CR_IPC_TEARDOWN_SIGNAL L) ++ phase_calls CKPT_MSG CR_CKPT_SIGNAL L ++ frozen)).
    { unfold do_checkpoint. eapply (logs_bind _ _ (λ _ tr, tr = if skip_nccl then [] else _)).
      { destruct skip_nccl; [by apply logs_ret|apply logs_broadcast]. }
      intros ? ? ->. eapply logs_bind; [apply logs_broadcast|]. intros ? ? ->. eapply logs_bind; [apply spawning_freeze|].
      intros ? fr Hfr. apply logs_ret. exists fr. by rewrite app_nil_r. }
    destruct (Hl _ _ _ Hr) as (tr & -> & fr & Hfr & ->). by exists fr.
  - assert (Hl : logs (do_restore platform_of probe_addr sched threads fuel action_mode L buffer_only skip_nccl)
      (λ _ tr, ∃ thawed, only_spawns thawed ∧ tr = thawed ++ phase_calls RESTORE_MSG CR_RESTORE_SIGNAL L ++
        (if skip_nccl then [] else phase_calls IPC_EXPORT_MSG CR_IPC_REBUILD_SIGNAL L ++ [CExchange] ++
           phase_calls IPC_IMPORT_MSG CR_IPC_REBUILD_SIGNAL L))).
    { unfold do_restore. eapply logs_bind; [apply spawning_unfreeze|]. intros r th Hth. apply logs_if; [apply logs_exit|].
      eapply logs_bind; [apply logs_broadcast|]. intros ? ? ->. destruct skip_nccl.
      - apply logs_ret. exists th. by rewrite !app_nil_r.
      - eapply logs_bind; [apply logs_broadcast|]. intros ? ? ->. eapply logs_bind; [apply logs_exchange|].
        intros ? ? ->. eapply logs_mono; [apply logs_broadcast|]. intros ? ? ->. by exists th. }
    destruct (Hl _ _ _ Hr) as (tr & -> & th & Hth & ->). by exists th.
Qed.

Lemma protocol_order_witness : ∃ fuel s1 frozen,
  do_checkpoint same_platform 77 every_time (λ _ l, reverse l) fuel true two_pids false false two_machine = Ret tt s1 ∧
  only_spawns frozen ∧ calls (machine s1) =
    [CSend 10 15; CKill 10 63; CSend 20 15; CKill 20 63; CSeen 10; CSeen 20;
     CSend 10 11; CKill 10 10; CSend 20 11; CKill 20 10; CSeen 10; CSeen 20] ++ frozen.
Proof.
  destruct (ready_checkpoint (BD:=nvidia_build) (HS:=osim_host) same_platform 77 every_time (λ _ l, reverse l) (λ _, 0) (λ _, 0) two_pids
    two_workers true false false two_machine cusim_answers eq_refl cusim_honest (two_ready false))
    as (fuel & [] & s1 & H1' & _). pose proof (H1' fuel (le_n fuel)) as H1.
  destruct (proj1 (protocol_order same_platform 77 every_time (λ _ l, reverse l) fuel two_pids true false false
    two_machine s1) H1) as (frozen & Hf & Hc).
  exists fuel, s1, frozen. split; [exact H1|]. split; [exact Hf|]. exact Hc.
Defined.

(** ** Errors *)

(** C33: one worker that cannot be unfrozen stops the restore.  If [cuda-checkpoint] fails
    for one of the workers, [do_restore] exits with [EXIT_FAILURE] in both modes, before
    any worker is sent a message or a signal; the program has then been run for every
    worker, and in action mode every worker - restored or not - has been unlocked. *)
Theorem restore_aborts {W D P} {GW : GPU W} {GO : GPUObject W} {CD : CuDriver D} {SK : Sockets D} {PX : Posix P}
    {BD : Build} {HS : Host W D P} platform_of probe_addr sched threads fuel L bad
    (action_mode skip_nccl : bool) (s : coord W D P) :
  HIP_PLATFORM_AMD = false → (∀ t l, threads t l ≡ₚ l) → bad ∈ L → g_cuda_ckpt_path s ≠ ""%string →
  fails_for (W:=W) (D:=D) (P:=P) (g_cuda_ckpt_path s) bad →
  ∃ s1 tr, do_restore platform_of probe_addr sched threads fuel action_mode L false skip_nccl s = Exit EXIT_FAILURE s1 ∧
    calls (machine s1) = calls (machine s) ++ tr ∧ only_spawns tr ∧
    ∀ pid, pid ∈ L → CSpawn (command (g_cuda_ckpt_path s) (if action_mode then "--action unlock" else "--toggle") pid) ∈ tr.
Proof.
  intros Hnv Hth Hbad Hpath Hf. set (path := g_cuda_ckpt_path s) in *.
  assert (Hw : wp (if action_mode then cuda_checkpoint_restore_action platform_of probe_addr sched threads L false
      else cuda_checkpoint_toggle_all platform_of probe_addr sched threads L false)
    (λ r s1, 0 < r ∧ ∃ m, ran (m ++ (command path (if action_mode then "--action unlock" else "--toggle") <$> L)) s s1) s).
  { assert (Hprog : ∀ m Q, wp m Q s → wp (with_program platform_of probe_addr sched L false m) Q s).
    { intros m Q Hm. unfold with_program. rewrite Hnv. apply wp_bind. unfold init_cuda_checkpoint_path.
      apply wp_bind, wp_get, wp_bind. fold path. rewrite bool_decide_eq_false_2 by done. apply wp_ret, wp_bind, wp_get, wp_ret.
      fold path. by rewrite bool_decide_eq_false_2. }
    destruct action_mode; apply Hprog.
    - apply wp_bind. eapply wp_mono; [by apply (run_all_fails _ _ _ _ path bad)|]. intros r s1 [Hr H1]. apply wp_bind.
      eapply wp_mono; [apply (run_all_fails _ _ _ _ path bad); [done..|by rewrite (proj1 H1)]|].
      intros r2 s2 [Hr2 H2]. apply wp_ret. split; [lia|]. eexists. by eapply ran_trans.
    - eapply wp_mono; [by apply (run_all_fails _ _ _ _ path bad)|]. intros r s1 [Hr H1]. split; [done|]. by exists []. }
  apply wp_elim in Hw as (r & s1 & Hrun & Hr & m & _ & tr & Hc & Hsp & Hin). exists s1, tr. split_and!; [|done|done|].
  - unfold do_restore, mbind, M_bind. rewrite Hrun. by rewrite bool_decide_eq_true_2.
  - intros pid Hpid. apply Hin, elem_of_app. right. by apply list_elem_of_fmap_2.
Qed.

(** A program that always ends with 1. *)
Definition failing_host : Host (nv sim) cusim osim := {|
  readlink_exe _ := mret None; realpath _ := mret None; can_access _ _ := mret false; chmod _ _ := mret (-1);
  popen_lines _ := mret None; spawn _ := mret (Exited 1); system _ := mret 256
|}.

Lemma restore_aborts_witness : ∃ s1 tr,
  do_restore (HS:=failing_host) same_platform 77 every_time (λ _ l, l) 5 true two_pids false false two_machine =
    Exit 1 s1 ∧ calls (machine s1) = tr ∧
  CSpawn ["cuda-checkpoint"; "--action"; "unlock"; "--pid"; "10"]%string ∈ tr.
Proof.
  destruct (restore_aborts (BD:=nvidia_build) (HS:=failing_host) same_platform 77 every_time (λ _ l, l) 5 two_pids 20 true
    false two_machine) as (s1 & tr & H1 & H2 & _ & H3).
  - reflexivity.
  - intros t l. reflexivity.
  - apply (bool_decide_unpack _). vm_compute. exact I.
  - discriminate.
  - split; [intros argv x; exact I|]. intros args x. discriminate.
  - exists s1, tr. split; [exact H1|]. split; [exact H2|]. apply (H3 10). apply (bool_decide_unpack _). vm_compute. exact I.
Defined.

(** ** The exchange of the export records *)

(** C29: after the exchange every worker's peer block holds the records all the other
    workers published, in the order of their ids, none of its own, cut at the 64 records
    of a block - for any number of workers and records, without a write or a read outside
    a block, and with nothing else of any worker changed. *)
Theorem exchange_result {W D P} {GW : GPU W} {GO : GPUObject W} {CD : CuDriver D} {SK : Sockets D} {PX : Posix P}
    {BD : Build} {HS : Host W D P} platform_of probe_addr sched L (s : coord W D P) :
  length L = length (nodes (machine s)) → shm_opens (P:=P) (length L) → quiet (nodes (machine s)) →
  numbered (nodes (machine s)) →
  ∃ s1, exchange_ipc_export_info platform_of probe_addr sched L s = Ret tt s1 ∧
    length (nodes (machine s1)) = length (nodes (machine s)) ∧
    ∀ k nd, nodes (machine s) !! k = Some nd → ∃ b,
      nodes (machine s1) !! k = Some (on_proc (set_peer_block b) nd) ∧ block_ok b ∧
      published_entries b = take 64 (others_entries (my_blocks s (length L)) (Z.to_nat (node_id nd))).
Proof.
  intros HL Hop Hq Hnb.
  destruct (wp_elim _ _ _ (exchange_wp platform_of probe_addr sched L s _ eq_refl Hop (eq_sym HL) Hq Hnb))
    as ([] & s1 & Hr & Hns & _). exists s1. split; [done|]. split; [by rewrite Hns, length_fmap|]. intros k nd Hk.
  assert (Hid : 0 ≤ node_id nd < Z.of_nat (length L)).
  { assert (Hsub : ((λ i, Z.of_nat i) <$> seq 0 (length L)) ⊆+ (node_id <$> nodes (machine s))).
    { apply NoDup_submseteq; [apply (NoDup_fmap _), NoDup_seq|]. intros i (j & -> & Hj%elem_of_seq)%list_elem_of_fmap.
      apply Hnb. lia. }
    apply submseteq_length_Permutation in Hsub; [|rewrite !length_fmap, length_seq; lia].
    assert (Hin : node_id nd ∈ node_id <$> nodes (machine s)).
    { apply list_elem_of_fmap_2. by eapply list_elem_of_lookup_2. }
    rewrite <- Hsub in Hin. apply list_elem_of_fmap in Hin as (j & -> & Hj%elem_of_seq). lia. }
  destruct (gather_spec (my_blocks s (length L)) (Z.to_nat (node_id nd)) (seq 0 (length L)) (peer_block (n_proc nd)))
    as [Hok Hpub]; [apply Hnb; by eapply list_elem_of_lookup_2|].
  eexists. split; [|split; [exact Hok|]].
  - rewrite Hns, list_lookup_fmap, Hk. simpl. unfold exchanged. by rewrite bool_decide_eq_true_2.
  - rewrite Hpub. unfold others_entries. replace (length (my_blocks s (length L))) with (length L); [done|].
    unfold my_blocks. by rewrite length_fmap, length_seq.
Qed.

(** Worker 10 (id 1) has published 3 records, worker 20 (id 0) 62; a third, 30, has 5. *)
Definition publishing (id count : Z) : proc (nv sim) cusim osim :=
  set_my_block (MkBlock count (replicate 64 (MkEntry id count 0 4096 1))) (set_cr_id id leaving_worker).
Definition three_machine : coord (nv sim) cusim osim :=
  MkCoord (MkWorld [MkNode 10 (publishing 1 3) true []; MkNode 20 (publishing 0 62) true [];
    MkNode 30 (publishing 2 5) true []] 0 (MkOs 3 (2 ^ 40) 0) ∅ ∅ []) "cuda-checkpoint".

Lemma exchange_result_witness : ∃ s1 b,
  exchange_ipc_export_info same_platform 77 every_time [10; 20; 30] three_machine = Ret tt s1 ∧
  nodes (machine s1) !! 2%nat = Some (on_proc (set_peer_block b) (MkNode 30 (publishing 2 5) true [])) ∧
  published_entries b = replicate 62 (MkEntry 0 62 0 4096 1) ++ replicate 2 (MkEntry 1 3 0 4096 1).
Proof.
  destruct (exchange_result (BD:=nvidia_build) (HS:=osim_host) same_platform 77 every_time [10; 20; 30] three_machine)
    as (s1 & H1 & _ & H2).
  - reflexivity.
  - split.
    + intros [|[|[|i]]] Hi; [by apply Nat.ltb_lt..|simpl in Hi; lia].
    + intros i h _. apply Z.le_trans with 3; [lia|apply Z.le_max_l].
    + intros len fd h. by eexists.
    + intros fd h. exact I.
  - intros n. set_solver.
  - split.
    + apply (bool_decide_unpack _). vm_compute. exact I.
    + intros [|[|[|i]]] Hi; [apply (bool_decide_unpack _); vm_compute; exact I..|simpl in Hi; lia].
    + intros n Hn. set_unfold in Hn. destruct Hn as [->|[->|[->|[]]]]; split; by vm_compute.
    + intros n Hn. set_unfold in Hn. destruct Hn as [->|[->|[->|[]]]]; split; by vm_compute.
  - destruct (H2 2%nat (MkNode 30 (publishing 2 5) true []) eq_refl) as (b & Hb & _ & Hpub).
    exists s1, b. split; [exact H1|]. split; [exact Hb|]. rewrite Hpub. vm_compute. reflexivity.
Defined.

(** ** The command line *)

(** A list of pids is read back as it was written: the pids of the argument of [-p], in
    order, whatever their number, and [0] and texts that are no number are left out. *)
Theorem pids_roundtrip (pids : list Z) : Forall (λ pid, 0 < pid < 2 ^ 31) pids →
  parse_pids (join comma (pretty <$> pids)) = pids ∧
  parse_pids (join comma ("0"%string :: "worker"%string :: (pretty <$> pids))) = pids.
Proof.
  intros Hall. assert (Hok : Forall (λ t, t ≠ ""%string ∧ comma ∉ chars t) (pretty <$> pids)).
  { apply Forall_fmap. eapply Forall_impl; [exact Hall|]. intros pid Hp; cbv beta in Hp. pose proof (pretty_numeral pid ltac:(lia)) as Hn.
    split; [destruct (nu_head _ _ _ Hn) as (c & t & -> & _); done|]. by eapply numeral_free; [exact Hn|]. }
  assert (Hmap : filter (λ pid, 0 < pid) (atoi <$> (pretty <$> pids)) = pids).
  { clear Hok. induction Hall as [|pid pids Hp _ IH]; [done|]. rewrite !fmap_cons.
    rewrite filter_cons_True by (rewrite atoi_pretty by lia; lia). rewrite IH. f_equal. by apply atoi_pretty. }
  unfold parse_pids. split; [by rewrite strtok_join|].
  rewrite strtok_join by (repeat constructor; [done|set_solver|done|set_solver|exact Hok]).
  rewrite !fmap_cons. by rewrite !filter_cons_False.
Qed.

Lemma pids_roundtrip_witness : parse_pids "1234,8,99" = [1234; 8; 99].
Proof.
  destruct (pids_roundtrip [1234; 8; 99]) as [H _]; [repeat constructor; done|]. exact H.
Defined.

(** The argument splitter of [cuda_ckpt_run] is [strtok] at spaces: the character loop
    with its token buffer gives the maximal runs without a space, in order, for every
    text. *)
Theorem arg_tokens_strtok (args : string) : arg_tokens args "" [] = strtok space args.
Proof.
  assert (Haux : ∀ token tokens, space ∉ chars token →
    arg_tokens args token tokens = tokens ++ strtok space (token +:+ args)).
  { induction args as [|c args IH]; intros token tokens Htok; simpl.
    - rewrite app_nil. unfold strtok. rewrite split_on_none by done. case_bool_decide as He.
      + subst. by rewrite app_nil_r.
      + by rewrite filter_cons_True.
    - case_bool_decide as Hc.
      + subst c. unfold strtok in *. rewrite split_on_app by done. case_bool_decide as He.
        * subst. rewrite IH by done. rewrite filter_cons_False by auto. done.
        * rewrite IH by set_solver. rewrite filter_cons_True by done. by rewrite <- app_assoc.
      + rewrite IH.
        * by rewrite <- sapp_assoc.
        * rewrite chars_app. simpl. set_solver. }
  by rewrite Haux by set_solver.
Qed.
