(* ===== verification/Client.v ===== *)
(** The coordinator of one worker, [src/coordinator/cr_client.cpp]. *)
From stdpp Require Import pretty.
From S2P Require Import Prelude Text Common Gpu Ckpt IpcState IpcDriver FdExchange IpcHooks Process Handlers Cluster.
From S2P Require Import MultiClient.
Open Scope Z_scope.

Definition colon : ascii := Ascii.ascii_of_nat 58.

(** One round of the [strtok] loop: the regions so far, or [false]. *)
Definition parse_region (acc : option (list selective_cr_region)) (token : string)
    : option (list selective_cr_region) :=
  match acc with
  | None => None
  | Some rs =>
      if bool_decide (MAX_SELECTIVE_REGIONS ≤ Z.of_nat (length rs)) then None else
      match strchr colon token with
      | None => None
      | Some (before, after) =>
          let ptr := strtoull before in
          let size := strtoull after in
          if bool_decide (size = 0) then None else Some (rs ++ [MkRegion ptr size])
      end
  end.

Definition parse_selective_regions (spec : string) : option selective_cr_request :=
  match foldl parse_region (Some []) (strtok comma spec) with
  | None | Some [] => None
  | Some rs => Some (MkReq (Z.of_nat (length rs)) rs)
  end.

(** The options of the command line, in order. *)
Inductive client_option :=
  | CliI | CliC | CliR | CliD | CliB | CliP (arg : string) | CliM (arg : string) | CliS (arg : string) | CliUnknown.
Record client_flags := MkCli {
  c_init : bool; c_ckpt : bool; c_restore : bool; c_pid : Z; c_criu_pid : Z;
  c_buffer_only : bool; c_selective_spec : option string
}.

Section Client.
Context {W D P : Type} {GW : GPU W} {GO : GPUObject W} {CD : CuDriver D} {SK : Sockets D}.
Context {PX : Posix P} {BD : Build} {HS : Host W D P}.
Context (platform_of : Z → Platform) (probe_addr : Z) (sched : nat → list nat).
Abbreviation world := (world W D P).
Abbreviation sys m := (host_do platform_of probe_addr sched m).

Definition helper_path : M world string :=
  exe ← sys (readlink_exe 1024);
  match exe with
  | None => mret "cuda-checkpoint"
  | Some exe_path =>
      (* [exe_path[count] = 0] in a buffer of 1024 *)
      if bool_decide (1024 ≤ String.length exe_path)%nat then fail OutOfBounds else
      let full_path := dirname exe_path +:+ "/../cuda-checkpoint/bin/x86_64_Linux/cuda-checkpoint" in
      ok ← sys (can_access full_path true);
      mret (if ok : bool then full_path else "cuda-checkpoint")
  end.

(** [if (!buffer_only) ret = system(cmd); if (ret < 0) exit], where nothing has set [ret]. *)
Definition run_system (buffer_only : bool) (cmd : string) : M world unit :=
  if buffer_only then fail Indeterminate else
  _ ← log (CSystem cmd);
  ret ← tool_do platform_of probe_addr sched (system cmd);
  if bool_decide (ret < 0) then exit EXIT_FAILURE else mret tt.

Definition tell_and_wait (fuel : nat) (pid msg sig : Z) : M world unit :=
  _ ← comm_send platform_of probe_addr sched pid msg;
  _ ← kill platform_of probe_addr sched pid sig;
  wait_finished platform_of probe_addr sched fuel pid.

Definition toggle (buffer_only : bool) (pid : Z) : M world unit :=
  bin_path ← helper_path;
  run_system buffer_only (bin_path +:+ " --toggle --pid " +:+ pretty pid).

Definition criu_dump_cmd (criu_pid : Z) (ckpt_dir : string) : string := snprintf 1024
  ("sudo env LD_LIBRARY_PATH=/opt/amdgpu/lib/x86_64-linux-gnu criu dump --link-remap --tcp-established -t " +:+
   pretty criu_pid +:+ " -D " +:+ ckpt_dir +:+ " -j -v4 -o " +:+ ckpt_dir +:+
   "/dump.log --ghost-limit 50M --ext-unix-sk -L /usr/local/lib/criu").
Definition criu_restore_cmd (ckpt_dir : string) : string := snprintf 2048
  ("sudo env  LD_LIBRARY_PATH=/opt/amdgpu/lib/x86_64-linux-gnu criu restore --tcp-established -D " +:+ ckpt_dir +:+
   " -j -v4 -o " +:+ ckpt_dir +:+ "/restore.log -L /usr/local/lib/criu --pidfile " +:+ ckpt_dir +:+
   "/restored.pid --ghost-limit 50M --ext-unix-sk --restore-detached ").

Definition client_selective (fuel : nat) (pid : Z) (spec : string) (msg sig : Z) : M world unit :=
  match parse_selective_regions spec with
  | None => exit EXIT_FAILURE
  | Some req =>
      _ ← comm_request platform_of probe_addr sched pid req;
      tell_and_wait fuel pid msg sig
  end.

Definition client_checkpoint (fuel : nat) (pid criu_pid : Z) (buffer_only : bool) : M world unit :=
  _ ← tell_and_wait fuel pid CKPT_MSG CR_CKPT_SIGNAL;
  if HIP_PLATFORM_AMD then
    match getenv "AMD_CKPT_DIR" with
    | None => exit EXIT_FAILURE
    | Some ckpt_dir => run_system buffer_only (criu_dump_cmd criu_pid ckpt_dir)
    end
  else toggle buffer_only pid.

Definition client_restore (fuel : nat) (pid : Z) (buffer_only : bool) : M world unit :=
  if HIP_PLATFORM_AMD then
    match getenv "AMD_CKPT_DIR" with
    | None => exit EXIT_FAILURE
    | Some ckpt_dir =>
        _ ← run_system buffer_only (criu_restore_cmd ckpt_dir);
        tell_and_wait fuel pid RESTORE_MSG CR_RESTORE_SIGNAL
    end
  else
    _ ← tell_and_wait fuel pid RESTORE_MSG CR_RESTORE_SIGNAL;
    toggle buffer_only pid.

Definition set_client_option (f : client_flags) (o : client_option) : M world client_flags :=
  let '(MkCli i c r p m b s) := f in
  match o with
  | CliI => mret (MkCli true c r p m b s)
  | CliC => mret (MkCli i true r p m b s)
  | CliR => mret (MkCli i c true p m b s)
  | CliP arg => mret (MkCli i c r (atoi arg) m b s)
  | CliM arg => mret (MkCli i c r p (atoi arg) b s)
  | CliB => mret (MkCli i c r p m true s)
  | CliS arg => mret (MkCli i c r p m b (Some arg))
  | CliD | CliUnknown => exit EXIT_FAILURE
  end.

(** [getopt(argc, argv, "icrdbp:m:s:")] has read [opts]; [-d] has no case. *)
Definition client_main (fuel : nat) (opts : list client_option) : M world Z :=
  f ← foldM set_client_option (MkCli false false false 0 0 false None) opts;
  let '(MkCli i c r pid m b spec) := f in
  if negb (c || r || i) then exit EXIT_FAILURE else
  if bool_decide (1 < Z.b2z c + Z.b2z r + Z.b2z i) then exit EXIT_FAILURE else
  _ ← assert_ (negb (bool_decide (pid = 0)));
  let criu_pid := if bool_decide (m = 0) then pid else m in
  _ ← sys (comm_setup pid);
  _ ← (if (i : bool) then tell_and_wait fuel pid INIT_MSG CR_INIT_SIGNAL
       else match c, r, spec with
            | true, _, Some spec => client_selective fuel pid spec SELECTIVE_CKPT_MSG CR_CKPT_SIGNAL
            | _, true, Some spec => client_selective fuel pid spec SELECTIVE_RESTORE_MSG CR_RESTORE_SIGNAL
            | true, _, None => client_checkpoint fuel pid criu_pid b
            | _, true, None => client_restore fuel pid b
            | _, _, _ => mret tt
            end);
  mret 0.

End Client.
