(* ===== verification/ClientTheorems.v ===== *)
(** The coordinator of one worker: the theorems. *)
From stdpp Require Import pretty.
From S2P Require Import Prelude Common Gpu Layout Ckpt SaveFacts CkptFacts Restore RestoreFacts Driver Nv Sim NvFacts CrTheorems.
From S2P Require Import IpcState IpcDriver FdExchange FdFacts IpcHooks IpcExports IpcSafe CuSim IpcTracking IpcTheorems ImportTheorems Process Handlers HandlerFacts.
From S2P Require Import SignalFacts Cluster WorkerPhases ProcSim Text MultiClient ClusterFacts CoordFacts CoordFlows HandlerTheorems CoordTrace Client.
Open Scope Z_scope.

(** ** The selective regions of [-s] *)

(** A region as [%p:%lu] prints it. *)
Definition print_region (r : selective_cr_region) : string :=
  print_hex (r_ptr r) +:+ Str colon (pretty (r_size r)).
Definition region_ok (r : selective_cr_region) : Prop := 0 ≤ r_ptr r < 2 ^ 64 ∧ 0 < r_size r < 2 ^ 64.

Lemma hex_free x c : 0 ≤ x < 2 ^ 64 → c ≠ zero → c ≠ letter_x → 16 ≤ digit_val c → c ∉ chars (print_hex x).
Proof.
  intros Hx Hz Hl Hc. unfold print_hex. case_bool_decide as H0; [set_solver|].
  destruct (hex_go_numeral 64 x "" ltac:(lia)) as (t & -> & Hn). rewrite app_nil.
  change (c ∉ zero :: letter_x :: chars t). pose proof (numeral_free _ _ _ c Hn Hc). set_solver.
Qed.

Lemma parse_one acc r : region_ok r → Z.of_nat (length acc) < MAX_SELECTIVE_REGIONS →
  parse_region (Some acc) (print_region r) = Some (acc ++ [r]).
Proof.
  intros [Hp Hs] Hlen. unfold parse_region, print_region. rewrite bool_decide_eq_false_2 by lia.
  rewrite strchr_app by (apply hex_free; [done|done|done|by vm_compute]).
  rewrite strtoull_hex by done. rewrite strtoull_pretty by done. rewrite bool_decide_eq_false_2 by lia.
  by destruct r.
Qed.

Lemma parse_none ts : foldl parse_region None ts = None.
Proof. by induction ts. Qed.

Lemma parse_all rs acc : Forall region_ok rs →
  foldl parse_region (Some acc) (print_region <$> rs) =
    if bool_decide (rs ≠ [] ∧ MAX_SELECTIVE_REGIONS < Z.of_nat (length acc + length rs)) then None else Some (acc ++ rs).
Proof.
  intros Hall. revert acc. induction Hall as [|r rs Hr Hall IH]; intros acc.
  - rewrite bool_decide_eq_false_2 by tauto. by rewrite app_nil_r.
  - rewrite fmap_cons. cbn [foldl]. destruct (decide (Z.of_nat (length acc) < MAX_SELECTIVE_REGIONS)) as [Hlt|Hge].
    + rewrite parse_one by done. rewrite IH, length_app, <- app_assoc. simpl.
      destruct rs as [|r' rs].
      * rewrite !bool_decide_eq_false_2; [done|simpl; lia|tauto].
      * erewrite bool_decide_ext; [reflexivity|]. simpl. split; (intros [_ H]; split; [done|lia]).
    + unfold parse_region at 2. rewrite bool_decide_eq_true_2 by lia. rewrite parse_none.
      rewrite bool_decide_eq_true_2; [done|]. split; [done|]. simpl. lia.
Qed.

(** C37: a list of regions is read back as it was printed, addresses and sizes of the whole
    64-bit range included; an empty list and one of more than 4096 regions are refused
    before anything is written outside the request. *)
Theorem regions_roundtrip (rs : list selective_cr_region) : Forall region_ok rs →
  parse_selective_regions (join comma (print_region <$> rs)) =
    if bool_decide (rs ≠ [] ∧ Z.of_nat (length rs) ≤ MAX_SELECTIVE_REGIONS)
    then Some (MkReq (Z.of_nat (length rs)) rs) else None.
Proof.
  intros Hall. unfold parse_selective_regions. rewrite strtok_join.
  - rewrite parse_all by done. destruct rs as [|r rs]; [done|].
    destruct (decide (Z.of_nat (length (r :: rs)) ≤ MAX_SELECTIVE_REGIONS)).
    + rewrite bool_decide_eq_false_2 by (simpl; simpl in *; lia). by rewrite bool_decide_eq_true_2.
    + rewrite bool_decide_eq_true_2 by (simpl; simpl in *; split; [done|lia]). by rewrite bool_decide_eq_false_2 by tauto.
  - apply Forall_fmap. eapply Forall_impl; [exact Hall|]. intros r [Hp Hs]; cbn. split.
    + unfold print_region. by destruct (print_hex (r_ptr r)).
    + unfold print_region. rewrite chars_app, elem_of_app. intros [Hin|Hin].
      * revert Hin. apply hex_free; [done|done|done|by vm_compute].
      * change (comma ∈ colon :: chars (pretty (r_size r))) in Hin.
        apply elem_of_cons in Hin as [Hin|Hin]; [done|]. revert Hin.
        eapply numeral_free; [apply pretty_numeral; lia|by vm_compute].
Qed.

Lemma regions_roundtrip_witness :
  parse_selective_regions "0x7f0000000000:4096,0xffffffffffffffff:18446744073709551615" =
    Some (MkReq 2 [MkRegion 139637976727552 4096; MkRegion (2 ^ 64 - 1) (2 ^ 64 - 1)]).
Proof.
  apply (regions_roundtrip [MkRegion 139637976727552 4096; MkRegion (2 ^ 64 - 1) (2 ^ 64 - 1)]).
  repeat constructor; by vm_compute.
Defined.

(** ** A worker that is gone *)

Section DeadWorker.
Context {W D P : Type} {GW : GPU W} {GO : GPUObject W} {CD : CuDriver D} {SK : Sockets D}.
Context {PX : Posix P} {BD : Build} {HS : Host W D P}.
Context (platform_of : Z → Platform) (probe_addr : Z) (sched : nat → list nat).
Abbreviation world := (world W D P).
Abbreviation run := (run_workers platform_of probe_addr).

(** No process has the pid, and its page says [msg]. *)
Definition page_stays (pid msg : Z) (w : world) : Prop :=
  pid ∉ n_pid <$> nodes w ∧ signal (page_of pid w) = msg.

Lemma find_dead (f : node W D P → bool) pid (ns : list (node W D P)) : pid ∉ n_pid <$> ns →
  (∀ n, f n = true → n_pid n = pid) → find_node f ns = None.
Proof.
  intros Hd Hf. unfold find_node. destruct (list_find _ ns) as [[i n]|] eqn:Hl; [|done]. exfalso. apply Hd.
  apply list_find_Some in Hl as (Hi & Hn & _). apply list_elem_of_fmap. exists n. split.
  - symmetry. by apply Hf, Is_true_true.
  - by eapply list_elem_of_lookup_2.
Qed.

Lemma page_dead pid (w : world) : pid ∉ n_pid <$> nodes w →
  page_of pid w = default no_page (stale_pages w !! pid) ∧ ∀ c, set_page pid c w = set_stale_pages (<[pid := c]> (stale_pages w)) w.
Proof.
  intros Hd. assert (Hf : find_node (with_pid pid) (nodes w) = None).
  { apply (find_dead _ pid); [done|]. intros n. apply with_pid_true. }
  unfold page_of, set_page. by rewrite Hf.
Qed.

Lemma dead_tick pid msg (w : world) : page_stays pid msg w →
  wp (tick platform_of probe_addr sched) (λ _ w', page_stays pid msg w') w.
Proof.
  intros [Hd Hp]. apply wp_modify. set (w' := set_clock _ _).
  assert (Hd' : pid ∉ n_pid <$> nodes w') by (cbn [w' nodes set_clock set_nodes]; by rewrite run_ids).
  split; [done|]. rewrite (proj1 (page_dead pid w Hd)) in Hp. by rewrite (proj1 (page_dead pid w' Hd')).
Qed.

Lemma poll_dead pid msg (w : world) : msg ≠ FINISH_MSG → page_stays pid msg w →
  wp (f ← comm_finished platform_of probe_addr sched pid;
      if f : bool then mret (inr tt) else _ ← tick platform_of probe_addr sched; mret (inl tt))
    (λ r w', r = inl tt ∧ page_stays pid msg w') w.
Proof.
  intros Hmsg Hw. apply wp_bind, wp_bind. eapply wp_mono; [by apply (dead_tick pid msg)|]. intros _ w1 [Hd Hp].
  apply wp_bind, wp_get. rewrite Hp, bool_decide_eq_false_2 by done. apply wp_ret, wp_bind.
  eapply wp_mono; [by apply (dead_tick pid msg)|]. intros ? w2 Hw2; cbv beta in Hw2. by apply wp_ret.
Qed.

Lemma wait_dead fuel pid msg : msg ≠ FINISH_MSG → ∀ w : world, page_stays pid msg w →
  ∃ w', wait_finished platform_of probe_addr sched fuel pid w = Stuck OutOfFuel w'.
Proof.
  intros Hmsg. unfold wait_finished. induction fuel as [|fuel IH]; intros w Hw; [by exists w|].
  destruct (wp_elim _ _ _ (poll_dead pid msg w Hmsg Hw)) as (r & w1 & H1 & -> & Hw1).
  destruct (IH w1 Hw1) as [w' Hw']. exists w'. cbn [iter]. unfold mbind at 1, M_bind at 1. by rewrite H1.
Qed.

Lemma send_dead pid msg (w : world) : pid ∉ n_pid <$> nodes w →
  wp (comm_send platform_of probe_addr sched pid msg) (λ _ w', page_stays pid msg w') w.
Proof.
  intros Hd. apply wp_bind. eapply wp_mono; [apply (dead_tick pid (signal (page_of pid w))); by split|].
  intros _ w1 [Hd1 _]. apply wp_bind, wp_modify, wp_modify. set (w2 := set_calls _ w1).
  assert (Hd2 : pid ∉ n_pid <$> nodes w2) by done. rewrite (proj2 (page_dead pid w2 Hd2)). split; [done|].
  set (c := put_msg msg (page_of pid w2)).
  set (m := <[pid := c]> (stale_pages w2)). rewrite (proj1 (page_dead pid (set_stale_pages m w2) Hd2)). unfold m. cbn [stale_pages set_stale_pages]. by rewrite lookup_insert_eq.
Qed.

Lemma kill_dead pid msg sig (w : world) : page_stays pid msg w →
  wp (kill platform_of probe_addr sched pid sig) (λ r w', r = -1 ∧ page_stays pid msg w') w.
Proof.
  intros Hw. apply wp_bind. eapply wp_mono; [by apply (dead_tick pid msg)|]. intros _ w1 [Hd Hp].
  apply wp_bind, wp_modify, wp_bind, wp_get. rewrite (find_dead _ pid); [by apply wp_ret|done|].
  intros n [Hn _]%andb_true_iff. by apply with_pid_true.
Qed.
End DeadWorker.

(** The two coordinators and a worker that is gone.  When no process has the pid,
    [cr_client] overlooks that [kill] failed and polls the page of the dead worker for
    ever - no number of rounds ends the wait - while [multi_cr_client] exits with
    [EXIT_FAILURE] at once. *)
Theorem dead_worker {W D P} {GW : GPU W} {GO : GPUObject W} {CD : CuDriver D} {SK : Sockets D} {PX : Posix P}
    {BD : Build} {HS : Host W D P} platform_of probe_addr sched pid msg sig (w : world W D P) :
  pid ∉ n_pid <$> nodes w → msg ≠ FINISH_MSG →
  (∀ fuel, ∃ w', tell_and_wait platform_of probe_addr sched fuel pid msg sig w = Stuck OutOfFuel w') ∧
  (∀ fuel others path, ∃ s', broadcast_and_wait platform_of probe_addr sched fuel (pid :: others) msg sig (MkCoord w path) =
     Exit EXIT_FAILURE s').
Proof.
  intros Hd Hmsg. destruct (wp_elim _ _ _ (send_dead platform_of probe_addr sched pid msg w Hd)) as ([] & w1 & H1 & Hw1).
  destruct (wp_elim _ _ _ (kill_dead platform_of probe_addr sched pid msg sig w1 Hw1)) as (r & w2 & H2 & -> & Hw2).
  split.
  - intros fuel. destruct (wait_dead platform_of probe_addr sched fuel pid msg Hmsg w2 Hw2) as [w' Hw']. exists w'.
    unfold tell_and_wait, mbind, M_bind. by rewrite H1, H2.
  - intros fuel others path. eexists. unfold broadcast_and_wait, mbind, M_bind. cbn [foldM]. unfold mbind, M_bind.
    unfold send_one, on_machine, mbind, M_bind, zoom. cbn [machine]. rewrite H1. cbn [machine set_machine]. rewrite H2.
    reflexivity.
Qed.

Lemma dead_worker_witness : ∃ w' s',
  tell_and_wait same_platform 77 every_time 1000 30 CKPT_MSG CR_CKPT_SIGNAL (machine two_machine) = Stuck OutOfFuel w' ∧
  broadcast_and_wait same_platform 77 every_time 1000 [30; 10] CKPT_MSG CR_CKPT_SIGNAL two_machine = Exit 1 s'.
Proof.
  assert (Hd : 30 ∉ n_pid <$> nodes (machine two_machine)) by (apply (bool_decide_unpack _); vm_compute; exact I).
  destruct (dead_worker (BD:=nvidia_build) (HS:=osim_host) same_platform 77 every_time 30 CKPT_MSG CR_CKPT_SIGNAL (machine two_machine) Hd
    ltac:(discriminate)) as [H1 H2].
  destruct (H1 1000%nat) as [w' Hw]. destruct (H2 1000%nat [10] "cuda-checkpoint"%string) as [s' Hs].
  exists w', s'. split; [exact Hw|exact Hs].
Defined.

(** ** Order *)

Section Order.
Context {W D P : Type} {GW : GPU W} {GO : GPUObject W} {CD : CuDriver D} {SK : Sockets D}.
Context {PX : Posix P} {BD : Build} {HS : Host W D P}.
Context (platform_of : Z → Platform) (probe_addr : Z) (sched : nat → list nat).

Lemma wlogs_tell fuel pid msg sig : wlogs (W:=W) (D:=D) (P:=P)
  (tell_and_wait platform_of probe_addr sched fuel pid msg sig)
  (λ _ tr, tr = [CSend pid msg; CKill pid sig; CSeen pid]).
Proof.
  eapply wlogs_bind; [apply logs_send|]. intros ? ? ->. eapply wlogs_bind; [apply logs_kill|]. intros ? ? ->.
  intros w1 b w2 Hr. destruct (logs_wait _ _ _ _ _ _ _ _ Hr) as (tr & Hc & ->). by exists [CSeen pid].
Qed.

(** The one system call of [run_system]. *)
Definition one_command (tr : list call) : Prop := ∃ cmd, tr = [CSystem cmd].

Lemma wlogs_system buffer_only cmd : wlogs (W:=W) (D:=D) (P:=P)
  (run_system platform_of probe_addr sched buffer_only cmd) (λ _ tr, buffer_only = false ∧ one_command tr).
Proof.
  unfold run_system. destruct buffer_only; [by intros w a w' [=]|].
  eapply wlogs_bind; [apply wlogs_log|]. intros ? ? ->. eapply wlogs_bind; [apply logs_tool|]. intros r ? ->.
  case_bool_decide; [by intros w1 b w2 [=]|]. apply wlogs_ret. split; [done|]. by exists cmd.
Qed.

Lemma wlogs_helper : wlogs (W:=W) (D:=D) (P:=P) (helper_path platform_of probe_addr sched) (λ _ tr, tr = []).
Proof.
  unfold helper_path. eapply wlogs_bind; [apply logs_host|]. intros [exe|] ? ->; [|by apply wlogs_ret].
  case_bool_decide; [by intros w a w' [=]|]. eapply wlogs_bind; [apply logs_host|]. intros ok ? ->. by apply wlogs_ret.
Qed.

Lemma wlogs_toggle buffer_only pid : wlogs (W:=W) (D:=D) (P:=P)
  (toggle platform_of probe_addr sched buffer_only pid) (λ _ tr, buffer_only = false ∧ one_command tr).
Proof. eapply wlogs_bind; [apply wlogs_helper|]. intros bin ? ->. apply wlogs_system. Qed.
End Order.

(** C36: what [cr_client] does, in order.  A checkpoint that ends has dumped the worker
    before it runs the program that freezes it.  A restore that ends has, on AMD, run
    [criu] before it tells the worker to restore, but on NVIDIA the other way round: the
    worker is told to restore, and seen to have finished, while it is still frozen, and
    only then is [cuda-checkpoint --toggle] run.  With [-b] neither ever ends: the
    variable [ret] is read without a value. *)
Theorem client_order {W D P} {GW : GPU W} {GO : GPUObject W} {CD : CuDriver D} {SK : Sockets D} {PX : Posix P}
    {BD : Build} {HS : Host W D P} platform_of probe_addr sched fuel pid criu_pid buffer_only (w w' : world W D P) :
  (client_checkpoint platform_of probe_addr sched fuel pid criu_pid buffer_only w = Ret tt w' →
   buffer_only = false ∧ ∃ cmd, calls w' = calls w ++
     [CSend pid CKPT_MSG; CKill pid CR_CKPT_SIGNAL; CSeen pid; CSystem cmd]) ∧
  (client_restore platform_of probe_addr sched fuel pid buffer_only w = Ret tt w' →
   buffer_only = false ∧ ∃ cmd, calls w' = calls w ++
     if HIP_PLATFORM_AMD then [CSystem cmd; CSend pid RESTORE_MSG; CKill pid CR_RESTORE_SIGNAL; CSeen pid]
     else [CSend pid RESTORE_MSG; CKill pid CR_RESTORE_SIGNAL; CSeen pid; CSystem cmd]).
Proof.
  split; intros Hr.
  - assert (Hl : wlogs (client_checkpoint platform_of probe_addr sched fuel pid criu_pid buffer_only)
      (λ _ tr, buffer_only = false ∧ ∃ cmd, tr = [CSend pid CKPT_MSG; CKill pid CR_CKPT_SIGNAL; CSeen pid; CSystem cmd])).
    { eapply wlogs_bind; [apply wlogs_tell|]. intros ? ? ->.
      assert (Hend : ∀ m, wlogs (W:=W) (D:=D) (P:=P) m (λ (_ : unit) tr, buffer_only = false ∧ one_command tr) →
        wlogs (W:=W) (D:=D) (P:=P) m (λ _ tr, buffer_only = false ∧ ∃ cmd, [CSend pid CKPT_MSG; CKill pid CR_CKPT_SIGNAL; CSeen pid] ++ tr =
          [CSend pid CKPT_MSG; CKill pid CR_CKPT_SIGNAL; CSeen pid; CSystem cmd])).
      { intros m Hm v b v' Hv. destruct (Hm v b v' Hv) as (tr & Hc & Hb & cmd & ->). exists [CSystem cmd].
        split; [done|]. split; [done|]. by exists cmd. }
      apply Hend. destruct HIP_PLATFORM_AMD; [|apply wlogs_toggle].
      destruct (getenv "AMD_CKPT_DIR"); [apply wlogs_system|by intros v b v' [=]]. }
    destruct (Hl _ _ _ Hr) as (tr & -> & Hb & cmd & ->). split; [done|]. by exists cmd.
  - assert (Hl : wlogs (client_restore platform_of probe_addr sched fuel pid buffer_only)
      (λ _ tr, buffer_only = false ∧ ∃ cmd, tr =
         if HIP_PLATFORM_AMD then [CSystem cmd; CSend pid RESTORE_MSG; CKill pid CR_RESTORE_SIGNAL; CSeen pid]
         else [CSend pid RESTORE_MSG; CKill pid CR_RESTORE_SIGNAL; CSeen pid; CSystem cmd])).
    { unfold client_restore. destruct HIP_PLATFORM_AMD.
      - destruct (getenv "AMD_CKPT_DIR"); [|by intros v b v' [=]].
        eapply wlogs_bind; [apply wlogs_system|]. intros ? ? [Hb [cmd ->]].
        intros v b v' Hv. destruct (wlogs_tell _ _ _ _ _ _ _ _ _ _ Hv) as (tr & Hc & ->). eexists. split; [exact Hc|].
        split; [done|]. by exists cmd.
      - eapply wlogs_bind; [apply wlogs_tell|]. intros ? ? ->.
        intros v b v' Hv. destruct (wlogs_toggle _ _ _ _ _ _ _ _ Hv) as (tr & Hc & Hb & cmd & ->). eexists.
        split; [exact Hc|]. split; [done|]. by exists cmd. }
    destruct (Hl _ _ _ Hr) as (tr & -> & Hb & cmd & ->). split; [done|]. by exists cmd.
Qed.

(** Worker 10 alone. *)
Definition one_machine : world (nv sim) cusim osim :=
  MkWorld [MkNode 10 (two_workers 10) true []] 0 (MkOs 3 (2 ^ 40) 0) ∅ ∅ [].

Lemma client_checkpoint_runs : ∃ fuel w', client_checkpoint same_platform 77 every_time fuel 10 10 false one_machine = Ret tt w'.
Proof.
  assert (Hans : answers same_platform 77 [10] (λ pid, serving (two_workers pid)) (λ pid, suspended (two_workers pid))
    CKPT_MSG CR_CKPT_SIGNAL).
  { apply (ckpt_answers (BD:=nvidia_build) same_platform 77 (λ _, 0) (λ _, 0) cusim_answers eq_refl [10] two_workers).
    intros pid _. exact ex_checkpointable. }
  destruct (tell_live same_platform 77 every_time [10] ltac:(by apply (bool_decide_unpack _)) _ _ _ _ Hans 10 one_machine eq_refl)
    as (fuel & [] & w1 & H1 & Hw1).
  - split; [done|]. intros n ->%list_elem_of_singleton. split_and!; [done|done|]. destruct leaving_serving. by split.
  - intros i t Hi. exists t. split; [done|]. destruct i; [set_solver|lia].
  - exists fuel. assert (Ht : wp (toggle same_platform 77 every_time false 10) (λ _ _, True) w1).
    { exact I. }
    destruct (wp_elim _ _ _ Ht) as ([] & w2 & H2 & _). exists w2. specialize (H1 fuel (le_n _)).
    unfold client_checkpoint, mbind at 1, M_bind at 1. unfold tell_and_wait. rewrite H1. exact H2.
Qed.

Lemma client_order_witness : ∃ fuel w' cmd,
  client_checkpoint same_platform 77 every_time fuel 10 10 false one_machine = Ret tt w' ∧
  calls w' = [CSend 10 11; CKill 10 10; CSeen 10; CSystem cmd].
Proof.
  destruct client_checkpoint_runs as (fuel & w' & Hr).
  destruct (proj1 (client_order same_platform 77 every_time fuel 10 10 false one_machine w') Hr) as (_ & cmd & Hc).
  exists fuel, w', cmd. split; [exact Hr|exact Hc].
Defined.
