(* ===== verification/Interrupts.v ===== *)
(** A signal that arrives inside an allocation hook.

    The hooks [cudaMalloc] and [cudaFree] of [nv.cpp] (and [hipMalloc], [hipFree]) hold [gpu_mem_mutex] while they
    call the driver and change their tables.  A checkpoint signal may be delivered at any of these
    calls; the handler then takes the same [std::mutex] in the same thread. *)
From S2P Require Import Prelude Frames Common Gpu Ckpt Restore Driver Nv Sim IpcState IpcDriver FdExchange IpcHooks Process.
From S2P Require Import Handlers HandlerFacts CuSim ImportTheorems ProcSim Cluster ClusterFacts MultiClient CoordFacts CoordFlows Client.
Open Scope Z_scope.

(** A hook up to the call at which it is interrupted: [std::lock_guard<std::mutex> lock(gpu_mem_mutex)], then [part]. *)
Definition up_to {W A} `{GPU W} (part : M W A) : M (vstate W) A := _ ← lock_gpu_mem; gpu_do part.

(** The thread of a worker is inside a hook. *)
Definition inside_hook {W D P} `{GPU W} (p : proc W D P) : Prop :=
  CR_initialized p = true ∧ ∃ A (part : M W A) s a, up_to part s = Ret a (vg p).

(** ** The handler *)

(** [m] leaves the control page alone, and [Q] holds if it comes back. *)
Definition quiet {W D P A} (m : M (proc W D P) A) (Q : A → proc W D P → Prop) (p : proc W D P) : Prop :=
  match m p with
  | Ret a p' => control p' = control p ∧ Q a p'
  | Exit _ p' | Stuck _ p' => control p' = control p
  end.

Section Handler.
Context {W D P : Type} {GW : GPU W} {GO : GPUObject W} {CD : CuDriver D} {SK : Sockets D}.
Context {PX : Posix P} {BD : Build} {PF : Platform}.
Context (probe_addr : Z).
Abbreviation proc := (proc W D P).
Implicit Type p : proc.

Lemma quiet_bind {A B} (m : M proc A) (f : A → M proc B) Q p : quiet m (λ a, quiet (f a) Q) p → quiet (m ≫= f) Q p.
Proof.
  unfold quiet, mbind, M_bind. destruct (m p) as [a p'|c p'|w p']; [|done..]. intros [Hc Hf]. rewrite Hc in Hf. exact Hf.
Qed.
Lemma quiet_mono {A} (m : M proc A) (Q Q' : A → proc → Prop) p : quiet m Q p → (∀ a p', Q a p' → Q' a p') → quiet m Q' p.
Proof. unfold quiet. destruct (m p); naive_solver. Qed.
Lemma quiet_get {A} (f : proc → A) Q p : Q (f p) p → quiet (get f) Q p.
Proof. done. Qed.

(** A call of the vendor object keeps both locks. *)
Lemma quiet_gpu {A} (m : M W A) p :
  quiet (g_do m) (λ _ p', gpu_mem_mutex (vg p') = gpu_mem_mutex (vg p) ∧ CR_initialized p' = CR_initialized p) p.
Proof. unfold quiet, g_do, v_do, gpu_do, zoom. by destruct (m (vgpu (vg p))). Qed.

(** Every function under the lock stops at it. *)
Definition blocks {S A} (m : M S A) (s : S) : Prop := ∃ s', m s = Stuck Deadlocked s'.

Lemma blocks_bind {S A B} (m : M S A) (f : A → M S B) s : blocks m s → blocks (m ≫= f) s.
Proof. intros [s' Hs]. exists s'. unfold mbind, M_bind. by rewrite Hs. Qed.
Lemma blocks_lock (s : vstate W) : gpu_mem_mutex s = true → blocks lock_gpu_mem s.
Proof. intros Hs. exists s. unfold lock_gpu_mem. by rewrite Hs. Qed.
Lemma blocks_open (s : vstate W) : gpu_mem_mutex s = true → blocks open_dump s.
Proof.
  intros Hs. unfold open_dump, mbind, M_bind, lock_fs, blocks. destruct (fs_mutex s); [by exists s|].
  unfold lock_gpu_mem. simpl. rewrite Hs. by eexists.
Qed.

(** The two checkpoints and the two restores. *)
Lemma blocks_ckpt e (s : vstate W) : gpu_mem_mutex s = true →
  blocks (ckpt e) s ∧ (∀ req, blocks (ckpt_selective e req) s) ∧
  blocks (restore_ptr_and_content e) s ∧ blocks (restore_ptr_and_content_selective e) s.
Proof. intros Hs. split_and!; [|intros req|..]; apply blocks_bind; (by apply blocks_open) || by apply blocks_lock. Qed.

(** The same for a step of the worker, which has not touched the control page. *)
Definition stops {A} (m : M proc A) p : Prop := ∃ p', m p = Stuck Deadlocked p' ∧ control p' = control p.

Lemma stops_v_do {A} (m : M (vstate W) A) p : blocks m (vg p) → stops (v_do m) p.
Proof. intros [s' Hs]. exists (set_vg s' p). unfold v_do, zoom. by rewrite Hs. Qed.
Lemma stops_bind {A B} (m : M proc A) (f : A → M proc B) p : stops m p → stops (m ≫= f) p.
Proof. intros (s' & Hs & Hc). exists s'. unfold mbind, M_bind. by rewrite Hs. Qed.
Lemma stops_get {A B} (f : proc → A) (k : A → M proc B) p : stops (k (f p)) p → stops (get f ≫= k) p.
Proof. done. Qed.
Lemma stops_quiet {A} (m : M proc A) p : stops m p → quiet m (λ _ _, False) p.
Proof. intros (p' & Hp & Hc). unfold quiet. by rewrite Hp. Qed.

(** The messages of [cr_signal_handler]. *)
Definition cr_messages : list Z := [CKPT_MSG; RESTORE_MSG; SELECTIVE_CKPT_MSG; SELECTIVE_RESTORE_MSG].

(** What is left of the message once the kernels are synchronised. *)
Definition locked_part (msg : Z) : M proc unit :=
  if bool_decide (msg = SELECTIVE_CKPT_MSG) then run_ckpt_selective
  else if bool_decide (msg = SELECTIVE_RESTORE_MSG) then run_restore_selective
  else if bool_decide (msg = CKPT_MSG) then _ ← run_ckpt; on_nvidia ipc_disable_all_peer_access
  else _ ← run_restore; on_nvidia ipc_reenable_all_peer_access.

Lemma locked_part_stops msg p : gpu_mem_mutex (vg p) = true → stops (locked_part msg) p.
Proof.
  intros Hp. destruct (blocks_ckpt (mapped p) (vg p) Hp) as (H1 & H2 & H3 & H4).
  unfold locked_part, run_ckpt, run_ckpt_selective, run_restore, run_restore_selective. repeat case_bool_decide.
  - apply stops_get, stops_get, stops_bind, stops_v_do, H2.
  - apply stops_get, stops_bind, stops_v_do, H4.
  - apply stops_bind, stops_get, stops_bind, stops_v_do, H1.
  - apply stops_bind, stops_get, stops_bind, stops_v_do, H3.
Qed.

Lemma run_msg_quiet msg p : msg ∈ cr_messages → gpu_mem_mutex (vg p) = true → quiet (run_msg msg) (λ _ _, False) p.
Proof.
  intros Hm Hp. assert (Hsync : ∀ B (k : M proc B), (∀ p', gpu_mem_mutex (vg p') = true → quiet k (λ _ _, False) p') →
    quiet (_ ← g_do syncAllKernels; k) (λ _ _, False) p).
  { intros B k Hk. apply quiet_bind. eapply quiet_mono; [apply quiet_gpu|]. intros _ p' [Hp' _]. apply Hk. congruence. }
  unfold cr_messages in Hm. rewrite !elem_of_cons, elem_of_nil in Hm. destruct Hm as [->|[->|[->|[->|[]]]]].
  - apply (Hsync _ (locked_part CKPT_MSG)). intros p' Hp'. by apply stops_quiet, locked_part_stops.
  - by apply stops_quiet, (locked_part_stops RESTORE_MSG).
  - apply (Hsync _ (locked_part SELECTIVE_CKPT_MSG)). intros p' Hp'. by apply stops_quiet, locked_part_stops.
  - by apply stops_quiet, (locked_part_stops SELECTIVE_RESTORE_MSG).
Qed.

(** The two signals of these messages. *)
Definition cr_signals : list Z := [CR_CKPT_SIGNAL; CR_RESTORE_SIGNAL].

Lemma inside_held p : inside_hook p → CR_initialized p = true ∧ gpu_mem_mutex (vg p) = true.
Proof.
  intros (Hi & A & part & s & a & Hs). split; [done|]. unfold up_to, mbind, M_bind, lock_gpu_mem in Hs.
  destruct (gpu_mem_mutex s); [done|]. unfold gpu_do, zoom in Hs. simpl in Hs.
  destruct (part (vgpu s)); [|done..]. injection Hs as _ Hv. by rewrite <- Hv.
Qed.

Lemma handler_quiet sig p : sig ∈ cr_signals → signal (control p) ∈ cr_messages → CR_initialized p = true →
  gpu_mem_mutex (vg p) = true → quiet (cr_signal_handler sig) (λ _ _, False) p.
Proof.
  intros Hs Hm Hi Hp. assert (Hbody : quiet (_ ← ensure_init; msg ← recv_msg; _ ← g_do pushContext; _ ← run_msg msg;
    _ ← g_do popContext; send_msg FINISH_MSG : M proc unit) (λ _ _, False) p).
  { apply quiet_bind. unfold ensure_init. apply quiet_bind, quiet_get. rewrite Hi. split; [done|].
    apply quiet_bind, quiet_get, quiet_bind. eapply quiet_mono; [apply quiet_gpu|]. intros _ p' [Hp' _].
    apply quiet_bind. eapply quiet_mono; [apply run_msg_quiet; [done|congruence]|done]. }
  unfold cr_signals in Hs. rewrite !elem_of_cons, elem_of_nil in Hs. by destruct Hs as [->|[->|[]]].
Qed.
End Handler.

(** Where the two calls before the lock come back, the handler is stuck at the lock. *)
Section Stops.
Context {W D P : Type} {GW : GPU W} {GO : GPUObject W} {CD : CuDriver D} {SK : Sockets D}.
Context {PX : Posix P} {BD : Build} {PF : Platform}.
Implicit Type p : proc W D P.

Lemma stops_gpu {A B} (m : M W A) (k : A → M (proc W D P) B) p a w' : m (vgpu (vg p)) = Ret a w' →
  stops (k a) (set_vg (with_gpu w' (vg p)) p) → stops (g_do m ≫= k) p.
Proof.
  intros Hm (p' & Hs & Hc). exists p'. unfold g_do, v_do, gpu_do, zoom, mbind, M_bind. by rewrite Hm.
Qed.

Lemma stops_ret {A B} (m : M (proc W D P) A) (k : A → M (proc W D P) B) p a : m p = Ret a p → stops (k a) p → stops (m ≫= k) p.
Proof. intros Hm (p' & Hs & Hc). exists p'. unfold mbind, M_bind. by rewrite Hm. Qed.

Lemma run_msg_stops msg p w' r : msg ∈ cr_messages → gpu_mem_mutex (vg p) = true → syncAllKernels (vgpu (vg p)) = Ret r w' →
  stops (run_msg msg) p.
Proof.
  intros Hm Hp Hr. unfold cr_messages in Hm. rewrite !elem_of_cons, elem_of_nil in Hm. destruct Hm as [->|[->|[->|[->|[]]]]].
  - eapply (stops_gpu _ (λ _, locked_part CKPT_MSG)); [done|by apply locked_part_stops].
  - by apply (locked_part_stops RESTORE_MSG).
  - eapply (stops_gpu _ (λ _, locked_part SELECTIVE_CKPT_MSG)); [done|by apply locked_part_stops].
  - by apply (locked_part_stops SELECTIVE_RESTORE_MSG).
Qed.

Lemma handler_stops sig p : sig ∈ cr_signals → signal (control p) ∈ cr_messages → CR_initialized p = true →
  gpu_mem_mutex (vg p) = true → wp (_ ← pushContext; syncAllKernels) (λ _ _, True) (vgpu (vg p)) →
  stops (cr_signal_handler sig) p.
Proof.
  intros Hs Hm Hi Hp (r & w2 & Hr & _)%wp_elim. unfold mbind, M_bind in Hr.
  destruct (pushContext (vgpu (vg p))) as [a w1| |] eqn:Hpush; [|done..].
  assert (Hbody : stops (_ ← ensure_init; msg ← recv_msg; _ ← g_do pushContext; _ ← run_msg msg;
    _ ← g_do popContext; send_msg FINISH_MSG : M (proc W D P) unit) p).
  { eapply stops_ret; [unfold ensure_init, mbind, M_bind, get; by rewrite Hi|]. apply stops_get.
    eapply stops_gpu; [exact Hpush|]. apply stops_bind. by eapply run_msg_stops. }
  unfold cr_signals in Hs. rewrite !elem_of_cons, elem_of_nil in Hs. by destruct Hs as [->|[->|[]]].
Qed.
End Stops.

(** ** The coordinator waits for ever *)

Section Waits.
Context {W D P : Type} {GW : GPU W} {GO : GPUObject W} {CD : CuDriver D} {SK : Sockets D}.
Context {PX : Posix P} {BD : Build}.
Context (platform_of : Z → Platform) (probe_addr : Z) (sched : nat → list nat).
Context (L : list Z) (L_nodup : NoDup L) (pid msg sig : Z) (Hpid : pid ∈ L).
Context (Hmsg : msg ∈ cr_messages) (Hsig : sig ∈ cr_signals).
Abbreviation node := (node W D P).

Definition held (p : proc W D P) : Prop := CR_initialized p = true ∧ gpu_mem_mutex (vg p) = true.

(** The worker before it is told, when it is told, and once it is signalled. *)
Definition interrupted (n : node) : Prop := n_pid n = pid → n_alive n = true ∧ n_pending n = [] ∧ held (n_proc n).
Definition told_inside (n : node) : Prop :=
  n_pid n = pid → n_alive n = true ∧ n_pending n = [] ∧ held (n_proc n) ∧ signal (control (n_proc n)) = msg.
Definition hung (n : node) : Prop := n_pid n = pid → signal (control (n_proc n)) = msg ∧
  (n_alive n = false ∨ n_alive n = true ∧ n_pending n = [sig] ∧ held (n_proc n)).

Lemma interrupted_stable : stable platform_of probe_addr interrupted.
Proof.
  intros n Hn Hp. rewrite deliver_pid in Hp. destruct (Hn Hp) as (Ha & Hq & Hh). by rewrite (deliver_none _ _ n Hq).
Qed.
Lemma told_inside_stable : stable platform_of probe_addr told_inside.
Proof.
  intros n Hn Hp. rewrite deliver_pid in Hp. destruct (Hn Hp) as (Ha & Hq & Hh). by rewrite (deliver_none _ _ n Hq).
Qed.

Lemma handler_of pid' : handler (W:=W) (D:=D) (P:=P) platform_of probe_addr pid' sig =
  Some (cr_signal_handler (PF:=platform_of pid') sig).
Proof. unfold cr_signals in Hsig. rewrite !elem_of_cons, elem_of_nil in Hsig. by destruct Hsig as [->|[->|[]]]. Qed.

Lemma hung_stable : stable platform_of probe_addr hung.
Proof.
  intros n Hn Hp. rewrite deliver_pid in Hp. destruct (Hn Hp) as (Hs & [Ha|(Ha & Hq & Hi & Hl)]); unfold deliver; rewrite Ha; [by auto|].
  rewrite Hq. simpl. rewrite handler_of. assert (Hm : signal (control (n_proc n)) ∈ cr_messages) by (by rewrite Hs).
  pose proof (handler_quiet (PF:=platform_of (n_pid n)) sig (n_proc n) Hsig Hm Hi Hl) as Hquiet. unfold quiet in Hquiet.
  destruct (cr_signal_handler sig (n_proc n)) as [u p'|c p'|w p']; [by destruct Hquiet|simpl; rewrite Hquiet; auto..].
Qed.

Lemma not_finished : msg ≠ FINISH_MSG.
Proof. unfold cr_messages in Hmsg. rewrite !elem_of_cons, elem_of_nil in Hmsg. by destruct Hmsg as [->|[->|[->|[->|[]]]]]. Qed.

Lemma poll_hung w : nodes_in L hung w →
  wp (f ← comm_finished platform_of probe_addr sched pid;
      if f : bool then mret (inr tt) else _ ← tick platform_of probe_addr sched; mret (inl tt))
    (λ r w', r = inl tt ∧ nodes_in L hung w') w.
Proof.
  intros Hw. apply wp_bind. eapply wp_mono; [by apply (finished_wp platform_of probe_addr sched L L_nodup hung w pid hung_stable Hpid)|].
  intros f w1 (Hw1 & _ & Hf). destruct (find_member L L_nodup hung w pid Hw Hpid) as (i & n & Hlk & Hn & Hh & _).
  destruct (Hf i n Hlk Hn) as (m & _ & _ & Hr).
  assert (Hhm : hung (Nat.iter m (deliver platform_of probe_addr) n)) by (by apply stable_iter; [apply hung_stable|]).
  assert (Hp : n_pid (Nat.iter m (deliver platform_of probe_addr) n) = pid).
  { clear -Hn. induction m as [|m IH]; [done|]. simpl. by rewrite deliver_pid. }
  destruct (Hhm Hp) as [Hs _]. rewrite Hr, Hs, bool_decide_eq_false_2 by apply not_finished.
  apply wp_bind. eapply wp_mono; [by apply (tick_wp platform_of probe_addr sched L hung w1 hung_stable)|].
  intros ? w2 (Hw2 & _). by apply wp_ret.
Qed.

Lemma wait_hung fuel : ∀ w, nodes_in L hung w →
  ∃ w', wait_finished platform_of probe_addr sched fuel pid w = Stuck OutOfFuel w'.
Proof.
  unfold wait_finished. induction fuel as [|fuel IH]; intros w Hw; [by exists w|].
  destruct (wp_elim _ _ _ (poll_hung w Hw)) as (r & w1 & H1 & -> & Hw1).
  destruct (IH w1 Hw1) as [w' Hw']. exists w'. cbn [iter]. unfold mbind at 1, M_bind at 1. by rewrite H1.
Qed.

Lemma tell_hung fuel w : nodes_in L interrupted w →
  ∃ w', tell_and_wait platform_of probe_addr sched fuel pid msg sig w = Stuck OutOfFuel w'.
Proof.
  intros Hw. destruct (wp_elim _ _ _ (comm_send_wp platform_of probe_addr sched L L_nodup interrupted told_inside w pid msg
    interrupted_stable Hpid Hw ltac:(intros n c Hn Hp ?; by destruct (Hn Hp) as (? & ? & ? & ?)) ltac:(by intros n _ Hp ?)))
    as ([] & w1 & H1 & Hw1).
  assert (Hsend : wp (kill platform_of probe_addr sched pid sig) (λ r w', r = 0 ∧ nodes_in L hung w') w1).
  { apply (kill_wp platform_of probe_addr sched L L_nodup told_inside hung w1 pid sig told_inside_stable Hpid Hw1).
    - intros n Hn Hp. by destruct (Hn Hp).
    - intros n Hn Hp Hp'. destruct (Hn Hp) as (Ha & Hq & Hh & Hs). unfold raise. rewrite Hq.
      rewrite bool_decide_eq_false_2 by (rewrite elem_of_nil; tauto). split; [done|]. right. simpl. done.
    - by intros n _ Hp ?. }
  destruct (wp_elim _ _ _ Hsend) as (r & w2 & H2 & _ & Hw2). destruct (wait_hung fuel w2 Hw2) as [w' Hw']. exists w'.
  unfold tell_and_wait, mbind, M_bind. by rewrite H1, H2.
Qed.
End Waits.

(** C35: a checkpoint that reaches a worker inside [cudaMalloc] or [cudaFree] never ends. Let the signal of a checkpoint
    or restore message be delivered while the thread is inside a hook, whatever part of it has been done. The handler does not
    answer, and if it gets as far as the lock it is stuck there: the thread waits for a mutex it holds itself. The coordinator, under
    every schedule and for every number of rounds, goes on polling. *)
Theorem signal_inside_hook {W D P} {GW : GPU W} {GO : GPUObject W} {CD : CuDriver D} {SK : Sockets D} {PX : Posix P}
    {BD : Build} platform_of probe_addr sched pid msg sig (n : node W D P) (w : world W D P) :
  inside_hook (n_proc n) → n_alive n = true → n_pending n = [] → n_pid n = pid →
  msg ∈ cr_messages → sig ∈ cr_signals → NoDup (n_pid <$> nodes w) → n ∈ nodes w →
  let p := set_control (put_msg msg (control (n_proc n))) (n_proc n) in
  let h := cr_signal_handler (PF:=platform_of pid) sig in
  (∀ p', h p ≠ Ret tt p') ∧
  (wp (_ ← pushContext; syncAllKernels) (λ _ _, True) (vgpu (vg p)) → ∃ p', h p = Stuck Deadlocked p') ∧
  ∀ fuel, ∃ w', tell_and_wait platform_of probe_addr sched fuel pid msg sig w = Stuck OutOfFuel w'.
Proof.
  intros Hin Ha Hq Hpid Hmsg Hsig Hnd Hn p h. destruct (inside_held _ Hin) as [Hi Hl].
  assert (Hquiet : quiet h (λ _ _, False) p) by (by apply handler_quiet). split_and!.
  - intros p' Hp'. unfold quiet in Hquiet. rewrite Hp' in Hquiet. by destruct Hquiet.
  - intros Hgpu. destruct (handler_stops (PF:=platform_of pid) sig p Hsig Hmsg Hi Hl Hgpu) as (p' & Hp' & _). by exists p'.
  - intros fuel. apply (tell_hung platform_of probe_addr sched (n_pid <$> nodes w) Hnd pid msg sig); [|done|done|].
    + rewrite <- Hpid. by apply list_elem_of_fmap_2.
    + split; [done|]. intros n' Hn' Hp. replace n' with n; [done|]. rewrite <- Hpid in Hp.
      apply list_elem_of_lookup in Hn as (i & Hi'), Hn' as (j & Hj).
      assert (i = j) as <-; [|congruence]. eapply (NoDup_lookup (n_pid <$> nodes w)); [done|by rewrite list_lookup_fmap, Hi'|].
      rewrite list_lookup_fmap, Hj. simpl. congruence.
Qed.

(** Worker 10 is interrupted in [cudaMalloc], after the device is known and before the memory is created. *)
Definition in_cudaMalloc : M (nv sim) (Z + Z) := _ ← hook_init; hook_device.
Definition interrupted_worker : proc (nv sim) cusim osim :=
  match up_to in_cudaMalloc (vg (two_workers 10)) with Ret _ v => set_vg v (two_workers 10) | _ => two_workers 10 end.
Definition interrupted_node : node (nv sim) cusim osim := MkNode 10 interrupted_worker true [].
Definition interrupted_machine : world (nv sim) cusim osim :=
  MkWorld [interrupted_node; MkNode 20 (two_workers 20) true []] 0 (MkOs 3 (2 ^ 40) 0) ∅ ∅ [].

Lemma signal_inside_hook_witness :
  (∃ p', cr_signal_handler (PF:=same_platform 10) CR_CKPT_SIGNAL
    (set_control (put_msg CKPT_MSG (control (n_proc interrupted_node))) (n_proc interrupted_node)) = Stuck Deadlocked p') ∧
  ∃ w', tell_and_wait same_platform 77 every_time 1000 10 CKPT_MSG CR_CKPT_SIGNAL interrupted_machine = Stuck OutOfFuel w'.
Proof.
  assert (Hin : inside_hook (n_proc interrupted_node)).
  { split; [vm_compute; reflexivity|]. exists (Z + Z)%type, in_cudaMalloc, (vg (two_workers 10)). eexists. vm_compute. reflexivity. }
  destruct (signal_inside_hook (BD:=nvidia_build) same_platform 77 every_time 10 CKPT_MSG CR_CKPT_SIGNAL interrupted_node
    interrupted_machine Hin eq_refl eq_refl eq_refl ltac:(unfold cr_messages; set_solver) ltac:(unfold cr_signals; set_solver)
    ltac:(apply (bool_decide_unpack _); vm_compute; exact I) ltac:(by left)) as (_ & Hs & Hw).
  split; [refine (Hs _); vm_compute; exact I|exact (Hw _)].
Defined.
