(* ===== verification/Runtime.v ===== *)
(** The checkpoint runtime of the NCCL adapter,
    [src/adapters/nccl/runtime/gcr_checkpoint_runtime.cpp].

    It drives the IPC module of [IpcHooks] from inside the application: [prepare] saves and
    tears everything down, [restore_export] and [restore_import] rebuild it.  The mutex
    serialises the entry points; the metrics file and the timing are left out. *)
From stdpp Require Import pretty.
From S2P Require Import Prelude Text Common Gpu Ckpt IpcState IpcDriver FdExchange IpcHooks IpcExports Process.
Open Scope Z_scope.

Definition GCR_CKPT_OPT_VALIDATE : Z := 1024.

Record StorageBuffer := MkStorage { b_ptr : option Z; b_size : Z; b_fd : Z; b_pinned : bool; b_path : string }.
Definition empty_storage : StorageBuffer := MkStorage None 0 (-1) false "".

(** The CUDA runtime calls of this file. *)
Class CudaHost (D : Type) := {
  cudaDeviceSynchronize : M D Z;
  cudaHostAlloc : Z → M D (Z * Z);       (* error and pointer *)
  cudaFreeHost : Z → M D Z
}.

(** [mkdir] (true when the directory is there afterwards) and [unlink]. *)
Class PosixDirs (P : Type) := { mkdir : string → M P bool; unlink_file : string → M P Z }.

Record runtime (D P : Type) := MkRt {
  rt_hooks : ipc D;
  rt_server : UdsServerCtx;
  rt_thread : option thread_pc;
  rt_os : P;
  rt_shm : gmap string IpcRebuildShmBlock;        (* the contents of the block files *)
  g_prepared : bool;
  g_export_data : StorageBuffer;
  g_local_alloc_data : StorageBuffer;
  g_storage_file_seq : Z
}.
Arguments MkRt {D P}. Arguments rt_hooks {D P}. Arguments rt_server {D P}. Arguments rt_thread {D P}.
Arguments rt_os {D P}. Arguments rt_shm {D P}. Arguments g_prepared {D P}. Arguments g_export_data {D P}.
Arguments g_local_alloc_data {D P}. Arguments g_storage_file_seq {D P}.

Section Runtime.
Context {D P : Type} {CD : CuDriver D} {CH : CudaHost D} {SK : Sockets D} {PX : Posix P} {PD : PosixDirs P} {PF : Platform}.
(** Where the local variable [probe] of the validation is. *)
Context (probe_addr : Z).
Abbreviation rt := (runtime D P).

Definition set_rt_hooks x (s : rt) : rt := MkRt x (rt_server s) (rt_thread s) (rt_os s) (rt_shm s) (g_prepared s)
  (g_export_data s) (g_local_alloc_data s) (g_storage_file_seq s).
Definition set_rt_fdx (x : fdx D) (s : rt) : rt := MkRt (set_cu (kern x) (rt_hooks s)) (g_server x) (thread x) (rt_os s)
  (rt_shm s) (g_prepared s) (g_export_data s) (g_local_alloc_data s) (g_storage_file_seq s).
Definition set_rt_os x (s : rt) : rt := MkRt (rt_hooks s) (rt_server s) (rt_thread s) x (rt_shm s) (g_prepared s)
  (g_export_data s) (g_local_alloc_data s) (g_storage_file_seq s).
Definition set_rt_shm x (s : rt) : rt := MkRt (rt_hooks s) (rt_server s) (rt_thread s) (rt_os s) x (g_prepared s)
  (g_export_data s) (g_local_alloc_data s) (g_storage_file_seq s).
Definition set_prepared x (s : rt) : rt := MkRt (rt_hooks s) (rt_server s) (rt_thread s) (rt_os s) (rt_shm s) x
  (g_export_data s) (g_local_alloc_data s) (g_storage_file_seq s).
Definition set_rt_export x (s : rt) : rt := MkRt (rt_hooks s) (rt_server s) (rt_thread s) (rt_os s) (rt_shm s)
  (g_prepared s) x (g_local_alloc_data s) (g_storage_file_seq s).
Definition set_rt_local x (s : rt) : rt := MkRt (rt_hooks s) (rt_server s) (rt_thread s) (rt_os s) (rt_shm s)
  (g_prepared s) (g_export_data s) x (g_storage_file_seq s).
Definition set_rt_seq x (s : rt) : rt := MkRt (rt_hooks s) (rt_server s) (rt_thread s) (rt_os s) (rt_shm s)
  (g_prepared s) (g_export_data s) (g_local_alloc_data s) x.

Definition rt_ipc {A} (m : M (ipc D) A) : M rt A := zoom rt_hooks set_rt_hooks m.
Definition rt_cu {A} (m : M D A) : M rt A := rt_ipc (drv m).
Definition rt_sys {A} (m : M P A) : M rt A := zoom rt_os set_rt_os m.
Definition rt_fd {A} (m : M (fdx D) A) : M rt A :=
  zoom (λ s, MkFdx (cu (rt_hooks s)) (rt_server s) (rt_thread s)) set_rt_fdx m.

(** A set variable that is not empty. *)
Definition getenv_nonempty (name : string) : option string :=
  match getenv name with Some v => if bool_decide (v = "") then None else Some v | None => None end.

Definition storage_backend : string :=
  match getenv_nonempty "GCR_STORAGE_BACKEND" with
  | Some b => if bool_decide (b ∈ ["anon"; "pinned"; "hugepage"]%string) then b else "anon"
  | None => "anon"
  end.
Definition storage_dir : string := default "/mnt/huge-ckpt/nccl-gcr" (getenv_nonempty "GCR_STORAGE_DIR").

Definition env_int (name : string) (fallback : Z) : Z :=
  match getenv_nonempty name with
  | None => fallback
  | Some v => match strtol_all v with Some x => signed32 x | None => fallback end
  end.

(** ** Storage *)

Section Buffer.
(** [g_export_data] or [g_local_alloc_data]. *)
Context (buffer : rt → StorageBuffer) (set_buffer : StorageBuffer → rt → rt).

Definition release_buffer : M rt unit :=
  b ← get buffer;
  _ ← (match b_ptr b with
       | Some p =>
           if bool_decide (b_size b ≠ 0) then
             if b_pinned b then
               err ← rt_cu (cudaFreeHost p);
               if bool_decide (err ≠ 0) then _ ← rt_cu cudaGetLastError; mret tt else mret tt
             else _ ← rt_sys (munmap p (b_size b)); mret tt
           else mret tt
       | None => mret tt
       end);
  _ ← (if bool_decide (0 ≤ b_fd b) then _ ← rt_sys (close_file (b_fd b)); mret tt else mret tt);
  _ ← (if bool_decide (b_path b = "") then mret tt else _ ← rt_sys (unlink_file (b_path b)); mret tt);
  modify (set_buffer empty_storage).

Definition set_path_of (path : string) : M rt unit :=
  modify (λ s, set_buffer (MkStorage (b_ptr (buffer s)) (b_size (buffer s)) (b_fd (buffer s)) (b_pinned (buffer s)) path) s).

(** The backing file of the [hugepage] backend: its descriptor, or [None] after an error. *)
Definition open_backing (needed : Z) (name : string) : M rt (option Z) :=
  ok ← rt_sys (mkdir storage_dir);
  if negb ok then mret None else
  seq ← get g_storage_file_seq;
  _ ← modify (set_rt_seq (seq + 1));
  let path := snprintf 512 (storage_dir +:+ "/" +:+ name +:+ "-" +:+ pretty getpid +:+ "-" +:+ pretty seq +:+ ".bin") in
  _ ← set_path_of path;
  fd ← rt_sys (open_file path true 438);
  if bool_decide (fd < 0) then _ ← set_path_of ""; mret None else
  r ← rt_sys (ftruncate fd needed);
  if bool_decide (r ≠ 0) then
    _ ← rt_sys (close_file fd);
    _ ← rt_sys (unlink_file path);
    _ ← set_path_of "";
    mret None
  else mret (Some fd).

Definition allocate_buffer (needed : Z) (name : string) : M rt Z :=
  _ ← release_buffer;
  if bool_decide (needed = 0) then mret 0 else
  if bool_decide (storage_backend = "pinned") then
    r ← rt_cu (cudaHostAlloc needed);
    if bool_decide (r.1 ≠ 0) then _ ← rt_cu cudaGetLastError; mret (-1)
    else
      _ ← modify (λ s, set_buffer (MkStorage (Some r.2) needed (b_fd (buffer s)) true (b_path (buffer s))) s);
      mret 0
  else
  fd ← (if bool_decide (storage_backend = "hugepage") then open_backing needed name else mret (Some (-1)));
  match fd with
  | None => mret (-1)
  | Some fd =>
      p ← rt_sys (mmap needed (if bool_decide (0 ≤ fd) then SharedFile fd else Anonymous));
      match p with
      | None =>
          path ← get (λ s, b_path (buffer s));
          _ ← (if bool_decide (0 ≤ fd) then
                 _ ← rt_sys (close_file fd); _ ← rt_sys (unlink_file path); mret tt
               else mret tt);
          _ ← set_path_of "";
          mret (-1)
      | Some p =>
          _ ← modify (λ s, set_buffer (MkStorage (Some p) needed fd (b_pinned (buffer s)) (b_path (buffer s))) s);
          mret 0
      end
  end.

(** [if (buffer.ptr && buffer.size)] *)
Definition with_storage (default_ : Z) (f : Z → Z → M rt Z) : M rt Z :=
  b ← get buffer;
  match b_ptr b with
  | Some p => if bool_decide (b_size b ≠ 0) then f p (b_size b) else mret default_
  | None => mret default_
  end.
End Buffer.

Definition release_export : M rt unit := release_buffer g_export_data set_rt_export.
Definition release_local : M rt unit := release_buffer g_local_alloc_data set_rt_local.

(** The block file at [path]: its descriptor and mapping, or [None]. *)
Definition map_shm_block (path : string) (create : bool) : M rt (option (Z * Z)) :=
  fd ← rt_sys (open_file path create 438);
  if bool_decide (fd < 0) then mret None else
  r ← (if create then rt_sys (ftruncate fd sizeof_IpcRebuildShmBlock) else mret 0);
  if bool_decide (r ≠ 0) then _ ← rt_sys (close_file fd); mret None else
  p ← rt_sys (mmap sizeof_IpcRebuildShmBlock (SharedFile fd));
  match p with
  | None => _ ← rt_sys (close_file fd); mret None
  | Some p => mret (Some (p, fd))
  end.
Definition unmap_shm_block (p fd : Z) : M rt unit :=
  _ ← rt_sys (munmap p sizeof_IpcRebuildShmBlock);
  if bool_decide (0 ≤ fd) then _ ← rt_sys (close_file fd); mret tt else mret tt.

Definition zero_block : IpcRebuildShmBlock :=
  MkBlock 0 (replicate (Z.to_nat IPC_MAX_EXPORTS_PER_PROC) (MkEntry 0 0 0 0 0)).
Definition block_at (path : string) (s : rt) : IpcRebuildShmBlock := default zero_block (rt_shm s !! path).

(** ** Entry points *)

(** [if (r < 0) return -1;] *)
Definition or_fail (r : Z) (k : M rt Z) : M rt Z := if bool_decide (r < 0) then mret (-1) else k.

Definition gcr_checkpoint_prepare (flags : Z) : M rt Z :=
  done ← get g_prepared;
  if done : bool then mret 0 else
  err ← rt_cu cudaDeviceSynchronize;
  if bool_decide (err ≠ 0) then _ ← rt_cu cudaGetLastError; mret (-1) else
  imports ← rt_ipc ipc_teardown_all_imports;
  or_fail imports (
  needed ← rt_ipc ipc_get_export_data_size;
  r ← allocate_buffer g_export_data set_rt_export needed "export";
  if bool_decide (r ≠ 0) then mret (-1) else
  exports ← with_storage g_export_data 0 (λ p n, rt_ipc (ipc_save_and_teardown_all_exports p n));
  or_fail exports (
  events ← rt_ipc ipc_teardown_all_events;
  or_fail events (
  needed ← rt_ipc ipc_get_local_alloc_data_size;
  r ← allocate_buffer g_local_alloc_data set_rt_local needed "local_cumem";
  if bool_decide (r ≠ 0) then mret (-1) else
  locals ← with_storage g_local_alloc_data 0 (λ p n, rt_ipc (ipc_save_and_teardown_local_allocs p n));
  or_fail locals (
  _ ← rt_ipc ipc_disable_all_peer_access;
  _ ← modify (set_prepared true);
  mret 0)))).

Definition gcr_checkpoint_restore_export (flags : Z) : M rt Z :=
  exports ← with_storage g_export_data 0 (λ p n,
    r ← rt_ipc (ipc_rebuild_and_restore_all_exports p n); _ ← release_export; mret r);
  or_fail exports (
  locals ← with_storage g_local_alloc_data 0 (λ p n,
    r ← rt_ipc (ipc_rebuild_local_allocs p n); _ ← release_local; mret r);
  or_fail locals (
  count ← rt_ipc ipc_get_export_count;
  published ← (match getenv_nonempty "GCR_EXPORT_SHM_PATH" with
    | Some path =>
        m ← map_shm_block path true;
        match m with
        | None => mret (-1)
        | Some (p, fd) =>
            b ← get (block_at path);
            r ← rt_ipc (ipc_write_export_info_to_shm b);
            _ ← modify (λ s, set_rt_shm (<[path := r.2]> (rt_shm s)) s);
            _ ← unmap_shm_block p fd;
            mret r.1
        end
    | None => mret (if bool_decide (0 < count) then -1 else 0)
    end);
  or_fail published (
  r ← rt_fd (uds_fd_server_start getpid);
  mret (if bool_decide (r ≠ 0) then -1 else 0)))).

Definition gcr_checkpoint_restore_import (fuel : nat) (flags : Z) : M rt Z :=
  count ← rt_ipc ipc_get_import_count;
  imported ← (match getenv_nonempty "GCR_IMPORT_SHM_PATH" with
    | Some path =>
        m ← map_shm_block path false;
        match m with
        | None => mret (-1)
        | Some (p, fd) =>
            b ← get (block_at path);
            r ← rt_ipc (ipc_import_from_shm_block b);
            _ ← unmap_shm_block p fd;
            mret r
        end
    | None => mret (if bool_decide (0 < count) then -1 else 0)
    end);
  or_fail imported (
  _ ← (if bool_decide (env_int "GCR_STOP_FD_SERVER_AFTER_IMPORT" 0 ≠ 0) then rt_fd (uds_fd_server_stop fuel) else mret tt);
  errors ← (if bool_decide (Z.land flags GCR_CKPT_OPT_VALIDATE ≠ 0) then rt_ipc (ipc_validate_all_mappings probe_addr)
            else mret 0);
  if bool_decide (errors ≠ 0) then mret (-1) else
  _ ← rt_ipc ipc_reenable_all_peer_access;
  _ ← modify (set_prepared false);
  mret 0).

Definition gcr_checkpoint_validate (flags : Z) : M rt Z := rt_ipc (ipc_validate_all_mappings probe_addr).

End Runtime.
