(* ===== verification/RuntimeFacts.v ===== *)
(** The entry points of the checkpoint runtime come back and keep its state sound. *)
From stdpp Require Import pretty.
From S2P Require Import Prelude Text Common Gpu Ckpt IpcState IpcDriver FdExchange FdFacts IpcHooks IpcExports.
From S2P Require Import IpcSafe IpcPublish Process Handlers HandlerFacts Runtime Frames.
Open Scope Z_scope.

(** An empty buffer holds nothing; a full one is host memory of CUDA, a mapping of an open
    backing file, or an anonymous mapping. *)
Definition storage_ok (b : StorageBuffer) : Prop :=
  match b_ptr b with
  | None => b = empty_storage
  | Some _ => b_size b ≠ 0 ∧
      if b_pinned b then b_fd b = -1 ∧ b_path b = ""%string else (0 ≤ b_fd b ↔ b_path b ≠ ""%string)
  end.

(** The other system calls come back too. *)
Class FileReturns (D P : Type) {CH : CudaHost D} {PX : Posix P} {PD : PosixDirs P} := {
  sync_ret : returns cudaDeviceSynchronize;
  host_alloc_ret n : returns (cudaHostAlloc n);
  free_host_ret p : returns (cudaFreeHost p);
  open_ret p c m : returns (open_file p c m);
  ftruncate_ret fd n : returns (ftruncate fd n);
  close_file_ret fd : returns (close_file fd);
  mkdir_ret p : returns (mkdir p);
  unlink_file_ret p : returns (unlink_file p)
}.

Section Runtime.
Context {D P : Type} {CD : CuDriver D} {CT : CuReturns D} {CH : CudaHost D} {SK : Sockets D} {SR : SockReturns D} {TP : TalkingPeers D}.
Context {PX : Posix P} {PR : PosixReturns P} {PD : PosixDirs P} {FR : FileReturns D P} {PF : Platform}.
Context (probe_addr : Z).
Abbreviation rt := (runtime D P).
Implicit Types (s : rt).

(** The state but for the two buffers. *)
Record steady s : Prop := {
  st_fns : resolved (fns (rt_hooks s));
  st_shm path b : rt_shm s !! path = Some b → block_ok b
}.
Record sound s : Prop := {
  sd_steady : steady s;
  sd_export : storage_ok (g_export_data s);
  sd_local : storage_ok (g_local_alloc_data s)
}.

(** [m] comes back in a sound state, with a result in [Q]. *)
Definition stays {A} (m : M rt A) : Prop := ∀ s, sound s → wp m (λ _ s', sound s') s.

Lemma stays_bind {A B} (m : M rt A) (f : A → M rt B) : stays m → (∀ a, stays (f a)) → stays (m ≫= f).
Proof. intros Hm Hf s Hs. apply wp_bind. eapply wp_mono; [by apply Hm|]. intros a s' Hs'. by apply Hf. Qed.
Lemma stays_ret {A} (a : A) : stays (mret a).
Proof. by intros s Hs. Qed.
Lemma stays_get {A} (f : rt → A) : stays (get f).
Proof. by intros s Hs. Qed.
Lemma stays_if {A} (b : bool) (m1 m2 : M rt A) : stays m1 → stays m2 → stays (if b then m1 else m2).
Proof. by destruct b. Qed.
Lemma stays_modify f : (∀ s, sound s → sound (f s)) → stays (modify f).
Proof. intros Hf s Hs. by apply Hf. Qed.
Lemma stays_ipc {A} (m : M (ipc D) A) : (∀ f, resolved f → safe f m) → stays (rt_ipc m).
Proof.
  intros Hm s [[Hf Hb] He Hl]. apply wp_zoom. eapply safe_wp; [by apply Hm|done|]. intros a h Hh _ _.
  split; [split; [by rewrite <- Hh in Hf|done]|done|done].
Qed.
Lemma stays_sys {A} (m : M P A) : returns m → stays (rt_sys m).
Proof. intros Hm s [[Hf Hb] He Hl]. apply wp_zoom. eapply wp_mono; [apply Hm|]. intros a o _. by split. Qed.
Lemma stays_fd {A} (m : M (fdx D) A) : returns m → stays (rt_fd m).
Proof. intros Hm s [[Hf Hb] He Hl]. apply wp_zoom. eapply wp_mono; [apply Hm|]. intros a x _. by split. Qed.
Lemma stays_cu {A} (m : M D A) : returns m → stays (rt_cu m).
Proof.
  intros Hm s [[Hf Hb] He Hl]. apply wp_zoom, wp_zoom. eapply wp_mono; [apply Hm|]. intros a d _. by split.
Qed.

(** ** The storage buffers *)

Section Buffer.
Context (buffer : rt → StorageBuffer) (set_buffer : StorageBuffer → rt → rt).

(** One of the two buffers, and the state around it. *)
Record lens (Sd : rt → Prop) : Prop := {
  ln_get b s : buffer (set_buffer b s) = b;
  ln_sound s : sound s ↔ Sd s ∧ storage_ok (buffer s);
  ln_set b s : Sd s → Sd (set_buffer b s);
  ln_os o s : Sd s → Sd (set_rt_os o s) ∧ buffer (set_rt_os o s) = buffer s;
  ln_seq n s : Sd s → Sd (set_rt_seq n s) ∧ buffer (set_rt_seq n s) = buffer s;
  ln_cu d s : Sd s → Sd (set_rt_hooks (set_cu d (rt_hooks s)) s) ∧
    buffer (set_rt_hooks (set_cu d (rt_hooks s)) s) = buffer s
}.
Context (Sd : rt → Prop) (HL : lens Sd).

Lemma sys_keep {A} (m : M P A) s b (Q : A → rt → Prop) : returns m → Sd s → buffer s = b →
  (∀ a s', Sd s' → buffer s' = b → Q a s') → wp (rt_sys m) Q s.
Proof.
  intros Hm Hs Hb HQ. apply wp_zoom. eapply wp_mono; [apply Hm|]. intros a o _.
  destruct (ln_os _ HL o s Hs) as [H1 H2]. apply HQ; [done|congruence].
Qed.
Lemma cu_keep {A} (m : M D A) s b (Q : A → rt → Prop) : returns m → Sd s → buffer s = b →
  (∀ a s', Sd s' → buffer s' = b → Q a s') → wp (rt_cu m) Q s.
Proof.
  intros Hm Hs Hb HQ. apply wp_zoom, wp_zoom. eapply wp_mono; [apply Hm|]. intros a d _.
  destruct (ln_cu _ HL d s Hs) as [H1 H2]. apply HQ; [done|congruence].
Qed.

Lemma release_wp s : Sd s → wp (release_buffer buffer set_buffer) (λ _ s', Sd s' ∧ buffer s' = empty_storage) s.
Proof.
  intros Hs. unfold release_buffer. apply wp_bind, wp_get. set (b := buffer s). apply wp_bind.
  assert (Hmid : wp (match b_ptr b with
       | Some p =>
           if bool_decide (b_size b ≠ 0) then
             if b_pinned b then
               err ← rt_cu (cudaFreeHost p);
               if bool_decide (err ≠ 0) then _ ← rt_cu cudaGetLastError; mret tt else mret tt
             else _ ← rt_sys (munmap p (b_size b)); mret tt
           else mret tt
       | None => mret tt
       end) (λ _ s', Sd s') s).
  { destruct (b_ptr b) as [p|]; [|done]. case_bool_decide; [|by apply wp_ret]. destruct (b_pinned b); apply wp_bind.
    - apply (cu_keep _ s b); [apply free_host_ret|done|done|]. intros err s1 H1 Hb1. case_bool_decide; [|by apply wp_ret].
      apply wp_bind, (cu_keep _ s1 b); [apply cuLastError_ret|done|done|]. intros ? s2 H2 _. by apply wp_ret.
    - apply (sys_keep _ s b); [apply munmap_ret|done|done|]. intros ? s1 H1 _. by apply wp_ret. }
  eapply wp_mono; [exact Hmid|]. clear Hmid. intros ? s1 H1; cbv beta in H1. apply wp_bind.
  eapply (wp_mono _ (λ _ s', Sd s')).
  { case_bool_decide; [|by apply wp_ret]. apply wp_bind, (sys_keep _ s1 (buffer s1)); [apply close_file_ret|done|done|].
    intros ? s2 H2 _. by apply wp_ret. }
  intros ? s2 H2; cbv beta in H2. apply wp_bind. eapply (wp_mono _ (λ _ s', Sd s')).
  { case_bool_decide; [by apply wp_ret|]. apply wp_bind, (sys_keep _ s2 (buffer s2)); [apply unlink_file_ret|done|done|].
    intros ? s3 H3 _. by apply wp_ret. }
  intros ? s3 H3; cbv beta in H3. apply wp_modify. split; [by apply (ln_set _ HL)|apply (ln_get _ HL)].
Qed.

Lemma set_path_wp path s b : Sd s → buffer s = b → wp (set_path_of buffer set_buffer path) (λ _ s', Sd s' ∧
  buffer s' = MkStorage (b_ptr b) (b_size b) (b_fd b) (b_pinned b) path) s.
Proof. intros Hs <-. apply wp_modify. split; [by apply (ln_set _ HL)|apply (ln_get _ HL)]. Qed.

Lemma snprintf_nonempty (t : string) : t ≠ ""%string → snprintf 512 t ≠ ""%string.
Proof. by destruct t. Qed.

Lemma backing_path_nonempty (a b : string) : (a +:+ Str (Ascii.ascii_of_nat 47) b)%string ≠ ""%string.
Proof. by destruct a. Qed.

Lemma open_backing_wp needed name s : Sd s → buffer s = empty_storage →
  wp (open_backing buffer set_buffer needed name) (λ r s', Sd s' ∧ match r with
    | None => buffer s' = empty_storage
    | Some fd => 0 ≤ fd ∧ ∃ path, path ≠ ""%string ∧ buffer s' = MkStorage None 0 (-1) false path
    end) s.
Proof.
  intros Hs Hb. unfold open_backing. apply wp_bind, (sys_keep _ s empty_storage); [apply mkdir_ret|done|done|].
  intros ok s1 H1 Hb1. destruct ok; [|by apply wp_ret]. cbn [negb]. apply wp_bind, wp_get, wp_bind, wp_modify.
  destruct (ln_seq _ HL (g_storage_file_seq s1 + 1) s1 H1) as [H2 Hb2]. set (s2 := set_rt_seq _ s1) in *.
  set (path := snprintf 512 _). assert (Hpath : path ≠ ""%string).
  { apply snprintf_nonempty, (backing_path_nonempty storage_dir). }
  apply wp_bind. eapply wp_mono; [apply (set_path_wp path s2 empty_storage); [done|congruence]|].
  intros _ s3 [H3 Hb3]. cbn in Hb3. apply wp_bind, (sys_keep _ s3 _ _ (open_ret path true 438) H3 Hb3).
  intros fd s4 H4 Hb4. case_bool_decide.
  { apply wp_bind. eapply wp_mono; [by apply (set_path_wp ""%string s4)|]. intros _ s5 [H5 Hb5]. by apply wp_ret. }
  apply wp_bind, (sys_keep _ s4 _ _ (ftruncate_ret fd needed) H4 Hb4). intros r s5 H5 Hb5. case_bool_decide.
  - apply wp_bind, (sys_keep _ s5 _ _ (close_file_ret fd) H5 Hb5). intros ? s6 H6 Hb6.
    apply wp_bind, (sys_keep _ s6 _ _ (unlink_file_ret path) H6 Hb6). intros ? s7 H7 Hb7.
    apply wp_bind. eapply wp_mono; [by apply (set_path_wp ""%string s7)|]. intros _ s8 [H8 Hb8]. by apply wp_ret.
  - apply wp_ret. split; [done|]. split; [lia|]. by exists path.
Qed.

Lemma allocate_wp needed name s : Sd s →
  wp (allocate_buffer buffer set_buffer needed name) (λ r s', Sd s' ∧ storage_ok (buffer s') ∧
    (needed = 0 → r = 0 ∧ buffer s' = empty_storage)) s.
Proof.
  intros Hs. unfold allocate_buffer. apply wp_bind. eapply wp_mono; [by apply release_wp|]. intros _ s1 [H1 Hb1].
  case_bool_decide as Hn; [apply wp_ret; by rewrite Hb1|]. case_bool_decide.
  { apply wp_bind, (cu_keep _ s1 _ _ (host_alloc_ret needed) H1 Hb1). intros [err p] s2 H2 Hb2. case_bool_decide.
    - apply wp_bind, (cu_keep _ s2 _ _ cuLastError_ret H2 Hb2). intros ? s3 H3 Hb3. apply wp_ret. by rewrite Hb3.
    - apply wp_bind, wp_modify, wp_ret. split; [by apply (ln_set _ HL)|]. rewrite (ln_get _ HL), Hb2. by split. }
  apply wp_bind. eapply (wp_mono _ (λ r s', Sd s' ∧ match r with
    | None => buffer s' = empty_storage
    | Some fd => (0 ≤ fd ∧ ∃ path, path ≠ ""%string ∧ buffer s' = MkStorage None 0 (-1) false path) ∨
                 (fd = -1 ∧ buffer s' = empty_storage)
    end)).
  { case_bool_decide; [|apply wp_ret; split; [done|by right]].
    eapply wp_mono; [by apply open_backing_wp|]. intros [fd|] s2 [H2 Hb2]; split; auto. }
  intros [fd|] s2 [H2 Hb2]; [|apply wp_ret; by rewrite Hb2].
  assert (Hb : ∃ path, buffer s2 = MkStorage None 0 (-1) false path ∧ (0 ≤ fd ↔ path ≠ ""%string)).
  { destruct Hb2 as [(Hfd & path & Hp & Hb2)|[-> Hb2]]; [by exists path|]. exists ""%string. split; [done|]. split; [lia|done]. }
  destruct Hb as (path & Hbuf & Hiff). clear Hb2. apply wp_bind, (sys_keep _ s2 _ _ (mmap_ret _ _) H2 Hbuf).
  intros [p|] s3 H3 Hb3.
  - apply wp_bind, wp_modify, wp_ret. split; [by apply (ln_set _ HL)|]. rewrite (ln_get _ HL), Hb3. by split.
  - apply wp_bind, wp_get, wp_bind. eapply (wp_mono _ (λ _ s', Sd s' ∧ buffer s' = MkStorage None 0 (-1) false path)).
    { case_bool_decide; [|by apply wp_ret]. apply wp_bind, (sys_keep _ s3 _ _ (close_file_ret fd) H3 Hb3). intros ? s4 H4 Hb4.
      apply wp_bind, (sys_keep _ s4 _ _ (unlink_file_ret _) H4 Hb4). intros ? s5 H5 Hb5. by apply wp_ret. }
    intros _ s4 [H4 Hb4]. apply wp_bind. eapply wp_mono; [by apply (set_path_wp ""%string s4)|].
    intros _ s5 [H5 Hb5]. apply wp_ret. by rewrite Hb5.
Qed.

Lemma stays_allocate needed name : stays (allocate_buffer buffer set_buffer needed name).
Proof.
  intros s [Hs _]%(ln_sound _ HL). eapply wp_mono; [by apply allocate_wp|]. intros r s' (H1 & H2 & _).
  by apply (ln_sound _ HL).
Qed.
Lemma stays_release : stays (release_buffer buffer set_buffer).
Proof.
  intros s [Hs _]%(ln_sound _ HL). eapply wp_mono; [by apply release_wp|]. intros ? s' [H1 H2].
  apply (ln_sound _ HL). by rewrite H2.
Qed.
Lemma stays_storage d f : (∀ p n, stays (f p n)) → stays (with_storage buffer d f).
Proof.
  intros Hf. unfold with_storage. apply stays_bind; [apply stays_get|]. intros b. destruct (b_ptr b); [|apply stays_ret].
  apply stays_if; [apply Hf|apply stays_ret].
Qed.
End Buffer.

Definition around_export s : Prop := steady s ∧ storage_ok (g_local_alloc_data s).
Definition around_local s : Prop := steady s ∧ storage_ok (g_export_data s).

Lemma export_lens : lens g_export_data set_rt_export around_export.
Proof.
  split; intros *; try done; unfold around_export.
  - split; [intros [? ? ?]; done|intros [[? ?] ?]; by split].
  - intros [[Hf Hb] Hl]. split; [by split|done].
  - intros [[Hf Hb] Hl]. split; [split; [by split|done]|done].
  - intros [[Hf Hb] Hl]. split; [split; [by split|done]|done].
  - intros [[Hf Hb] Hl]. split; [split; [by split|done]|done].
Qed.
Lemma local_lens : lens g_local_alloc_data set_rt_local around_local.
Proof.
  split; intros *; try done; unfold around_local.
  - split; [intros [? ? ?]; done|intros [[? ?] ?]; by split].
  - intros [[Hf Hb] Hl]. split; [by split|done].
  - intros [[Hf Hb] Hl]. split; [split; [by split|done]|done].
  - intros [[Hf Hb] Hl]. split; [split; [by split|done]|done].
  - intros [[Hf Hb] Hl]. split; [split; [by split|done]|done].
Qed.
End Runtime.

(** ** What the entry points leave alone, and phases *)

Ltac still_auto := unfold rt_cu, rt_ipc, rt_sys, rt_fd; eauto 60 with still.

Section Flow.
Context {D P : Type} {CD : CuDriver D} {CH : CudaHost D} {SK : Sockets D} {PX : Posix P} {PD : PosixDirs P} {PF : Platform}.
Context (probe_addr : Z) (fuel : nat).
Abbreviation rt := (runtime D P).

(** The flag and the two buffers. *)
Definition core (s : rt) : bool * StorageBuffer * StorageBuffer := (g_prepared s, g_export_data s, g_local_alloc_data s).

Section Buffer.
Context {B : Type} (F : rt → B) (buffer : rt → StorageBuffer) (set_buffer : StorageBuffer → rt → rt).
Context (Hh : ∀ x s, F (set_rt_hooks x s) = F s) (Ho : ∀ x s, F (set_rt_os x s) = F s).
Context (Hq : ∀ x s, F (set_rt_seq x s) = F s) (Hb : ∀ x s, F (set_buffer x s) = F s).

Lemma still_cu {A} (m : M D A) : still F (rt_cu m).
Proof. apply still_zoom. intros; apply Hh. Qed.
Lemma still_sys {A} (m : M P A) : still F (rt_sys m).
Proof. apply still_zoom. intros; apply Ho. Qed.
Lemma still_path p : still F (set_path_of buffer set_buffer p).
Proof. apply still_modify. intros; apply Hb. Qed.
Local Hint Resolve still_cu still_sys still_path : still.

Lemma still_release : still F (release_buffer buffer set_buffer).
Proof.
  unfold release_buffer. repeat (apply still_bind; [|intros ?]); eauto 12 with still. apply still_modify. intros; apply Hb.
Qed.
Lemma still_open needed name : still F (open_backing buffer set_buffer needed name).
Proof.
  unfold open_backing. cbv zeta. apply still_bind; [eauto with still|]. intros ok. apply still_if; [eauto with still|].
  apply still_bind; [eauto with still|]. intros n. apply still_bind; [apply still_modify; intros; apply Hq|]. intros ?.
  eauto 20 with still.
Qed.
Lemma still_allocate needed name : still F (allocate_buffer buffer set_buffer needed name).
Proof.
  assert (Hm : ∀ g, still F (modify (λ s, set_buffer (g s) s))) by (intros g; apply still_modify; intros; apply Hb).
  unfold allocate_buffer. apply still_bind; [apply still_release|]. intros ?. apply still_if; [eauto with still|].
  apply still_if; [eauto 12 with still|]. apply still_bind; [eauto using still_open with still|].
  intros [fd|]; [|eauto with still]. apply still_bind; [eauto with still|]. intros [p|]; eauto 20 with still.
Qed.
End Buffer.

(** What a process has been through: the flag, and whether each buffer holds data. *)
Record phase := MkPhase { ph_prepared : bool; ph_exports : bool; ph_locals : bool }.
Definition holds (b : StorageBuffer) : bool := bool_decide (is_Some (b_ptr b)).
Definition phase_of (s : rt) : phase :=
  MkPhase (g_prepared s) (holds (g_export_data s)) (holds (g_local_alloc_data s)).

Lemma phase_core s s' : core s' = core s → phase_of s' = phase_of s.
Proof. unfold core, phase_of. by intros [= -> -> ->]. Qed.

(** Restoring from a buffer empties it, and runs only when there is something in it. *)
Lemma storage_empties buffer set_buffer (f : Z → Z → M (ipc D) Z) s :
  (∀ x s, buffer (set_buffer x s) = x) →
  storage_ok (buffer s) →
  post (with_storage buffer 0 (λ p n, r ← rt_ipc (f p n); _ ← release_buffer buffer set_buffer; mret r))
    (λ _ s', buffer s' = empty_storage) s.
Proof.
  intros Hg Hok. unfold with_storage. apply (post_bind _ _ (λ b s', s' = s ∧ b = buffer s)); [done|].
  intros b s' [-> ->]. unfold storage_ok in Hok. destruct (b_ptr (buffer s)) as [p|] eqn:Hp; [|by apply post_ret].
  rewrite bool_decide_eq_true_2 by apply Hok. apply (post_bind _ _ (λ _ _, True)); [apply post_true|]. intros r s1 _.
  apply (post_bind _ _ (λ _ s', buffer s' = empty_storage)); [|done]. unfold release_buffer.
  repeat (eapply (post_bind _ _ (λ _ _, True)); [apply post_true|]; intros ? ? _). apply Hg.
Qed.
End Flow.
