(* ===== verification/RuntimeTheorems.v ===== *)
(** The checkpoint runtime of the NCCL adapter: the theorems. *)
From S2P Require Import Prelude Frames Text Common Gpu Ckpt IpcState IpcDriver FdExchange FdFacts IpcHooks IpcExports IpcRules.
From S2P Require Import IpcSafe CuSim IpcTracking IpcTheorems IpcPublish ImportTheorems Process Handlers HandlerFacts ProcSim Runtime RuntimeFacts.
Open Scope Z_scope.

(** The calls an application makes. *)
Inductive entry := Prepare (flags : Z) | RestoreExport (flags : Z) | RestoreImport (flags : Z) | Validate (flags : Z).

Lemma wp_and {S A} (m : M S A) (P Q : A → S → Prop) s : wp m P s → wp m Q s → wp m (λ a s', P a s' ∧ Q a s') s.
Proof. unfold wp. by destruct (m s). Qed.

Section Entries.
Context {D P : Type} {CD : CuDriver D} {CT : CuReturns D} {CH : CudaHost D} {SK : Sockets D} {SR : SockReturns D} {TP : TalkingPeers D}.
Context {PX : Posix P} {PR : PosixReturns P} {PD : PosixDirs P} {FR : FileReturns D P} {PF : Platform}.
Context (probe_addr : Z) (fuel : nat).
Abbreviation rt := (runtime D P).

Definition run_entry (e : entry) : M rt Z :=
  match e with
  | Prepare flags => gcr_checkpoint_prepare flags
  | RestoreExport flags => gcr_checkpoint_restore_export flags
  | RestoreImport flags => gcr_checkpoint_restore_import probe_addr fuel flags
  | Validate flags => gcr_checkpoint_validate probe_addr flags
  end.

(** ** Every entry point comes back *)

Lemma stays_or_fail r (k : M rt Z) : stays k → stays (or_fail r k).
Proof. intros Hk. apply stays_if; [apply stays_ret|done]. Qed.

Lemma stays_map path create : stays (D:=D) (P:=P) (map_shm_block path create).
Proof.
  unfold map_shm_block. apply stays_bind; [apply stays_sys, open_ret|]. intros fd. apply stays_if; [apply stays_ret|].
  apply stays_bind; [apply stays_if; [apply stays_sys, ftruncate_ret|apply stays_ret]|]. intros r. apply stays_if.
  - apply stays_bind; [apply stays_sys, close_file_ret|]. intros _. apply stays_ret.
  - apply stays_bind; [apply stays_sys, mmap_ret|]. intros [p|]; [apply stays_ret|].
    apply stays_bind; [apply stays_sys, close_file_ret|]. intros _. apply stays_ret.
Qed.
Lemma stays_unmap p fd : stays (D:=D) (P:=P) (unmap_shm_block p fd).
Proof.
  unfold unmap_shm_block. apply stays_bind; [apply stays_sys, munmap_ret|]. intros _. apply stays_if; [|apply stays_ret].
  apply stays_bind; [apply stays_sys, close_file_ret|]. intros _. apply stays_ret.
Qed.

Tactic Notation "rt_step" uconstr(l) := apply stays_bind; [apply stays_ipc; intros; by apply l|intros ?].

(** What [prepare] does once the exports have their buffer. *)
Definition prepare_rest : M rt Z :=
  exports ← with_storage g_export_data 0 (λ p n, rt_ipc (ipc_save_and_teardown_all_exports p n));
  or_fail exports (
  events ← rt_ipc ipc_teardown_all_events;
  or_fail events (
  needed ← rt_ipc ipc_get_local_alloc_data_size;
  r ← allocate_buffer g_local_alloc_data set_rt_local needed "local_cumem";
  if bool_decide (r ≠ 0) then mret (-1) else
  locals ← with_storage g_local_alloc_data 0 (λ p n, rt_ipc (ipc_save_and_teardown_local_allocs p n));
  or_fail locals (
  _ ← rt_ipc ipc_disable_all_peer_access;
  _ ← modify (set_prepared true);
  mret 0))).

Lemma sound_prepared b (s : rt) : sound s → sound (set_prepared b s).
Proof. intros [[? ?] ? ?]. split; [by split|done|done]. Qed.

Lemma stays_prepare_rest : stays prepare_rest.
Proof.
  unfold prepare_rest. apply stays_bind.
  { apply stays_storage. intros. apply stays_ipc. intros. by apply safe_save_exports. }
  intros exports. apply stays_or_fail. rt_step safe_teardown_events. apply stays_or_fail. rt_step safe_get.
  apply stays_bind; [apply (stays_allocate _ _ _ local_lens)|]. intros r. apply stays_if; [apply stays_ret|].
  apply stays_bind.
  { apply stays_storage. intros. apply stays_ipc. intros. by apply safe_save_locals. }
  intros locals. apply stays_or_fail. rt_step safe_disable_peers. apply stays_bind; [|intros _; apply stays_ret].
  apply stays_modify. apply sound_prepared.
Qed.

Lemma stays_prepare flags : stays (gcr_checkpoint_prepare flags : M rt Z).
Proof.
  unfold gcr_checkpoint_prepare. apply stays_bind; [apply stays_get|]. intros done. apply stays_if; [apply stays_ret|].
  apply stays_bind; [apply stays_cu, sync_ret|]. intros err. apply stays_if.
  { apply stays_bind; [apply stays_cu, cuLastError_ret|]. intros _. apply stays_ret. }
  rt_step safe_teardown_imports. apply stays_or_fail. rt_step safe_get.
  apply stays_bind; [apply (stays_allocate _ _ _ export_lens)|]. intros r. apply stays_if; [apply stays_ret|].
  apply stays_prepare_rest.
Qed.

Lemma stays_publish {A} path (k : Z * IpcRebuildShmBlock → M rt A) : (∀ r, stays (k r)) → stays (b ← get (block_at path);
  r ← rt_ipc (ipc_write_export_info_to_shm b);
  _ ← modify (λ s, set_rt_shm (<[path := r.2]> (rt_shm s)) s); k r).
Proof.
  intros Hk s Hs. apply wp_bind, wp_get, wp_bind, wp_zoom. unfold ipc_write_export_info_to_shm.
  apply wp_bind, wp_get, wp_ret, wp_bind, wp_modify. apply Hk. destruct Hs as [[Hf Hb] He Hl].
  split; [split; [done|]|done|done]. cbn. intros q b. rewrite lookup_insert_Some. intros [[<- <-]|[_ Hq]]; [|by eapply Hb].
  apply written_block_ok. unfold block_at. destruct (rt_shm s !! path) eqn:Hp; [by eapply Hb|done].
Qed.

Lemma stays_export flags : stays (gcr_checkpoint_restore_export flags : M rt Z).
Proof.
  unfold gcr_checkpoint_restore_export. apply stays_bind.
  { apply stays_storage. intros. rt_step safe_rebuild_exports. apply stays_bind; [|intros _; apply stays_ret].
    apply (stays_release _ _ _ export_lens). }
  intros exports. apply stays_or_fail. apply stays_bind.
  { apply stays_storage. intros. rt_step safe_rebuild_locals. apply stays_bind; [|intros _; apply stays_ret].
    apply (stays_release _ _ _ local_lens). }
  intros locals. apply stays_or_fail. rt_step safe_get. apply stays_bind.
  { destruct (getenv_nonempty _) as [path|]; [|apply stays_ret]. apply stays_bind; [apply stays_map|].
    intros [[p fd]|]; [|apply stays_ret]. apply (stays_publish path). intros r. apply stays_bind; [apply stays_unmap|].
    intros _. apply stays_ret. }
  intros published. apply stays_or_fail. apply stays_bind; [apply stays_fd, start_returns|]. intros r. apply stays_ret.
Qed.

Lemma stays_import flags : honest_peers (D:=D) → (3 < fuel)%nat →
  stays (gcr_checkpoint_restore_import probe_addr fuel flags : M rt Z).
Proof.
  intros Hpeers Hfuel. unfold gcr_checkpoint_restore_import. rt_step safe_get. apply stays_bind.
  { destruct (getenv_nonempty _) as [path|]; [|apply stays_ret]. apply stays_bind; [apply stays_map|].
    intros [[p fd]|]; [|apply stays_ret]. intros s Hs. apply wp_bind, wp_get.
    assert (Hb : block_ok (block_at path s)).
    { unfold block_at. destruct (rt_shm s !! path) eqn:Hp; [by eapply (st_shm _ (sd_steady _ Hs))|done]. }
    assert (Hst : stays (r ← rt_ipc (ipc_import_from_shm_block (block_at path s)); _ ← unmap_shm_block p fd; mret r : M rt Z)).
    { apply stays_bind; [apply stays_ipc; intros; apply safe_import_block; [done..|destruct Hb; lia]|]. intros r.
      apply stays_bind; [apply stays_unmap|]. intros _. apply stays_ret. }
    by apply Hst. }
  intros imported. apply stays_or_fail. apply stays_bind.
  { apply stays_if; [apply stays_fd, stop_returns; done|apply stays_ret]. }
  intros _. apply stays_bind; [apply stays_if; [apply stays_ipc; intros; by apply safe_validate|apply stays_ret]|].
  intros errors. apply stays_if; [apply stays_ret|]. rt_step safe_reenable_peers.
  apply stays_bind; [apply stays_modify, sound_prepared|]. intros _. apply stays_ret.
Qed.

Lemma stays_entry e : honest_peers (D:=D) → (3 < fuel)%nat → stays (run_entry e).
Proof.
  intros Hp Hf. destruct e; [apply stays_prepare|apply stays_export|by apply stays_import|].
  apply stays_ipc. intros. by apply safe_validate.
Qed.
End Entries.

(** ** Phases *)

(** What each answer of an entry point means. *)
Inductive phase_step : entry → phase → Z → phase → Prop :=
| step_again flags p : ph_prepared p = true → phase_step (Prepare flags) p 0 p
| step_prepared flags p b c : ph_prepared p = false → phase_step (Prepare flags) p 0 (MkPhase true b c)
| step_unprepared flags p b c : ph_prepared p = false → phase_step (Prepare flags) p (-1) (MkPhase false b c)
| step_exported flags p : phase_step (RestoreExport flags) p 0 (MkPhase (ph_prepared p) false false)
| step_not_exported flags p c : phase_step (RestoreExport flags) p (-1) (MkPhase (ph_prepared p) false c)
| step_imported flags p : phase_step (RestoreImport flags) p 0 (MkPhase false (ph_exports p) (ph_locals p))
| step_not_imported flags p : phase_step (RestoreImport flags) p (-1) p
| step_validated flags p r : phase_step (Validate flags) p r p.

Inductive phase_run : list entry → phase → list Z → phase → Prop :=
| run_done p : phase_run [] p [] p
| run_call e es p r q rs p' : phase_step e p r q → phase_run es q rs p' → phase_run (e :: es) p (r :: rs) p'.

Section Phases.
Context {D P : Type} {CD : CuDriver D} {CT : CuReturns D} {CH : CudaHost D} {SK : Sockets D} {SR : SockReturns D} {TP : TalkingPeers D}.
Context {PX : Posix P} {PR : PosixReturns P} {PD : PosixDirs P} {FR : FileReturns D P} {PF : Platform}.
Context (probe_addr : Z) (fuel : nat).
Abbreviation rt := (runtime D P).

Lemma post_or_fail (r : Z) (k : M rt Z) Q s : Q (-1) s → post k Q s → post (or_fail r k) Q s.
Proof. unfold or_fail. by case_bool_decide. Qed.

(** A call that leaves what [F] reads alone, when [F] is all one knows of the state. *)
Lemma post_step {A B C} (F : rt → C) (c : C) (m : M rt A) (k : A → M rt B) Q s : F s = c → still F m →
  (∀ a s', F s' = c → post (k a) Q s') → post (m ≫= k) Q s.
Proof. intros Hs Hm Hk. eapply post_bind; [apply Hm|]. intros a s' Hs'. apply Hk. congruence. Qed.

Lemma still_with {C} (F : rt → C) buffer d (f : Z → Z → M rt Z) : (∀ p n, still F (f p n)) → still F (with_storage buffer d f).
Proof. intros Hf. unfold with_storage. apply still_bind; eauto with still. Qed.

Local Hint Extern 1 (still g_prepared (allocate_buffer _ _ _ _)) => by apply still_allocate : still.
Local Hint Resolve still_with : still.

Definition flagged (b : bool) : Z → rt → Prop := λ r s', (r = 0 ∧ g_prepared s' = true) ∨ (r = -1 ∧ g_prepared s' = b).

Lemma prepare_rest_phase (s : rt) : g_prepared s = false → post prepare_rest (flagged false) s.
Proof.
  intros Hs. unfold prepare_rest. do 2 (eapply post_step; [exact Hs|still_auto|]; clear s Hs; intros ? s Hs;
    apply post_or_fail; [by right|]).
  do 2 (eapply post_step; [exact Hs|still_auto|]; clear s Hs; intros ? s Hs). case_bool_decide; [by right|].
  eapply post_step; [exact Hs|still_auto|]. clear s Hs. intros ? s Hs. apply post_or_fail; [by right|].
  eapply post_step; [exact Hs|still_auto|]. clear s Hs. intros ? s Hs. by left.
Qed.

Lemma prepare_phase flags (s : rt) : g_prepared s = false → post (gcr_checkpoint_prepare flags) (flagged false) s.
Proof.
  intros Hs. unfold gcr_checkpoint_prepare. apply (post_bind _ _ (λ b s', s' = s ∧ b = false)); [by rewrite <- Hs|].
  intros b s1 [-> ->]. eapply post_step; [exact Hs|still_auto|]. clear s Hs. intros err s Hs. case_bool_decide.
  { eapply post_step; [exact Hs|still_auto|]. intros ? s' Hs'. by right. }
  eapply post_step; [exact Hs|still_auto|]. clear s Hs. intros ? s Hs. apply post_or_fail; [by right|].
  do 2 (eapply post_step; [exact Hs|still_auto|]; clear s Hs; intros ? s Hs). case_bool_decide; [by right|].
  by apply prepare_rest_phase.
Qed.
(** Neither the driver, the tables, the server nor the files are part of the phase. *)
Lemma still_map path create : still core (map_shm_block path create : M rt _).
Proof.
  unfold map_shm_block. apply still_bind; [still_auto|]. intros fd. apply still_if; [still_auto|].
  apply still_bind; [still_auto|]. intros r. apply still_if; [still_auto|]. apply still_bind; [still_auto|].
  intros [p|]; still_auto.
Qed.
Lemma still_unmap p fd : still core (unmap_shm_block p fd : M rt _).
Proof. unfold unmap_shm_block. still_auto. Qed.
Local Hint Resolve still_map still_unmap : still.

Lemma restore_export_phase flags (s : rt) : sound s →
  post (gcr_checkpoint_restore_export flags) (λ r s', phase_step (RestoreExport flags) (phase_of s) r (phase_of s')) s.
Proof.
  intros [_ He Hl]. unfold gcr_checkpoint_restore_export, phase_of at 1.
  set (pr := g_prepared s). set (b1 := holds _). set (b2 := holds _).
  assert (Hfail : ∀ s' : rt, g_prepared s' = pr → g_export_data s' = empty_storage →
    phase_step (RestoreExport flags) (MkPhase pr b1 b2) (-1) (phase_of s')).
  { intros s' H1 H2. unfold phase_of. rewrite H1, H2. apply (step_not_exported flags (MkPhase pr b1 b2)). }
  eapply post_bind; [apply post_and; [by apply storage_empties|apply (still_with (λ s, (g_prepared s, g_local_alloc_data s)))]|].
  { intros. apply still_bind; [still_auto|]. intros ?. apply still_bind; [by apply still_release|]. eauto with still. }
  intros r s1 [He1 [= Hp1 Hl1]]. change (g_prepared s1 = pr) in Hp1. apply post_or_fail; [by apply Hfail|]. rewrite <- Hl1 in Hl.
  eapply post_bind; [apply post_and; [by apply storage_empties|apply (still_with (λ s, (g_prepared s, g_export_data s)))]|].
  { intros. apply still_bind; [still_auto|]. intros ?. apply still_bind; [by apply still_release|]. eauto with still. }
  clear r. intros r s2 [Hl2 [= Hp2 He2]]. apply post_or_fail; [apply Hfail; congruence|].
  assert (Hc : core s2 = (pr, empty_storage, empty_storage)) by (unfold core; congruence).
  assert (Hend : ∀ s' : rt, core s' = (pr, empty_storage, empty_storage) →
    phase_of s' = MkPhase pr false false ∧ g_prepared s' = pr ∧ g_export_data s' = empty_storage).
  { intros s' [= H1 H2 H3]. unfold phase_of. by rewrite H1, H2, H3. }
  eapply post_step; [exact Hc|still_auto|]. intros count s3 H3. eapply post_step; [exact H3| |].
  { destruct (getenv_nonempty _); [|still_auto]. apply still_bind; [eauto with still|]. intros [[p fd]|]; still_auto. }
  intros published s4 H4. apply post_or_fail; [apply Hfail; by apply Hend|].
  eapply post_step; [exact H4|still_auto|]. intros e s5 H5. apply post_ret. destruct (Hend _ H5) as (Hph & ? & ?).
  case_bool_decide; [by apply Hfail|]. rewrite Hph. apply (step_exported flags (MkPhase pr b1 b2)).
Qed.

Lemma restore_import_phase flags (s : rt) :
  post (gcr_checkpoint_restore_import probe_addr fuel flags)
    (λ r s', phase_step (RestoreImport flags) (phase_of s) r (phase_of s')) s.
Proof.
  unfold gcr_checkpoint_restore_import.
  assert (Hfail : ∀ s' : rt, core s' = core s → phase_step (RestoreImport flags) (phase_of s) (-1) (phase_of s')).
  { intros s' ->%phase_core. apply step_not_imported. }
  eapply (post_step core); [reflexivity|still_auto|]. intros count s1 H1. eapply post_step; [exact H1| |].
  { destruct (getenv_nonempty _); [|still_auto]. apply still_bind; [eauto with still|]. intros [[p fd]|]; still_auto. }
  intros imported s2 H2. apply post_or_fail; [by apply Hfail|]. eapply post_step; [exact H2|still_auto|]. intros ? s3 H3.
  eapply post_step; [exact H3|still_auto|]. intros errors s4 H4. case_bool_decide; [by apply Hfail|].
  eapply post_step; [exact H4|still_auto|]. intros ? s5 H5. apply (post_bind _ _ (λ _ s', s' = set_prepared false s5)); [done|].
  intros ? s6 ->. apply post_ret. injection H5 as H5a H5b H5c. unfold phase_of. cbn. rewrite H5b, H5c.
  apply (step_imported flags (phase_of s)).
Qed.

Lemma entry_phase e (s : rt) : sound s →
  post (run_entry probe_addr fuel e) (λ r s', phase_step e (phase_of s) r (phase_of s')) s.
Proof.
  intros Hs. destruct e as [flags|flags|flags|flags].
  - destruct (g_prepared s) eqn:Hp.
    + unfold run_entry, gcr_checkpoint_prepare. apply (post_bind _ _ (λ b s', s' = s ∧ b = true)); [by rewrite <- Hp|].
      intros b s' [-> ->]. apply post_ret. by apply step_again.
    + eapply post_mono; [by apply prepare_phase|]. intros r s' [[-> Hp']|[-> Hp']]; unfold phase_of; rewrite Hp, Hp'.
      * by apply step_prepared.
      * by apply step_unprepared.
  - by apply restore_export_phase.
  - apply restore_import_phase.
  - apply (post_still core (rt_ipc _)); [still_auto|]. intros r s' ->%phase_core. apply step_validated.
Qed.

(** ** Calls in sequence *)

Definition run_entries (calls : list entry) : M rt (list Z) :=
  each (run_entry probe_addr fuel) calls.

Lemma phase_run_snoc es e p rs q r p' : phase_run es p rs q → phase_step e q r p' → phase_run (es ++ [e]) p (rs ++ [r]) p'.
Proof. induction 1; intros; simpl; [by eapply run_call; [|apply run_done]|]. eapply run_call; [done|auto]. Qed.

Lemma run_entries_wp calls s : honest_peers (D:=D) → (3 < fuel)%nat → sound s →
  wp (run_entries calls) (λ rs s', sound s' ∧ phase_run calls (phase_of s) rs (phase_of s')) s.
Proof.
  intros Hp Hf Hs. apply (wp_each (λ pre rs s', sound s' ∧ phase_run pre (phase_of s) rs (phase_of s')));
    [split; [done|apply run_done]|].
  intros pre e rs s1 [H1 Hr]. eapply wp_mono; [apply wp_post; [by apply stays_entry|by apply entry_phase]|].
  intros r s2 [H2 Hstep]. split; [done|]. by eapply phase_run_snoc.
Qed.
End Phases.

(** ** A second [prepare] after a failed one *)

Section Retry.
Context {D : Type} {CD : CuDriver D} {CT : CuReturns D} {PF : Platform}.
Context (f : gmap string fnptr) (Hf : resolved f) (es : list IpcExportRecord) (n : nat).

(** The pointers, the exports and the number of imports. *)
Definition exporting (s : ipc D) : Prop :=
  fns s = f ∧ g_ipc_exports (tb s) = es ∧ length (g_ipc_imports (tb s)) = n.

Lemma good_exporting : good f exporting.
Proof. split; [by intros s (? & _)|done]. Qed.

Lemma teardown_imports_exporting : keeps exporting ipc_teardown_all_imports (λ r, 0 ≤ r).
Proof.
  pose proof good_exporting as HI. unfold ipc_teardown_all_imports.
  eapply keeps_seq; [apply (keeps_helpers f Hf _ HI)|]. intros ?. eapply keeps_seq; [by apply (keeps_resolve f Hf _ HI)|]. intros ?.
  apply (keeps_has f Hf _ HI); [by repeat constructor|].
  apply (keeps_bind _ _ _ (λ k, k = n)); [intros s Hs; split; [exact Hs|apply Hs]|]. intros m ->.
  apply keeps_foldM; [done|]. intros torn i Ht [_ Hi]%elem_of_seq. unfold tear_import. eapply keeps_seq.
  { intros s Hs. unfold import_at, wp. destruct Hs as (Hfs & He & Hn).
    destruct (lookup_lt_is_Some_2 (g_ipc_imports (tb s)) i ltac:(lia)) as [r ->]. done. }
  intros r. apply keeps_if; [by apply keeps_ret|]. eapply keeps_seq; [by eapply (keeps_try_unmap f)|]. intros ?.
  eapply keeps_seq; [|intros ?; eapply keeps_seq; [|intros ?; apply keeps_ret; lia]].
  { apply keeps_if; [|by apply keeps_ret]. eapply keeps_seq; [|intros ?; by apply keeps_ret].
    apply (keeps_call_fn f Hf _ HI); [by vm_compute|auto with cu]. }
  apply keeps_track. intros s (Hfs & He & Hn). split; [done|]. split; [done|]. simpl. by rewrite length_alter.
Qed.
End Retry.

(** C38: a [prepare] after a failed one throws the saved exports away.  [prepare] saves the
    exports into its buffer and tears them down before it does the rest; if the rest
    fails it answers -1, unprepared, with the only copy of their bytes in that buffer.  The
    next [prepare] has no export left to save, sizes the buffer at 0 and so releases it:
    whatever it answers, the buffer is empty then and [restore_export] has nothing to put
    back. *)
Theorem prepare_retry_loses_exports {D P} {CD : CuDriver D} {CT : CuReturns D} {CH : CudaHost D} {SK : Sockets D}
    {SR : SockReturns D} {TP : TalkingPeers D} {PX : Posix P} {PR : PosixReturns P} {PD : PosixDirs P} {FR : FileReturns D P} {PF : Platform}
    flags (s : runtime D P) d :
  sound s → g_prepared s = false → cudaDeviceSynchronize (cu (rt_hooks s)) = Ret 0 d →
  filter saves (g_ipc_exports (tb (rt_hooks s))) = [] →
  ∃ r s', gcr_checkpoint_prepare flags s = Ret r s' ∧ g_export_data s' = empty_storage.
Proof.
  intros Hs Hp Hd He.
  assert (Hw : wp (gcr_checkpoint_prepare flags) (λ _ s', g_export_data s' = empty_storage) s).
  { unfold gcr_checkpoint_prepare. apply wp_bind, wp_get. rewrite Hp. cbv iota. apply wp_bind, wp_zoom, wp_zoom.
    eapply wp_intro; [exact Hd|]. rewrite bool_decide_eq_false_2 by (by intros []). apply wp_bind, wp_zoom.
    destruct Hs as [[Hf Hb] Hse Hsl].
    eapply wp_mono; [eapply (teardown_imports_exporting _ Hf (g_ipc_exports (tb (rt_hooks s)))); by split_and!|].
    intros r h [(Hfh & Heh & _) Hr]. unfold or_fail at 1. rewrite bool_decide_eq_false_2 by lia.
    apply wp_bind, wp_zoom, wp_get. apply wp_bind.
    set (s1 := set_rt_hooks (set_cu d (rt_hooks s)) s). change (rt_hooks (set_rt_hooks h s1)) with h.
    rewrite Heh, He.
    eapply wp_mono; [apply (allocate_wp _ _ around_export export_lens)|].
    { split; [split; [|done]|done]. cbn. unfold resolved. by rewrite Hfh. }
    intros r2 s2 ([Hst Hlo] & Heo & H0). destruct (H0 eq_refl) as [-> H2]. rewrite bool_decide_eq_false_2 by (by intros []).
    assert (Hs2 : sound s2) by (by split).
    eapply wp_mono; [apply wp_post; [by apply stays_prepare_rest|]|].
    - apply (post_still g_export_data); [|intros a s3 H3; exact H3]. unfold prepare_rest, or_fail.
      assert (Hal : ∀ n, still g_export_data (allocate_buffer (D:=D) (P:=P) g_local_alloc_data set_rt_local n "local_cumem"))
        by (intros; by apply still_allocate).
      apply still_bind; [apply still_with; still_auto|]. intros ?. apply still_if; [still_auto|].
      apply still_bind; [still_auto|]. intros ?. apply still_if; [still_auto|]. apply still_bind; [still_auto|]. intros ?.
      apply still_bind; [apply Hal|]. intros ?. apply still_if; [still_auto|]. apply still_bind; [apply still_with; still_auto|].
      intros ?. still_auto.
    - intros r3 s3 [_ H3]. cbv beta in H3. congruence. }
  destruct (wp_elim _ _ _ Hw) as (r & s' & Hr & H'). by exists r, s'.
Qed.

(** ** A reference process

    [cusim] and [osim], with host memory, an application without block files of its own, and
    a file system that has no mapping above 4 MB to give. *)
#[export] Instance cusim_host : CudaHost cusim := {|
  cudaDeviceSynchronize := λ v, Ret 0 (with_mems (drained v) [] v);
  cudaHostAlloc n := λ v, Ret (0, 65536) v;
  cudaFreeHost _ := λ v, Ret 0 v
|}.
#[export] Instance osim_dirs : PosixDirs osim := {| mkdir _ := λ o, Ret true o; unlink_file _ := λ o, Ret 0 o |}.

Definition posix_with (env : string → option string) (room : Z) : Posix osim := {|
  getenv := env; open_file := open_file; ftruncate := ftruncate;
  mmap n b := λ o, if bool_decide (os_addr o < room) then mmap n b o else Ret None o;
  munmap := munmap; close_file := close_file; fetch_add := fetch_add; write_text := write_text
|}.
Lemma posix_with_returns env room : @PosixReturns osim (posix_with env room).
Proof. split; intros * o; try done. unfold wp. simpl. by case_bool_decide. Qed.
Lemma posix_with_files env room : @FileReturns cusim osim _ (posix_with env room) _.
Proof. split; intros * o; done. Qed.

Definition block_files (name : string) : option string :=
  if bool_decide (name = "GCR_EXPORT_SHM_PATH"%string) then Some "/run/export"%string else
  if bool_decide (name = "GCR_IMPORT_SHM_PATH"%string) then Some "/run/import"%string else None.
Definition roomy : Posix osim := posix_with block_files (2 ^ 47).
Definition tight : Posix osim := posix_with block_files 4194304.

(** Two exports with data, one without, and an allocation that is not exported. *)
Definition local_tables : ipc_tables := track_map 16384 16 4 (track_create 4 16 (MkProp 1 0) ex_tables).
Definition local_view : cview :=
  MkCView (λ _, 0) (λ a, a) [] (<[16384 := MkCMap 16 4 [ex_desc 0]]> (cv_maps ex_view)) (<[4 := 16]> (cv_handles ex_view))
    (cv_fds ex_view) [].
Definition application : runtime cusim osim :=
  MkRt (MkIpcSt local_view local_tables used_fns ∅ ∅ [] 0) (MkServer 3 true "/tmp/gcr_fd_1.sock") (Some AtHead)
    (MkOs 3 2097152 0) ∅ false empty_storage empty_storage 0.

Lemma application_sound : sound application.
Proof. split; [split; [exact used_fns_ok|done]|done|done]. Qed.

(** After a [prepare] that got no room for the local allocations. *)
Definition half_prepared : runtime cusim osim :=
  match gcr_checkpoint_prepare (PX:=tight) 0 application with Ret _ s => s | Exit _ s => s | Stuck _ s => s end.

Lemma half_prepared_run : gcr_checkpoint_prepare (PX:=tight) 0 application = Ret (-1) half_prepared.
Proof.
  assert (Ha : match gcr_checkpoint_prepare (PX:=tight) 0 application with Ret r _ => r | _ => 0 end = -1)
    by (vm_compute; reflexivity).
  unfold half_prepared. destruct (gcr_checkpoint_prepare _ _) as [r s|c s|w s]; by subst.
Qed.

Lemma half_prepared_sound : sound half_prepared.
Proof.
  pose proof (stays_prepare (PX:=tight) (PR:=posix_with_returns _ _) (FR:=posix_with_files _ _) 0 _ application_sound) as Hw.
  unfold wp in Hw. by rewrite half_prepared_run in Hw.
Qed.

(** The buffer holds the 96 bytes of the two exports; the next call empties it. *)
Lemma prepare_retry_loses_exports_witness :
  gcr_checkpoint_prepare (PX:=tight) 0 application = Ret (-1) half_prepared ∧
  g_export_data half_prepared = MkStorage (Some 2097152) 96 (-1) false "" ∧
  ∃ r s', gcr_checkpoint_prepare (PX:=tight) 0 half_prepared = Ret r s' ∧ g_export_data s' = empty_storage.
Proof.
  split; [exact half_prepared_run|]. split; [vm_compute; reflexivity|].
  apply (prepare_retry_loses_exports (PX:=tight) (PR:=posix_with_returns _ _) (FR:=posix_with_files _ _) 0 half_prepared
    (with_mems (drained (cu (rt_hooks half_prepared))) [] (cu (rt_hooks half_prepared))) half_prepared_sound).
  - vm_compute. reflexivity.
  - exact (eq_refl _).
  - vm_compute. reflexivity.
Defined.

Definition a_cycle : list entry := [Prepare 0; Prepare 0; RestoreExport 0; RestoreImport GCR_CKPT_OPT_VALIDATE; Validate 0].

(** C26: the runtime is total and its storage well formed.  From a sound state, any sequence
    of calls of the four entry points, in any order and with any flags, comes back
    whatever the driver, the sockets and the file system answer;
    afterwards each storage buffer is empty, or pinned memory without a file, or a mapping
    whose descriptor and path are both there or both not there. *)
Theorem runtime_sound {D P} {CD : CuDriver D} {CT : CuReturns D} {CH : CudaHost D} {SK : Sockets D} {SR : SockReturns D} {TP : TalkingPeers D}
    {PX : Posix P} {PR : PosixReturns P} {PD : PosixDirs P} {FR : FileReturns D P} {PF : Platform}
    probe_addr fuel (calls : list entry) (s : runtime D P) :
  honest_peers (D:=D) → (3 < fuel)%nat → sound s →
  ∃ rs s', run_entries probe_addr fuel calls s = Ret rs s' ∧ sound s'.
Proof.
  intros Hp Hf Hs. destruct (wp_elim _ _ _ (run_entries_wp probe_addr fuel calls s Hp Hf Hs)) as (rs & s' & Hr & H' & _).
  by exists rs, s'.
Qed.

Lemma runtime_sound_witness : ∃ rs s', run_entries (PX:=tight) 77 4 (Prepare 0 :: a_cycle) application = Ret rs s' ∧ sound s'.
Proof.
  apply (runtime_sound (PX:=tight) (PR:=posix_with_returns _ _) (FR:=posix_with_files _ _) 77 4 (Prepare 0 :: a_cycle) application cusim_honest).
  - lia.
  - exact application_sound.
Defined.

(** C13: the runtime refines a machine of three flags: prepared or not, and whether each
    buffer holds data.  A [prepare] after a successful one answers 0 and does nothing; one
    that fails leaves the process unprepared; a successful [restore_export] leaves both
    buffers empty, so that the saved bytes are put back once; only a successful
    [restore_import] makes the next [prepare] save again; validation changes nothing. *)
Theorem runtime_refines_phases {D P} {CD : CuDriver D} {CT : CuReturns D} {CH : CudaHost D} {SK : Sockets D} {SR : SockReturns D} {TP : TalkingPeers D}
    {PX : Posix P} {PR : PosixReturns P} {PD : PosixDirs P} {FR : FileReturns D P} {PF : Platform}
    probe_addr fuel (calls : list entry) (s s' : runtime D P) rs :
  honest_peers (D:=D) → (3 < fuel)%nat → sound s → run_entries probe_addr fuel calls s = Ret rs s' →
  phase_run calls (phase_of s) rs (phase_of s').
Proof.
  intros Hp Hf Hs Hr. pose proof (run_entries_wp probe_addr fuel calls s Hp Hf Hs) as Hw. unfold wp in Hw.
  rewrite Hr in Hw. apply Hw.
Qed.

Lemma runtime_refines_phases_witness : ∃ s',
  run_entries (PX:=roomy) 77 4 a_cycle application = Ret [0; 0; 0; 0; 0] s' ∧
  phase_run a_cycle (MkPhase false false false) [0; 0; 0; 0; 0] (phase_of s').
Proof.
  destruct (wp_elim _ _ _ (run_entries_wp (PX:=roomy) (PR:=posix_with_returns _ _) (FR:=posix_with_files _ _) 77 4 a_cycle
    application cusim_honest ltac:(lia) application_sound)) as (rs & s' & Hr & _).
  assert (Hrs : rs = [0; 0; 0; 0; 0]).
  { assert (Ha : match run_entries (PX:=roomy) 77 4 a_cycle application with Ret rs _ => rs | _ => [] end = [0; 0; 0; 0; 0])
      by (vm_compute; reflexivity). by rewrite Hr in Ha. }
  subst rs. exists s'. split; [exact Hr|].
  apply (runtime_refines_phases (PX:=roomy) (PR:=posix_with_returns _ _) (FR:=posix_with_files _ _) 77 4 a_cycle application
    s' [0; 0; 0; 0; 0] cusim_honest ltac:(lia) application_sound Hr).
Defined.
