(* ===== verification/RuntimeData.v ===== *)
(** What the checkpoint runtime does to the data of a process.

    [gcr_checkpoint_prepare] composes the teardown of the imports, the save of the exports, of the events and of
    the local allocations, each into a buffer of its own; [gcr_checkpoint_restore_export] composes the two rebuilds
    with the release of the buffers, the publication and the start of the descriptor server.  Here is what each of
    these steps leaves alone, so that the round trips of the steps compose. *)
From S2P Require Import Prelude Frames Text Common Gpu Ckpt Copies IpcState IpcDriver FdExchange IpcHooks IpcExports IpcRules.
From S2P Require Import IpcSave IpcRebuild IpcRoundtrip IpcImports LocalSave LocalRebuild Process Runtime RuntimeFacts.
Open Scope Z_scope.

(** ** Calls that do not touch the memory of the process *)

(** [cudaDeviceSynchronize] waits for the copies that are pending; the other calls of the runtime that reach the
    driver do not concern its mappings and memories. *)
Class HostLaws (D : Type) {CD : CuDriver D} {CH : CudaHost D} := {
  sync_law : ∀ d r d', cudaDeviceSynchronize d = Ret r d' → r = 0 →
    cu_view d' = with_mems (drained (cu_view d)) [] (cu_view d);
  host_alloc_quiet : ∀ n, still cu_view (cudaHostAlloc n);
  free_host_quiet : ∀ p, still cu_view (cudaFreeHost p);
  last_error_quiet : still cu_view cudaGetLastError;
  event_destroy_quiet : ∀ e, still cu_view (cudaEventDestroy e);
  disable_peer_quiet : ∀ n, still cu_view (cudaDeviceDisablePeerAccess n);
  enable_peer_quiet : ∀ n flags, still cu_view (cudaDeviceEnablePeerAccess n flags)
}.

(** Starting the server: a socket is a new descriptor. *)
Class ServerLaws (D : Type) {CD : CuDriver D} {SK : Sockets D} := {
  new_socket d : post socket (λ fd d', cu_view d' = cu_view d ∧ cv_fds (cu_view d) !! fd = None) d;
  bind_quiet fd p : still cu_view (bind fd p);
  listen_quiet fd n : still cu_view (listen fd n);
  unlink_quiet p : still cu_view (unlink p);
  chmod_quiet p m : still cu_view (chmod p m);
  thread_quiet : still cu_view pthread_create;
  close_socket d fd : post (sclose fd) (λ _ d', cu_view d' = with_fds (delete fd (cv_fds (cu_view d))) (cu_view d)) d
}.

Lemma wp_to_post {S A} (m : M S A) Q s : wp m Q s → post m Q s.
Proof. unfold wp, post. by destruct (m s). Qed.
(** A step that leaves [F] alone. *)
Lemma post_still_bind {S A B C} (F : S → C) c (m : M S A) (k : A → M S B) Q s : F s = c → still F m →
  (∀ a s', F s' = c → post (k a) Q s') → post (m ≫= k) Q s.
Proof. intros Hs Hm Hk. eapply post_bind; [apply Hm|]. intros a s' Hs'. apply Hk. congruence. Qed.

Section Quiet.
Context {D P : Type} {CD : CuDriver D} {CH : CudaHost D} {HL : HostLaws D} {SK : Sockets D} {SV : ServerLaws D}.
Context {PX : Posix P} {PD : PosixDirs P} {PF : Platform}.
Abbreviation rt := (runtime D P).

(** The pointers, tables and view of the IPC module. *)
Definition data (h : ipc D) : gmap string fnptr * ipc_tables * cview := (fns h, tb h, view h).
Definition rt_data (s : rt) := data (rt_hooks s).

Lemma data_at h f t v : data h = (f, t, v) ↔ at_ f t v h.
Proof.
  unfold data, at_. split; [|by intros (-> & -> & ->)]. intros Hd. split; [exact (f_equal (λ x, x.1.1) Hd)|].
  split; [exact (f_equal (λ x, x.1.2) Hd)|exact (f_equal snd Hd)].
Qed.

Lemma still_drv {A} (m : M D A) : still cu_view m → still data (drv m).
Proof.
  intros Hm s. unfold drv. apply post_zoom. eapply post_mono; [apply Hm|]. intros a d Hd. cbn in Hd.
  unfold data, view. cbn. by rewrite Hd.
Qed.
Lemma still_rt_ipc {A} (m : M (ipc D) A) : still data m → still rt_data (rt_ipc m : M rt A).
Proof. intros Hm s. apply post_zoom. eapply post_mono; [apply Hm|]. by intros a h. Qed.
Lemma still_rt_cu {A} (m : M D A) : still cu_view m → still rt_data (rt_cu m : M rt A).
Proof. intros Hm. by apply still_rt_ipc, still_drv. Qed.
Lemma still_rt_sys {A} (m : M P A) : still rt_data (rt_sys m : M rt A).
Proof. apply still_zoom. intros. done. Qed.

Local Hint Resolve still_drv still_rt_ipc still_rt_cu still_rt_sys host_alloc_quiet free_host_quiet last_error_quiet
  event_destroy_quiet disable_peer_quiet enable_peer_quiet : still.

Section Buffer.
Context (buffer : rt → StorageBuffer) (set_buffer : StorageBuffer → rt → rt).
Context (Hset : ∀ b s, rt_data (set_buffer b s) = rt_data s) (Hget : ∀ b s, buffer (set_buffer b s) = b).

Lemma still_set g : still rt_data (modify (λ s, set_buffer (g s) s)).
Proof. apply still_modify. intros. apply Hset. Qed.
Lemma still_set_path p : still rt_data (set_path_of buffer set_buffer p).
Proof. apply still_set. Qed.
Local Hint Resolve still_set still_set_path : still.

Lemma data_release : still rt_data (release_buffer buffer set_buffer).
Proof.
  unfold release_buffer. repeat (apply still_bind; [|intros ?]); [eauto with still| |eauto with still|eauto with still|].
  - apply still_opt; [|eauto with still]. intros p. eauto 12 with still.
  - apply (still_set (λ _, empty_storage)).
Qed.
Lemma data_open needed name : still rt_data (open_backing buffer set_buffer needed name).
Proof. unfold open_backing. cbv zeta. eauto 30 with still. Qed.
Lemma data_allocate needed name : still rt_data (allocate_buffer buffer set_buffer needed name).
Proof.
  unfold allocate_buffer. apply still_bind; [apply data_release|]. intros ?. apply still_if; [eauto with still|].
  apply still_if; [eauto 12 with still|]. apply still_bind; [eauto using data_open with still|].
  intros [fd|]; [|eauto with still]. apply still_bind; [eauto with still|]. intros [p|]; eauto 20 with still.
Qed.

(** A successful allocation is a buffer of the size asked for. *)
Definition allocated_for (needed : Z) (s : rt) : Prop :=
  if bool_decide (needed = 0) then b_ptr (buffer s) = None
  else ∃ p, b_ptr (buffer s) = Some p ∧ b_size (buffer s) = needed.

Lemma release_empties s : post (release_buffer buffer set_buffer) (λ _ s', buffer s' = empty_storage) s.
Proof.
  unfold release_buffer. repeat (eapply (post_bind _ _ (λ _ _, True)); [apply post_true|]; intros ? ? _). apply Hget.
Qed.

Lemma allocate_gives needed name s :
  post (allocate_buffer buffer set_buffer needed name) (λ r s', r = 0 → allocated_for needed s') s.
Proof.
  unfold allocate_buffer, allocated_for. eapply post_bind; [apply release_empties|]. intros ? s1 H1; cbv beta in H1.
  case_bool_decide; [apply post_ret; intros _; by rewrite H1|]. case_bool_decide.
  - eapply (post_bind _ _ (λ _ _, True)); [apply post_true|]. intros r s2 _. case_bool_decide.
    + eapply (post_bind _ _ (λ _ _, True)); [apply post_true|]. by intros ? s3 _.
    + eapply (post_bind _ _ (λ _ s', ∃ p, b_ptr (buffer s') = Some p ∧ b_size (buffer s') = needed)).
      * unfold post. cbn. rewrite Hget. by eexists.
      * intros ? s3 H3. by apply post_ret.
  - eapply (post_bind _ _ (λ _ _, True)); [apply post_true|]. intros [fd|] s2 _; [|by apply post_ret].
    eapply (post_bind _ _ (λ _ _, True)); [apply post_true|]. intros [p|] s3 _.
    + eapply (post_bind _ _ (λ _ s', ∃ p, b_ptr (buffer s') = Some p ∧ b_size (buffer s') = needed)).
      * unfold post. cbn. rewrite Hget. by eexists.
      * intros ? s4 H4. by apply post_ret.
    + repeat (eapply (post_bind _ _ (λ _ _, True)); [apply post_true|]; intros ? ? _). by apply post_ret.
Qed.
End Buffer.

(** ** Events and peer access *)

Lemma still_tear_event n i : still data (tear_event n i).
Proof.
  unfold tear_event. apply still_bind; [eauto with still|]. intros [e|]; [|by intros s]. eauto 12 with still.
Qed.
Lemma still_foldM {S B L X} (F : S → B) (f : L → X → M S L) xs : (∀ l x, still F (f l x)) → ∀ l, still F (foldM f l xs).
Proof. intros Hf. induction xs as [|x xs IH]; intros l; cbn; [apply still_ret|]. by apply still_bind. Qed.

Lemma data_events : still data ipc_teardown_all_events.
Proof.
  unfold ipc_teardown_all_events. apply still_bind; [eauto with still|]. intros [|n]; [eauto with still|].
  destruct (real_dlsym _ _); [|eauto with still]. apply still_foldM. intros. apply still_tear_event.
Qed.

(** Resolving a symbol changes only pointers. *)
Definition ipc_view (h : ipc D) : ipc_tables * cview := (tb h, view h).
Lemma tables_drv {A} (m : M D A) : still cu_view m → still ipc_view (drv m).
Proof. intros Hm s. eapply post_mono; [by apply still_drv|]. intros a h Hd.
  exact (f_equal (λ x, (x.1.2, x.2)) Hd). Qed.
Lemma still_has {B A} (F : ipc D → B) ps (yes no : M (ipc D) A) : still F yes → still F no → still F (if_has ps yes no).
Proof. intros Hy Hn s. unfold post, if_has. destruct (forallb _ _); [apply Hy|apply Hn]. Qed.
Lemma still_store p q : still ipc_view (store_fn p q).
Proof. by apply still_modify. Qed.
Local Hint Resolve tables_drv still_has still_store still_foldM : still.

Lemma still_resolve h p y : still ipc_view (resolve h p y).
Proof.
  unfold resolve. apply still_has; [eauto with still|]. apply still_bind.
  - unfold dlsym. apply still_if; [eauto with still|]. apply still_if; [eauto with still|].
    destruct (hook_storage y), (real_dlsym h y); eauto with still.
  - intros [q|]; eauto with still.
Qed.
Local Hint Resolve still_resolve : still.

Lemma still_last_error : still ipc_view cudaGetLastError_.
Proof.
  unfold cudaGetLastError_, forward. apply still_bind; [eauto with still|]. intros ?.
  induction stack_depth as [|n IH]; cbn [hooked]; (apply still_bind; [eauto with still|]);
    intros [[|]|]; eauto 12 with still; by intros s.
Qed.

Lemma data_disable_peers : still ipc_view ipc_disable_all_peer_access.
Proof.
  unfold ipc_disable_all_peer_access. apply still_bind; [eauto with still|]. intros ?. apply still_has; [|eauto with still].
  apply still_bind; [eauto with still|]. intros ?. apply still_bind; [eauto with still|]. intros devs.
  apply still_bind; [|intros; eauto with still]. apply still_foldM. intros n dev. unfold disable_one.
  eauto 12 using still_last_error with still.
Qed.

Lemma data_reenable_peers : still ipc_view ipc_reenable_all_peer_access.
Proof.
  unfold ipc_reenable_all_peer_access. apply still_bind; [eauto with still|]. intros ?. apply still_has; [|eauto with still].
  apply still_bind; [eauto with still|]. intros devs. apply still_bind.
  - apply still_foldM. intros n dev. unfold enable_one. apply still_bind; [eauto with still|]. intros err.
    apply still_bind; [apply still_if; unfold note_peer; eauto with still|].
    intros ?. eauto 12 using still_last_error with still.
  - intros n. apply still_bind; [by apply still_modify|]. intros ?. apply still_ret.
Qed.
End Quiet.
