(* ===== verification/RuntimeRoundtrip.v ===== *)
(** Exports, local allocations and imports through the checkpoint runtime.

    The round trips of [IpcRoundtrip] and [LocalRebuild] composed: what holds of the tables, the view and the two
    buffers after each step of [gcr_checkpoint_prepare] and of [gcr_checkpoint_restore_export], and what the way back of the
    imports leaves alone. *)
From S2P Require Import Prelude Frames Text Common Gpu Ckpt Copies IpcState IpcDriver FdExchange IpcHooks IpcExports IpcRules.
From S2P Require Import IpcSave IpcRebuild IpcRoundtrip IpcImports LocalSave LocalRebuild IpcTheorems Process Runtime RuntimeFacts RuntimeData.
Open Scope Z_scope.

(** Two allocations that share nothing: address, size and handle of each. *)
Definition unshared (p n h q m k : Z) : Prop := p ≠ q ∧ h ≠ k ∧ disjoint_ranges p n q m.

(** Imports, exports and local allocations are different allocations. *)
Record separate (t : ipc_tables) : Prop := {
  se_import_export r e : r ∈ g_ipc_imports t → live r → e ∈ g_ipc_exports t → saves e →
    unshared (i_vaddr r) (i_size r) (i_handle r) (mapped_vaddr e) (mapped_size e) (local_handle e);
  se_import_local r l : r ∈ g_ipc_imports t → live r → l ∈ local_candidates t →
    unshared (i_vaddr r) (i_size r) (i_handle r) (l_vaddr l) (l_size l) (l_handle l);
  se_export_local e l : e ∈ g_ipc_exports t → saves e → l ∈ local_candidates t →
    unshared (mapped_vaddr e) (mapped_size e) (local_handle e) (l_vaddr l) (l_size l) (l_handle l)
}.

(** Device memories that agree on the exports that are saved, or on the local allocations. *)
Definition agree_exports (es : list IpcExportRecord) (d d' : mem) : Prop :=
  ∀ r j, r ∈ es → saves r → 0 ≤ j < mapped_size r → d' (mapped_vaddr r + j) = d (mapped_vaddr r + j).
Definition agree_locals (rs : list local_rec) (d d' : mem) : Prop :=
  ∀ r j, r ∈ rs → 0 ≤ j < l_size r → d' (l_vaddr r + j) = d (l_vaddr r + j).

Lemma exports_ok_keep es v v' : exports_ok es v →
  (∀ r, r ∈ es → saves r → cv_maps v' !! mapped_vaddr r = cv_maps v !! mapped_vaddr r ∧
     cv_handles v' !! local_handle r = cv_handles v !! local_handle r) → exports_ok es v'.
Proof.
  intros [Hl [Hp Hm Hh Ha] Hac Hpr Ht] Hk. split; try done; [split; try done|].
  - intros r Hr Hs. rewrite (proj1 (Hk r Hr Hs)). by apply Hm.
  - intros r Hr Hs. rewrite (proj2 (Hk r Hr Hs)). by apply Hh.
  - intros r m Hr Hs. rewrite (proj1 (Hk r Hr Hs)). by apply Hac.
Qed.

Lemma locals_ok_keep rs v v' : locals_ok rs v →
  (∀ r, r ∈ rs → cv_maps v' !! l_vaddr r = cv_maps v !! l_vaddr r ∧
     cv_handles v' !! l_handle r = cv_handles v !! l_handle r) → locals_ok rs v'.
Proof.
  intros [Hs Hm Hh Hn] Hk. split; try done.
  - intros r Hr. destruct (Hm r Hr) as (m & ? & ?). exists m. by rewrite (proj1 (Hk r Hr)).
  - intros r Hr. rewrite (proj2 (Hk r Hr)). by apply Hh.
Qed.

(** The parked state does not depend on the memory outside the saved ranges. *)
Lemma parked_exports_agree es hb d d' t v : agree_exports es d d' → parked_exports es hb d' t v → parked_exports es hb d t v.
Proof.
  intros Ha [Hl Hr Ho Hb Hu Hq]. split; try done. intros x j Hx Hj. rewrite Hb by done.
  destruct (layout_elem es x Hx) as [Hi Hs]. apply Ha; [by eapply list_elem_of_lookup_2|done|done].
Qed.
Lemma parked_locals_agree rs hb d d' t v : agree_locals rs d d' → parked_locals rs hb d' t v → parked_locals rs hb d t v.
Proof.
  intros Ha [Hr Hb Hu Hq]. split; try done. intros [r o] j Hx Hj. rewrite Hb by done.
  apply Ha; [|done]. by eapply with_offsets_elem.
Qed.

(** Tearing the exports down changes neither which addresses are exported nor, with that, the local allocations. *)
Lemma parked_vas es hb dev t t' v : g_ipc_exports t = es → parked_exports es hb dev t' v → exported_vas t' = exported_vas t.
Proof.
  intros <- [Hlen Hrec Hoth _ _ _].
  assert (Hf : Forall2 (λ r r', has_mapping r' = has_mapping r ∧ mapped_vaddr r' = mapped_vaddr r) (g_ipc_exports t) (g_ipc_exports t')).
  { apply Forall2_same_length_lookup_2; [by symmetry|]. intros i r r' Hi Hi'. destruct (decide (saves r)) as [Hs|Hs].
    - destruct (with_offsets_lookup isize 0 (save_order (g_ipc_exports t)) (i, r)) as [o Ho]; [by apply save_order_elem|].
      specialize (Hrec _ Ho). simpl in Hrec. simplify_eq.
      destruct (parked_record_spec o r Hs) as (_ & ? & _ & ? & _). done.
    - rewrite (Hoth i r Hi Hs) in Hi'. simplify_eq. by destruct (closed_same_range r) as (_ & ? & ? & _). }
  unfold exported_vas. f_equal. clear Hlen Hrec Hoth. induction Hf as [|r r' es es' [Hm Hv] _ IH]; [done|].
  rewrite !filter_cons, Hm. destruct (decide (has_mapping r = true)); [|done]. by rewrite !fmap_cons, IH, Hv.
Qed.

Lemma candidates_vas t t' : g_created_allocs t' = g_created_allocs t → g_handle_to_va t' = g_handle_to_va t →
  exported_vas t' = exported_vas t → local_candidates t' = local_candidates t.
Proof. unfold local_candidates. by intros -> -> ->. Qed.

Lemma no_saves es : saved_total es = 0 → filter saves es = [].
Proof.
  intros H0. unfold saved_total in H0. destruct (filter saves es) as [|r l] eqn:He; [done|]. exfalso.
  assert (Hin : ∀ x, x ∈ r :: l → 0 < mapped_size x).
  { intros x. rewrite <- He. intros [Hs _]%list_elem_of_filter. apply Is_true_true, saves_cases in Hs. lia. }
  pose proof (Hin r ltac:(set_solver)). pose proof (sum_by_nonneg mapped_size l ltac:(intros x ?; pose proof (Hin x ltac:(set_solver)); lia)).
  simpl in H0. unfold sum_by in *. lia.
Qed.

(** An export once it is back: live under a new handle that owns memory mapped at the old address with the tracked
    access, published through an open descriptor, the bytes those of [dev]; the handle is tracked unless the driver
    reused the value of one of [olds]. *)
Record export_back (olds : list Z) (dev : mem) (t0 t : ipc_tables) (v : cview) (i : nat) (r : IpcExportRecord) : Prop := {
  eb_record : ∃ h fd o, g_ipc_exports t !! i = Some (rebuilt_record h fd (parked_record o r)) ∧ h ≠ 0 ∧
    0 ≤ fd ∧ is_Some (cv_fds v !! fd) ∧ cv_handles v !! h = Some (mapped_size r) ∧
    cv_maps v !! mapped_vaddr r = Some (MkCMap (mapped_size r) h (merge_descs [] (replay_descs t0 r))) ∧
    (h ∉ olds → g_created_allocs t !! h = Some (MkCreate (mapped_size r) (saved_prop r)) ∧
                g_handle_to_va t !! h = Some (mapped_vaddr r));
  eb_bytes : ∀ j, 0 ≤ j < mapped_size r → cv_dev v (mapped_vaddr r + j) = dev (mapped_vaddr r + j)
}.

Lemma replay_parked t t0 o r : saves r → g_va_access_descs t = g_va_access_descs t0 →
  replay_descs t (parked_record o r) = replay_descs t0 r.
Proof.
  intros Hs Hd. unfold replay_descs. rewrite Hd. destruct (parked_record_spec o r Hs) as (_ & _ & _ & -> & _ & -> & _).
  assert (Ha : has_access (parked_record o r) = has_access r ∧ e_access_desc (parked_record o r) = e_access_desc r).
  { unfold parked_record, torn, closed. destruct (closes _), (saves _); done. }
  by destruct Ha as [-> ->].
Qed.

Lemma restored_back dev t1 t0 t v i r olds : saves r → g_va_access_descs t1 = g_va_access_descs t0 →
  export_restored dev t1 t v i r → export_back olds dev t0 t v i r.
Proof.
  intros Hs Hd [(h & fd & o & Hr & Hh & Hfd & Hop & Hha & Hm & Hc & Hva) Hb]. rewrite (replay_parked t1 t0) in Hm by done.
  split; [|done]. exists h, fd, o. split_and!; try done.
Qed.

Section Steps.
Context {D : Type} {CD : CuDriver D} {CL : CuLaws D} {CR : CuReliable D} {PF : Platform}.
Implicit Types (h : ipc D).
(** The tables before the checkpoint, and the device memory then. *)
Context (t0 : ipc_tables) (dev : mem).
Abbreviation es := (g_ipc_exports t0).
Abbreviation rs := (local_candidates t0).
Context (Hsep : separate t0) (Hby : by_device rs).

(** The imports are torn down and what was live has left its address. *)
Definition imports_away (t : ipc_tables) (v : cview) : Prop := g_ipc_imports t = torn_import <$> g_ipc_imports t0 ∧
  ∀ r, r ∈ g_ipc_imports t0 → live r → cv_maps v !! i_vaddr r = None.

Lemma away_keep t v t' v' : imports_away t v → g_ipc_imports t' = g_ipc_imports t →
  (∀ r, r ∈ g_ipc_imports t0 → live r → cv_maps v !! i_vaddr r = None → cv_maps v' !! i_vaddr r = None) → imports_away t' v'.
Proof. intros [Hi Hm] Ht Hk. split; [congruence|]. intros r Hr Hlv. apply Hk; [done..|]. by apply Hm. Qed.

(** Once the imports are gone: everything else is still there. *)
Record ready (f : gmap string fnptr) (t : ipc_tables) (v : cview) : Prop := {
  rd_linked : linked f;
  rd_idle : cv_queue v = [];
  rd_exports : g_ipc_exports t = es;
  rd_locals : local_candidates t = rs;
  rd_descs : g_va_access_descs t = g_va_access_descs t0;
  rd_eok : exports_ok es v;
  rd_lok : locals_ok rs v;
  rd_edev : agree_exports es dev (cv_dev v);
  rd_ldev : agree_locals rs dev (cv_dev v);
  rd_away : imports_away t v
}.

(** The exports are parked in a buffer at [p], or there are none to save. *)
Definition exports_parked (p : option Z) (t : ipc_tables) (v : cview) : Prop :=
  match p with Some p => parked_exports es p dev t v | None => filter saves es = [] end.
Definition locals_parked (q : option Z) (t : ipc_tables) (v : cview) : Prop :=
  match q with Some q => parked_locals rs q dev t v | None => rs = [] end.

(** Once the exports are saved. *)
Record half (p : option Z) (f : gmap string fnptr) (t : ipc_tables) (v : cview) : Prop := {
  hf_linked : linked f;
  hf_idle : cv_queue v = [];
  hf_locals : local_candidates t = rs;
  hf_descs : g_va_access_descs t = g_va_access_descs t0;
  hf_lok : locals_ok rs v;
  hf_ldev : agree_locals rs dev (cv_dev v);
  hf_parked : exports_parked p t v;
  hf_away : imports_away t v
}.

(** Once all is saved. *)
Record held (p q : option Z) (f : gmap string fnptr) (t : ipc_tables) (v : cview) : Prop := {
  hd_linked : linked f;
  hd_idle : cv_queue v = [];
  hd_descs : g_va_access_descs t = g_va_access_descs t0;
  hd_exports : exports_parked p t v;
  hd_locals : locals_parked q t v;
  hd_away : imports_away t v
}.

Lemma imports_ready f v h : at_ f t0 v h → linked f → cv_queue v = [] → imports_ok (g_ipc_imports t0) v →
  exports_ok es v → locals_ok rs v → dev = cv_dev v →
  wp ipc_teardown_all_imports (λ n h', 0 ≤ n ∧ ∃ g t v', at_ g t v' h' ∧ ready g t v') h.
Proof.
  intros Hat Hl Hq Hio Heo Hlo Hdev. eapply wp_mono; [by eapply teardown_spec|].
  intros n h' (-> & g & d & Hg & H' & Ho). split; [lia|]. eexists g, _, _. split; [exact H'|].
  assert (Hfree : ∀ p k, (∀ r, r ∈ g_ipc_imports t0 → live r → p ≠ i_vaddr r ∧ k ≠ i_handle r) →
    delete_all (live_vas (g_ipc_imports t0)) (cv_maps v) !! p = cv_maps v !! p ∧
    delete_all (live_handles (g_ipc_imports t0)) (cv_handles v) !! k = cv_handles v !! k).
  { intros p k Hp. split; apply delete_all_out.
    - intros (r & -> & [Hs Hr]%list_elem_of_filter)%list_elem_of_fmap. by destruct (Hp r Hr Hs).
    - intros [_ (r & -> & [Hs Hr]%list_elem_of_filter)%list_elem_of_fmap]%list_elem_of_filter. by destruct (Hp r Hr Hs). }
  split; [by eapply grows_linked|done|done|by apply candidates_vas|done| | | | |].
  - apply (exports_ok_keep _ v); [done|]. intros e He Hs. apply Hfree. intros r Hr Hlv.
    destruct (se_import_export _ Hsep r e Hr Hlv He Hs) as (? & ? & _). done.
  - apply (locals_ok_keep _ v); [done|]. intros l Hli. apply Hfree. intros r Hr Hlv.
    destruct (se_import_local _ Hsep r l Hr Hlv Hli) as (? & ? & _). done.
  - intros e j He Hs Hj. rewrite Hdev. apply Ho. intros r Hr Hlv.
    destruct (se_import_export _ Hsep r e Hr Hlv He Hs) as (_ & _ & Hd). unfold disjoint_ranges in Hd. lia.
  - intros l j Hli Hj. rewrite Hdev. apply Ho. intros r Hr Hlv.
    destruct (se_import_local _ Hsep r l Hr Hlv Hli) as (_ & _ & Hd). unfold disjoint_ranges in Hd. lia.
  - split; [done|]. intros r Hr Hlv. apply delete_all_in, list_elem_of_fmap. exists r. split; [done|].
    by apply list_elem_of_filter.
Qed.

Lemma ready_half f t v : ready f t v → filter saves es = [] → half None f t v.
Proof. intros [Hl Hq _ Hc Hd _ Hlo _ Hld Haw] He. by split. Qed.

Lemma exports_saved f t v p n h : at_ f t v h → ready f t v → saved_total es ≤ n →
  wp (ipc_save_and_teardown_all_exports p n) (λ k h', 0 ≤ k ∧ ∃ g t' v', at_ g t' v' h' ∧ half (Some p) g t' v') h.
Proof.
  intros Hat [Hl Hq He Hc Hd Heo Hlo Hed Hld Haw] Hn.
  eapply wp_mono; [eapply save_parks; [exact Hat|done|done|by rewrite He|by rewrite He]|]. rewrite He.
  intros k h' (-> & g & t' & v' & H' & Hg & Ht' & Hpk & Hout & _ & _ & Hmaps & Hhand). split; [lia|].
  exists g, t', v'. split; [done|].
  assert (Hel : ∀ e l, e ∈ es → saves e → l ∈ rs → unshared (mapped_vaddr e) (mapped_size e) (local_handle e)
    (l_vaddr l) (l_size l) (l_handle l)) by (intros; by apply Hsep).
  assert (Hvas : exported_vas t' = exported_vas t) by (by apply (parked_vas es p (cv_dev v) _ _ v')).
  assert (Ht : g_created_allocs t' = g_created_allocs t ∧ g_handle_to_va t' = g_handle_to_va t ∧
    g_va_access_descs t' = g_va_access_descs t ∧ g_ipc_imports t' = g_ipc_imports t) by (rewrite Ht'; done).
  destruct Ht as (H1 & H2 & H3 & H4).
  split; [by eapply grows_linked|apply Hpk|rewrite <- Hc; by apply candidates_vas|congruence| | | |].
  - apply (locals_ok_keep _ v); [done|]. intros l Hli. split; [apply Hmaps|apply Hhand]; intros e Hin Hs;
      destruct (Hel e l Hin Hs Hli) as (? & ? & _); done.
  - intros l j Hli Hj. rewrite <- (Hld l j Hli Hj). apply Hout. intros e Hin Hs.
    destruct (Hel e l Hin Hs Hli) as (_ & _ & Hdj). unfold disjoint_ranges in Hdj. unfold in_range. lia.
  - by apply (parked_exports_agree _ _ _ (cv_dev v)).
  - apply (away_keep t v); [done..|]. intros r Hr Hlv Hno. rewrite Hmaps; [done|]. intros e Hin Hs.
    by destruct (se_import_export _ Hsep r e Hr Hlv Hin Hs).
Qed.

Lemma half_held p f t v : half p f t v → rs = [] → held p None f t v.
Proof. intros [Hl Hq Hc Hd _ _ Hp Haw] Hr. by split. Qed.

Lemma locals_saved p q f t v n h : at_ f t v h → half p f t v → sum_by l_size rs ≤ n →
  (∀ p', p = Some p' → disjoint_ranges p' (saved_total es) q (sum_by l_size rs)) →
  wp (ipc_save_and_teardown_local_allocs q n) (λ k h', 0 ≤ k ∧ ∃ g t' v', at_ g t' v' h' ∧ held p (Some q) g t' v') h.
Proof.
  intros Hat [Hl Hq Hc Hd Hlo Hld Hp Haw] Hn Hdj.
  eapply wp_mono; [eapply local_parks; [exact Hat|done|done|by rewrite Hc|by rewrite Hc|by rewrite Hc]|]. rewrite Hc.
  intros k h' (-> & g & v' & Hg & H' & Hpk & _ & _ & Hhost & Hmaps). split; [lia|].
  eexists g, _, v'. split; [exact H'|]. split; [by eapply grows_linked|apply Hpk|done| | |].
  - destruct p as [p'|]; [|done]. destruct Hp as [Hlen Hrec Hoth Hb Hu _]. split; try done.
    + intros x j Hx Hj. rewrite Hhost; [by apply Hb|]. specialize (Hdj p' eq_refl). destruct x as [ir o].
      pose proof (with_offsets_bounds isize 0 _ _ _ (isize_nonneg es) Hx) as Hbd. rewrite save_order_sum in Hbd.
      unfold disjoint_ranges, saved_total, isize in *. simpl in *. lia.
    + intros x Hx. apply Hmaps. by apply Hu.
    + apply Hpk.
  - by apply (parked_locals_agree _ _ _ (cv_dev v)).
  - apply (away_keep t v); [done..|]. intros r _ _. apply Hmaps.
Qed.

(** ** The rebuilds *)

Context (v0 : cview) (Heo : exports_ok es v0) (Hlo : locals_ok rs v0).
Abbreviation olds := (l_handle <$> rs).

Definition exports_back (t : ipc_tables) (v : cview) : Prop :=
  ∀ i r, es !! i = Some r → saves r → export_back olds dev t0 t v i r.
Definition locals_back (t : ipc_tables) (v : cview) : Prop :=
  ∀ i r, rs !! i = Some r → local_restored rs dev t0 t v i r.

(** Once the exports are back. *)
Record rebuilt (q : option Z) (f : gmap string fnptr) (t : ipc_tables) (v : cview) : Prop := {
  rb_linked : linked f;
  rb_idle : cv_queue v = [];
  rb_descs : g_va_access_descs t = g_va_access_descs t0;
  rb_locals : locals_parked q t v;
  rb_exports : exports_back t v;
  rb_away : imports_away t v
}.

Lemma held_rebuilt q f t v : held None q f t v → rebuilt q f t v.
Proof.
  intros [Hl Hq Hd He Hlk Haw]. split; try done. intros i r Hi Hs. exfalso.
  assert (Hin : r ∈ filter saves es) by (apply list_elem_of_filter; split; [done|by eapply list_elem_of_lookup_2]).
  rewrite He in Hin. by apply elem_of_nil in Hin.
Qed.

Lemma exports_rebuilt p q f t v n h : at_ f t v h → held (Some p) q f t v → saved_total es ≤ n →
  wp (ipc_rebuild_and_restore_all_exports p n) (λ k h', 0 ≤ k ∧ ∃ g t' v', at_ g t' v' h' ∧ rebuilt q g t' v') h.
Proof.
  intros Hat [Hl Hq Hd Hpk Hlk Haw] Hn. eapply wp_mono; [eapply (rebuild_restores es p n dev v0); done|].
  intros k h' (-> & g & t' & v' & H' & Hg & Hres & _ & _ & (Hla & Hds & Him) & [Hhost Hidle] & Hmaps). split; [lia|].
  exists g, t', v'. split; [done|]. split; [by eapply grows_linked|done|congruence| | |].
  - destruct q as [q|]; [|done]. destruct Hlk as [Hrec Hb Hu _]. split; [congruence|by rewrite Hhost| |done].
    intros l Hli. rewrite Hmaps; [by apply Hu|]. intros e He Hs. destruct (se_export_local _ Hsep e l He Hs Hli) as (? & _). done.
  - intros i r Hi Hs. by apply (restored_back dev t), Hres.
  - apply (away_keep t v); [done..|]. intros r Hr Hlv Hno. rewrite Hmaps; [done|]. intros e Hin Hs.
    by destruct (se_import_export _ Hsep r e Hr Hlv Hin Hs).
Qed.

(** What the imports change: nothing of the exports and of the local allocations. *)
Record imports_only (v v' : cview) : Prop := {
  jo_handles : cv_handles v ⊆ cv_handles v';
  jo_fds : cv_fds v ⊆ cv_fds v';
  jo_maps p : (∀ r, r ∈ g_ipc_imports t0 → live r → p ≠ i_vaddr r) → cv_maps v' !! p = cv_maps v !! p;
  jo_dev : outside_imports (g_ipc_imports t0) (cv_dev v) (cv_dev v')
}.

Lemma exports_kept imps t v v' : exports_back t v → imports_only v v' → exports_back (set_imports imps t) v'.
Proof.
  intros Hb [Hh Hf Hm Hd] i r Hi Hs. pose proof (list_elem_of_lookup_2 _ _ _ Hi) as Hin.
  assert (Hun : ∀ x, x ∈ g_ipc_imports t0 → live x →
    unshared (i_vaddr x) (i_size x) (i_handle x) (mapped_vaddr r) (mapped_size r) (local_handle r)) by (intros; by apply Hsep).
  destruct (Hb i r Hi Hs) as [(k & fd & o & Hr & Hk & Hfd & Hop & Hha & Hmp & Htr) Hbytes]. split.
  - exists k, fd, o. rewrite Hm by (intros x Hx Hlv; by destruct (Hun x Hx Hlv) as [? _]). split_and!; try done.
    + destruct Hop as [sz Hop]. exists sz. by eapply lookup_weaken.
    + by eapply lookup_weaken.
  - intros j Hj. rewrite Hd; [by apply Hbytes|]. intros x Hx Hlv. destruct (Hun x Hx Hlv) as (_ & _ & Hdj).
    unfold disjoint_ranges in Hdj. lia.
Qed.

Lemma locals_kept imps t v v' : locals_back t v → imports_only v v' → locals_back (set_imports imps t) v'.
Proof.
  intros Hb [Hh Hf Hm Hd] i r Hi. pose proof (list_elem_of_lookup_2 _ _ _ Hi) as Hin.
  assert (Hun : ∀ x, x ∈ g_ipc_imports t0 → live x →
    unshared (i_vaddr x) (i_size x) (i_handle x) (l_vaddr r) (l_size r) (l_handle r)) by (intros; by apply Hsep).
  destruct (Hb i r Hi) as [(k & Hr & Hk & Hha & Hmp & Htr) Hbytes]. split.
  - exists k. rewrite Hm by (intros x Hx Hlv; by destruct (Hun x Hx Hlv) as [? _]). split_and!; try done.
    by eapply lookup_weaken.
  - intros j Hj. rewrite Hd; [by apply Hbytes|]. intros x Hx Hlv. destruct (Hun x Hx Hlv) as (_ & _ & Hdj).
    unfold disjoint_ranges in Hdj. lia.
Qed.

Lemma exports_stay t v t' v' L : exports_back t v → retracked t L t' → (∀ e, e ∈ L → cv_handles v !! new_handle e = None) →
  l_handle <$> g_local_allocs t = olds →
  (∀ p, (∀ l, l ∈ rs → p ≠ l_vaddr l) → cv_maps v' !! p = cv_maps v !! p) → cv_handles v ⊆ cv_handles v' →
  cv_fds v' = cv_fds v → outside_locals rs (cv_dev v) (cv_dev v') → exports_back t' v'.
Proof.
  intros Hb Hrt Hnew Hold Hmaps Hhand Hfds Hout i r Hi Hs. pose proof (list_elem_of_lookup_2 _ _ _ Hi) as Hin.
  assert (Hel : ∀ l, l ∈ rs → unshared (mapped_vaddr r) (mapped_size r) (local_handle r) (l_vaddr l) (l_size l) (l_handle l))
    by (intros; by apply Hsep).
  destruct (Hb i r Hi Hs) as [(k & fd & o & Hr & Hk & Hfd & Hop & Hha & Hm & Htr) Hbytes].
  destruct (rk_rest _ _ _ Hrt) as (ca & va & la & Ht' & Hkeep). split.
  - exists k, fd, o. rewrite Hfds, Hmaps by (intros l Hli; by destruct (Hel l Hli)). rewrite Ht'. split_and!; try done.
    + by eapply lookup_weaken.
    + intros Hn. rewrite Hold in Hkeep. destruct (Hkeep k Hn) as [H1 H2].
      { intros (e & -> & He)%list_elem_of_fmap. specialize (Hnew e He). congruence. }
      cbn [g_created_allocs g_handle_to_va set_handle_va set_created set_local]. rewrite H1, H2. by apply Htr.
  - intros j Hj. rewrite Hout; [by apply Hbytes|]. intros l Hli. destruct (Hel l Hli) as (_ & _ & Hd).
    unfold disjoint_ranges in Hd. unfold in_local. lia.
Qed.

Lemma locals_rebuilt q f t v n h : at_ f t v h → rebuilt (Some q) f t v → sum_by l_size rs ≤ n →
  wp (ipc_rebuild_local_allocs q n) (λ k h', 0 ≤ k ∧ ∃ g t' v', at_ g t' v' h' ∧
    exports_back t' v' ∧ locals_back t' v' ∧ imports_away t' v') h.
Proof.
  intros Hat [Hl Hq Hd Hpk He Haw] Hn. pose proof (lo_spread _ _ Hlo) as Hsp.
  eapply wp_mono; [eapply (local_rebuild_restores rs q n dev); done|].
  intros k h' (-> & g & t' & v' & H' & Hg & Hres & Hout & Hmaps & Hhand & Hfds & L & Hrt & Hnew). split; [lia|].
  exists g, t', v'. split; [done|]. split; [|split].
  - apply (exports_stay t v t' v' L); try done. by rewrite (pl_records _ _ _ _ _ Hpk), handles_torn.
  - intros i r Hi. destruct (Hres i r Hi) as [Hr Hb]. unfold local_mapping, local_descs in *. rewrite Hd in Hr. by split.
  - apply (away_keep t v); [done| |].
    + destruct (rk_rest _ _ _ Hrt) as (ca & va & la & -> & _). done.
    + intros r Hr Hlv Hno. rewrite Hmaps; [done|]. intros l Hli. by destruct (se_import_local _ Hsep r l Hr Hlv Hli).
Qed.

Lemma rebuilt_none f t v : rebuilt None f t v → exports_back t v ∧ locals_back t v ∧ imports_away t v.
Proof. intros [_ _ _ Hr He Haw]. split_and!; [done| |done]. intros i r Hi. simpl in Hr. by rewrite Hr in Hi. Qed.
End Steps.
