(* ===== verification/RuntimeCycle.v ===== *)
(** A checkpoint and a restore through the entry points of the runtime.

    [prepare_saves], [restore_brings_back] and [restore_brings_imports] are the three entry points, [runtime_roundtrip] the
    whole cycle; between the entry points the process may be left to others ([resumed], [waited]). *)
From S2P Require Import Prelude Frames Text Common Gpu Ckpt Copies IpcState IpcDriver FdExchange FdFacts IpcHooks IpcExports IpcRules IpcSafe.
From S2P Require Import IpcSave IpcRebuild IpcRoundtrip IpcImports LocalSave LocalRebuild IpcTheorems HookTheorems Process Handlers HandlerFacts.
From S2P Require Import Runtime RuntimeFacts RuntimeTheorems RuntimeData RuntimeRoundtrip CuSim IpcTracking ImportTheorems ProcSim.
Open Scope Z_scope.



Section Cycle.
Context {D P : Type} {CD : CuDriver D} {CL : CuLaws D} {CR : CuReliable D} {CH : CudaHost D} {HL : HostLaws D}.
Context {SK : Sockets D} {SV : ServerLaws D} {PX : Posix P} {PD : PosixDirs P} {PF : Platform}.
Abbreviation rt := (runtime D P).
Implicit Types (s : rt).






Section Prepare.
Context (t0 : ipc_tables) (dev : mem) (Hsep : separate t0) (Hby : by_device (local_candidates t0)).
Abbreviation es := (g_ipc_exports t0).
Abbreviation rs := (local_candidates t0).






Definition buffers_apart_at s (q : Z) : Prop := ∀ p, b_ptr (g_export_data s) = Some p →
  disjoint_ranges p (b_size (g_export_data s)) q (b_size (g_local_alloc_data s)).
#[local] Instance buffers_apart_at_dec s q : Decision (buffers_apart_at s q).
Proof.
  unfold buffers_apart_at. destruct (b_ptr (g_export_data s)) as [p|]; [|by left].
  destruct (decide (p + b_size (g_export_data s) ≤ q ∨ q + b_size (g_local_alloc_data s) ≤ p)) as [H|H].
  - left. by intros ? [= <-].
  - right. intros Hp. by apply H, Hp.
Defined.







End Prepare.

(** ** The way back *)


Section Restore.
Context (t0 : ipc_tables) (dev : mem) (v0 : cview) (Hsep : separate t0).
Context (Heo : exports_ok (g_ipc_exports t0) v0) (Hlo : locals_ok (local_candidates t0) v0).






End Restore.
(** ** Publication and the descriptor server *)

Section Map.
Context {B : Type} (F : rt → B) (HF : ∀ o s, F (set_rt_os o s) = F s).
End Map.

(** Starting the server opens at most one descriptor, which was not in use. *)
Definition server_view (x : fdx D) : cview := cu_view (kern x).
Lemma still_server_sys {A} (m : M D A) : still cu_view m → still server_view (sys m).
Proof. intros Hm x. apply post_zoom. eapply post_mono; [apply Hm|]. by intros a d. Qed.


Lemma still_set_server g : still server_view (set_server g : M (fdx D) unit).
Proof. by apply still_modify. Qed.
Lemma still_set_thread t : still server_view (set_thread t : M (fdx D) unit).
Proof. by apply still_modify. Qed.
Local Hint Resolve still_server_sys still_set_server still_set_thread unlink_quiet chmod_quiet thread_quiet bind_quiet
  listen_quiet : still.




(** ** The imports *)




Section Import.
Context {SL : SockLaws D} (t0 : ipc_tables) (dev : mem) (Hsep : separate t0) (v0 : cview).
Context (Him : imports_ok (g_ipc_imports t0) v0) (Hall : ∀ r, r ∈ g_ipc_imports t0 → i_torn_down r = false).







End Import.
End Cycle.

(** ** The theorem *)


#[export] Instance cusim_host_laws : HostLaws cusim.
Proof. split; intros *; try done. by intros [= <- <-]. Qed.
#[export] Instance cusim_server_laws : ServerLaws cusim.
Proof. split; intros *; try done. cbn. split; [done|]. apply fresh_key_spec. Qed.










