(* ===== verification/NcclHooks.v ===== *)
(** The NCCL hooks, [src/src/nccl_hooks.cpp].

    The preloaded library shadows four functions of NCCL and keeps a list of the
    communicators they create.  The real functions are looked for in five places. *)
From S2P Require Import Prelude Text MultiClient.
Open Scope Z_scope.

Definition NCCL_OK : Z := 0.
Definition ncclInternalError : Z := 3.

(** How [dlopen] is called: for a library that is loaded already, or with [RTLD_GLOBAL]. *)
Inductive open_mode := NoLoad | Global.

#[export] Instance open_mode_dec : EqDecision open_mode.
Proof. solve_decision. Defined.

(** The dynamic linker, the environment, and NCCL itself.  Addresses and handles are
    numbers.  [call_init] is the call of the function at an address: its result
    and what the communicator pointer points to afterwards, if there is one. *)
Class NcclLoader (L : Type) := {
  dlsym_next : string → M L (option Z);
  dlopen : string → open_mode → M L (option Z);
  dlsym_at : Z → string → M L (option Z);
  own_file : M L (option string);                (* dladdr of the hook library *)
  realpath : string → M L (option string);
  cr_nccl_lib : M L (option string);             (* getenv("CR_NCCL_LIB") *)
  call_init : Z → option Z → Z → Z → Z → M L (Z * option Z);
  call_init_config : Z → option Z → Z → Z → Z → Z → M L (Z * option Z);
  call_comm : Z → Z → M L Z                      (* ncclCommDestroy, ncclCommFinalize *)
}.

(** The statics of the file. *)
Record nccl (L : Type) := MkNccl {
  linker : L;
  g_tracked_comms : list Z;
  nccl_handle : option Z;
  explicit_tried : bool; nccl_handle_explicit : option Z;
  relative_tried : bool; nccl_handle_relative : option Z;
  fallback_tried : bool; nccl_handle_fallback : option Z;
  real_fn : gmap string Z                        (* one per hook *)
}.
Arguments MkNccl {L}. Arguments linker {L}. Arguments g_tracked_comms {L}. Arguments nccl_handle {L}.
Arguments explicit_tried {L}. Arguments nccl_handle_explicit {L}. Arguments relative_tried {L}.
Arguments nccl_handle_relative {L}. Arguments fallback_tried {L}. Arguments nccl_handle_fallback {L}. Arguments real_fn {L}.

Section Nccl.
Context {L : Type} {NL : NcclLoader L}.
Abbreviation nccl := (nccl L).

Definition set_linker x (s : nccl) : nccl := MkNccl x (g_tracked_comms s) (nccl_handle s) (explicit_tried s)
  (nccl_handle_explicit s) (relative_tried s) (nccl_handle_relative s) (fallback_tried s) (nccl_handle_fallback s) (real_fn s).
Definition set_comms x (s : nccl) : nccl := MkNccl (linker s) x (nccl_handle s) (explicit_tried s)
  (nccl_handle_explicit s) (relative_tried s) (nccl_handle_relative s) (fallback_tried s) (nccl_handle_fallback s) (real_fn s).
Definition set_loaded x (s : nccl) : nccl := MkNccl (linker s) (g_tracked_comms s) x (explicit_tried s)
  (nccl_handle_explicit s) (relative_tried s) (nccl_handle_relative s) (fallback_tried s) (nccl_handle_fallback s) (real_fn s).
Definition set_explicit x (s : nccl) : nccl := MkNccl (linker s) (g_tracked_comms s) (nccl_handle s) true
  x (relative_tried s) (nccl_handle_relative s) (fallback_tried s) (nccl_handle_fallback s) (real_fn s).
Definition set_relative x (s : nccl) : nccl := MkNccl (linker s) (g_tracked_comms s) (nccl_handle s) (explicit_tried s)
  (nccl_handle_explicit s) true x (fallback_tried s) (nccl_handle_fallback s) (real_fn s).
Definition set_fallback x (s : nccl) : nccl := MkNccl (linker s) (g_tracked_comms s) (nccl_handle s) (explicit_tried s)
  (nccl_handle_explicit s) (relative_tried s) (nccl_handle_relative s) true x (real_fn s).
Definition set_real_fn x (s : nccl) : nccl := MkNccl (linker s) (g_tracked_comms s) (nccl_handle s) (explicit_tried s)
  (nccl_handle_explicit s) (relative_tried s) (nccl_handle_relative s) (fallback_tried s) (nccl_handle_fallback s) x.

Definition ld {A} (m : M L A) : M nccl A := zoom linker set_linker m.

(** ** Finding the real functions *)

(** The first candidate that is loaded. *)
Fixpoint first_loaded (candidates : list string) : M nccl (option Z) :=
  match candidates with
  | [] => mret None
  | c :: cs => h ← ld (dlopen c NoLoad); match h with Some h => mret (Some h) | None => first_loaded cs end
  end.

(** [if (handle) { sym = dlsym(handle, name); if (sym) return sym; }], then the rest. *)
Definition try_handle (handle : nccl → option Z) (name : string) (rest : M nccl (option Z)) : M nccl (option Z) :=
  h ← get handle;
  match h with
  | Some h => sym ← ld (dlsym_at h name); match sym with Some p => mret (Some p) | None => rest end
  | None => rest
  end.

(** [if (!tried) { tried = true; handle = ...; }] *)
Definition once (tried : nccl → bool) (set : option Z → nccl → nccl) (open : M nccl (option Z)) : M nccl unit :=
  t ← get tried;
  if t : bool then mret tt else h ← open; modify (set h).

Definition open_explicit : M nccl (option Z) :=
  p ← ld cr_nccl_lib;
  match p with
  | Some p => if bool_decide (p = "") then mret None else ld (dlopen p Global)
  | None => mret None
  end.

(** The library next to the hook library, [cut_last] being the text before the last slash. *)
Definition open_relative : M nccl (option Z) :=
  p ← ld own_file;
  match p with
  | None => mret None
  | Some our_path =>
      match cut_last slash our_path with
      | None => mret None
      | Some build_dir =>
          let local_nccl := (build_dir +:+ "/../nccl_install/lib/libnccl.so.2")%string in
          r ← ld (realpath local_nccl);
          ld (dlopen (default local_nccl r) Global)
      end
  end.
Definition open_fallback : M nccl (option Z) := ld (dlopen "libnccl.so.2" Global).

Definition find_real_nccl_sym (name : string) : M nccl (option Z) :=
  sym ← ld (dlsym_next name);
  match sym with
  | Some p => mret (Some p)
  | None =>
      h ← first_loaded ["libnccl.so.2"; "libnccl.so"]%string;
      _ ← (match h with Some h => modify (set_loaded (Some h)) | None => mret tt end);
      try_handle nccl_handle name (
      _ ← once explicit_tried set_explicit open_explicit;
      try_handle nccl_handle_explicit name (
      _ ← once relative_tried set_relative open_relative;
      try_handle nccl_handle_relative name (
      _ ← once fallback_tried set_fallback open_fallback;
      try_handle nccl_handle_fallback name (mret None))))
  end.

(** [if (!real_fn) real_fn = find_real_nccl_sym(name)] of the hook of that name. *)
Definition real (name : string) : M nccl (option Z) :=
  p ← get (λ s, real_fn s !! name);
  match p with
  | Some p => mret (Some p)
  | None =>
      q ← find_real_nccl_sym name;
      _ ← (match q with Some q => modify (λ s, set_real_fn (<[name := q]> (real_fn s)) s) | None => mret tt end);
      mret q
  end.

(** ** The communicators *)

Definition nccl_register_comm (comm : Z) : M nccl unit :=
  if bool_decide (comm = 0) then mret tt else
  modify (λ s, if bool_decide (comm ∈ g_tracked_comms s) then s else set_comms (g_tracked_comms s ++ [comm]) s).

(** [erase(find(...))]: the first occurrence only. *)
Fixpoint erase_first (comm : Z) (l : list Z) : list Z :=
  match l with
  | [] => []
  | c :: cs => if bool_decide (c = comm) then cs else c :: erase_first comm cs
  end.
Definition nccl_unregister_comm (comm : Z) : M nccl unit :=
  if bool_decide (comm = 0) then mret tt else
  modify (λ s, set_comms (erase_first comm (g_tracked_comms s)) s).

Definition nccl_get_comm_count : M nccl Z := get (λ s, signed32 (Z.of_nat (length (g_tracked_comms s)))).

(** What the two deprecated calls and the capability query are now. *)
Definition nccl_suspend_available : M nccl bool := mret false.
Definition nccl_suspend_all_comms : M nccl Z := mret 1.
Definition nccl_resume_all_comms : M nccl Z := mret 1.

(** What an initialisation does with its result. *)
Definition register_result (r : Z * option Z) : M nccl (Z * option Z) :=
  _ ← (match r.2 with
       | Some c => if bool_decide (r.1 = NCCL_OK) then nccl_register_comm c else mret tt
       | None => mret tt
       end);
  mret r.

(** ** The hooks.  [comm] is what the pointer of the caller points to, if it is not null. *)

Definition ncclCommInitRank (comm : option Z) (nranks commId rank : Z) : M nccl (Z * option Z) :=
  f ← real "ncclCommInitRank";
  match f with
  | None => mret (ncclInternalError, comm)
  | Some f => r ← ld (call_init f comm nranks commId rank); register_result r
  end.

Definition ncclCommInitRankConfig (comm : option Z) (nranks commId rank config : Z) : M nccl (Z * option Z) :=
  f ← real "ncclCommInitRankConfig";
  match f with
  | None => ncclCommInitRank comm nranks commId rank
  | Some f => r ← ld (call_init_config f comm nranks commId rank config); register_result r
  end.

Definition ncclCommDestroy (comm : Z) : M nccl Z :=
  f ← real "ncclCommDestroy";
  match f with
  | None => mret ncclInternalError
  | Some f => _ ← nccl_unregister_comm comm; ld (call_comm f comm)
  end.

Definition ncclCommFinalize (comm : Z) : M nccl Z :=
  f ← real "ncclCommFinalize";
  match f with
  | None => mret NCCL_OK
  | Some f => ld (call_comm f comm)
  end.

Definition cr_register_nccl_comm (comm : Z) : M nccl unit := nccl_register_comm comm.
Definition cr_unregister_nccl_comm (comm : Z) : M nccl unit := nccl_unregister_comm comm.

End Nccl.
