(* ===== verification/NcclFacts.v ===== *)
(** The NCCL hooks: which communicators are tracked, and how often libraries are opened. *)
From S2P Require Import Prelude Frames Text MultiClient NcclHooks.
Open Scope Z_scope.

(** ** What is tracked, as a set *)

(** No communicator twice, and none of them null. *)
Definition tracked_ok (l : list Z) : Prop := NoDup l ∧ 0 ∉ l.

Lemma erase_first_elem c l x : NoDup l → x ∈ erase_first c l ↔ x ∈ l ∧ x ≠ c.
Proof.
  induction 1 as [|y l Hy Hl IH]; [set_solver|]. cbn. case_bool_decide; subst; set_solver.
Qed.
Lemma erase_first_ok c l : tracked_ok l → tracked_ok (erase_first c l).
Proof.
  intros [Hn H0]. split; [|rewrite erase_first_elem by done; naive_solver]. clear H0.
  induction Hn as [|y l Hy Hl IH]; [constructor|]. cbn. case_bool_decide; [done|]. constructor; [|done].
  rewrite erase_first_elem by done. naive_solver.
Qed.

Section Nccl.
Context {L : Type} {NL : NcclLoader L}.
Implicit Types (s : nccl L).

(** The calls an application makes, and what it gets back. *)
Inductive nccl_call :=
| InitRank (comm : option Z) (nranks commId rank : Z)
| InitRankConfig (comm : option Z) (nranks commId rank config : Z)
| Destroy (comm : Z)
| Finalize (comm : Z)
| Register (comm : Z)
| Unregister (comm : Z).

Definition run_call (c : nccl_call) : M (nccl L) (Z * option Z) :=
  match c with
  | InitRank comm n i r => ncclCommInitRank comm n i r
  | InitRankConfig comm n i r cfg => ncclCommInitRankConfig comm n i r cfg
  | Destroy comm => r ← ncclCommDestroy comm; mret (r, None)
  | Finalize comm => r ← ncclCommFinalize comm; mret (r, None)
  | Register comm => _ ← cr_register_nccl_comm comm; mret (0, None)
  | Unregister comm => _ ← cr_unregister_nccl_comm comm; mret (0, None)
  end.

(** A set of live communicators, and how each call changes it: an initialisation that answers
    0 adds the communicator it made; a destruction removes its own, unless NCCL is not
    there. *)
Inductive live_step : nccl_call → Z * option Z → gset Z → gset Z → Prop :=
| live_init comm n i r ret c X :
    live_step (InitRank comm n i r) (ret, c) X (if bool_decide (ret = 0) then X ∪ (list_to_set (option_list c) ∖ {[0]}) else X)
| live_init_config comm n i r cfg ret c X :
    live_step (InitRankConfig comm n i r cfg) (ret, c) X
      (if bool_decide (ret = 0) then X ∪ (list_to_set (option_list c) ∖ {[0]}) else X)
| live_destroy comm ret X : live_step (Destroy comm) (ret, None) X (X ∖ {[comm]})
| live_no_nccl comm X : live_step (Destroy comm) (ncclInternalError, None) X X
| live_finalize comm ret X : live_step (Finalize comm) (ret, None) X X
| live_register comm X : live_step (Register comm) (0, None) X (X ∪ ({[comm]} ∖ {[0]}))
| live_unregister comm X : live_step (Unregister comm) (0, None) X (X ∖ {[comm]}).

Inductive live_run : list nccl_call → gset Z → list (Z * option Z) → gset Z → Prop :=
| live_done X : live_run [] X [] X
| live_call c cs X r Y rs Z : live_step c r X Y → live_run cs Y rs Z → live_run (c :: cs) X (r :: rs) Z.

Lemma live_run_snoc cs c X rs Y r Z : live_run cs X rs Y → live_step c r Y Z → live_run (cs ++ [c]) X (rs ++ [r]) Z.
Proof. induction 1; intros; simpl; [by eapply live_call; [|apply live_done]|]. eapply live_call; [done|auto]. Qed.

Definition live_set s : gset Z := list_to_set (g_tracked_comms s).

(** Finding a function does not touch the list. *)
Lemma still_ld {A} (m : M L A) : still g_tracked_comms (ld m).
Proof. apply still_zoom. done. Qed.
Lemma still_handle h name rest : still g_tracked_comms rest → still g_tracked_comms (try_handle h name rest : M (nccl L) _).
Proof.
  intros Hr. unfold try_handle. apply still_bind; [apply still_get|]. intros [x|]; [|done].
  apply still_bind; [apply still_ld|]. intros [p|]; [apply still_ret|done].
Qed.
Lemma still_loaded cs : still g_tracked_comms (first_loaded cs : M (nccl L) _).
Proof.
  induction cs as [|c cs IH]; [apply still_ret|]. cbn. apply still_bind; [apply still_ld|].
  intros [h|]; [apply still_ret|done].
Qed.
Lemma still_once tried set open : (∀ h s, g_tracked_comms (set h s) = g_tracked_comms s) →
  still g_tracked_comms open → still g_tracked_comms (once tried set open : M (nccl L) _).
Proof.
  intros Hs Ho. unfold once. apply still_bind; [apply still_get|]. intros t. apply still_if; [apply still_ret|].
  apply still_bind; [done|]. intros h. by apply still_modify.
Qed.
Lemma still_find name : still g_tracked_comms (find_real_nccl_sym name : M (nccl L) _).
Proof.
  unfold find_real_nccl_sym. apply still_bind; [apply still_ld|]. intros [p|]; [apply still_ret|].
  apply still_bind; [apply still_loaded|]. intros h.
  apply still_bind; [destruct h; [by apply still_modify|apply still_ret]|]. intros ?.
  apply still_handle. apply still_bind; [apply still_once; [done|]|intros ?; apply still_handle].
  { unfold open_explicit. apply still_bind; [apply still_ld|]. intros [p|]; [apply still_if|]; eauto using still_ret, still_ld. }
  apply still_bind; [apply still_once; [done|]|intros ?; apply still_handle].
  { unfold open_relative. apply still_bind; [apply still_ld|]. intros [p|]; [|apply still_ret].
    destruct (cut_last slash p); [|apply still_ret]. apply still_bind; [apply still_ld|]. intros; apply still_ld. }
  apply still_bind; [apply still_once; [done|apply still_ld]|]. intros ?. apply still_handle, still_ret.
Qed.
Lemma still_real name : still g_tracked_comms (real name : M (nccl L) _).
Proof.
  unfold real. apply still_bind; [apply still_get|]. intros [p|]; [apply still_ret|].
  apply still_bind; [apply still_find|]. intros q.
  apply still_bind; [destruct q; [by apply still_modify|apply still_ret]|]. intros ?. apply still_ret.
Qed.

Definition tracks (l : list Z) s : Prop := g_tracked_comms s = l.

Lemma post_real name (Q : option Z → nccl L → Prop) l s : tracks l s → (∀ p s', tracks l s' → Q p s') → post (real name) Q s.
Proof. unfold tracks. intros <- HQ. eapply post_still; [apply still_real|exact HQ]. Qed.
Lemma post_ld {A} (m : M L A) (Q : A → nccl L → Prop) l s : tracks l s → (∀ a s', tracks l s' → Q a s') → post (ld m) Q s.
Proof. unfold tracks. intros <- HQ. eapply post_still; [apply still_ld|exact HQ]. Qed.

Definition with_comm (c : Z) (X : gset Z) : gset Z := X ∪ ({[c]} ∖ {[0]}).

Lemma register_post c l s : tracked_ok l → tracks l s → post (nccl_register_comm c)
  (λ _ s', tracked_ok (g_tracked_comms s') ∧ live_set s' = with_comm c (list_to_set l)) s.
Proof.
  unfold tracks. intros [Hn H0] <-. unfold nccl_register_comm, with_comm. case_bool_decide as Hc.
  { subst. split; [done|]. unfold live_set. set_solver. }
  unfold post, modify. case_bool_decide as Hin.
  - split; [done|]. unfold live_set. set_solver.
  - split; [|unfold live_set; cbn; set_solver]. split; [|cbn; set_solver]. cbn. apply NoDup_app. split_and!; [done|set_solver|].
    apply NoDup_singleton.
Qed.
Lemma unregister_post c l s : tracked_ok l → tracks l s → post (nccl_unregister_comm c)
  (λ _ s', tracked_ok (g_tracked_comms s') ∧ live_set s' = list_to_set l ∖ {[c]}) s.
Proof.
  unfold tracks. intros Hok <-. unfold nccl_unregister_comm. case_bool_decide as Hc.
  { subst. split; [done|]. unfold live_set. destruct Hok. set_solver. }
  split; [by apply erase_first_ok|]. unfold live_set. cbn. apply set_eq. intros x. destruct Hok as [Hn _].
  rewrite elem_of_list_to_set, erase_first_elem by done. set_solver.
Qed.

(** What both initialisations do once the real function has answered. *)
Lemma register_result_post r l s : tracked_ok l → tracks l s → post (register_result r)
  (λ r' s', r' = r ∧ tracked_ok (g_tracked_comms s') ∧ live_set s' =
     if bool_decide (r.1 = 0) then list_to_set l ∪ (list_to_set (option_list r.2) ∖ {[0]}) else list_to_set l) s.
Proof.
  intros Hok Hl. destruct r as [ret c]. unfold register_result. cbn [fst snd].
  assert (Hsame : tracked_ok (g_tracked_comms s) ∧ live_set s = list_to_set l) by (rewrite <- Hl in Hok |- *; done).
  destruct c as [c|]; [unfold NCCL_OK; case_bool_decide|].
  - eapply post_bind; [by apply register_post|]. intros ? s' [H1 H2]. apply post_ret. split_and!; [done..|].
    rewrite H2. unfold with_comm. cbn. set_solver.
  - apply (post_bind _ _ (λ _ s', s' = s)); [done|]. intros ? s' ->. apply post_ret. split; [done|]. destruct Hsame. by split.
  - apply (post_bind _ _ (λ _ s', s' = s)); [done|]. intros ? s' ->. apply post_ret. destruct Hsame as [H1 H2].
    split_and!; [done..|]. cbn. case_bool_decide; [|done]. rewrite H2. set_solver.
Qed.

Definition moves c s : (Z * option Z) → nccl L → Prop :=
  λ r s', tracked_ok (g_tracked_comms s') ∧ live_step c r (live_set s) (live_set s').

Lemma init_rank_post comm n i r l s : tracked_ok l → tracks l s → post (ncclCommInitRank comm n i r)
  (λ ans s', tracked_ok (g_tracked_comms s') ∧ live_set s' =
     if bool_decide (ans.1 = 0) then list_to_set l ∪ (list_to_set (option_list ans.2) ∖ {[0]}) else list_to_set l) s.
Proof.
  intros Hok Hl. unfold ncclCommInitRank. eapply post_bind; [by apply (post_real _ (λ _ s', tracks l s') l)|].
  intros [f|] s1 H1; cbv beta in H1; [|apply post_ret; split; [by rewrite H1|]; unfold live_set; by rewrite H1].
  eapply post_bind; [by apply (post_ld _ (λ _ s', tracks l s') l)|]. intros ans s2 H2.
  eapply post_mono; [by apply register_result_post|]. by intros ? s3 (-> & ?).
Qed.

Lemma call_moves c s : tracked_ok (g_tracked_comms s) → post (run_call c) (moves c s) s.
Proof.
  intros Hok. set (l := g_tracked_comms s). assert (Hl : tracks l s) by done. unfold moves.
  destruct c as [comm n i r|comm n i r cfg|comm|comm|comm|comm]; cbn [run_call].
  - eapply post_mono; [by apply init_rank_post|]. intros [ret c] s' [H1 ->]. split; [done|]. apply live_init.
  - unfold ncclCommInitRankConfig. eapply post_bind; [by apply (post_real _ (λ _ s', tracks l s') l)|].
    intros [f|] s1 H1; cbv beta in H1.
    + eapply post_bind; [by apply (post_ld _ (λ _ s', tracks l s') l)|]. intros [ret0 c0] s2 H2.
      eapply post_mono; [by apply register_result_post|]. intros [ret c] s3 ([= -> ->] & H3 & ->). split; [done|].
      apply live_init_config.
    + eapply post_mono; [by apply (init_rank_post _ _ _ _ l)|]. intros [ret c] s' [H3 ->]. split; [done|]. apply live_init_config.
  - unfold ncclCommDestroy. eapply (post_bind _ _ (λ ret s', tracked_ok (g_tracked_comms s') ∧
      live_step (Destroy comm) (ret, None) (live_set s) (live_set s'))); [|intros ret s' Hr; exact Hr].
    eapply post_bind; [by apply (post_real _ (λ _ s', tracks l s') l)|]. intros [f|] s1 H1; cbv beta in H1.
    + eapply post_bind; [by apply (unregister_post _ l)|]. intros ? s2 [H2 H2']. cbv beta in H2, H2'.
      eapply (post_ld _ _ (g_tracked_comms s2)); [done|]. intros ret s3 H3. split; [by rewrite H3|].
      replace (live_set s3) with (live_set s ∖ {[comm]}); [apply live_destroy|]. transitivity (live_set s2); [by rewrite H2'|]. unfold live_set. by rewrite H3.
    + apply post_ret. split; [by rewrite H1|]. replace (live_set s1) with (live_set s) by (unfold live_set; by rewrite H1).
      apply live_no_nccl.
  - eapply (post_bind _ _ (λ _ s', tracks l s')); [|intros ret s' H'; apply post_ret; split; [by rewrite H'|];
      replace (live_set s') with (live_set s) by (unfold live_set; by rewrite H'); apply live_finalize].
    unfold ncclCommFinalize. eapply post_bind; [by apply (post_real _ (λ _ s', tracks l s') l)|].
    intros [f|] s1 H1; [by apply (post_ld _ _ l)|by apply post_ret].
  - eapply post_bind; [by apply (register_post _ l)|]. intros ? s' [H1 H2]. apply post_ret. split; [done|].
    rewrite H2. apply live_register.
  - eapply post_bind; [by apply (unregister_post _ l)|]. intros ? s' [H1 H2]. apply post_ret. split; [done|].
    rewrite H2. apply live_unregister.
Qed.

Definition run_calls (cs : list nccl_call) : M (nccl L) (list (Z * option Z)) :=
  each run_call cs.

Lemma calls_moves cs s : tracked_ok (g_tracked_comms s) → post (run_calls cs)
  (λ rs s', tracked_ok (g_tracked_comms s') ∧ live_run cs (live_set s) rs (live_set s')) s.
Proof.
  intros Hok. apply (post_each (λ pre rs s', tracked_ok (g_tracked_comms s') ∧ live_run pre (live_set s) rs (live_set s'))).
  { split; [done|apply live_done]. }
  intros pre c rs s1 [H1 Hr]. eapply post_mono; [by apply call_moves|]. intros r s2 [H2 Hst].
  split; [done|]. by eapply live_run_snoc.
Qed.
End Nccl.
