(* ===== verification/NcclTheorems.v ===== *)
(** The NCCL hooks: the theorems. *)
From S2P Require Import Prelude Frames Text MultiClient NcclHooks NcclFacts.
Open Scope Z_scope.

(** C32: the list of communicators is the set of live ones.  Over any sequence of hooked and
    manual calls, with whatever NCCL and the dynamic linker answer, the list never holds a
    communicator twice nor a null one, its elements are those a successful
    initialisation (or a registration) added and no destruction removed since, and
    the count is their number. *)
Theorem comms_are_live {L} {NL : NcclLoader L} (cs : list nccl_call) (s s' : nccl L) rs :
  tracked_ok (g_tracked_comms s) → run_calls cs s = Ret rs s' →
  tracked_ok (g_tracked_comms s') ∧ live_run cs (live_set s) rs (live_set s') ∧
  (Z.of_nat (size (live_set s')) < 2 ^ 31 → nccl_get_comm_count s' = Ret (Z.of_nat (size (live_set s'))) s').
Proof.
  intros Hok Hr. pose proof (calls_moves cs s Hok) as Hp. unfold post in Hp. rewrite Hr in Hp. destruct Hp as [H1 H2].
  split_and!; [done..|]. assert (Hsz : size (live_set s') = length (g_tracked_comms s')) by (apply size_list_to_set, H1).
  rewrite Hsz. intros Hb. unfold nccl_get_comm_count, get. by rewrite signed32_small by lia.
Qed.

(** ** A loader that keeps a log of what it opens *)

Section Logged.
Context {L : Type} {NL : NcclLoader L}.
Definition logged : Type := L * list (string * open_mode).
Definition lift {A} (m : M L A) : M logged A := zoom fst (λ l s, (l, s.2)) m.

#[export] Instance logged_loader : NcclLoader logged := {|
  dlsym_next n := lift (dlsym_next n);
  dlopen p mode := _ ← modify (λ s, (s.1, s.2 ++ [(p, mode)])); lift (dlopen p mode);
  dlsym_at h n := lift (dlsym_at h n);
  own_file := lift own_file;
  realpath p := lift (realpath p);
  cr_nccl_lib := lift cr_nccl_lib;
  call_init f c n i r := lift (call_init f c n i r);
  call_init_config f c n i r g := lift (call_init_config f c n i r g);
  call_comm f c := lift (call_comm f c)
|}.
Implicit Types (s : nccl logged).

Definition global (e : string * open_mode) : bool := bool_decide (e.2 = Global).
(** The libraries opened with [RTLD_GLOBAL], and the places not tried yet. *)
Definition opened s : nat := length (filter (λ e, global e) (linker s).2).
Definition untried s : nat :=
  (if explicit_tried s then 0 else 1) + (if relative_tried s then 0 else 1) + (if fallback_tried s then 0 else 1).

(** [m] opens at most as many libraries as the flags it sets. *)
Definition frugal {A} (m : M (nccl logged) A) : Prop :=
  ∀ s, post m (λ _ s', opened s' + untried s' ≤ opened s + untried s)%nat s.
Definition opens_at_most (n : nat) {A} (m : M (nccl logged) A) : Prop :=
  ∀ s, post m (λ _ s', opened s' ≤ opened s + n ∧ untried s' = untried s)%nat s.

Lemma frugal_bind {A B} (m : M (nccl logged) A) (f : A → M _ B) : frugal m → (∀ a, frugal (f a)) → frugal (m ≫= f).
Proof. intros Hm Hf s. eapply post_bind; [apply Hm|]. intros a s' H'. eapply post_mono; [apply Hf|]. intros ? ? ?. cbv beta in *. lia. Qed.
Lemma frugal_ret {A} (a : A) : frugal (mret a).
Proof. intros s. by apply post_ret. Qed.
Lemma frugal_get {A} (f : nccl logged → A) : frugal (get f).
Proof. intros s. by apply post_get. Qed.
Lemma frugal_opens {A} (m : M (nccl logged) A) : opens_at_most 0 m → frugal m.
Proof. intros Hm s. eapply post_mono; [apply Hm|]. intros ? ? ?. cbv beta in *. lia. Qed.
Lemma opens_bind {A B} n (m : M (nccl logged) A) (f : A → M _ B) :
  opens_at_most 0 m → (∀ a, opens_at_most n (f a)) → opens_at_most n (m ≫= f).
Proof. intros Hm Hf s. eapply post_bind; [apply Hm|]. intros a s' [? ?]. eapply post_mono; [apply Hf|]. intros ? ? [? ?]. lia. Qed.
Lemma opens_ret {A} n (a : A) : opens_at_most n (mret a).
Proof. intros s. apply post_ret. lia. Qed.

(** Asking the linker anything but to open a library. *)
Lemma opens_lift {A} (m : M L A) n : opens_at_most n (ld (lift m)).
Proof. intros s. unfold post, ld, lift, zoom, opened, untried. destruct (m (linker s).1); cbn; [lia|done..]. Qed.
Lemma opens_dlopen p mode : opens_at_most (if global (p, mode) then 1 else 0) (ld (dlopen p mode)).
Proof.
  intros s. unfold post, ld, zoom. cbn. unfold mbind, M_bind, modify, lift, zoom. cbn.
  destruct (NcclHooks.dlopen p mode (linker s).1); [|done..]. unfold opened, untried. cbn.
  rewrite filter_app, length_app. split; [|done].
  replace (filter _ [(p, mode)]) with (if global (p, mode) then [(p, mode)] else []) by (by destruct mode).
  destruct (global (p, mode)); cbn; lia.
Qed.

Lemma frugal_handle h name rest : frugal rest → frugal (try_handle h name rest).
Proof.
  intros Hr. unfold try_handle. apply frugal_bind; [apply frugal_get|]. intros [x|]; [|done].
  apply frugal_bind; [apply frugal_opens, opens_lift|]. intros [p|]; [apply frugal_ret|done].
Qed.
Lemma frugal_loaded cs : frugal (first_loaded cs).
Proof.
  induction cs as [|c cs IH]; [apply frugal_ret|]. cbn. apply frugal_bind; [apply frugal_opens, (opens_dlopen c NoLoad)|].
  intros [h|]; [apply frugal_ret|done].
Qed.
(** A place is tried once: the flag pays for the library it opens. *)
Lemma frugal_once tried set open :
  (∀ h s, opened (set h s) = opened s ∧ (tried s = false → untried (set h s) + 1 = untried s)%nat) →
  (∀ s, post open (λ _ s', tried s' = tried s) s) → opens_at_most 1 open → frugal (once tried set open).
Proof.
  intros Hset Htr Ho s. unfold once. apply (post_bind _ _ (λ t s', s' = s ∧ t = tried s)); [done|].
  intros t s' [-> ->]. destruct (tried s) eqn:Ht; [by apply post_ret|].
  eapply post_bind; [apply post_and; [apply Ho|apply Htr]|]. intros h s1 [[H1 H2] H3]. unfold post, modify.
  destruct (Hset h s1) as [H4 H5]. rewrite Ht in H3. specialize (H5 H3). lia.
Qed.
Lemma frugal_find name : frugal (find_real_nccl_sym name).
Proof.
  unfold find_real_nccl_sym. apply frugal_bind; [apply frugal_opens, opens_lift|]. intros [p|]; [apply frugal_ret|].
  apply frugal_bind; [apply frugal_loaded|]. intros h.
  apply frugal_bind; [destruct h; [intros s; exact (le_n _)|apply frugal_ret]|]. intros ?.
  apply frugal_handle. apply frugal_bind; [apply frugal_once|intros ?; apply frugal_handle].
  { intros h' s. split; [done|]. unfold untried. cbn. intros ->. lia. }
  { apply (still_bind explicit_tried); [by apply still_zoom|]. intros [p|]; [|apply still_ret].
    apply still_if; [apply still_ret|by apply still_zoom]. }
  { unfold open_explicit. apply opens_bind; [apply opens_lift|]. intros [p|]; [|apply opens_ret].
    case_bool_decide; [apply opens_ret|apply (opens_dlopen p Global)]. }
  apply frugal_bind; [apply frugal_once|intros ?; apply frugal_handle].
  { intros h' s. split; [done|]. unfold untried. cbn. intros ->. lia. }
  { apply (still_bind relative_tried); [by apply still_zoom|]. intros [p|]; [|apply still_ret].
    destruct (cut_last slash p); [|apply still_ret]. apply still_bind; [by apply still_zoom|]. intros r. by apply still_zoom. }
  { unfold open_relative. apply opens_bind; [apply opens_lift|]. intros [p|]; [|apply opens_ret].
    destruct (cut_last slash p); [|apply opens_ret]. apply opens_bind; [apply opens_lift|]. intros r.
    apply (opens_dlopen _ Global). }
  apply frugal_bind; [apply frugal_once|intros ?; apply frugal_handle, frugal_ret].
  { intros h' s. split; [done|]. unfold untried. cbn. intros ->. lia. }
  { by apply still_zoom. }
  { apply (opens_dlopen _ Global). }
Qed.
Lemma frugal_real name : frugal (real name).
Proof.
  unfold real. apply frugal_bind; [apply frugal_get|]. intros [p|]; [apply frugal_ret|].
  apply frugal_bind; [apply frugal_find|]. intros q.
  apply frugal_bind; [destruct q; [intros s; exact (le_n _)|apply frugal_ret]|]. intros ?. apply frugal_ret.
Qed.
Lemma frugal_register c : frugal (nccl_register_comm c).
Proof.
  unfold nccl_register_comm. case_bool_decide; [apply frugal_ret|]. intros s. unfold post, modify. case_bool_decide; exact (le_n _).
Qed.
Lemma frugal_unregister c : frugal (nccl_unregister_comm c).
Proof. unfold nccl_unregister_comm. case_bool_decide; [apply frugal_ret|]. intros s. exact (le_n _). Qed.
Lemma frugal_result r : frugal (register_result r).
Proof.
  unfold register_result. apply frugal_bind; [|intros ?; apply frugal_ret].
  destruct r.2; [|apply frugal_ret]. case_bool_decide; [apply frugal_register|apply frugal_ret].
Qed.
Lemma frugal_init comm n i r : frugal (ncclCommInitRank comm n i r).
Proof.
  unfold ncclCommInitRank. apply frugal_bind; [apply frugal_real|]. intros [f|]; [|apply frugal_ret].
  apply frugal_bind; [apply frugal_opens, opens_lift|]. apply frugal_result.
Qed.
Lemma frugal_call c : frugal (run_call c).
Proof.
  destruct c; cbn [run_call].
  - apply frugal_init.
  - unfold ncclCommInitRankConfig. apply frugal_bind; [apply frugal_real|]. intros [f|]; [|apply frugal_init].
    apply frugal_bind; [apply frugal_opens, opens_lift|]. apply frugal_result.
  - apply frugal_bind; [|intros ?; apply frugal_ret]. unfold ncclCommDestroy. apply frugal_bind; [apply frugal_real|].
    intros [f|]; [|apply frugal_ret]. apply frugal_bind; [apply frugal_unregister|]. intros ?. apply frugal_opens, opens_lift.
  - apply frugal_bind; [|intros ?; apply frugal_ret]. unfold ncclCommFinalize. apply frugal_bind; [apply frugal_real|].
    intros [f|]; [apply frugal_opens, opens_lift|apply frugal_ret].
  - apply frugal_bind; [apply frugal_register|intros ?; apply frugal_ret].
  - apply frugal_bind; [apply frugal_unregister|intros ?; apply frugal_ret].
Qed.
End Logged.

(** Every library is opened once.  Whatever an application calls and however the lookups
    end, the hooks open at most one library with [RTLD_GLOBAL] for each of the three
    places that were not tried before, three in all from the start: a place that
    failed is never tried again, and one that was opened is kept. *)
Theorem libraries_opened_once {L} {NL : NcclLoader L} (cs : list nccl_call) (s s' : nccl logged) rs :
  run_calls cs s = Ret rs s' →
  (opened s' + untried s' ≤ opened s + untried s)%nat ∧ (opened s' ≤ opened s + 3)%nat.
Proof.
  intros Hr. assert (Hp : post (run_calls cs) (λ _ s', opened s' + untried s' ≤ opened s + untried s)%nat s).
  { apply (post_each (λ _ _ s', opened s' + untried s' ≤ opened s + untried s)%nat); [lia|].
    intros pre c l s1 H1. eapply post_mono; [apply frugal_call|]. intros r s2 H2. cbv beta in H2. lia. }
  unfold post in Hp. rewrite Hr in Hp. split; [done|]. revert Hp. unfold untried.
  destruct (explicit_tried s), (relative_tried s), (fallback_tried s), (explicit_tried s'), (relative_tried s'), (fallback_tried s'); lia.
Qed.

(** An application whose NCCL is none of the preloaded ones: [CR_NCCL_LIB] names it, and each
    initialisation makes a new communicator. *)
#[export] Instance example_loader : NcclLoader Z := {|
  dlsym_next _ := λ n, Ret None n;
  dlopen p mode := λ n, Ret (if bool_decide (p = "/opt/libnccl.so"%string ∧ mode = Global) then Some 7 else None) n;
  dlsym_at h _ := λ n, Ret (if bool_decide (h = 7) then Some 4096 else None) n;
  own_file := λ n, Ret (Some "/opt/gcr/build/vGPU-NVIDIA.so"%string) n;
  realpath p := λ n, Ret None n;
  cr_nccl_lib := λ n, Ret (Some "/opt/libnccl.so"%string) n;
  call_init _ c _ _ _ := λ n, Ret (0, (λ _, n + 1) <$> c) (n + 1);
  call_init_config _ c _ _ _ _ := λ n, Ret (0, (λ _, n + 1) <$> c) (n + 1);
  call_comm _ _ := λ n, Ret 0 n
|}.

Definition nccl_start {L} (l : L) : nccl L := MkNccl l [] None false None false None false None ∅.
Definition nccl_session : list nccl_call :=
  [InitRank (Some 0) 2 77 0; InitRankConfig (Some 0) 2 77 0 1; Register 9; Finalize 1; Destroy 1; Unregister 5].

Lemma comms_are_live_witness : ∃ rs s', run_calls nccl_session (nccl_start 0) = Ret rs s' ∧
  g_tracked_comms s' = [2; 9] ∧ live_run nccl_session ∅ rs (live_set s').
Proof.
  eexists _, _. split; [vm_compute; reflexivity|]. split; [reflexivity|].
  apply (comms_are_live nccl_session (nccl_start 0)); [|vm_compute; reflexivity].
  split; [constructor|cbn; intros H%elem_of_nil; exact H].
Defined.

Lemma libraries_opened_once_witness : ∃ rs s', run_calls nccl_session (nccl_start (0, [])) = Ret rs s' ∧
  opened s' = 1%nat ∧ (opened s' ≤ opened (nccl_start (0, [])) + 3)%nat.
Proof.
  eexists _, _. split; [vm_compute; reflexivity|]. split; [reflexivity|].
  apply (libraries_opened_once nccl_session (nccl_start (0, [])) _ [(0, Some 1); (0, Some 2); (0, None); (0, None); (0, None); (0, None)]).
  vm_compute. reflexivity.
Defined.
