(* ===== verification/NcclPlugin.v ===== *)
(** The checkpoint entry points added to NCCL and the GCR plugin behind them:
    [adapters/nccl/nccl_patches/checkpoint_api.cc], [adapters/nccl/nccl_patches/checkpoint.cc] and
    [adapters/nccl/plugin/nccl_checkpoint_gcr_plugin.cpp].

    NCCL loads the plugin by name on first use; the plugin finds the functions of [Runtime]
    by name in the preloaded library. *)
From S2P Require Import Prelude Text Common Gpu Ckpt IpcState IpcDriver FdExchange IpcHooks IpcExports Process Runtime.
Open Scope Z_scope.

(** The results the code names; anything else comes from NCCL. *)
Inductive ncclResult_t := ncclSuccess | ncclSystemError | ncclInvalidUsage | ncclOther (code : Z).

#[export] Instance ncclResult_eq_dec : EqDecision ncclResult_t.
Proof. solve_decision. Defined.

Definition NCCL_CKPT_MODE_NATIVE : Z := 1.
Definition NCCL_CKPT_MODE_GCR_GLOBAL : Z := 4.
Definition NCCL_CKPT_MODE_MASK : Z := Z.lor NCCL_CKPT_MODE_NATIVE NCCL_CKPT_MODE_GCR_GLOBAL.
Definition NCCL_CKPT_OPT_SAVE_DATA : Z := 256.
Definition NCCL_CKPT_OPT_NO_CUDA_CKPT : Z := 512.
Definition NCCL_CKPT_OPT_VALIDATE : Z := 1024.
Definition NCCL_CKPT_RESTORE_EXPORT : Z := 4096.
Definition NCCL_CKPT_RESTORE_IMPORT : Z := 8192.

(** The table of a plugin, over the state [S] it works on and its context [C]. *)
Record ncclCheckpointPlugin_t (S C : Type) := MkPlugin {
  pl_name : string;
  pl_init : option (M S (ncclResult_t * option C));
  pl_prepare : option (option C → Z → Z → M S ncclResult_t);
  pl_restore : option (option C → Z → Z → M S ncclResult_t);
  pl_finalize : option (option C → M S ncclResult_t)
}.
Arguments MkPlugin {S C}. Arguments pl_name {S C}. Arguments pl_init {S C}. Arguments pl_prepare {S C}.
Arguments pl_restore {S C}. Arguments pl_finalize {S C}.

(** NCCL's environment and its plugin libraries, with state [E]. *)
Class PluginLibs (E S C : Type) := {
  ncclGetEnv : string → M E (option string);
  ncclOpenCheckpointPluginLib : option string → M E (option Z);
  ncclClosePluginLib : Z → M E unit;
  ncclOsDlsym : Z → M E (option (ncclCheckpointPlugin_t S C))   (* NCCL_CHECKPOINT_PLUGIN_SYMBOL *)
}.

(** Suspend and resume of NCCL itself, when this NCCL has them. *)
Class NativeSuspend (S : Type) := {
  NCCL_SUSPEND_MEM : bool;
  ncclCommSuspend : Z → M S ncclResult_t;
  ncclCommResume : Z → M S ncclResult_t
}.

Inductive load_status := LoadFailed | LoadReady | LoadSuccess.
#[export] Instance load_status_dec : EqDecision load_status.
Proof. solve_decision. Defined.

(** ** The loader of NCCL *)

Record loader (E S C : Type) := MkLoader {
  libs : E;
  app : S;
  checkpointPluginStatus : load_status;
  checkpointPluginLib : option Z;
  checkpointPlugin : option (ncclCheckpointPlugin_t S C);
  checkpointPluginContext : option C;
  checkpointPluginFinalizeRegistered : bool
}.
Arguments MkLoader {E S C}. Arguments libs {E S C}. Arguments app {E S C}. Arguments checkpointPluginStatus {E S C}.
Arguments checkpointPluginLib {E S C}. Arguments checkpointPlugin {E S C}. Arguments checkpointPluginContext {E S C}.
Arguments checkpointPluginFinalizeRegistered {E S C}.

Section Loader.
Context {E S C : Type} {PL : PluginLibs E S C} {NS : NativeSuspend S}.
Abbreviation loader := (loader E S C).
Implicit Types (s : loader).

Definition set_libs x s : loader := MkLoader x (app s) (checkpointPluginStatus s) (checkpointPluginLib s)
  (checkpointPlugin s) (checkpointPluginContext s) (checkpointPluginFinalizeRegistered s).
Definition set_app x s : loader := MkLoader (libs s) x (checkpointPluginStatus s) (checkpointPluginLib s)
  (checkpointPlugin s) (checkpointPluginContext s) (checkpointPluginFinalizeRegistered s).
Definition set_lib x s : loader := MkLoader (libs s) (app s) (checkpointPluginStatus s) x
  (checkpointPlugin s) (checkpointPluginContext s) (checkpointPluginFinalizeRegistered s).
Definition set_plugin x s : loader := MkLoader (libs s) (app s) (checkpointPluginStatus s) (checkpointPluginLib s)
  x (checkpointPluginContext s) (checkpointPluginFinalizeRegistered s).
Definition set_context x s : loader := MkLoader (libs s) (app s) (checkpointPluginStatus s) (checkpointPluginLib s)
  (checkpointPlugin s) x (checkpointPluginFinalizeRegistered s).
Definition set_loaded s : loader := MkLoader (libs s) (app s) LoadSuccess (checkpointPluginLib s)
  (checkpointPlugin s) (checkpointPluginContext s) true.
Definition set_unloaded st s : loader := MkLoader (libs s) (app s) st None None None (checkpointPluginFinalizeRegistered s).

Definition in_libs {A} (m : M E A) : M loader A := zoom libs set_libs m.
Definition in_app {A} (m : M S A) : M loader A := zoom app set_app m.

(** [fail:] *)
Definition load_failed : M loader ncclResult_t :=
  lib ← get checkpointPluginLib;
  _ ← (match lib with Some h => in_libs (ncclClosePluginLib h) | None => mret tt end);
  _ ← modify (set_unloaded LoadFailed);
  mret ncclInvalidUsage.

(** What is done with the library once it is open. *)
Definition load_plugin (lib : Z) : M loader ncclResult_t :=
  plugin ← in_libs (ncclOsDlsym lib);
  _ ← modify (set_plugin plugin);
  match plugin with
  | None => load_failed
  | Some plugin =>
      match pl_init plugin, pl_prepare plugin, pl_restore plugin with
      | Some init, Some _, Some _ =>
          r ← in_app init;
          _ ← modify (set_context r.2);
          if bool_decide (r.1 ≠ ncclSuccess) then load_failed
          else _ ← modify set_loaded; mret ncclSuccess
      | _, _, _ => load_failed
      end
  end.

Definition ncclCheckpointPluginLoad : M loader ncclResult_t :=
  status ← get checkpointPluginStatus;
  match status with
  | LoadFailed => mret ncclInvalidUsage
  | LoadSuccess => mret ncclSuccess
  | LoadReady =>
      name ← in_libs (ncclGetEnv "NCCL_CHECKPOINT_PLUGIN");
      if (match name with Some name => strcasecmp name "none" | None => false end) then load_failed else
      lib ← in_libs (ncclOpenCheckpointPluginLib name);
      _ ← modify (set_lib lib);
      match lib with None => load_failed | Some lib => load_plugin lib end
  end.

(** [atexit] calls it, once. *)
Definition ncclCheckpointPluginFinalize : M loader unit :=
  plugin ← get checkpointPlugin;
  _ ← (match plugin with
       | Some plugin =>
           match pl_finalize plugin with
           | Some finalize => context ← get checkpointPluginContext; _ ← in_app (finalize context); mret tt
           | None => mret tt
           end
       | None => mret tt
       end);
  _ ← modify (λ s, set_plugin None (set_context None s));
  lib ← get checkpointPluginLib;
  _ ← (match lib with Some h => in_libs (ncclClosePluginLib h) | None => mret tt end);
  modify (set_unloaded LoadReady).

(** [NCCLCHECK] of the loading, the null check and the call through the table. *)
Definition with_plugin (entry_ : ncclCheckpointPlugin_t S C → option (option C → Z → Z → M S ncclResult_t))
    (comm flags : Z) : M loader ncclResult_t :=
  r ← ncclCheckpointPluginLoad;
  if bool_decide (r ≠ ncclSuccess) then mret r else
  plugin ← get checkpointPlugin;
  match plugin with
  | None => mret ncclInvalidUsage
  | Some plugin =>
      match entry_ plugin with
      | None => fail NullCall
      | Some f => context ← get checkpointPluginContext; in_app (f context comm flags)
      end
  end.
Definition ncclCheckpointPluginPrepare (comm flags : Z) : M loader ncclResult_t := with_plugin pl_prepare comm flags.
Definition ncclCheckpointPluginRestore (comm flags : Z) : M loader ncclResult_t := with_plugin pl_restore comm flags.

(** ** The public entry points *)

Definition native (flags : Z) : bool :=
  bool_decide (Z.land flags NCCL_CKPT_MODE_MASK = NCCL_CKPT_MODE_NATIVE) &&
  bool_decide (Z.land flags (Z.lnot NCCL_CKPT_MODE_NATIVE) = 0).
Definition use_native (m : M S ncclResult_t) : M loader ncclResult_t :=
  if NCCL_SUSPEND_MEM then in_app m else mret ncclInvalidUsage.

Definition prepare_flags : Z :=
  Z.lor NCCL_CKPT_MODE_MASK (Z.lor NCCL_CKPT_OPT_SAVE_DATA (Z.lor NCCL_CKPT_OPT_NO_CUDA_CKPT NCCL_CKPT_OPT_VALIDATE)).
Definition ncclCommCheckpointPrepare (comm flags : Z) : M loader ncclResult_t :=
  let mode := Z.land flags NCCL_CKPT_MODE_MASK in
  if native flags then use_native (ncclCommSuspend comm) else
  if bool_decide (mode = NCCL_CKPT_MODE_GCR_GLOBAL) then
    if bool_decide (Z.land flags (Z.lnot prepare_flags) ≠ 0) then mret ncclInvalidUsage
    else ncclCheckpointPluginPrepare comm flags
  else mret ncclInvalidUsage.

Definition restore_phases : Z := Z.lor NCCL_CKPT_RESTORE_EXPORT NCCL_CKPT_RESTORE_IMPORT.
Definition restore_flags : Z := Z.lor prepare_flags restore_phases.
Definition ncclCommCheckpointRestore (comm flags : Z) : M loader ncclResult_t :=
  let mode := Z.land flags NCCL_CKPT_MODE_MASK in
  let restorePhase := Z.land flags restore_phases in
  if native flags then use_native (ncclCommResume comm) else
  if bool_decide (mode = NCCL_CKPT_MODE_GCR_GLOBAL) then
    if bool_decide (Z.land flags (Z.lnot restore_flags) ≠ 0) || bool_decide (restorePhase = 0) ||
       bool_decide (restorePhase = restore_phases) then mret ncclInvalidUsage
    else ncclCheckpointPluginRestore comm flags
  else mret ncclInvalidUsage.
End Loader.

(** ** The GCR plugin *)

Section Gcr.
Context {D P : Type} {CD : CuDriver D} {CH : CudaHost D} {SK : Sockets D} {PX : Posix P} {PD : PosixDirs P} {PF : Platform}.
Context (probe_addr : Z) (fuel : nat).
Abbreviation rt := (runtime D P).
(** Whether [dlsym(RTLD_DEFAULT)] finds a function of the runtime: the library is preloaded. *)
Context (has_symbol : string → bool).

Definition runtime_fn : Type := Z → M rt Z.
Record GcrCheckpointContext := MkContext {
  ctx_prepare : option runtime_fn;
  ctx_restoreExport : option runtime_fn;
  ctx_restoreImport : option runtime_fn;
  ctx_validate : option runtime_fn
}.

Definition resolve_symbol (name : string) (f : runtime_fn) : option runtime_fn := if has_symbol name then Some f else None.

Definition gcrPluginInit : M rt (ncclResult_t * option GcrCheckpointContext) :=
  let ctx := MkContext
    (resolve_symbol "gcr_checkpoint_prepare" gcr_checkpoint_prepare)
    (resolve_symbol "gcr_checkpoint_restore_export" gcr_checkpoint_restore_export)
    (resolve_symbol "gcr_checkpoint_restore_import" (gcr_checkpoint_restore_import probe_addr fuel))
    (resolve_symbol "gcr_checkpoint_validate" (gcr_checkpoint_validate probe_addr)) in
  match ctx_prepare ctx, ctx_restoreExport ctx, ctx_restoreImport ctx with
  | Some _, Some _, Some _ => mret (ncclSuccess, Some ctx)
  | _, _, _ => mret (ncclSystemError, None)
  end.

(** [f(flags) == 0 ? ncclSuccess : ncclSystemError], through a pointer. *)
Definition as_result (f : option runtime_fn) (flags : Z) : M rt ncclResult_t :=
  match f with
  | None => fail NullCall
  | Some f => r ← f flags; mret (if bool_decide (r = 0) then ncclSuccess else ncclSystemError)
  end.
Definition with_context (c : option GcrCheckpointContext) (f : GcrCheckpointContext → M rt ncclResult_t) : M rt ncclResult_t :=
  match c with None => fail NullCall | Some c => f c end.

Definition gcrPluginPrepare (context : option GcrCheckpointContext) (comm flags : Z) : M rt ncclResult_t :=
  with_context context (λ ctx, as_result (ctx_prepare ctx) flags).
Definition gcrPluginRestore (context : option GcrCheckpointContext) (comm flags : Z) : M rt ncclResult_t :=
  with_context context (λ ctx,
    if bool_decide (Z.land flags NCCL_CKPT_RESTORE_EXPORT ≠ 0) then as_result (ctx_restoreExport ctx) flags else
    if bool_decide (Z.land flags NCCL_CKPT_RESTORE_IMPORT ≠ 0) then as_result (ctx_restoreImport ctx) flags else
    mret ncclInvalidUsage).
Definition gcrPluginFinalize (context : option GcrCheckpointContext) : M rt ncclResult_t := mret ncclSuccess.

Definition ncclCheckpointPlugin_v1 : ncclCheckpointPlugin_t rt GcrCheckpointContext :=
  MkPlugin "gcr" (Some gcrPluginInit) (Some gcrPluginPrepare) (Some gcrPluginRestore) (Some gcrPluginFinalize).
End Gcr.
