(* ===== verification/NcclPluginTheorems.v ===== *)
(** The checkpoint entry points of NCCL and the GCR plugin: the theorems. *)
From S2P Require Import Prelude Frames Text Common Gpu Ckpt IpcState IpcDriver FdExchange FdFacts IpcHooks IpcExports IpcRules.
From S2P Require Import IpcSafe CuSim IpcTracking IpcTheorems ImportTheorems Process Handlers HandlerFacts ProcSim Runtime RuntimeFacts RuntimeTheorems.
From S2P Require Import NcclPlugin.
Open Scope Z_scope.

(** ** Which flags are accepted *)

(** The words with the GCR mode and any of the three options, and those with one of the two
    restore phases besides. *)
Definition option_words : list Z :=
  a ← [0; NCCL_CKPT_OPT_SAVE_DATA]; b ← [0; NCCL_CKPT_OPT_NO_CUDA_CKPT]; c ← [0; NCCL_CKPT_OPT_VALIDATE];
  [NCCL_CKPT_MODE_GCR_GLOBAL + a + b + c].
Definition restore_words : list Z :=
  w ← option_words; [w + NCCL_CKPT_RESTORE_EXPORT; w + NCCL_CKPT_RESTORE_IMPORT].

(** No bit outside [k]. *)
Lemma within_mask flags k : 0 ≤ k → Z.land flags (Z.lnot k) = 0 → 0 ≤ flags ≤ k.
Proof.
  intros Hk Hf. assert (Heq : flags = Z.land flags k).
  { apply Z.bits_inj'. intros n Hn. assert (Hb : Z.testbit (Z.land flags (Z.lnot k)) n = false) by (rewrite Hf; apply Z.bits_0).
    rewrite Z.land_spec, Z.lnot_spec in Hb by done. rewrite Z.land_spec. by destruct (Z.testbit flags n), (Z.testbit k n). }
  rewrite Heq. split; [apply Z.land_nonneg; by right|]. rewrite Z.land_comm.
  assert (Hd : 0 ≤ Z.ldiff k flags) by (apply Z.ldiff_nonneg; by left).
  assert (Hadd : k = Z.land k flags + Z.ldiff k flags); [|lia].
  rewrite Z.add_nocarry_lxor; [|apply Z.bits_inj'; intros n Hn; rewrite Z.land_spec, Z.land_spec, Z.ldiff_spec, Z.bits_0;
    by destruct (Z.testbit k n), (Z.testbit flags n)].
  apply Z.bits_inj'. intros n Hn. rewrite Z.lxor_spec, Z.land_spec, Z.ldiff_spec. by destruct (Z.testbit k n), (Z.testbit flags n).
Qed.

(** A test of the words below [k] settles it for every integer. *)
Lemma words_decide (test : Z → bool) (words : list Z) k : 0 ≤ k →
  (∀ flags, test flags = true → Z.land flags (Z.lnot k) = 0) → forallb (λ w, bool_decide (0 ≤ w ≤ k)) words = true →
  forallb (λ flags, Bool.eqb (test flags) (bool_decide (flags ∈ words))) (seqZ 0 (k + 1)) = true →
  ∀ flags, test flags = bool_decide (flags ∈ words).
Proof.
  intros Hk Hmask Hwords Hall flags. rewrite forallb_forall in Hall, Hwords. destruct (decide (0 ≤ flags ≤ k)) as [Hin|Hout].
  - apply eqb_prop, Hall, list_elem_of_In. rewrite elem_of_seqZ. lia.
  - rewrite bool_decide_eq_false_2.
    + destruct (test flags) eqn:Ht; [|done]. by apply Hmask, within_mask in Ht.
    + intros Hw%list_elem_of_In%Hwords%bool_decide_eq_true. done.
Qed.

Definition prepare_test (flags : Z) : bool :=
  bool_decide (Z.land flags NCCL_CKPT_MODE_MASK = NCCL_CKPT_MODE_GCR_GLOBAL) &&
  bool_decide (Z.land flags (Z.lnot prepare_flags) = 0).
Definition restore_test (flags : Z) : bool :=
  bool_decide (Z.land flags NCCL_CKPT_MODE_MASK = NCCL_CKPT_MODE_GCR_GLOBAL) &&
  bool_decide (Z.land flags (Z.lnot restore_flags) = 0) &&
  bool_decide (Z.land flags restore_phases ≠ 0) && bool_decide (Z.land flags restore_phases ≠ restore_phases).

Ltac mask_of := let H := fresh in intros flags H; repeat (apply andb_true_iff in H as [H ?]);
  repeat match goal with H : bool_decide _ = true |- _ => apply bool_decide_eq_true in H end; done.

Lemma native_word flags : native flags = bool_decide (flags ∈ [NCCL_CKPT_MODE_NATIVE]).
Proof. revert flags. apply (words_decide _ _ NCCL_CKPT_MODE_NATIVE); [done|mask_of|vm_compute; done..]. Qed.
Lemma prepare_word flags : prepare_test flags = bool_decide (flags ∈ option_words).
Proof. revert flags. apply (words_decide _ _ prepare_flags); [done|mask_of|vm_compute; done..]. Qed.
Lemma restore_word flags : restore_test flags = bool_decide (flags ∈ restore_words).
Proof. revert flags. apply (words_decide _ _ restore_flags); [done|mask_of|vm_compute; done..]. Qed.

(** the two entry points accept exactly the documented flags.  For every integer,
    [ncclCommCheckpointPrepare] goes to NCCL's own suspend for the native mode alone, to the
    plugin for the eight words of the GCR mode, and refuses everything else with the
    state untouched; [ncclCommCheckpointRestore] likewise with the sixteen words that have
    one of the two phases. *)
Theorem api_dispatch {E S C} {PL : PluginLibs E S C} {NS : NativeSuspend S} comm flags :
  ncclCommCheckpointPrepare comm flags =
    (if bool_decide (flags = NCCL_CKPT_MODE_NATIVE) then use_native (ncclCommSuspend comm) else
     if bool_decide (flags ∈ option_words) then ncclCheckpointPluginPrepare comm flags else mret ncclInvalidUsage) ∧
  ncclCommCheckpointRestore comm flags =
    (if bool_decide (flags = NCCL_CKPT_MODE_NATIVE) then use_native (ncclCommResume comm) else
     if bool_decide (flags ∈ restore_words) then ncclCheckpointPluginRestore comm flags else mret ncclInvalidUsage).
Proof.
  unfold ncclCommCheckpointPrepare, ncclCommCheckpointRestore. rewrite native_word, <- prepare_word, <- restore_word.
  assert (Hn : bool_decide (flags ∈ [NCCL_CKPT_MODE_NATIVE]) = bool_decide (flags = NCCL_CKPT_MODE_NATIVE)).
  { apply bool_decide_ext. apply list_elem_of_singleton. }
  rewrite Hn. unfold prepare_test, restore_test. split.
  all: repeat case_bool_decide; first [reflexivity|exfalso; tauto].
Qed.

(** ** The loader keeps its books *)

(** How many plugin libraries are open. *)
Class PluginLibsCount (E S C : Type) {PL : PluginLibs E S C} := {
  lib_count : E → Z;
  env_count n e : post (ncclGetEnv n) (λ _ e', lib_count e' = lib_count e) e;
  open_count n e : post (ncclOpenCheckpointPluginLib n)
    (λ h e', lib_count e' = lib_count e + match h with Some _ => 1 | None => 0 end) e;
  close_count h e : post (ncclClosePluginLib h) (λ _ e', lib_count e' = lib_count e - 1) e;
  sym_count h e : post (ncclOsDlsym h) (λ _ e', lib_count e' = lib_count e) e
}.

Section Loader.
Context {E S C : Type} {PL : PluginLibs E S C} {PC : PluginLibsCount E S C} {NS : NativeSuspend S}.
Abbreviation loader := (loader E S C).
Implicit Types (s : loader).

Definition held (lib : option Z) : Z := match lib with Some _ => 1 | None => 0 end.
Definition unloaded s : Prop :=
  checkpointPluginLib s = None ∧ checkpointPlugin s = None ∧ checkpointPluginContext s = None.
Definition loaded s : Prop := is_Some (checkpointPluginLib s) ∧
  ∃ plugin, checkpointPlugin s = Some plugin ∧ is_Some (pl_prepare plugin) ∧ is_Some (pl_restore plugin).

(** With [base] libraries open besides the plugin's. *)
Definition loader_ok (base : Z) s : Prop :=
  lib_count (libs s) = base + held (checkpointPluginLib s) ∧
  match checkpointPluginStatus s with LoadSuccess => loaded s | _ => unloaded s end.

(** What an attempt to load ends with. *)
Definition attempted base (r : ncclResult_t) s : Prop :=
  loader_ok base s ∧ (r = ncclSuccess → checkpointPluginStatus s = LoadSuccess).

Lemma bind_libs {A B} (m : M E A) (k : A → M loader B) (Q : A → E → Prop) R s :
  post m Q (libs s) → (∀ a e, Q a e → post (k a) R (set_libs e s)) → post (in_libs m ≫= k) R s.
Proof. unfold post, in_libs, zoom, mbind, M_bind. intros Hm HR. destruct (m (libs s)) as [a e|c e|w e]; [exact (HR a e Hm)|done..]. Qed.
Lemma bind_app {A B} (m : M S A) (k : A → M loader B) R s :
  (∀ a x, post (k a) R (set_app x s)) → post (in_app m ≫= k) R s.
Proof. unfold post, in_app, zoom, mbind, M_bind. intros HR. destruct (m (app s)) as [a x|c x|w x]; [exact (HR a x)|done..]. Qed.
Lemma post_app {A} (m : M S A) (R : A → loader → Prop) s : (∀ a x, R a (set_app x s)) → post (in_app m) R s.
Proof. unfold post, in_app, zoom. intros HR. destruct (m (app s)); auto. Qed.
Lemma bind_modify {B} (f : loader → loader) (k : unit → M loader B) R s : post (k tt) R (f s) → post (modify f ≫= k) R s.
Proof. done. Qed.
Lemma bind_get {A B} (f : loader → A) (k : A → M loader B) R s : post (k (f s)) R s → post (get f ≫= k) R s.
Proof. done. Qed.

Lemma load_failed_post base s : lib_count (libs s) = base + held (checkpointPluginLib s) →
  post load_failed (attempted base) s.
Proof.
  intros Hc. unfold load_failed. apply bind_get.
  apply (post_bind _ _ (λ _ s', lib_count (libs s') = base)); [destruct (checkpointPluginLib s) as [h|]; cbn in Hc|].
  - unfold post, in_libs, zoom. pose proof (close_count h (libs s)) as Hp. unfold post in Hp.
    destruct (ncclClosePluginLib h (libs s)); [cbn; lia|done..].
  - apply post_ret. lia.
  - intros ? s1 H1. apply bind_modify, post_ret. split; [|done]. split; [cbn; lia|done].
Qed.

Lemma load_plugin_post base lib s : lib_count (libs s) = base + 1 → checkpointPluginLib s = Some lib →
  post (load_plugin lib) (attempted base) s.
Proof.
  intros Hc Hl. unfold load_plugin. eapply bind_libs; [apply sym_count|]. intros plugin e He; cbv beta in He.
  apply bind_modify. assert (Hfail : ∀ s', lib_count (libs s') = base + 1 → checkpointPluginLib s' = Some lib →
    post load_failed (attempted base) s') by (intros s' H1 H2; apply load_failed_post; by rewrite H2).
  assert (H1 : ∀ c x, lib_count (libs (set_context c (set_app x (set_plugin plugin (set_libs e s))))) = base + 1)
    by (intros; cbn; lia).
  destruct plugin as [plugin|]; [|apply Hfail; [cbn; lia|done]].
  destruct (pl_init plugin) as [init|]; [|apply Hfail; [cbn; lia|done]].
  destruct (pl_prepare plugin) eqn:Hp; [|apply Hfail; [cbn; lia|done]].
  destruct (pl_restore plugin) eqn:Hr; [|apply Hfail; [cbn; lia|done]].
  apply bind_app. intros r x. apply bind_modify. case_bool_decide; [by apply Hfail|]. apply bind_modify, post_ret.
  split; [|done]. split; [change (lib_count e = base + held (checkpointPluginLib s)); rewrite Hl; cbn; lia|].
  split; [by exists lib|]. exists plugin. by rewrite Hp, Hr.
Qed.

Lemma load_post base s : loader_ok base s → post ncclCheckpointPluginLoad (attempted base) s.
Proof.
  intros [Hc Hst]. unfold ncclCheckpointPluginLoad. apply bind_get. destruct (checkpointPluginStatus s) eqn:Hs.
  - apply post_ret. split; [|done]. split; [done|]. by rewrite Hs.
  - destruct Hst as (Hl & Hp & Hx). rewrite Hl in Hc. cbn in Hc.
    eapply bind_libs; [apply env_count|]. intros name e He; cbv beta in He.
    destruct (match name with Some name => strcasecmp name "none" | None => false end).
    { apply load_failed_post. cbn. rewrite Hl. cbn. lia. }
    eapply bind_libs; [apply open_count|]. intros lib e2 He2; cbv beta in He2. apply bind_modify.
    cbn in He2. destruct lib as [lib|]; [apply load_plugin_post; [cbn; lia|done]|apply load_failed_post; cbn; lia].
  - apply post_ret. split; [|done]. split; [done|]. by rewrite Hs.
Qed.

(** A call through the table reaches the application only. *)
Lemma with_plugin_post base entry_ comm flags s : loader_ok base s →
  post (with_plugin entry_ comm flags) (λ _ s', loader_ok base s') s.
Proof.
  intros Hs. unfold with_plugin. eapply post_bind; [by apply (load_post base)|]. intros r s1 [[Hc Hst] Hr].
  case_bool_decide; [by apply post_ret|]. apply bind_get. destruct (checkpointPlugin s1) as [pl|]; [|by apply post_ret].
  destruct (entry_ pl); [|done]. apply bind_get, post_app. intros a x. by split.
Qed.

Inductive nccl_entry := ApiPrepare (comm flags : Z) | ApiRestore (comm flags : Z) | AtExit.
Definition api_call (e : nccl_entry) : M loader ncclResult_t :=
  match e with
  | ApiPrepare comm flags => ncclCommCheckpointPrepare comm flags
  | ApiRestore comm flags => ncclCommCheckpointRestore comm flags
  | AtExit => _ ← ncclCheckpointPluginFinalize; mret ncclSuccess
  end.

Lemma api_call_post base e s : loader_ok base s → post (api_call e) (λ _ s', loader_ok base s') s.
Proof.
  intros Hs. assert (Hnat : ∀ m, post (use_native m) (λ _ s', loader_ok base s') s).
  { intros m. unfold use_native. destruct NCCL_SUSPEND_MEM; [|by apply post_ret]. apply post_app. intros a x. destruct Hs. by split. }
  destruct e as [comm flags|comm flags|]; cbn [api_call].
  - unfold ncclCommCheckpointPrepare. destruct (native flags); [apply Hnat|].
    repeat case_bool_decide; try (by apply post_ret). by apply with_plugin_post.
  - unfold ncclCommCheckpointRestore. destruct (native flags); [apply Hnat|]. case_bool_decide; [|by apply post_ret].
    destruct (_ || _ || _); [by apply post_ret|]. by apply with_plugin_post.
  - apply (post_bind _ _ (λ _ s', loader_ok base s')); [|intros ? s' H'; by apply post_ret].
    unfold ncclCheckpointPluginFinalize. apply bind_get. destruct Hs as [Hc _].
    apply (post_bind _ _ (λ _ s', lib_count (libs s') = base + held (checkpointPluginLib s'))).
    { destruct (checkpointPlugin s) as [pl|]; [|by apply post_ret]. destruct (pl_finalize pl); [|by apply post_ret].
      apply bind_get, bind_app. intros a x. by apply post_ret. }
    intros ? s1 H1. apply bind_modify, bind_get. set (s2 := set_plugin None _).
    apply (post_bind _ _ (λ _ s', lib_count (libs s') = base)); [cbn; destruct (checkpointPluginLib s1) as [h|]; cbn in H1|].
    + unfold post, in_libs, zoom. pose proof (close_count h (libs s1)) as Hp. unfold post in Hp. cbn.
      destruct (ncclClosePluginLib h (libs s1)); [cbn; lia|done..].
    + apply post_ret. cbn. lia.
    + intros ? s3 H3. unfold post, modify. split; [cbn; lia|done].
Qed.

Definition run_api (es : list nccl_entry) : M loader (list ncclResult_t) :=
  each api_call es.
End Loader.

(** the loader keeps its books.  Through any sequence of calls of the entry points and of
    the exit handler, with any flags and whatever the libraries, the environment and the plugin
    do, the plugin library is open exactly while the status says so and no other is left
    open; loaded means that there is a table with the two functions the calls go through, and
    otherwise library, table and context are all gone. *)
Theorem loader_balanced {E S C} {PL : PluginLibs E S C} {PC : PluginLibsCount E S C} {NS : NativeSuspend S}
    base (es : list nccl_entry) (s s' : loader E S C) rs :
  loader_ok base s → run_api es s = Ret rs s' → loader_ok base s'.
Proof.
  intros Hs Hr. assert (Hp : post (run_api es) (λ _ s', loader_ok base s') s).
  { apply (post_each (λ _ _ s', loader_ok base s')); [done|]. intros pre e ys s1 H1. by apply api_call_post. }
  unfold post in Hp. by rewrite Hr in Hp.
Qed.

(** ** The entry points are those of the runtime *)

(** A call in the GCR mode: its options, and the phase of a restore. *)
Inductive gcr_call :=
| CkptPrepare (save no_cuda validate : bool)
| CkptRestore (import save no_cuda validate : bool).

Definition options (save no_cuda validate : bool) : Z :=
  NCCL_CKPT_MODE_GCR_GLOBAL + (if save then NCCL_CKPT_OPT_SAVE_DATA else 0) +
  (if no_cuda then NCCL_CKPT_OPT_NO_CUDA_CKPT else 0) + (if validate then NCCL_CKPT_OPT_VALIDATE else 0).
Definition flags_of (c : gcr_call) : Z :=
  match c with
  | CkptPrepare a b v => options a b v
  | CkptRestore import a b v => options a b v + (if import then NCCL_CKPT_RESTORE_IMPORT else NCCL_CKPT_RESTORE_EXPORT)
  end.
Definition api_of (comm : Z) (c : gcr_call) : nccl_entry :=
  match c with CkptPrepare _ _ _ => ApiPrepare comm (flags_of c) | CkptRestore _ _ _ _ => ApiRestore comm (flags_of c) end.
(** The function of the runtime it ends in, whatever the communicator. *)
Definition entry_of (c : gcr_call) : entry :=
  match c with
  | CkptPrepare _ _ _ => Prepare (flags_of c)
  | CkptRestore false _ _ _ => RestoreExport (flags_of c)
  | CkptRestore true _ _ _ => RestoreImport (flags_of c)
  end.
Definition result_of (r : Z) : ncclResult_t := if bool_decide (r = 0) then ncclSuccess else ncclSystemError.

Section Gcr.
Context {D P : Type} {CD : CuDriver D} {CH : CudaHost D} {SK : Sockets D} {PX : Posix P} {PD : PosixDirs P} {PF : Platform}.
Context (probe_addr : Z) (fuel : nat) (has_symbol : string → bool).
Abbreviation rt := (runtime D P).
Context {E : Type} {PL : PluginLibs E rt (GcrCheckpointContext (D:=D) (P:=P))} {NS : NativeSuspend rt}.
Abbreviation loader := (loader E rt (GcrCheckpointContext (D:=D) (P:=P))).
Implicit Types (l : loader).

(** The three functions the plugin needs. *)
Definition preloaded : Prop :=
  has_symbol "gcr_checkpoint_prepare" = true ∧ has_symbol "gcr_checkpoint_restore_export" = true ∧
  has_symbol "gcr_checkpoint_restore_import" = true.

(** The plugin is loaded, or NCCL will find it on first use. *)
Definition gcr_loaded l : Prop :=
  checkpointPluginStatus l = LoadSuccess ∧
  checkpointPlugin l = Some (ncclCheckpointPlugin_v1 probe_addr fuel has_symbol) ∧
  ∃ v, checkpointPluginContext l = Some (MkContext (Some gcr_checkpoint_prepare) (Some gcr_checkpoint_restore_export)
    (Some (gcr_checkpoint_restore_import probe_addr fuel)) v).
Definition gcr_installed l : Prop :=
  checkpointPluginStatus l = LoadReady ∧
  ∃ name e1 h e2 e3, ncclGetEnv "NCCL_CHECKPOINT_PLUGIN" (libs l) = Ret name e1 ∧
    match name with Some n => strcasecmp n "none" | None => false end = false ∧
    ncclOpenCheckpointPluginLib name e1 = Ret (Some h) e2 ∧
    ncclOsDlsym h e2 = Ret (Some (ncclCheckpointPlugin_v1 probe_addr fuel has_symbol)) e3.
Definition gcr_ready l : Prop := gcr_loaded l ∨ gcr_installed l.

Lemma gcr_load l : preloaded → gcr_ready l →
  wp ncclCheckpointPluginLoad (λ r l', r = ncclSuccess ∧ app l' = app l ∧ gcr_loaded l') l.
Proof.
  intros (H1 & H2 & H3) [Hl|(Hst & name & e1 & h & e2 & e3 & Henv & Hn & Hopen & Hsym)]; unfold ncclCheckpointPluginLoad;
    apply wp_bind, wp_get.
  - pose proof Hl as (-> & _). by apply wp_ret.
  - rewrite Hst. apply wp_bind, wp_zoom. eapply wp_intro; [exact Henv|]. rewrite Hn. apply wp_bind, wp_zoom.
    eapply wp_intro; [exact Hopen|]. apply wp_bind, wp_modify. unfold load_plugin. apply wp_bind, wp_zoom.
    eapply wp_intro; [exact Hsym|]. apply wp_bind, wp_modify. cbn [ncclCheckpointPlugin_v1 pl_init pl_prepare pl_restore].
    apply wp_bind, wp_zoom. unfold gcrPluginInit, resolve_symbol. rewrite H1, H2, H3. cbn [ctx_prepare ctx_restoreExport ctx_restoreImport].
    apply wp_ret, wp_bind, wp_modify. rewrite bool_decide_eq_false_2 by (by intros []). apply wp_bind, wp_modify, wp_ret.
    split; [done|]. split; [done|]. split; [done|]. split; [done|]. by eexists.
Qed.

(** One call: the loading, if it is still to be done, and the function of the runtime. *)
Lemma gcr_call_wp comm c l r s' : preloaded → gcr_ready l → run_entry probe_addr fuel (entry_of c) (app l) = Ret r s' →
  wp (api_call (api_of comm c)) (λ a l', a = result_of r ∧ app l' = s' ∧ gcr_loaded l') l.
Proof.
  intros Hpre Hl Hr.
  assert (Hdisp : api_call (api_of comm c) = with_plugin (match c with CkptPrepare _ _ _ => pl_prepare | _ => pl_restore end)
    comm (flags_of c)) by (destruct c as [[] [] []|[] [] [] []]; reflexivity).
  rewrite Hdisp. unfold with_plugin. apply wp_bind. eapply wp_mono; [by apply gcr_load|].
  intros a l1 (-> & Ha & Hld). rewrite bool_decide_eq_false_2 by (by intros []). apply wp_bind, wp_get.
  pose proof Hld as (Hst & Hp & v & Hc). rewrite Hp.
  assert (Hend : ∀ f : Z → M rt Z, f (flags_of c) (app l) = Ret r s' →
    wp (in_app (as_result (Some f) (flags_of c))) (λ a l', a = result_of r ∧ app l' = s' ∧ gcr_loaded l') l1).
  { intros f Hf. apply wp_zoom. unfold as_result. apply wp_bind. rewrite Ha. eapply wp_intro; [exact Hf|].
    apply wp_ret. split; [done|]. split; [done|]. split; [done|]. split; [done|]. by exists v. }
  destruct c as [sv nc va|[] sv nc va]; cbn [ncclCheckpointPlugin_v1 pl_prepare pl_restore]; apply wp_bind, wp_get; rewrite Hc;
    unfold gcrPluginPrepare, gcrPluginRestore, with_context.
  - by apply Hend.
  - rewrite bool_decide_eq_false_2 by (intros Hx; apply Hx; by destruct sv, nc, va). rewrite bool_decide_eq_true_2 by (by destruct sv, nc, va).
    by apply Hend.
  - rewrite bool_decide_eq_true_2 by (by destruct sv, nc, va). by apply Hend.
Qed.
End Gcr.

(** C12: the entry points of NCCL are those of the runtime.  With the plugin installed and the
    library preloaded, any sequence of calls in the GCR mode - each with its own options
    and any communicator - does to the process what the same sequence of runtime calls does,
    and answers [ncclSuccess] exactly where that answers 0; the loading on first use changes
    nothing in the process. *)
Theorem nccl_refines_runtime {D P} {CD : CuDriver D} {CH : CudaHost D} {SK : Sockets D} {PX : Posix P} {PD : PosixDirs P}
    {PF : Platform} probe_addr fuel has_symbol {E} {PL : PluginLibs E (runtime D P) GcrCheckpointContext}
    {NS : NativeSuspend (runtime D P)} (calls : list (Z * gcr_call)) (l : loader E (runtime D P) GcrCheckpointContext) rs s' :
  preloaded has_symbol → gcr_ready probe_addr fuel has_symbol l →
  run_entries probe_addr fuel (entry_of ∘ snd <$> calls) (app l) = Ret rs s' →
  ∃ l', run_api ((λ c, api_of c.1 c.2) <$> calls) l = Ret (result_of <$> rs) l' ∧ app l' = s'.
Proof.
  intros Hpre Hl Hr.
  assert (Hgen : ∀ calls rs0 s rs s' l, gcr_ready probe_addr fuel has_symbol l → app l = s →
    foldM (λ ys x, y ← run_entry probe_addr fuel x; mret (ys ++ [y])) rs0 (entry_of ∘ snd <$> calls) s = Ret rs s' →
    ∃ l', foldM (λ ys x, y ← api_call x; mret (ys ++ [y])) (result_of <$> rs0) ((λ c, api_of c.1 c.2) <$> calls) l =
      Ret (result_of <$> rs) l' ∧ app l' = s'); [|by eapply (Hgen calls [])].
  clear l rs s' Hl Hr calls. induction calls as [|[comm c] calls IH]; intros rs0 s rs s' l Hl <- Hr.
  - cbn in Hr. injection Hr as <- <-. by exists l.
  - cbn [fmap list_fmap foldM compose snd fst] in Hr |- *. unfold mbind, M_bind, mret, M_ret in Hr |- *.
    destruct (run_entry probe_addr fuel (entry_of c) (app l)) as [r s1|code s1|w s1] eqn:Hc; [|discriminate Hr..].
    pose proof (gcr_call_wp probe_addr fuel has_symbol comm c l r s1 Hpre Hl Hc) as Hw. unfold wp in Hw.
    destruct (api_call (api_of comm c) l) as [a l1|? ?|? ?]; [|done..]. destruct Hw as (-> & <- & Hld).
    cbn in Hr |- *. destruct (IH _ _ _ _ l1 (or_introl Hld) eq_refl Hr) as (l' & Hl' & Happ).
    exists l'. split; [|done]. by rewrite <- Hl', fmap_app.
Qed.

(** ** An NCCL that finds one plugin *)

#[export] Instance one_plugin {S C} (plugin : ncclCheckpointPlugin_t S C) : PluginLibs Z S C := {|
  ncclGetEnv _ := λ n, Ret (Some "/opt/libnccl-checkpoint-gcr.so"%string) n;
  ncclOpenCheckpointPluginLib _ := λ n, Ret (Some 5) (n + 1);
  ncclClosePluginLib _ := λ n, Ret tt (n - 1);
  ncclOsDlsym _ := λ n, Ret (Some plugin) n
|}.
#[export] Instance one_plugin_count {S C} (plugin : ncclCheckpointPlugin_t S C) : PluginLibsCount Z S C (PL:=one_plugin plugin).
Proof. exists id; intros *; unfold post; cbn; lia. Defined.
#[export] Instance no_suspend {S} : NativeSuspend S := {|
  NCCL_SUSPEND_MEM := false; ncclCommSuspend _ := mret ncclSuccess; ncclCommResume _ := mret ncclSuccess
|}.

(** A plugin whose restore does not work, in an NCCL with two other libraries open. *)
Definition half_plugin : ncclCheckpointPlugin_t Z Z :=
  MkPlugin "half" (Some (mret (ncclSuccess, Some 1))) (Some (λ _ _ flags, _ ← modify (Z.add flags); mret ncclSuccess))
    (Some (λ _ _ _, mret ncclSystemError)) None.
Definition fresh_loader {S C} (n : Z) (x : S) : loader Z S C := MkLoader n x LoadReady None None None false.

Lemma loader_balanced_witness : ∃ s',
  run_api (PL:=one_plugin half_plugin) [ApiPrepare 3 1; ApiPrepare 3 260; ApiRestore 3 4100; ApiPrepare 3 8; AtExit; ApiPrepare 4 4]
    (fresh_loader 2 0) =
  Ret [ncclInvalidUsage; ncclSuccess; ncclSystemError; ncclInvalidUsage; ncclSuccess; ncclSuccess] s' ∧
  app s' = 264 ∧ libs s' = 3 ∧ loader_ok (PL:=one_plugin half_plugin) 2 s'.
Proof.
  eexists. split; [vm_compute; reflexivity|]. split; [reflexivity|]. split; [reflexivity|].
  apply (loader_balanced (PL:=one_plugin half_plugin) 2
    [ApiPrepare 3 1; ApiPrepare 3 260; ApiRestore 3 4100; ApiPrepare 3 8; AtExit; ApiPrepare 4 4] (fresh_loader 2 0) _
    [ncclInvalidUsage; ncclSuccess; ncclSystemError; ncclInvalidUsage; ncclSuccess; ncclSuccess]);
    [split; [reflexivity|by split_and!]|vm_compute; reflexivity].
Defined.

(** Two communicators of [application]: both are prepared and restored, the process once. *)
Definition gcr_plugin : ncclCheckpointPlugin_t (runtime cusim osim) GcrCheckpointContext :=
  ncclCheckpointPlugin_v1 (PX:=roomy) 77 4 (λ _, true).
Definition two_comms : list (Z * gcr_call) :=
  [(1, CkptPrepare false false false); (2, CkptPrepare false false false);
   (1, CkptRestore false false false false); (2, CkptRestore false false false false);
   (1, CkptRestore true false false true); (2, CkptRestore true false false false)].

Lemma nccl_refines_runtime_witness : ∃ l',
  run_api (PL:=one_plugin gcr_plugin) ((λ c, api_of c.1 c.2) <$> two_comms) (fresh_loader 0 application) =
    Ret (replicate 6 ncclSuccess) l'.
Proof.
  destruct (wp_elim _ _ _ (run_entries_wp (PX:=roomy) (PR:=posix_with_returns _ _) (FR:=posix_with_files _ _) 77 4
    (entry_of ∘ snd <$> two_comms) application cusim_honest ltac:(lia) application_sound)) as (rs & s' & Hr & _).
  assert (Hrs : rs = replicate 6 0).
  { assert (Ha : match run_entries (PX:=roomy) 77 4 (entry_of ∘ snd <$> two_comms) application with Ret rs _ => rs | _ => [] end
      = replicate 6 0) by (vm_compute; reflexivity). by rewrite Hr in Ha. }
  subst rs. destruct (nccl_refines_runtime (PX:=roomy) (PL:=one_plugin gcr_plugin) 77 4 (λ _, true) two_comms
    (fresh_loader 0 application) (replicate 6 0) s') as (l' & Hl' & _); [by split_and!| |exact Hr|by exists l'].
  right. split; [reflexivity|]. exists (Some "/opt/libnccl-checkpoint-gcr.so"%string), 0, 5, 1, 1. by split_and!.
Defined.
