(* ===== verification/TwoProc.v ===== *)
(** The two-process example, [src/adapters/nccl/examples/two_proc_nccl_test.cpp].

    A parent forks two ranks.  The ranks check an all-reduce, take an NCCL checkpoint and restore it;
    in the external modes they wait between the two while the parent runs [cuda-checkpoint]
    on both.  They meet at a barrier and on one mutex with a condition variable in shared memory.
    Each function is the list of its steps ([instr]); [exec] lets one process make one
    step, and [reachable] closes over every order of steps, every failing
    call and every spurious wake-up. *)
From stdpp Require Import pretty functions.
From S2P Require Import Prelude NcclPlugin.
Open Scope Z_scope.

Inductive TestMode := Native | Gcr | GcrCheckpointAction | GcrCheckpointToggle.

Definition mode_uses_gcr (mode : TestMode) : bool := match mode with Native => false | _ => true end.
Definition mode_uses_external_checkpoint (mode : TestMode) : bool :=
  match mode with GcrCheckpointAction | GcrCheckpointToggle => true | _ => false end.
Definition mode_name (mode : TestMode) : string :=
  match mode with
  | Native => "native" | Gcr => "gcr" | GcrCheckpointAction => "gcr-ckpt-action" | GcrCheckpointToggle => "gcr-ckpt-toggle"
  end.

(** ** Processes and steps *)

(** The ranks are [false] (0) and [true] (1). *)
Inductive who := Parent | Rank (r : bool).
#[export] Instance who_eq_dec : EqDecision who.
Proof. solve_decision. Defined.

(** Library calls that are checked and change none of the shared state. *)
Inductive lib_call :=
  | CudaSetDevice | CudaMalloc | CudaMemcpy | CudaMemset | CudaFree | CudaDeviceSynchronize | CudaDeviceReset
  | NcclCommInitRank | NcclAllReduce | NcclCommDestroy | NcclGetUniqueId
  | CompareResult (label : string)
  | CheckpointPrepare (flags : Z) | CheckpointRestore (flags : Z)
  | Setenv (name value : string) | Mmap.

(** One run of [cuda-checkpoint]. *)
Inductive ext_call := Action (action : string) (r : bool) | Toggle (phase : string) (r : bool).

(** What a condition variable is waited on for. *)
Inductive condition := BothPrepared | MayRestore.

(** A step; [code] is the exit code when it fails. *)
Inductive instr :=
  | Lib (c : lib_call) (code : Z)
  | BarrierWait (label : string)
  | MutexLock (code : Z)
  | MutexUnlock
  | CondBroadcast
  | WaitUntil (c : condition) (code : Z)
  | IncPrepared
  | SetProceed
  | SetStatus (r : bool)
  | Fork (r : bool)
  | External (e : ext_call)
  | Kill (r : bool)
  | WaitPid (r : bool)
  | Return (code : Z)
  | ReturnVerdict.

#[export] Instance instr_eq_dec : EqDecision instr.
Proof.
  assert (EqDecision lib_call) by solve_decision. assert (EqDecision ext_call) by solve_decision.
  assert (EqDecision condition) by solve_decision. solve_decision.
Defined.

(** [CHECK_CUDA], [CHECK_NCCL] *)
Definition CHECK_CUDA (c : lib_call) : instr := Lib c 10.
Definition CHECK_NCCL (c : lib_call) : instr := Lib c 11.

(** ** The functions *)

Definition run_allreduce_check (label : string) : list instr :=
  [CHECK_CUDA CudaMalloc; CHECK_CUDA CudaMalloc; CHECK_CUDA CudaMemcpy; CHECK_CUDA CudaMemset;
   CHECK_NCCL NcclAllReduce; CHECK_CUDA CudaDeviceSynchronize; CHECK_CUDA CudaMemcpy;
   Lib (CompareResult label) 13; CHECK_CUDA CudaFree; CHECK_CUDA CudaFree].

Definition notify_prepared_and_wait_restore : list instr :=
  [MutexLock 14; IncPrepared; CondBroadcast; WaitUntil MayRestore 15; MutexUnlock].

Definition ranks : list bool := [false; true].

Definition run_external_checkpoint (mode : TestMode) : list ext_call :=
  match mode with
  | GcrCheckpointAction =>
      (a ← ["lock"; "checkpoint"]%string; Action a <$> ranks) ++ (a ← ["restore"; "unlock"]%string; Action a <$> ranks)
  | GcrCheckpointToggle => (Toggle "freeze" <$> ranks) ++ (Toggle "restore" <$> ranks)
  | _ => []
  end.

Definition parent_wait_for_prepared : list instr := [MutexLock 16; WaitUntil BothPrepared 17; MutexUnlock].
Definition parent_release_restore : list instr := [MutexLock 18; SetProceed; CondBroadcast; MutexUnlock].

Section Programs.
Context (pid : Z) (mode : TestMode).

(** [shared->exportPath] *)
Definition exportPath (r : bool) : string :=
  String.substring 0 255 ("/tmp/gcr_nccl_stage2_" +:+ pretty pid +:+ (if r then "_rank1.shm" else "_rank0.shm")).

Definition restore_steps (r : bool) : list instr :=
  if mode_uses_gcr mode then
    [Lib (Setenv "GCR_EXPORT_SHM_PATH" (exportPath r)) 0;
     CHECK_NCCL (CheckpointRestore (Z.lor NCCL_CKPT_MODE_GCR_GLOBAL NCCL_CKPT_RESTORE_EXPORT));
     BarrierWait "after restore export";
     Lib (Setenv "GCR_IMPORT_SHM_PATH" (exportPath (negb r))) 0;
     CHECK_NCCL (CheckpointRestore (Z.lor (Z.lor NCCL_CKPT_MODE_GCR_GLOBAL NCCL_CKPT_RESTORE_IMPORT) NCCL_CKPT_OPT_VALIDATE))]
  else [CHECK_NCCL (CheckpointRestore NCCL_CKPT_MODE_NATIVE)].

Definition child_main (r : bool) : list instr :=
  [CHECK_CUDA CudaSetDevice; CHECK_NCCL NcclCommInitRank]
  ++ run_allreduce_check "before checkpoint"
  ++ [BarrierWait "before prepare";
      CHECK_NCCL (CheckpointPrepare (if mode_uses_gcr mode then NCCL_CKPT_MODE_GCR_GLOBAL else NCCL_CKPT_MODE_NATIVE))]
  ++ (if mode_uses_external_checkpoint mode then notify_prepared_and_wait_restore else [BarrierWait "after prepare"])
  ++ restore_steps r
  ++ [BarrierWait "after restore"]
  ++ run_allreduce_check "after checkpoint"
  ++ [CHECK_NCCL NcclCommDestroy; CHECK_CUDA CudaDeviceReset; SetStatus r; Return 0].

(** The parent, from the creation of the shared state on. *)
Definition main_steps : list instr :=
  [Lib (Setenv "NCCL_CUMEM_ENABLE" "1") 0; Lib Mmap 3; Lib NcclGetUniqueId 4; Fork false; Fork true]
  ++ (if mode_uses_external_checkpoint mode
      then parent_wait_for_prepared ++ (External <$> run_external_checkpoint mode) ++ parent_release_restore else [])
  ++ [WaitPid false; WaitPid true; ReturnVerdict].

(** [if (ckptRc != 0)] *)
Definition abort_steps : list instr := [Kill false; Kill true; WaitPid false; WaitPid true; Return 1].

Definition program (w : who) : list instr := match w with Parent => main_steps | Rank r => child_main r end.
End Programs.

(** The command line: the mode, or the exit code. *)
Definition parse_mode (s : string) : option TestMode :=
  if bool_decide (s = "native")%string then Some Native
  else if bool_decide (s = "gcr")%string then Some Gcr
  else if bool_decide (s = "gcr-ckpt-action")%string then Some GcrCheckpointAction
  else if bool_decide (s = "gcr-ckpt-toggle")%string then Some GcrCheckpointToggle
  else None.
Definition parse_args (executable : string → bool) (args : list string) : Z + TestMode :=
  match args with
  | [m] => match parse_mode m with
           | Some mode => if mode_uses_external_checkpoint mode then inl 2 else inr mode
           | None => inl 2
           end
  | [m; bin] => match parse_mode m with
                | Some mode => if mode_uses_external_checkpoint mode && negb (executable bin) then inl 2 else inr mode
                | None => inl 2
                end
  | _ => inl 2
  end.

(** ** The state *)

Inductive wait_status := ExitedWith (code : Z) | KilledBySignal.

(** What a process is doing; a sleeper on the condition variable knows whether it was signalled. *)
Inductive activity := Unborn | Running | AtBarrier | Sleeping (woken : bool) | Dead (st : wait_status).

Record process := MkProcess { todo : list instr; doing : activity }.

Record system := MkSystem {
  procs : who → process;
  holder : option who;            (* of the mutex *)
  arrived : option bool;          (* the rank inside the barrier *)
  preparedCount : Z;
  proceedRestore : bool;
  status : bool → Z;
  failures : Z;                   (* the parent's counter *)
  done_steps : list (who * instr)      (* what was done, oldest first *)
}.

Section Steps.
Context (pid : Z) (mode : TestMode).

Definition set_proc (w : who) (p : process) (s : system) : system :=
  MkSystem (<[w := p]> (procs s)) (holder s) (arrived s) (preparedCount s) (proceedRestore s) (status s) (failures s)
    (done_steps s).
Definition set_doing (w : who) (a : activity) (s : system) : system := set_proc w (MkProcess (todo (procs s w)) a) s.
Definition set_holder x (s : system) : system :=
  MkSystem (procs s) x (arrived s) (preparedCount s) (proceedRestore s) (status s) (failures s) (done_steps s).
Definition set_arrived x (s : system) : system :=
  MkSystem (procs s) (holder s) x (preparedCount s) (proceedRestore s) (status s) (failures s) (done_steps s).
Definition set_count x (s : system) : system :=
  MkSystem (procs s) (holder s) (arrived s) x (proceedRestore s) (status s) (failures s) (done_steps s).
Definition set_proceed x (s : system) : system :=
  MkSystem (procs s) (holder s) (arrived s) (preparedCount s) x (status s) (failures s) (done_steps s).
Definition set_status x (s : system) : system :=
  MkSystem (procs s) (holder s) (arrived s) (preparedCount s) (proceedRestore s) x (failures s) (done_steps s).
Definition set_failures x (s : system) : system :=
  MkSystem (procs s) (holder s) (arrived s) (preparedCount s) (proceedRestore s) (status s) x (done_steps s).

(** The first step of [w] is behind it. *)
Definition advance (w : who) (s : system) : system :=
  match todo (procs s w) with
  | i :: rest =>
      MkSystem (<[w := MkProcess rest Running]> (procs s)) (holder s) (arrived s) (preparedCount s) (proceedRestore s)
        (status s) (failures s) (done_steps s ++ [(w, i)])
  | [] => s
  end.

Definition holds (c : condition) (s : system) : bool :=
  match c with BothPrepared => negb (preparedCount s <? 2) | MayRestore => proceedRestore s end.

(** [pthread_cond_broadcast] *)
Definition wake_all (s : system) : system :=
  MkSystem (λ w, match doing (procs s w) with
                 | Sleeping _ => MkProcess (todo (procs s w)) (Sleeping true)
                 | _ => procs s w
                 end)
    (holder s) (arrived s) (preparedCount s) (proceedRestore s) (status s) (failures s) (done_steps s).

(** The step [i] of [w] succeeds; [None]: it has to wait. *)
Definition succeed (w : who) (i : instr) (s : system) : option system :=
  match i with
  | Lib _ _ => Some (advance w s)
  | BarrierWait _ =>
      match w, arrived s with
      | Rank r, None => Some (set_arrived (Some r) (set_doing w AtBarrier s))
      | Rank r, Some q =>
          if bool_decide (q = r) then None else
          let s := set_arrived None (advance w s) in
          Some (match doing (procs s (Rank q)) with AtBarrier => advance (Rank q) s | _ => s end)
      | Parent, _ => None
      end
  | MutexLock _ => match holder s with None => Some (set_holder (Some w) (advance w s)) | Some _ => None end
  | MutexUnlock => Some (set_holder None (advance w s))
  | CondBroadcast => Some (wake_all (advance w s))
  | WaitUntil c _ =>
      Some (if holds c s then advance w s else set_holder None (set_doing w (Sleeping false) s))
  | IncPrepared => Some (set_count (preparedCount s + 1) (advance w s))
  | SetProceed => Some (set_proceed true (advance w s))
  | SetStatus r => Some (set_status (<[r := 0]> (status s)) (advance w s))
  | Fork r => Some (set_doing (Rank r) Running (advance w s))
  | External _ => Some (advance w s)
  | Kill r =>
      Some (match doing (procs s (Rank r)) with
            | Dead _ => advance w s
            | _ => set_doing (Rank r) (Dead KilledBySignal) (advance w s)
            end)
  | WaitPid r =>
      match doing (procs s (Rank r)) with
      | Dead (ExitedWith 0) => Some (advance w s)
      | Dead _ => Some (set_failures (failures s + 1) (advance w s))
      | _ => None
      end
  | Return code => Some (set_doing w (Dead (ExitedWith code)) (advance w s))
  | ReturnVerdict => Some (set_doing w (Dead (ExitedWith (if bool_decide (failures s = 0) then 0 else 1))) (advance w s))
  end.

(** The exit code of a step that fails; [None]: its result is not looked at. *)
Definition exit_code (i : instr) : option Z :=
  match i with
  | Lib (Setenv _ _) _ => None
  | Lib _ code | MutexLock code | WaitUntil _ code => Some code
  | BarrierWait _ => Some 12
  | Fork _ => Some 5
  | _ => None
  end.

(** The step [i] of [w] fails. *)
Definition failed (w : who) (i : instr) (s : system) : option system :=
  match i with
  | External _ => Some (set_proc w (MkProcess abort_steps Running) s)
  | _ => match exit_code i with Some code => Some (set_doing w (Dead (ExitedWith code)) s) | None => None end
  end.

Inductive choice := Go | Fails | Spurious.

(** One step of one process. *)
Definition exec (w : who) (c : choice) (s : system) : option system :=
  match doing (procs s w) with
  | Running =>
      match todo (procs s w) with
      | i :: _ => match c with Go => succeed w i s | Fails => failed w i s | Spurious => None end
      | [] => None
      end
  | Sleeping woken =>
      match holder s, c with
      | None, Go => if woken then Some (set_holder (Some w) (set_doing w Running s)) else None
      | None, Spurious => Some (set_holder (Some w) (set_doing w Running s))
      | _, _ => None
      end
  | _ => None
  end.

(** After the parse of the arguments. *)
Definition start : system :=
  MkSystem (λ w, MkProcess (program pid mode w) (match w with Parent => Running | Rank _ => Unborn end))
    None None 0 false (λ _, -1) 0 [].

Inductive reachable : system → Prop :=
  | reach_start : reachable start
  | reach_step s w c s' : reachable s → exec w c s = Some s' → reachable s'.

(** A given order of steps. *)
Definition run (sched : list (who * choice)) (s : system) : option system :=
  foldl (λ o wc, s ← o; exec wc.1 wc.2 s) (Some s) sched.
End Steps.
