(* ===== verification/TwoProcFacts.v ===== *)
(** The two-process example: its invariants.

    [moves] is what a step does to what was done and what is left, without the mutex and the
    sleeping; [proto] is the invariant of these moves, [at_ok] the one of the barrier. *)
From stdpp Require Import functions.
From S2P Require Import Prelude NcclPlugin TwoProc.
Open Scope Z_scope.

(** ** Kinds of steps *)

Definition is_inc (i : instr) : bool := match i with IncPrepared => true | _ => false end.
Definition is_proceed (i : instr) : bool := match i with SetProceed => true | _ => false end.
Definition is_may (i : instr) : bool := match i with WaitUntil MayRestore _ => true | _ => false end.
Definition is_both (i : instr) : bool := match i with WaitUntil BothPrepared _ => true | _ => false end.
Definition is_barrier (i : instr) : bool := match i with BarrierWait _ => true | _ => false end.
Definition is_external (i : instr) : bool := match i with External _ => true | _ => false end.
Definition is_prepare (i : instr) : bool := match i with Lib (CheckpointPrepare _) _ => true | _ => false end.
Definition is_restore (i : instr) : bool := match i with Lib (CheckpointRestore _) _ => true | _ => false end.
Definition is_export (i : instr) : bool :=
  match i with Lib (CheckpointRestore f) _ => bool_decide (Z.land f NCCL_CKPT_RESTORE_EXPORT ≠ 0) | _ => false end.
Definition is_import (i : instr) : bool :=
  match i with Lib (CheckpointRestore f) _ => bool_decide (Z.land f NCCL_CKPT_RESTORE_IMPORT ≠ 0) | _ => false end.
Definition is_second_check (i : instr) : bool :=
  match i with Lib (CompareResult l) _ => bool_decide (l = "after checkpoint"%string) | _ => false end.

Definition barriers (l : list instr) : nat := length (List.filter is_barrier l).

(** ** Facts about every prefix of a program *)

Definition splits (P : list instr → list instr → bool) (prog : list instr) : bool :=
  forallb (λ k, P (take k prog) (drop k prog)) (seq 0 (S (length prog))).

Lemma splits_sound P prog l l' : splits P prog = true → l ++ l' = prog → P l l' = true.
Proof.
  unfold splits. rewrite forallb_forall. intros H <-. specialize (H (length l)).
  rewrite take_app_length, drop_app_length in H. apply H. apply in_seq. rewrite length_app. lia.
Qed.

(** ** The steps of one process *)

Definition steps_of (w : who) (tr : list (who * instr)) : list instr := (filter (λ e, e.1 = w) tr).*2.
Definition done_of (w : who) (s : system) : list instr := steps_of w (done_steps s).

Lemma steps_of_snoc w tr v i : steps_of w (tr ++ [(v, i)]) = steps_of w tr ++ (if decide (v = w) then [i] else []).
Proof. unfold steps_of. rewrite filter_app, fmap_app. f_equal. rewrite filter_cons. simpl. by destruct (decide (v = w)). Qed.

Lemma steps_of_in w i tr : i ∈ steps_of w tr ↔ (w, i) ∈ tr.
Proof.
  unfold steps_of. rewrite list_elem_of_fmap. split.
  - intros ([v j] & -> & [Hv Hin]%list_elem_of_filter). simpl in Hv. by subst v.
  - intros Hin. exists (w, i). split; [done|]. by apply list_elem_of_filter.
Qed.

Lemma existsb_snoc {A} (p : A → bool) l x : existsb p (l ++ [x]) = existsb p l || p x.
Proof. rewrite existsb_app. simpl. by rewrite orb_false_r. Qed.

Definition count (p : instr → bool) (l : list instr) : Z := if existsb p l then 1 else 0.

Section TwoProc.
Context (pid : Z) (mode : TestMode).
Abbreviation prog := (program pid mode).

(** ** What a step does to the programs *)

Definition same_shared (s s' : system) : Prop :=
  preparedCount s' = preparedCount s ∧ proceedRestore s' = proceedRestore s.

Inductive moves (s s' : system) : Prop :=
  | move_none : done_steps s' = done_steps s → (∀ v, todo (procs s' v) = todo (procs s v)) → same_shared s s' → moves s s'
  | move_one w i rest : todo (procs s w) = i :: rest → done_steps s' = done_steps s ++ [(w, i)] →
      (∀ v, todo (procs s' v) = if decide (v = w) then rest else todo (procs s v)) →
      preparedCount s' = preparedCount s + count is_inc [i] →
      proceedRestore s' = proceedRestore s || is_proceed i →
      (is_may i → proceedRestore s) → (is_both i → 2 ≤ preparedCount s) → is_barrier i = false → moves s s'
  | move_meet r l l' rest rest' : todo (procs s (Rank r)) = BarrierWait l :: rest →
      todo (procs s (Rank (negb r))) = BarrierWait l' :: rest' →
      done_steps s' = (done_steps s ++ [(Rank r, BarrierWait l)]) ++ [(Rank (negb r), BarrierWait l')] →
      (∀ v, todo (procs s' v) = if decide (v = Rank r) then rest else if decide (v = Rank (negb r)) then rest'
                                else todo (procs s v)) →
      same_shared s s' → moves s s'
  | move_abort e rest : todo (procs s Parent) = External e :: rest → done_steps s' = done_steps s →
      (∀ v, todo (procs s' v) = if decide (v = Parent) then abort_steps else todo (procs s v)) →
      same_shared s s' → moves s s'.

(** Who is inside the barrier stands before it. *)
Record at_ok (s : system) : Prop := {
  at_arrived r : arrived s = Some r ↔ doing (procs s (Rank r)) = AtBarrier;
  at_head r : doing (procs s (Rank r)) = AtBarrier → ∃ l rest, todo (procs s (Rank r)) = BarrierWait l :: rest
}.

Lemma todo_set_doing w a s v : todo (procs (set_doing w a s) v) = todo (procs s v).
Proof.
  unfold set_doing, set_proc. simpl. destruct (decide (v = w)) as [->|Hne]; [by rewrite fn_lookup_insert|].
  by rewrite fn_lookup_insert_ne by done.
Qed.
Lemma doing_set_doing w a s v : doing (procs (set_doing w a s) v) = if decide (v = w) then a else doing (procs s v).
Proof.
  unfold set_doing, set_proc. simpl. destruct (decide (v = w)) as [->|Hne]; [by rewrite fn_lookup_insert|].
  by rewrite fn_lookup_insert_ne by done.
Qed.
Lemma todo_wake_all s v : todo (procs (wake_all s) v) = todo (procs s v).
Proof. simpl. by destruct (doing (procs s v)). Qed.
Lemma doing_wake_all s v : doing (procs (wake_all s) v) = match doing (procs s v) with Sleeping _ => Sleeping true | a => a end.
Proof. simpl. by destruct (doing (procs s v)) eqn:E. Qed.
Lemma advance_eq w s i rest : todo (procs s w) = i :: rest →
  advance w s = MkSystem (<[w := MkProcess rest Running]> (procs s)) (holder s) (arrived s) (preparedCount s) (proceedRestore s)
    (status s) (failures s) (done_steps s ++ [(w, i)]).
Proof. intros Hw. unfold advance. by rewrite Hw. Qed.
Lemma todo_advance w s i rest v : todo (procs s w) = i :: rest →
  todo (procs (advance w s) v) = if decide (v = w) then rest else todo (procs s v).
Proof.
  intros Hw. rewrite (advance_eq _ _ _ _ Hw). simpl. destruct (decide (v = w)) as [->|Hne]; [by rewrite fn_lookup_insert|].
  by rewrite fn_lookup_insert_ne by done.
Qed.
Lemma doing_advance w s i rest v : todo (procs s w) = i :: rest →
  doing (procs (advance w s) v) = if decide (v = w) then Running else doing (procs s v).
Proof.
  intros Hw. rewrite (advance_eq _ _ _ _ Hw). simpl. destruct (decide (v = w)) as [->|Hne]; [by rewrite fn_lookup_insert|].
  by rewrite fn_lookup_insert_ne by done.
Qed.
Lemma done_advance w s i rest : todo (procs s w) = i :: rest → done_steps (advance w s) = done_steps s ++ [(w, i)].
Proof. intros Hw. by rewrite (advance_eq _ _ _ _ Hw). Qed.

(** A step that only moves its own process. *)
Lemma moves_advance w s i rest s' : todo (procs s w) = i :: rest →
  done_steps s' = done_steps (advance w s) → (∀ v, todo (procs s' v) = todo (procs (advance w s) v)) →
  preparedCount s' = preparedCount s + count is_inc [i] → proceedRestore s' = proceedRestore s || is_proceed i →
  (is_may i → proceedRestore s) → (is_both i → 2 ≤ preparedCount s) → is_barrier i = false → moves s s'.
Proof.
  intros Hw Hd Ht Hc Hp H1 H2 H3. eapply (move_one s s' w i rest); try done.
  - by rewrite Hd, (done_advance _ _ _ _ Hw).
  - intros v. by rewrite Ht, (todo_advance _ _ _ _ _ Hw).
Qed.

(** The same, where nothing shared by [moves] changes. *)
Lemma moves_plain w s i rest s' : todo (procs s w) = i :: rest →
  done_steps s' = done_steps (advance w s) → (∀ v, todo (procs s' v) = todo (procs (advance w s) v)) →
  preparedCount s' = preparedCount s → proceedRestore s' = proceedRestore s →
  is_inc i || is_proceed i || is_may i || is_both i || is_barrier i = false → moves s s'.
Proof.
  intros Hw Hd Ht Hc Hp Hi. rewrite !orb_false_iff in Hi. destruct Hi as [[[[H1 H2] H3] H4] H5].
  eapply moves_advance; try done.
  - unfold count. simpl. rewrite H1. simpl. lia.
  - by rewrite H2, orb_false_r.
  - by rewrite H3.
  - by rewrite H4.
Qed.

Lemma moves_none s s' : done_steps s' = done_steps s → (∀ v, todo (procs s' v) = todo (procs s v)) → same_shared s s' → moves s s'.
Proof. intros. by apply move_none. Qed.

Lemma shared_advance w s : same_shared s (advance w s).
Proof. unfold advance. by destruct (todo (procs s w)). Qed.

Lemma rank_neq r : Rank (negb r) ≠ Rank r.
Proof. by destruct r. Qed.

(** The second at the barrier takes the first with it. *)
Lemma meet_eq s s' r q l rest : at_ok s → todo (procs s (Rank r)) = BarrierWait l :: rest → arrived s = Some q → q ≠ r →
  succeed (Rank r) (BarrierWait l) s = Some s' →
  q = negb r ∧ s' = advance (Rank q) (set_arrived None (advance (Rank r) s)).
Proof.
  intros [Ha Hh] Hr Hq Hne Hs. assert (q = negb r) as -> by (by destruct q, r). split; [done|].
  apply Ha in Hq as Hd. unfold succeed in Hs. rewrite Hq, bool_decide_eq_false_2 in Hs by done. cbn zeta in Hs.
  change (procs (set_arrived None (advance (Rank r) s))) with (procs (advance (Rank r) s)) in Hs.
  rewrite (doing_advance _ _ _ _ _ Hr), decide_False, Hd in Hs by (by destruct r). congruence.
Qed.

Lemma barrier_moves s s' w l rest : at_ok s → todo (procs s w) = BarrierWait l :: rest →
  succeed w (BarrierWait l) s = Some s' → moves s s'.
Proof.
  intros Hat Hw Hs. destruct w as [|r]; [done|]. destruct (arrived s) as [q|] eqn:Hq.
  - destruct (decide (q = r)) as [->|Hne]; [unfold succeed in Hs; rewrite Hq, bool_decide_eq_true_2 in Hs by done; done|].
    destruct (meet_eq s s' r q l rest Hat Hw Hq Hne Hs) as [-> ->]. apply (at_arrived _ Hat) in Hq as Hd.
    destruct (at_head _ Hat _ Hd) as (l' & rest' & Hl').
    assert (Ht : todo (procs (set_arrived None (advance (Rank r) s)) (Rank (negb r))) = BarrierWait l' :: rest').
    { change (procs (set_arrived _ ?x)) with (procs x). rewrite (todo_advance _ _ _ _ _ Hw), decide_False; [done|apply rank_neq]. }
    apply (move_meet _ _ r l l' rest rest'); [done|done|..].
    + rewrite (done_advance _ _ _ _ Ht). simpl. by rewrite (done_advance _ _ _ _ Hw).
    + intros v. rewrite (todo_advance _ _ _ _ _ Ht). change (procs (set_arrived _ ?x)) with (procs x).
      rewrite (todo_advance _ _ _ _ _ Hw). destruct (decide (v = Rank (negb r))) as [->|Hv]; [|done].
      rewrite decide_False; [done|apply rank_neq].
    + destruct (shared_advance (Rank r) s), (shared_advance (Rank (negb r)) (set_arrived None (advance (Rank r) s))).
      split; simpl in *; congruence.
  - unfold succeed in Hs. rewrite Hq in Hs. injection Hs as <-. apply moves_none; [done|apply todo_set_doing|done].
Qed.

Lemma succeed_moves s s' w i rest : at_ok s → todo (procs s w) = i :: rest → succeed w i s = Some s' → moves s s'.
Proof.
  intros Hat Hw Hs. destruct (shared_advance w s) as [Hc Hp].
  destruct i as [c code|l|code| | |c code| | |r|r|e|r|r|code|]; try (by eapply barrier_moves);
    cbn [succeed] in Hs.
  - injection Hs as <-. by eapply moves_plain.
  - destruct (holder s); [done|]. injection Hs as <-. by eapply moves_plain.
  - injection Hs as <-. by eapply moves_plain.
  - injection Hs as <-. eapply moves_plain; try done. apply todo_wake_all.
  - destruct (holds c s) eqn:Hh; injection Hs as <-; [|apply moves_none; [done|apply todo_set_doing|done]].
    eapply moves_advance; try done; [unfold count; simpl; lia|simpl; by rewrite orb_false_r|..]; destruct c; simpl in *; try done.
    + by rewrite Hh.
    + intros _. apply negb_true_iff, Z.ltb_ge in Hh. lia.
  - injection Hs as <-. eapply moves_advance; try done. simpl. by rewrite orb_false_r, Hp.
  - injection Hs as <-. eapply moves_advance; try done; [simpl; rewrite Hc; unfold count; simpl; lia|simpl; by rewrite orb_true_r].
  - injection Hs as <-. by eapply moves_plain.
  - injection Hs as <-. eapply moves_plain; try done. apply todo_set_doing.
  - injection Hs as <-. by eapply moves_plain.
  - destruct (doing (procs s (Rank r))); injection Hs as <-; eapply moves_plain; try done; apply todo_set_doing.
  - destruct (doing (procs s (Rank r))) as [| | | |[[]|]]; try done; injection Hs as <-; by eapply moves_plain.
  - injection Hs as <-. eapply moves_plain; try done. apply todo_set_doing.
  - injection Hs as <-. eapply moves_plain; try done. apply todo_set_doing.
Qed.

Lemma failed_moves s s' w i rest : todo (procs s w) = i :: rest → (is_external i → w = Parent) →
  failed w i s = Some s' → moves s s'.
Proof.
  intros Hw Hext Hs.
  assert (Hquiet : ∀ code, set_doing w (Dead (ExitedWith code)) s = s' → moves s s').
  { intros code <-. apply moves_none; [done|apply todo_set_doing|done]. }
  destruct i as [c code|l|code| | |c code| | |r|r|e|r|r|code|]; simpl in Hs; try done; try (by injection Hs as Hs; eapply Hquiet).
  - destruct c; simplify_eq; by eapply Hquiet.
  - specialize (Hext I) as ->. injection Hs as <-. apply (move_abort _ _ e rest); [done|done| |done].
    intros v. simpl. destruct (decide (v = Parent)) as [->|Hne]; [by rewrite fn_lookup_insert|by rewrite fn_lookup_insert_ne].
Qed.

Lemma exec_moves s s' w c : at_ok s → (∀ r i, i ∈ todo (procs s (Rank r)) → is_external i = false) →
  exec w c s = Some s' → moves s s'.
Proof.
  intros Hat Hext Hs. unfold exec in Hs. destruct (doing (procs s w)) as [| | |woken|]; try done.
  - destruct (todo (procs s w)) as [|i rest] eqn:Hw; [done|]. destruct c; [by eapply succeed_moves| |done].
    eapply failed_moves; [done| |done]. intros Hi. destruct w as [|r]; [done|]. rewrite (Hext r i) in Hi; [done|].
    rewrite Hw. by left.
  - destruct (holder s); [done|]. assert (Hq : moves s (set_holder (Some w) (set_doing w Running s))).
    { apply moves_none; [done| |done]. intros v. apply (todo_set_doing w Running s v). }
    destruct c; [destruct woken; [|done]|done|]; by injection Hs as <-.
Qed.
End TwoProc.

(** ** The invariant of the moves *)

Section Proto.
Context (pid : Z) (mode : TestMode).

Definition aborted (s : system) : Prop := ∃ l e rest pre, main_steps mode = l ++ External e :: rest ∧
  done_of Parent s = l ++ pre ∧ pre ++ todo (procs s Parent) = abort_steps.

Record proto (s : system) : Prop := {
  pr_rank r : done_of (Rank r) s ++ todo (procs s (Rank r)) = child_main pid mode r;
  pr_parent : done_of Parent s ++ todo (procs s Parent) = main_steps mode ∨ aborted s;
  pr_count : preparedCount s = count is_inc (done_of (Rank false) s) + count is_inc (done_of (Rank true) s);
  pr_proceed : proceedRestore s = existsb is_proceed (done_of Parent s);
  pr_may r : existsb is_may (done_of (Rank r) s) → proceedRestore s;
  pr_both : existsb is_both (done_of Parent s) → 2 ≤ preparedCount s;
  pr_barriers : barriers (done_of (Rank false) s) = barriers (done_of (Rank true) s)
}.

(** A fact about every split of a program. *)
Lemma child_split P r l l' : (∀ m r, splits P (child_main pid m r) = true) → l ++ l' = child_main pid mode r → P l l' = true.
Proof. intros HP. by apply splits_sound. Qed.
Lemma main_split P l l' : (∀ m, splits P (main_steps m) = true) → l ++ l' = main_steps mode → P l l' = true.
Proof. intros HP. by apply splits_sound. Qed.

Lemma child_next r l i rest : l ++ i :: rest = child_main pid mode r →
  is_proceed i = false ∧ is_external i = false ∧ is_both i = false ∧ (is_inc i → existsb is_inc l = false).
Proof.
  intros H. assert (Hc := child_split (λ l l', match l' with
    | i :: _ => negb (is_proceed i) && negb (is_external i) && negb (is_both i) && implb (is_inc i) (negb (existsb is_inc l))
    | [] => true end) r l (i :: rest) ltac:(intros [] []; vm_compute; reflexivity) H).
  simpl in Hc. rewrite !andb_true_iff, !negb_true_iff in Hc. destruct Hc as [[[H1 H2] H3] H4]. split_and!; try done.
  intros Hi. destruct (is_inc i); [|done]. simpl in H4. by apply negb_true_iff.
Qed.

Lemma main_next l i rest : l ++ i :: rest = main_steps mode → is_inc i = false ∧ is_may i = false ∧ is_barrier i = false.
Proof.
  intros H. assert (Hc := main_split (λ l l', match l' with
    | i :: _ => negb (is_inc i) && negb (is_may i) && negb (is_barrier i)
    | [] => true end) l (i :: rest) ltac:(intros []; vm_compute; reflexivity) H).
  simpl in Hc. rewrite !andb_true_iff, !negb_true_iff in Hc. tauto.
Qed.

Lemma abort_next l i rest : l ++ i :: rest = abort_steps →
  is_inc i = false ∧ is_may i = false ∧ is_barrier i = false ∧ is_external i = false ∧ is_proceed i = false ∧ is_both i = false.
Proof.
  intros H. assert (Hc := splits_sound (λ l l', match l' with
    | i :: _ => negb (is_inc i) && negb (is_may i) && negb (is_barrier i) && negb (is_external i) && negb (is_proceed i) && negb (is_both i)
    | [] => true end) abort_steps l (i :: rest) ltac:(vm_compute; reflexivity) H).
  simpl in Hc. rewrite !andb_true_iff, !negb_true_iff in Hc. tauto.
Qed.

Lemma parent_next s i rest : proto s → todo (procs s Parent) = i :: rest →
  is_inc i = false ∧ is_may i = false ∧ is_barrier i = false.
Proof.
  intros Hp Hi. destruct (pr_parent _ Hp) as [Hm|(l & e & r & pre & _ & _ & Ha)].
  - rewrite Hi in Hm. by eapply main_next.
  - rewrite Hi in Ha. by destruct (abort_next _ _ _ Ha) as (? & ? & ? & _).
Qed.

Lemma rank_no_external s r i : proto s → i ∈ todo (procs s (Rank r)) → is_external i = false.
Proof.
  intros Hp (a & b & Hi)%list_elem_of_split. pose proof (pr_rank _ Hp r) as Hr. rewrite Hi, app_assoc in Hr.
  by destruct (child_next _ _ _ _ Hr) as (_ & ? & _).
Qed.

Lemma count_snoc p l i : count p (l ++ [i]) = if p i then 1 else count p l.
Proof. unfold count. rewrite existsb_snoc. destruct (existsb p l), (p i); done. Qed.
Lemma barriers_snoc l i : barriers (l ++ [i]) = (barriers l + if is_barrier i then 1 else 0)%nat.
Proof. unfold barriers. rewrite List.filter_app, length_app. simpl. by destruct (is_barrier i). Qed.
Lemma done_of_snoc w s s' v i : done_steps s' = done_steps s ++ [(v, i)] →
  done_of w s' = done_of w s ++ (if decide (v = w) then [i] else []).
Proof. intros Hd. unfold done_of. by rewrite Hd, steps_of_snoc. Qed.

Lemma proto_same s s' : proto s → (∀ v, done_of v s' = done_of v s) → (∀ v, todo (procs s' v) = todo (procs s v)) →
  same_shared s s' → proto s'.
Proof.
  intros [H1 H2 H3 H4 H5 H6 H7] Hd Ht [Hc Hp].
  split; unfold aborted in *; intros *; rewrite ?Hd, ?Ht, ?Hc, ?Hp; auto. apply H5.
Qed.

(** A step of a rank. *)
Lemma proto_rank s s' r i rest : proto s → todo (procs s (Rank r)) = i :: rest → done_steps s' = done_steps s ++ [(Rank r, i)] →
  (∀ v, todo (procs s' v) = if decide (v = Rank r) then rest else todo (procs s v)) →
  preparedCount s' = preparedCount s + count is_inc [i] → proceedRestore s' = proceedRestore s || is_proceed i →
  (is_may i → proceedRestore s) → is_barrier i = false → proto s'.
Proof.
  intros [H1 H2 H3 H4 H5 H6 H7] Hi Hd Ht Hc Hp Hm Hb. pose proof (H1 r) as Hr. rewrite Hi in Hr.
  destruct (child_next _ _ _ _ Hr) as (N1 & N2 & N3 & N4). rewrite N1, orb_false_r in Hp.
  assert (HP : done_of Parent s' = done_of Parent s) by (by rewrite (done_of_snoc _ _ _ _ _ Hd), app_nil_r).
  assert (HR : ∀ q, done_of (Rank q) s' = done_of (Rank q) s ++ (if decide (r = q) then [i] else [])).
  { intros q. rewrite (done_of_snoc _ _ _ _ _ Hd). by destruct (decide (r = q)) as [->|]; [rewrite decide_True|rewrite decide_False by congruence]. }
  assert (HK : ∀ q, count is_inc (done_of (Rank q) s') = count is_inc (done_of (Rank q) s) + if decide (r = q) then count is_inc [i] else 0).
  { intros q. rewrite HR. destruct (decide (r = q)) as [<-|_]; [|rewrite app_nil_r; lia]. rewrite count_snoc. unfold count. simpl.
    destruct (is_inc i); [rewrite N4 by done; done|]. simpl. lia. }
  split.
  - intros q. rewrite HR, Ht. destruct (decide (r = q)) as [<-|Hne].
    + by rewrite decide_True, <- app_assoc.
    + by rewrite decide_False, app_nil_r by congruence.
  - unfold aborted. by rewrite HP, Ht, decide_False.
  - rewrite Hc, H3, !HK. destruct r; simpl; lia.
  - by rewrite Hp, HP.
  - intros q. rewrite HR, Hp. destruct (decide (r = q)) as [<-|Hne]; [|rewrite app_nil_r; apply H5].
    rewrite existsb_snoc. intros [Hq|Hq]%orb_True; [by eapply H5|by apply Hm].
  - rewrite HP, Hc. intros Hq. specialize (H6 Hq). unfold count. simpl. destruct (is_inc i); simpl; lia.
  - rewrite !HR. destruct r; simpl; rewrite app_nil_r, barriers_snoc, Hb; lia.
Qed.

(** A step of the parent. *)
Lemma proto_parent s s' i rest : proto s → todo (procs s Parent) = i :: rest → done_steps s' = done_steps s ++ [(Parent, i)] →
  (∀ v, todo (procs s' v) = if decide (v = Parent) then rest else todo (procs s v)) →
  preparedCount s' = preparedCount s + count is_inc [i] → proceedRestore s' = proceedRestore s || is_proceed i →
  (is_both i → 2 ≤ preparedCount s) → proto s'.
Proof.
  intros Hpr Hi Hd Ht Hc Hp Hm. destruct (parent_next s i rest Hpr Hi) as (N1 & N2 & N3).
  destruct Hpr as [H1 H2 H3 H4 H5 H6 H7].
  assert (Hc' : preparedCount s' = preparedCount s) by (rewrite Hc; unfold count; simpl; rewrite N1; simpl; lia).
  assert (HP : done_of Parent s' = done_of Parent s ++ [i]) by (by rewrite (done_of_snoc _ _ _ _ _ Hd)).
  assert (HR : ∀ q, done_of (Rank q) s' = done_of (Rank q) s) by (intros q; by rewrite (done_of_snoc _ _ _ _ _ Hd), app_nil_r).
  split.
  - intros q. by rewrite HR, Ht, decide_False.
  - unfold aborted. rewrite HP, Ht, decide_True by done. rewrite Hi in H2. destruct H2 as [H2|(l & e & rs & pre & A1 & A2 & A3)].
    + left. by rewrite <- app_assoc.
    + right. exists l, e, rs, (pre ++ [i]). split; [done|]. split; [by rewrite A2, app_assoc|]. rewrite <- app_assoc. rewrite Hi in A3. exact A3.
  - by rewrite Hc', !HR.
  - by rewrite Hp, HP, existsb_snoc, H4.
  - intros q. rewrite HR, Hp. intros Hq%H5. by destruct (proceedRestore s).
  - rewrite HP, existsb_snoc, Hc'. intros [Hq|Hq]%orb_True; auto.
  - by rewrite !HR.
Qed.

Lemma proto_meet s s' r l l' rest rest' : proto s → todo (procs s (Rank r)) = BarrierWait l :: rest →
  todo (procs s (Rank (negb r))) = BarrierWait l' :: rest' →
  done_steps s' = (done_steps s ++ [(Rank r, BarrierWait l)]) ++ [(Rank (negb r), BarrierWait l')] →
  (∀ v, todo (procs s' v) = if decide (v = Rank r) then rest else if decide (v = Rank (negb r)) then rest' else todo (procs s v)) →
  same_shared s s' → proto s'.
Proof.
  intros [H1 H2 H3 H4 H5 H6 H7] Hi Hi' Hd Ht [Hc Hp].
  assert (HP : done_of Parent s' = done_of Parent s).
  { unfold done_of. by rewrite Hd, !steps_of_snoc, !app_nil_r. }
  assert (HR : ∀ q, done_of (Rank q) s' = done_of (Rank q) s ++ [BarrierWait (if decide (r = q) then l else l')]).
  { intros q. unfold done_of. rewrite Hd, !steps_of_snoc. destruct r, q; simpl; by rewrite ?app_nil_r. }
  assert (HT : ∀ q, BarrierWait (if decide (r = q) then l else l') :: todo (procs s' (Rank q)) = todo (procs s (Rank q))).
  { intros q. rewrite Ht. destruct r, q; simpl in *; congruence. }
  split.
  - intros q. rewrite HR, <- app_assoc. simpl. by rewrite HT.
  - unfold aborted. rewrite HP, Ht. by destruct r.
  - by rewrite Hc, !HR, !count_snoc.
  - by rewrite Hp, HP.
  - intros q. rewrite HR, Hp, existsb_snoc, orb_false_r. apply H5.
  - by rewrite HP, Hc.
  - rewrite !HR, !barriers_snoc. simpl. lia.
Qed.

Lemma proto_abort s s' e rest : proto s → todo (procs s Parent) = External e :: rest → done_steps s' = done_steps s →
  (∀ v, todo (procs s' v) = if decide (v = Parent) then abort_steps else todo (procs s v)) → same_shared s s' → proto s'.
Proof.
  intros [H1 H2 H3 H4 H5 H6 H7] Hi Hd Ht [Hc Hp].
  assert (HD : ∀ v, done_of v s' = done_of v s) by (intros v; unfold done_of; by rewrite Hd).
  split; intros *; rewrite ?HD, ?Hc, ?Hp; auto.
  - by rewrite Ht, decide_False.
  - right. destruct H2 as [H2|(l & e' & rs & pre & _ & _ & A3)].
    + exists (done_of Parent s), e, rest, []. rewrite Hi in H2. rewrite Ht, decide_True, HD, app_nil_r by done. by split_and!.
    + rewrite Hi in A3. apply abort_next in A3. naive_solver.
  - apply H5.
Qed.

Lemma proto_moves s s' : proto s → moves s s' → proto s'.
Proof.
  intros Hpr [Hd Ht Hs|w i rest Hi Hd Ht Hc Hp Hm Hb Hbar|r l l' rest rest' Hi Hi' Hd Ht Hs|e rest Hi Hd Ht Hs].
  - eapply proto_same; try done. intros v. unfold done_of. by rewrite Hd.
  - destruct w as [|r]; [eapply proto_parent; eauto|eapply proto_rank; eauto].
  - by apply (proto_meet s s' r l l' rest rest').
  - by apply (proto_abort s s' e rest).
Qed.

Lemma proto_start : proto (start pid mode).
Proof. split; try done. by left. Qed.
End Proto.

(** ** The invariant of the barrier *)

Definition is_fork (r : bool) (i : instr) : bool := match i with Fork q => bool_decide (q = r) | _ => false end.
Definition is_kill (i : instr) : bool := match i with Kill _ => true | _ => false end.

(** A rank that is not forked has not begun. *)
Definition unborn_ok (s : system) : Prop :=
  ∀ r, existsb (is_fork r) (todo (procs s Parent)) → doing (procs s (Rank r)) = Unborn.

Section Barrier.
Context (pid : Z) (mode : TestMode).
Abbreviation proto := (proto pid mode).

Lemma child_calls r l i rest : l ++ i :: rest = child_main pid mode r →
  is_fork false i = false ∧ is_fork true i = false ∧ is_kill i = false ∧
  (existsb is_inc l → existsb is_may l = false → is_barrier i = false ∧ is_restore i = false).
Proof.
  intros H. assert (Hc := child_split pid mode (λ l l', match l' with
    | i :: _ => negb (is_fork false i) && negb (is_fork true i) && negb (is_kill i) &&
                implb (existsb is_inc l && negb (existsb is_may l)) (negb (is_barrier i) && negb (is_restore i))
    | [] => true end) r l (i :: rest) ltac:(intros [] []; vm_compute; reflexivity) H).
  simpl in Hc. rewrite !andb_true_iff, !negb_true_iff in Hc. destruct Hc as [[[H1 H2] H3] H4]. split_and!; try done.
  intros Hi Hm. rewrite Hm in H4. destruct (existsb is_inc l); [|done]. simpl in H4.
  by rewrite andb_true_iff, !negb_true_iff in H4.
Qed.

Lemma main_calls l i rest : l ++ i :: rest = main_steps mode →
  is_kill i = false ∧ (∀ r, is_fork r i → existsb (is_fork r) rest = false) ∧
  (is_external i → existsb is_both l ∧ existsb is_proceed l = false).
Proof.
  intros H. assert (Hc := main_split mode (λ l l', match l' with
    | i :: rest => negb (is_kill i) && implb (is_fork false i) (negb (existsb (is_fork false) rest)) &&
        implb (is_fork true i) (negb (existsb (is_fork true) rest)) && implb (is_external i) (existsb is_both l && negb (existsb is_proceed l))
    | [] => true end) l (i :: rest) ltac:(intros []; vm_compute; reflexivity) H).
  simpl in Hc. rewrite !andb_true_iff in Hc. destruct Hc as [[[H1 H2] H3] H4]. split_and!.
  - by apply negb_true_iff.
  - intros r Hr. destruct r; [destruct (is_fork true i); [|done]; by apply negb_true_iff|].
    destruct (is_fork false i); [|done]. by apply negb_true_iff.
  - intros Hi. destruct (is_external i); [|done]. simpl in H4. apply andb_true_iff in H4 as [H4 H5%negb_true_iff].
    split; [by rewrite H4|done].
Qed.

Lemma abort_calls l l' : l ++ l' = abort_steps → existsb (is_fork false) l' = false ∧ existsb (is_fork true) l' = false ∧
  existsb is_proceed l = false.
Proof.
  intros H. assert (Hc := splits_sound (λ l l', negb (existsb (is_fork false) l') && negb (existsb (is_fork true) l') &&
    negb (existsb is_proceed l)) abort_steps l l' ltac:(vm_compute; reflexivity) H). simpl in Hc.
  rewrite !andb_true_iff, !negb_true_iff in Hc. tauto.
Qed.

Lemma aborted_held s : proto s → aborted mode s → existsb is_both (done_of Parent s) ∧ proceedRestore s = false.
Proof.
  intros Hpr (l & e & rest & pre & Hm & Hd & Ha). destruct (main_calls _ _ _ (eq_sym Hm)) as (_ & _ & Hx).
  destruct (Hx I) as [H1 H2]. rewrite (pr_proceed _ _ _ Hpr), Hd, !existsb_app, H2.
  split; [by destruct (existsb is_both l)|]. by destruct (abort_calls _ _ Ha) as (_ & _ & ->).
Qed.

(** While the parent works on them, the ranks stand between the count and the release. *)
Lemma prepared_both s r : proto s → existsb is_both (done_of Parent s) → existsb is_inc (done_of (Rank r) s).
Proof.
  intros Hpr Hb%(pr_both _ _ _ Hpr). rewrite (pr_count _ _ _ Hpr) in Hb. unfold count in Hb.
  destruct r, (existsb is_inc (done_of (Rank false) s)), (existsb is_inc (done_of (Rank true) s)); done || lia.
Qed.

Lemma held_head s r i rest : proto s → existsb is_both (done_of Parent s) → proceedRestore s = false →
  todo (procs s (Rank r)) = i :: rest → is_barrier i = false ∧ is_restore i = false.
Proof.
  intros Hpr Hb Hp Hi. pose proof (pr_rank _ _ _ Hpr r) as Hr. rewrite Hi in Hr.
  destruct (child_calls _ _ _ _ Hr) as (_ & _ & _ & H). apply H; [by apply prepared_both|].
  destruct (existsb is_may (done_of (Rank r) s)) eqn:E; [|done]. pose proof (pr_may _ _ _ Hpr r) as Hm. rewrite E, Hp in Hm.
  by destruct (Hm I).
Qed.

Lemma kill_not_at s r rest : proto s → at_ok s → todo (procs s Parent) = Kill r :: rest → doing (procs s (Rank r)) ≠ AtBarrier.
Proof.
  intros Hpr Hat Hk Hd. destruct (at_head _ Hat r Hd) as (l & rs & Hl).
  destruct (pr_parent _ _ _ Hpr) as [Hm|Ha].
  - rewrite Hk in Hm. by destruct (main_calls _ _ _ Hm) as (? & _).
  - destruct (aborted_held s Hpr Ha) as [Hb Hp]. by destruct (held_head s r _ _ Hpr Hb Hp Hl).
Qed.

(** Only [w] changes, and it is not inside the barrier. *)
Lemma at_ok_frame s s' w : at_ok s → doing (procs s w) ≠ AtBarrier → doing (procs s' w) ≠ AtBarrier → arrived s' = arrived s →
  (∀ v, v ≠ w → doing (procs s' v) = AtBarrier ↔ doing (procs s v) = AtBarrier) →
  (∀ v, v ≠ w → doing (procs s v) = AtBarrier → todo (procs s' v) = todo (procs s v)) → at_ok s'.
Proof.
  intros [Ha Hh] Hw Hw' Har Hd Ht. split.
  - intros r. rewrite Har, Ha. destruct (decide (Rank r = w)) as [<-|Hne]; [done|]. by rewrite Hd.
  - intros r Hr. destruct (decide (Rank r = w)) as [<-|Hne]; [done|]. apply Hd in Hr; [|done]. rewrite Ht by done. by apply Hh.
Qed.

Lemma at_ok_advance s s' w i rest : at_ok s → todo (procs s w) = i :: rest → doing (procs s w) = Running →
  procs s' = procs (advance w s) → arrived s' = arrived s → at_ok s'.
Proof.
  intros Hat Hw Hr Hp Ha. apply (at_ok_frame s s' w); try done; rewrite ?Hp.
  - by rewrite Hr.
  - by rewrite (doing_advance _ _ _ _ _ Hw), decide_True.
  - intros v Hv. by rewrite (doing_advance _ _ _ _ _ Hw), decide_False.
  - intros v Hv _. by rewrite (todo_advance _ _ _ _ _ Hw), decide_False.
Qed.

Lemma at_ok_set_doing s w a : at_ok s → doing (procs s w) ≠ AtBarrier → a ≠ AtBarrier → at_ok (set_doing w a s).
Proof.
  intros Hat Hw Ha. apply (at_ok_frame s _ w); try done.
  - by rewrite doing_set_doing, decide_True.
  - intros v Hv. by rewrite doing_set_doing, decide_False.
  - intros v Hv _. by rewrite todo_set_doing.
Qed.

Lemma at_ok_enter s r l rest : at_ok s → todo (procs s (Rank r)) = BarrierWait l :: rest → arrived s = None →
  at_ok (set_arrived (Some r) (set_doing (Rank r) AtBarrier s)).
Proof.
  intros [Ha Hh] Hr Hn. assert (Hnone : ∀ q, doing (procs s (Rank q)) ≠ AtBarrier) by (intros q Hq%Ha; congruence).
  split; intros q; change (procs (set_arrived ?a ?x)) with (procs x); rewrite doing_set_doing; destruct (decide (Rank q = Rank r)) as [[= ->]|Hne].
  - done.
  - simpl. split; [congruence|]. intros Hq. by apply Hnone in Hq.
  - intros _. rewrite todo_set_doing. by eexists _, _.
  - intros Hq. by apply Hnone in Hq.
Qed.

Lemma at_ok_barrier s s' w l rest : at_ok s → todo (procs s w) = BarrierWait l :: rest → doing (procs s w) = Running →
  succeed w (BarrierWait l) s = Some s' → at_ok s'.
Proof.
  intros Hat Hw Hr Hs. destruct w as [|r]; [done|]. destruct (arrived s) as [q|] eqn:Hq.
  - destruct (decide (q = r)) as [->|Hne]; [unfold succeed in Hs; rewrite Hq, bool_decide_eq_true_2 in Hs by done; done|].
    destruct (meet_eq s s' r q l rest Hat Hw Hq Hne Hs) as [-> ->]. apply (at_arrived _ Hat) in Hq as Hd.
    destruct (at_head _ Hat _ Hd) as (l' & rest' & Hl').
    set (s1 := set_arrived None (advance (Rank r) s)).
    assert (Ht : todo (procs s1 (Rank (negb r))) = BarrierWait l' :: rest').
    { unfold s1. simpl. rewrite (todo_advance _ _ _ _ _ Hw), decide_False; [done|apply rank_neq]. }
    assert (Hnone : ∀ v, doing (procs (advance (Rank (negb r)) s1) (Rank v)) ≠ AtBarrier).
    { intros v. rewrite (doing_advance _ _ _ _ _ Ht). unfold s1. simpl. rewrite (doing_advance _ _ _ _ _ Hw). by destruct r, v. }
    split; [|intros v Hv; by apply Hnone in Hv]. intros v. split; [|intros Hv; by apply Hnone in Hv].
    rewrite (advance_eq _ _ _ _ Ht). done.
  - unfold succeed in Hs. rewrite Hq in Hs. injection Hs as <-. by eapply at_ok_enter.
Qed.

Lemma at_ok_wake s : at_ok s → at_ok (wake_all s).
Proof.
  intros [Ha Hh]. split; intros r; rewrite doing_wake_all.
  - simpl. rewrite Ha. by destruct (doing (procs s (Rank r))).
  - rewrite todo_wake_all. intros Hd. apply Hh. by destruct (doing (procs s (Rank r))).
Qed.

Lemma at_ok_succeed s s' w i rest : proto s → at_ok s → unborn_ok s → todo (procs s w) = i :: rest → doing (procs s w) = Running →
  succeed w i s = Some s' → at_ok s'.
Proof.
  intros Hpr Hat Hun Hw Hr Hs.
  assert (Hadv : ∀ s', procs s' = procs (advance w s) → arrived s' = arrived s → at_ok s') by (intros; by eapply at_ok_advance).
  assert (Hself : at_ok (advance w s)) by (apply Hadv; [done|by rewrite (advance_eq _ _ _ _ Hw)]).
  assert (Hown : doing (procs (advance w s) w) ≠ AtBarrier) by (by rewrite (doing_advance _ _ _ _ _ Hw), decide_True).
  assert (Hpar : is_fork false i ∨ is_fork true i ∨ is_kill i → w = Parent).
  { destruct w as [|r]; [done|]. pose proof (pr_rank _ _ _ Hpr r) as H. rewrite Hw in H.
    destruct (child_calls _ _ _ _ H) as (-> & -> & -> & _). naive_solver. }
  assert (Harr : arrived (advance w s) = arrived s) by (by rewrite (advance_eq _ _ _ _ Hw)).
  destruct i as [c code|l|code| | |c code| | |r|r|e|r|r|code|]; try (eapply at_ok_barrier; [exact Hat|exact Hw|exact Hr|exact Hs]); cbn [succeed] in Hs.
  - injection Hs as <-. by apply Hadv.
  - destruct (holder s); [done|]. injection Hs as <-. by apply Hadv.
  - injection Hs as <-. by apply Hadv.
  - injection Hs as <-. by apply at_ok_wake.
  - destruct (holds c s); injection Hs as <-; [by apply Hadv|]. apply (at_ok_set_doing s w (Sleeping false)) in Hat; [|by rewrite Hr|done].
    split; apply Hat.
  - injection Hs as <-. by apply Hadv.
  - injection Hs as <-. by apply Hadv.
  - injection Hs as <-. by apply Hadv.
  - injection Hs as <-. apply at_ok_set_doing; [done| |done]. rewrite (doing_advance _ _ _ _ _ Hw).
    rewrite Hpar in * by (destruct r; naive_solver). rewrite decide_False by done.
    rewrite (Hun r); [done|]. rewrite Hw. simpl. by rewrite bool_decide_eq_true_2.
  - injection Hs as <-. by apply Hadv.
  - rewrite Hpar in * by (simpl; auto).
    assert (Hk : doing (procs (advance Parent s) (Rank r)) ≠ AtBarrier).
    { rewrite (doing_advance _ _ _ _ _ Hw), decide_False by done. by eapply kill_not_at. }
    destruct (doing (procs s (Rank r))); injection Hs as <-; try done; by apply at_ok_set_doing.
  - destruct (doing (procs s (Rank r))) as [| | | |[[]|]]; try done; injection Hs as <-; by apply Hadv.
  - injection Hs as <-. by apply at_ok_set_doing.
  - injection Hs as <-. by apply at_ok_set_doing.
Qed.

(** Forks still to come after a step of the parent. *)
Lemma forks_left s i rest r : proto s → todo (procs s Parent) = i :: rest → existsb (is_fork r) rest →
  is_fork r i = false ∧ is_kill i = false.
Proof.
  intros Hpr Hi Hr. destruct (pr_parent _ _ _ Hpr) as [H|(l & e & rs & pre & _ & _ & H)]; rewrite Hi in H.
  - destruct (main_calls _ _ _ H) as (H1 & H2 & _). split; [|done]. destruct (is_fork r i) eqn:E; [|done].
    rewrite (H2 r) in Hr; [done|by rewrite E].
  - rewrite cons_middle, app_assoc in H. destruct (abort_calls _ _ H) as (H1 & H2 & _). destruct r; [rewrite H2 in Hr|rewrite H1 in Hr]; done.
Qed.

(** No step adds forks. *)
Lemma forks_moves s s' r : moves s s' → existsb (is_fork r) (todo (procs s' Parent)) → existsb (is_fork r) (todo (procs s Parent)).
Proof.
  intros [_ Ht _|v j rs Hj _ Ht _ _ _ _ _|q l l' r1 r2 _ _ _ Ht _|e rs Hj _ Ht _]; rewrite Ht.
  - done.
  - destruct (decide (Parent = v)) as [<-|]; [|done]. rewrite Hj. simpl. intros H. apply orb_True. by right.
  - by rewrite !decide_False.
  - rewrite decide_True by done. by destruct r.
Qed.

(** A rank that is not born, or dead, is only touched by its fork and by a kill; a dead one not even by that. *)
Definition frozen (a : activity) : bool := match a with Unborn | Dead _ => true | _ => false end.

Lemma frozen_stays s s' w i rest r : at_ok s → todo (procs s w) = i :: rest → doing (procs s w) = Running →
  succeed w i s = Some s' → frozen (doing (procs s (Rank r))) → is_fork r i = false →
  (is_kill i → doing (procs s (Rank r)) ≠ Unborn) → doing (procs s' (Rank r)) = doing (procs s (Rank r)).
Proof.
  intros Hat Hw Hr Hs Hu Hf Hk. assert (Hne : Rank r ≠ w) by (intros <-; by rewrite Hr in Hu).
  assert (Ha : doing (procs (advance w s) (Rank r)) = doing (procs s (Rank r))) by (by rewrite (doing_advance _ _ _ _ _ Hw), decide_False).
  assert (Hset : ∀ a, doing (procs (set_doing w a (advance w s)) (Rank r)) = doing (procs s (Rank r)))
    by (intros a; by rewrite doing_set_doing, decide_False).
  destruct i as [c code|l|code| | |c code| | |q|q|e|q|q|code|]; cbn [succeed] in Hs; try (by injection Hs as <-); try done.
  - destruct w as [|p]; [done|]. destruct (arrived s) as [q|] eqn:Hq.
    + destruct (decide (q = p)) as [->|Hqp]; [by rewrite bool_decide_eq_true_2 in Hs|].
      destruct (meet_eq s s' p q l rest Hat Hw Hq Hqp) as [-> _]; [unfold succeed; by rewrite Hq|].
      apply (at_arrived _ Hat) in Hq. assert (negb p = r) as Hp by (destruct p, r; simpl; congruence). rewrite Hp in Hq.
      by rewrite Hq in Hu.
    + injection Hs as <-. simpl. rewrite fn_lookup_insert_ne by done. done.
  - destruct (holder s); [done|]. by injection Hs as <-.
  - injection Hs as <-. rewrite doing_wake_all, Ha. by destruct (doing (procs s (Rank r))).
  - destruct (holds c s); injection Hs as <-; [done|]. simpl. rewrite fn_lookup_insert_ne by done. done.
  - injection Hs as <-. rewrite doing_set_doing. destruct (decide (Rank r = Rank q)) as [[= ->]|_]; [|done].
    simpl in Hf. by rewrite bool_decide_eq_true_2 in Hf.
  - destruct (decide (q = r)) as [->|Hqr].
    + specialize (Hk I). by destruct (doing (procs s (Rank r))) eqn:E; injection Hs as <-; rewrite ?Ha.
    + destruct (doing (procs s (Rank q))); injection Hs as <-; try done; by rewrite doing_set_doing, decide_False by congruence.
  - destruct (doing (procs s (Rank q))) as [| | | |[[]|]]; try done; by injection Hs as <-.
Qed.

Lemma unborn_succeed s s' w i rest : proto s → at_ok s → unborn_ok s → todo (procs s w) = i :: rest → doing (procs s w) = Running →
  succeed w i s = Some s' → unborn_ok s'.
Proof.
  intros Hpr Hat Hun Hw Hr Hs r Hf.
  assert (Hold : existsb (is_fork r) (todo (procs s Parent))) by (eapply forks_moves; [by eapply succeed_moves|done]).
  assert (Hquiet : is_fork r i = false ∧ is_kill i = false).
  { destruct w as [|q].
    - destruct (is_fork r i) eqn:E1; [|destruct (is_kill i) eqn:E2; [|done]].
      + exfalso. assert (Ht : todo (procs s' Parent) = rest).
        { destruct i; try done. cbn [succeed] in Hs. injection Hs as <-. by rewrite todo_set_doing, (todo_advance _ _ _ _ _ Hw), decide_True. }
        rewrite Ht in Hf. destruct (forks_left s i rest r Hpr Hw Hf). congruence.
      + exfalso. assert (Ht : todo (procs s' Parent) = rest).
        { destruct i; try done. cbn [succeed] in Hs.
          match type of Hs with context [doing ?x] => destruct (doing x) end; injection Hs as <-;
            by rewrite ?todo_set_doing, (todo_advance _ _ _ _ _ Hw), decide_True. }
        rewrite Ht in Hf. destruct (forks_left s i rest r Hpr Hw Hf). congruence.
    - pose proof (pr_rank _ _ _ Hpr q) as H. rewrite Hw in H. destruct (child_calls _ _ _ _ H) as (? & ? & ? & _). by destruct r. }
  destruct Hquiet as [H1 H2]. pose proof (Hun r Hold) as Hu. rewrite <- Hu.
  eapply frozen_stays; [done|exact Hw|done|exact Hs|by rewrite Hu|done|by rewrite H2].
Qed.

(** ** Every reachable state *)

Definition inv (s : system) : Prop := proto s ∧ at_ok s ∧ unborn_ok s.

Lemma inv_same s s' : inv s → moves s s' → at_ok s' →
  (∀ r, doing (procs s (Rank r)) = Unborn → doing (procs s' (Rank r)) = Unborn) → inv s'.
Proof.
  intros (Hp & Ha & Hu) Hm Ha' Hd. split_and!; [by eapply proto_moves|done|]. intros r Hr. by apply Hd, Hu, (forks_moves _ _ _ Hm).
Qed.

Lemma inv_exec s s' w c : inv s → exec w c s = Some s' → inv s'.
Proof.
  intros (Hp & Ha & Hu) Hs.
  assert (Hm : moves s s') by (apply (exec_moves s s' w c Ha); [intros r i; apply (rank_no_external pid mode s r i Hp)|done]).
  unfold exec in Hs. destruct (doing (procs s w)) as [| | |woken|] eqn:Hw; try done.
  - destruct (todo (procs s w)) as [|i rest] eqn:Ht; [done|]. destruct c; [..|done].
    + split_and!; [by eapply proto_moves|by eapply at_ok_succeed|by eapply unborn_succeed].
    + assert (Hdead : ∀ a, a ≠ AtBarrier → at_ok (set_doing w a s)) by (intros; apply at_ok_set_doing; [done|congruence|done]).
      assert (Hne : ∀ r, doing (procs s (Rank r)) = Unborn → Rank r ≠ w) by (intros r Hr <-; congruence).
      assert (Hcase : (∃ a, a ≠ AtBarrier ∧ s' = set_doing w a s) ∨ (s' = set_proc w (MkProcess abort_steps Running) s)).
      { destruct i as [[]|l|code| | |k code| | |r|r|e|r|r|code|]; simpl in Hs; try done; injection Hs as <-;
          try (by right); left; eexists; (split; [|reflexivity]); done. }
      destruct Hcase as [(a & Hna & ->)|Heq].
      * apply (inv_same s); [done|done|by apply Hdead|]. intros r Hr. by rewrite doing_set_doing, decide_False by auto.
      * apply (inv_same s); [done|done|..]; subst s'.
        -- apply (at_ok_frame s _ w); simpl; try done; rewrite ?fn_lookup_insert; try done; try congruence.
           ++ intros v Hv. by rewrite fn_lookup_insert_ne.
           ++ intros v Hv _. by rewrite fn_lookup_insert_ne.
        -- intros r Hr. simpl. rewrite fn_lookup_insert_ne by (apply not_eq_sym; auto). done.
  - assert (s' = set_holder (Some w) (set_doing w Running s)) as ->.
    { destruct (holder s); [done|]. destruct c; [destruct woken; [|done]|done|]; by injection Hs. }
    apply (inv_same s); [done|done|..].
    + assert (at_ok (set_doing w Running s)) as [H1 H2] by (apply at_ok_set_doing; [done|congruence|done]). by split.
    + intros r Hr. change (procs (set_holder ?a ?x)) with (procs x). rewrite doing_set_doing, decide_False; [done|congruence].
Qed.

Lemma reachable_inv s : reachable pid mode s → inv s.
Proof.
  induction 1 as [|s w c s' _ IH Hs]; [|by eapply inv_exec]. split_and!; [apply proto_start|by split|by intros []].
Qed.
End Barrier.

(** ** A scheduler: one process that can go, as long as there is one *)

Definition turn (s : system) : option system :=
  match exec Parent Go s with
  | Some s' => Some s'
  | None => match exec (Rank false) Go s with Some s' => Some s' | None => exec (Rank true) Go s end
  end.
Fixpoint play (n : nat) (s : system) : system :=
  match n with O => s | S n => match turn s with Some s' => play n s' | None => s end end.

Lemma turn_exec s s' : turn s = Some s' → ∃ w, exec w Go s = Some s'.
Proof. unfold turn. repeat case_match; intros; simplify_eq; eauto. Qed.

Lemma play_rtc n s : rtc (λ s s', ∃ w, exec w Go s = Some s') s (play n s).
Proof.
  revert s. induction n as [|n IH]; intros s; simpl; [done|]. destruct (turn s) as [s'|] eqn:Ht; [|done].
  eapply rtc_l; [by apply turn_exec|apply IH].
Qed.

Lemma play_reachable pid mode n s : reachable pid mode s → reachable pid mode (play n s).
Proof. intros Hr. pose proof (play_rtc n s) as Hp. induction Hp as [|s s1 s2 (w & Hs) _ IH]; [done|]. apply IH. by eapply reach_step. Qed.

Lemma run_reachable pid mode sched s s' : reachable pid mode s → run sched s = Some s' → reachable pid mode s'.
Proof.
  revert s. unfold run. induction sched as [|[w c] sched IH]; simpl; intros s Hr Hs; [by injection Hs as <-|].
  destruct (exec w c s) as [s1|] eqn:He; [by eapply IH, Hs; eapply reach_step|].
  exfalso. clear -Hs. induction sched; simpl in Hs; [done|auto].
Qed.

Lemma run_default_reachable pid mode sched s : reachable pid mode s → reachable pid mode (default s (run sched s)).
Proof. intros Hr. destruct (run sched s) as [s'|] eqn:Hs; [by eapply run_reachable|done]. Qed.
