(* ===== verification/TwoProcTheorems.v ===== *)
(** The two-process example: the theorems.

    The order of the phases and the verdict hold for every schedule, every failing call and every
    spurious wake-up; without failures every schedule ends with the verdict 0. *)
From stdpp Require Import functions.
From S2P Require Import Prelude NcclPlugin TwoProc TwoProcFacts.
Open Scope Z_scope.

(** [p] is among the steps of rank [r] in [tr]. *)
Definition did (p : instr → bool) (r : bool) (tr : list (who * instr)) : bool := existsb p (steps_of (Rank r) tr).

(** What comes before a step. *)
Record needs (mode : TestMode) (tr : list (who * instr)) (i : instr) : Prop := {
  nd_external : is_external i → ∀ r, did is_prepare r tr ∧ did is_restore r tr = false;
  nd_restore : is_restore i → (∀ r, did is_prepare r tr) ∧
    ∀ e, e ∈ run_external_checkpoint mode → (Parent, External e) ∈ tr;
  nd_import : is_import i → ∀ r, did is_export r tr;
  nd_check : is_second_check i → ∀ r, did is_restore r tr ∧ (mode_uses_gcr mode → did is_import r tr)
}.

Section Order.
Context (pid : Z) (mode : TestMode).
Abbreviation inv := (inv pid mode).

(** Barriers before the import, and before the last check. *)
Definition import_barriers (m : TestMode) : nat := if mode_uses_external_checkpoint m then 2 else 3.
Definition check_barriers (m : TestMode) : nat :=
  match m with Native => 3 | Gcr => 4 | _ => 3 end.

Lemma child_before r l i rest : l ++ i :: rest = child_main pid mode r →
  (is_restore i → existsb is_prepare l ∧ if mode_uses_external_checkpoint mode then existsb is_may l else 2 <=? barriers l)%nat ∧
  (is_import i → import_barriers mode <=? barriers l)%nat ∧
  (is_second_check i → check_barriers mode <=? barriers l)%nat.
Proof.
  intros H. assert (Hc := splits_sound (λ l l', match l' with
    | i :: _ => implb (is_restore i) (existsb is_prepare l &&
          (if mode_uses_external_checkpoint mode then existsb is_may l else 2 <=? barriers l)%nat) &&
        implb (is_import i) (import_barriers mode <=? barriers l)%nat &&
        implb (is_second_check i) (check_barriers mode <=? barriers l)%nat
    | [] => true end) (child_main pid mode r) l (i :: rest) ltac:(destruct mode, r; vm_compute; reflexivity) H).
  cbv beta iota in Hc. rewrite !andb_true_iff in Hc. destruct Hc as [[H1 H2] H3]. split_and!; intros Hi.
  - destruct (is_restore i); [|done]. unfold implb in H1. apply andb_true_iff in H1 as [H1 H1'].
    split; [by rewrite H1|]. destruct (mode_uses_external_checkpoint mode); by rewrite H1'.
  - destruct (is_import i); [|done]. unfold implb in H2. by rewrite H2.
  - destruct (is_second_check i); [|done]. unfold implb in H3. by rewrite H3.
Qed.

Lemma child_after r l l' : l ++ l' = child_main pid mode r →
  (existsb is_inc l → existsb is_prepare l ∧ (existsb is_may l = false → existsb is_restore l = false)) ∧
  (mode_uses_external_checkpoint mode = false → 2 <=? barriers l → existsb is_prepare l)%nat ∧
  (mode_uses_gcr mode → import_barriers mode <=? barriers l → existsb is_export l)%nat ∧
  (check_barriers mode <=? barriers l → existsb is_restore l ∧ (mode_uses_gcr mode → existsb is_import l))%nat.
Proof.
  intros H. assert (Hc := splits_sound (λ l l',
        implb (existsb is_inc l) (existsb is_prepare l && (existsb is_may l || negb (existsb is_restore l))) &&
        (mode_uses_external_checkpoint mode || implb (2 <=? barriers l)%nat (existsb is_prepare l)) &&
        implb (mode_uses_gcr mode && (import_barriers mode <=? barriers l)%nat) (existsb is_export l) &&
        implb (check_barriers mode <=? barriers l)%nat (existsb is_restore l && implb (mode_uses_gcr mode) (existsb is_import l)))
    (child_main pid mode r) l l' ltac:(destruct mode, r; vm_compute; reflexivity) H).
  cbv beta iota in Hc. rewrite !andb_true_iff in Hc. destruct Hc as [[[H1 H2] H3] H4].
  repeat match goal with |- context [existsb ?p l] => let E := fresh in destruct (existsb p l) eqn:E end;
  repeat match goal with |- context [(?n <=? barriers l)%nat] => let E := fresh in destruct (n <=? barriers l)%nat eqn:E end;
  destruct (mode_uses_gcr mode), (mode_uses_external_checkpoint mode); simpl in *; naive_solver.
Qed.

Lemma main_before l l' : l ++ l' = main_steps mode →
  (existsb is_proceed l → existsb is_both l ∧ ∀ e, e ∈ run_external_checkpoint mode → External e ∈ l) ∧
  (∀ i rest, l' = i :: rest → is_restore i = false ∧ is_import i = false ∧ is_second_check i = false).
Proof.
  intros H. assert (Hc := splits_sound (λ l l',
      implb (existsb is_proceed l) (existsb is_both l && forallb (λ e, bool_decide (External e ∈ l)) (run_external_checkpoint mode)) &&
      match l' with i :: _ => negb (is_restore i) && negb (is_import i) && negb (is_second_check i) | [] => true end)
    (main_steps mode) l l' ltac:(destruct mode; vm_compute; reflexivity) H).
  cbv beta in Hc. apply andb_true_iff in Hc as [H1 H2]. split.
  - intros Hp. destruct (existsb is_proceed l); [|done]. unfold implb in H1. apply andb_true_iff in H1 as [H1 H1'].
    rewrite forallb_forall in H1'. split; [by rewrite H1|]. intros e He.
    by apply (bool_decide_eq_true_1 _), H1', list_elem_of_In.
  - intros i rest ->. rewrite !andb_true_iff, !negb_true_iff in H2. tauto.
Qed.

Lemma abort_before l i rest : l ++ i :: rest = abort_steps →
  is_external i = false ∧ is_restore i = false ∧ is_import i = false ∧ is_second_check i = false.
Proof.
  intros H. assert (Hc := splits_sound (λ l l', match l' with
    | i :: _ => negb (is_external i) && negb (is_restore i) && negb (is_import i) && negb (is_second_check i) | [] => true end)
    abort_steps l (i :: rest) ltac:(vm_compute; reflexivity) H). cbv beta iota in Hc.
  rewrite !andb_true_iff, !negb_true_iff in Hc. tauto.
Qed.

(** The other rank has passed as many barriers. *)
Lemma same_barriers s r q : inv s → barriers (done_of (Rank q) s) = barriers (done_of (Rank r) s).
Proof. intros (Hp & _ & _). pose proof (pr_barriers _ _ _ Hp). by destruct r, q. Qed.

Lemma inc_prepared s r : inv s → existsb is_inc (done_of (Rank r) s) → existsb is_prepare (done_of (Rank r) s).
Proof. intros (Hp & _ & _) Hi. destruct (child_after r _ _ (pr_rank _ _ _ Hp r)) as (A & _). by destruct (A Hi). Qed.

(** After the release the parent has done its part. *)
Lemma released s : inv s → proceedRestore s → existsb is_both (done_of Parent s) ∧
  ∀ e, e ∈ run_external_checkpoint mode → (Parent, External e) ∈ done_steps s.
Proof.
  intros (Hp & _ & _) Hpr. destruct (pr_parent _ _ _ Hp) as [Hm|Ha].
  - rewrite (pr_proceed _ _ _ Hp) in Hpr. destruct (main_before _ _ Hm) as [Hb _]. destruct (Hb Hpr) as [H1 H2].
    split; [done|]. intros e He. apply steps_of_in. by apply H2.
  - destruct (aborted_held _ _ _ Hp Ha) as [_ Hf]. by rewrite Hf in Hpr.
Qed.

Lemma needs_rank s r i rest : inv s → todo (procs s (Rank r)) = i :: rest → needs mode (done_steps s) i.
Proof.
  intros Hi Ht. pose proof Hi as (Hp & _ & _). pose proof (pr_rank _ _ _ Hp r) as Hr. rewrite Ht in Hr.
  destruct (child_next _ _ _ _ _ _ Hr) as (_ & Hext & _ & _). destruct (child_before _ _ _ _ Hr) as (B1 & B2 & B3).
  assert (Hafter := λ q, child_after q _ _ (pr_rank _ _ _ Hp q)). split.
  - by rewrite Hext.
  - intros Hre. destruct (B1 Hre) as [_ B]. destruct (mode_uses_external_checkpoint mode) eqn:Hm.
    + destruct (released s Hi) as [Hb He]; [by eapply (pr_may _ _ _ Hp)|]. split; [|done].
      intros q. eapply inc_prepared; [done|]. by eapply prepared_both.
    + split; [|destruct mode; try done; by intros e ?%elem_of_nil]. intros q. destruct (Hafter q) as (_ & A & _). apply A; [done|]. by rewrite (same_barriers s r q).
  - intros Him q. destruct (Hafter q) as (_ & _ & A & _). rewrite (same_barriers s r q Hi) in A.
    apply A; [|by apply B2]. destruct mode; try done. exfalso. clear -Hr Him.
    assert (Hc := splits_sound (λ l l', match l' with i :: _ => negb (is_import i) | [] => true end)
      (child_main pid Native r) _ (i :: rest) ltac:(destruct r; vm_compute; reflexivity) Hr). cbv beta iota in Hc.
    by apply negb_true_iff in Hc; rewrite Hc in Him.
  - intros Hch q. destruct (Hafter q) as (_ & _ & _ & A). rewrite (same_barriers s r q Hi) in A. by apply A, B3.
Qed.

Lemma needs_parent s i rest : inv s → todo (procs s Parent) = i :: rest → needs mode (done_steps s) i.
Proof.
  intros Hi Ht. pose proof Hi as (Hp & _ & _).
  assert (Hno : is_restore i = false ∧ is_import i = false ∧ is_second_check i = false ∧ (is_external i → ¬ aborted mode s)).
  { destruct (pr_parent _ _ _ Hp) as [Hm|Ha]; [rewrite Ht in Hm|destruct Ha as (l & e & rs & pre & _ & _ & Ha); rewrite Ht in Ha].
    - destruct (main_before _ _ Hm) as [_ H]. destruct (H i rest eq_refl) as (? & ? & ?). split_and!; try done.
      intros Hx (l & e & rs & pre & _ & _ & Ha). rewrite Ht in Ha. destruct (abort_before _ _ _ Ha) as (Hx' & _). by rewrite Hx' in Hx.
    - destruct (abort_before _ _ _ Ha) as (-> & ? & ? & ?). split_and!; try done. }
  destruct Hno as (N1 & N2 & N3 & N4). split; [|by rewrite N1|by rewrite N2|by rewrite N3].
  intros Hx r. destruct (pr_parent _ _ _ Hp) as [Hm|Ha]; [|by apply N4 in Hx]. rewrite Ht in Hm.
  destruct (main_calls _ _ _ _ Hm) as (_ & _ & H). destruct (H Hx) as [Hb Hpr].
  assert (Hinc : existsb is_inc (done_of (Rank r) s)) by (by eapply prepared_both).
  split; [by apply inc_prepared|]. destruct (child_after r _ _ (pr_rank _ _ _ Hp r)) as (A & _). destruct (A Hinc) as [_ A']. apply A'.
  destruct (existsb is_may (done_of (Rank r) s)) eqn:E; [|done]. pose proof (pr_may _ _ _ Hp r) as Hmay.
  rewrite E, (pr_proceed _ _ _ Hp), Hpr in Hmay. by destruct (Hmay I).
Qed.

(** ** The order of the phases *)

Definition ordered (tr : list (who * instr)) : Prop := ∀ pre w i post, tr = pre ++ (w, i) :: post → needs mode pre i.

Lemma ordered_snoc tr w i : ordered tr → needs mode tr i → ordered (tr ++ [(w, i)]).
Proof.
  intros Ho Hn pre v j post Heq. destruct post as [|x post _] using rev_ind.
  - apply app_inj_tail in Heq as [-> [= -> ->]]. done.
  - rewrite app_comm_cons, app_assoc in Heq. apply app_inj_tail in Heq as [-> _]. by eapply Ho.
Qed.

Lemma needs_barrier tr l : needs mode tr (BarrierWait l).
Proof. by split. Qed.

Lemma ordered_moves s s' : inv s → moves s s' → ordered (done_steps s) → ordered (done_steps s').
Proof.
  intros Hi [Hd _ _|w i rest Ht Hd _ _ _ _ _ _|r l l' rest rest' _ _ Hd _ _|e rest _ Hd _ _] Ho; rewrite Hd; [done|..|done].
  - apply ordered_snoc; [done|]. destruct w; [by eapply needs_parent|by eapply needs_rank].
  - by repeat (apply ordered_snoc; [|apply needs_barrier]).
Qed.

Lemma inv_moves s s' w c : inv s → exec w c s = Some s' → moves s s'.
Proof. intros (Hp & Ha & _). apply exec_moves; [done|]. intros r i. by apply (rank_no_external pid mode). Qed.

(** C10: the phases of the checkpoint come in order, whatever the schedule and whatever fails. [cuda-checkpoint] is
    only run when both ranks have prepared and neither has begun to restore; a rank restores only after
    both have prepared and, in the external modes, after every run of [cuda-checkpoint]; it imports only after both have
    exported; and the last all-reduce is only checked after both have restored. *)
Theorem two_proc_order s : reachable pid mode s →
  ∀ pre w i post, done_steps s = pre ++ (w, i) :: post → needs mode pre i.
Proof.
  change (reachable pid mode s → ordered (done_steps s)). intros Hr. induction Hr as [|s w c s' Hr IH Hs].
  - by intros [] ? ? ? [=].
  - pose proof (reachable_inv _ _ _ Hr) as Hi. eapply ordered_moves; [done|by eapply inv_moves|done].
Qed.
End Order.

(** The whole run in the toggle mode, and its first run of [cuda-checkpoint]. *)
Lemma two_proc_order_witness :
  let s := play 200 (start 42 GcrCheckpointToggle) in
  length (done_steps s) = 97%nat ∧
  (∀ pre w i post, done_steps s = pre ++ (w, i) :: post → needs GcrCheckpointToggle pre i).
Proof.
  intros s. split; [vm_compute; reflexivity|].
  apply (two_proc_order 42 GcrCheckpointToggle s). apply play_reachable, reach_start.
Defined.
