(* ===== verification/TwoProcVerdict.v ===== *)
(** The two-process example: what its verdict means, and when there is none. *)
From stdpp Require Import functions.
From S2P Require Import Prelude NcclPlugin TwoProc TwoProcFacts.
Open Scope Z_scope.

Definition is_wait (r : bool) (i : instr) : bool := match i with WaitPid q => bool_decide (q = r) | _ => false end.

(** Ends of a program: a normal one is the last step, a failing one has a code that is not 0. *)
Definition ends_well (i : instr) (rest : list instr) : bool :=
  match i with
  | Return c => bool_decide (c ≠ 0) || bool_decide (rest = [])
  | ReturnVerdict => bool_decide (rest = [])
  | _ => match exit_code i with Some c => bool_decide (c ≠ 0) | None => true end
  end.
Definition is_verdict (i : instr) : bool := match i with ReturnVerdict => true | _ => false end.

(** What holds of the processes that have ended. *)
Record ended_ok (s : system) : Prop := {
  en_rank r : doing (procs s (Rank r)) = Dead (ExitedWith 0) → todo (procs s (Rank r)) = [];
  en_wait r : existsb (is_wait r) (done_of Parent s) →
    ∃ st, doing (procs s (Rank r)) = Dead st ∧ (failures s = 0 → st = ExitedWith 0);
  en_count : 0 ≤ failures s;
  en_parent : doing (procs s Parent) = Dead (ExitedWith 0) → failures s = 0 ∧ ∀ r, existsb (is_wait r) (done_of Parent s)
}.

Section Verdict.
Context (pid : Z) (mode : TestMode).
Abbreviation inv := (inv pid mode).

Lemma child_ends r l i rest : l ++ i :: rest = child_main pid mode r →
  ends_well i rest ∧ is_verdict i = false ∧ is_wait false i = false ∧ is_wait true i = false ∧
  (∀ c, i = Return c → rest = []).
Proof.
  intros H. assert (Hc := splits_sound (λ l l', match l' with
    | i :: rest => ends_well i rest && negb (is_verdict i) && negb (is_wait false i) && negb (is_wait true i) &&
        match i, rest with Return _, _ :: _ => false | _, _ => true end
    | [] => true end) (child_main pid mode r) l (i :: rest) ltac:(destruct mode, r; vm_compute; reflexivity) H).
  cbv beta iota in Hc. rewrite !andb_true_iff, !negb_true_iff in Hc. destruct Hc as [[[[H1 H2] H3] H4] H5].
  split_and!; try done; [by rewrite H1|]. intros c ->. by destruct rest.
Qed.

Lemma main_ends l i rest : l ++ i :: rest = main_steps mode →
  ends_well i rest ∧ (∀ c, i ≠ Return c) ∧ (is_verdict i → ∀ r, existsb (is_wait r) l).
Proof.
  intros H. assert (Hc := splits_sound (λ l l', match l' with
    | i :: rest => ends_well i rest && match i with Return _ => false | _ => true end &&
        implb (is_verdict i) (existsb (is_wait false) l && existsb (is_wait true) l)
    | [] => true end) (main_steps mode) l (i :: rest) ltac:(destruct mode; vm_compute; reflexivity) H).
  cbv beta iota in Hc. rewrite !andb_true_iff in Hc. destruct Hc as [[H1 H2] H3]. split_and!.
  - by rewrite H1.
  - by intros c ->.
  - intros Hi r. destruct (is_verdict i); [|done]. unfold implb in H3. apply andb_true_iff in H3 as [H3 H4].
    by destruct r; rewrite ?H3, ?H4.
Qed.

Lemma abort_ends l i rest : l ++ i :: rest = abort_steps →
  is_verdict i = false ∧ exit_code i = None ∧ (∀ c, i = Return c → c ≠ 0).
Proof.
  intros H. assert (Hc := splits_sound (λ l l', match l' with
    | i :: rest => negb (is_verdict i) && match exit_code i with None => true | _ => false end && match i with Return c => negb (c =? 0) | _ => true end
    | [] => true end) abort_steps l (i :: rest) ltac:(vm_compute; reflexivity) H).
  cbv beta iota in Hc. rewrite !andb_true_iff, negb_true_iff in Hc. destruct Hc as [[H1 H2] H3].
  split_and!; [done|by destruct (exit_code i)|]. intros c ->. by apply negb_true_iff, Z.eqb_neq in H3.
Qed.

(** A process that exits with a code. *)
Lemma exit_cases s w i rest code : inv s → todo (procs s w) = i :: rest → exit_code i = Some code → code ≠ 0.
Proof.
  intros (Hp & _ & _) Ht Hx.
  assert (Hend : ends_well i rest ∨ exit_code i = None).
  { destruct w as [|r].
    - destruct (pr_parent _ _ _ Hp) as [H|(l & e & rs & pre & _ & _ & H)]; rewrite Ht in H.
      + left. by destruct (main_ends _ _ _ H).
      + right. by destruct (abort_ends _ _ _ H) as (_ & ? & _).
    - left. pose proof (pr_rank _ _ _ Hp r) as H. rewrite Ht in H. by destruct (child_ends _ _ _ _ H). }
  destruct Hend as [He|He]; [|congruence].
  destruct i as [[]| | | | | | | | | | | | | |]; simpl in Hx, He; simplify_eq; try (by apply bool_decide_unpack in He); done.
Qed.

(** What a step that is not a success does. *)
Inductive other_step (s s' : system) (w : who) : Prop :=
  | os_exit i rest code : todo (procs s w) = i :: rest → exit_code i = Some code → s' = set_doing w (Dead (ExitedWith code)) s → other_step s s' w
  | os_abort : s' = set_proc w (MkProcess abort_steps Running) s → other_step s s' w
  | os_wake : s' = set_holder (Some w) (set_doing w Running s) → other_step s s' w.

Lemma exec_cases s s' w c : exec w c s = Some s' → doing (procs s w) ≠ AtBarrier ∧ frozen (doing (procs s w)) = false ∧
  ((∃ i rest, doing (procs s w) = Running ∧ todo (procs s w) = i :: rest ∧ succeed w i s = Some s') ∨ other_step s s' w).
Proof.
  intros Hs. unfold exec in Hs. destruct (doing (procs s w)) as [| | |woken|] eqn:Hw; try done; split_and!; try done.
  - destruct (todo (procs s w)) as [|i rest] eqn:Ht; [done|]. destruct c; [left; by eexists _, _|right|done].
    destruct i as [[]|l|code| | |k code| | |r|r|e|r|r|code|]; simpl in Hs; try done; injection Hs as <-;
      try (by apply os_abort); by eapply os_exit.
  - right. apply os_wake. destruct (holder s); [done|]. destruct c; [destruct woken; [|done]|done|]; by injection Hs.
Qed.

Lemma other_doing s s' w v : other_step s s' w → v ≠ w → doing (procs s' v) = doing (procs s v).
Proof.
  intros [i rest code _ _ ->| ->| ->] Hv; [by rewrite doing_set_doing, decide_False|simpl; by rewrite fn_lookup_insert_ne|].
  change (procs (set_holder ?a ?x)) with (procs x). by rewrite doing_set_doing, decide_False.
Qed.

Lemma dead_stays s s' w c r st : inv s → exec w c s = Some s' → doing (procs s (Rank r)) = Dead st →
  doing (procs s' (Rank r)) = Dead st.
Proof.
  intros (Hp & Ha & Hu) Hs Hd. destruct (exec_cases _ _ _ _ Hs) as (_ & Hfr & Hcase).
  assert (Hne : Rank r ≠ w) by (intros <-; by rewrite Hd in Hfr).
  destruct Hcase as [(i & rest & Hw & Ht & Hsu)|Ho]; [|by rewrite (other_doing _ _ _ _ Ho)].
  assert (Hf : is_fork r i = false).
  { destruct (is_fork r i) eqn:E; [|done]. destruct w as [|q].
    - rewrite (Hu r) in Hd; [done|]. rewrite Ht. simpl. by rewrite E.
    - pose proof (pr_rank _ _ _ Hp q) as H. rewrite Ht in H. destruct (child_calls _ _ _ _ _ _ H) as (? & ? & _).
      destruct r; congruence. }
  rewrite <- Hd. eapply frozen_stays; [done|exact Ht|done|exact Hsu|by rewrite Hd|done|by rewrite Hd].
Qed.

Lemma failures_advance w s : failures (advance w s) = failures s.
Proof. unfold advance. by destruct (todo (procs s w)). Qed.
#[local] Ltac count_eq := cbn [failures set_proc set_doing set_holder set_arrived set_count set_proceed set_status set_failures wake_all];
  rewrite ?failures_advance; cbn [failures set_arrived]; rewrite ?failures_advance; lia.

(** The counter of the parent. *)
Lemma failures_succeed s s' w i rest : at_ok s → todo (procs s w) = i :: rest → succeed w i s = Some s' →
  failures s ≤ failures s' ∧ (∀ r, is_wait r i → ∃ st, doing (procs s (Rank r)) = Dead st ∧ (failures s' = failures s → st = ExitedWith 0)) ∧
  ((∀ r, is_wait r i = false) → failures s' = failures s).
Proof.
  intros Hat Hw Hs.
  destruct i as [c code|l|code| | |k code| | |q|q|e|q|q|code|]; cbn [succeed] in Hs; try (injection Hs as <-; split_and!; [count_eq|done|intros; count_eq]).
  - destruct w as [|p]; [done|]. destruct (arrived s) as [q|] eqn:Hq; [|injection Hs as <-; by split_and!].
    destruct (decide (q = p)) as [->|Hqp]; [by rewrite bool_decide_eq_true_2 in Hs|].
    destruct (meet_eq s s' p q l rest Hat Hw Hq Hqp) as [_ ->]; [unfold succeed; by rewrite Hq|].
    split_and!; [count_eq|done|intros; count_eq].
  - destruct (holder s); [done|]. injection Hs as <-. split_and!; [count_eq|done|intros; count_eq].
  - destruct (holds k s); injection Hs as <-; (split_and!; [count_eq|done|intros; count_eq]).
  - destruct (doing (procs s (Rank q))); injection Hs as <-; (split_and!; [count_eq|done|intros; count_eq]).
  - assert (Hq : ∀ r, is_wait r (WaitPid q) → r = q) by (intros r; simpl; intros ?%bool_decide_unpack; done).
    assert (Hself : ¬ ∀ r, is_wait r (WaitPid q) = false) by (intros H; specialize (H q); simpl in H; by rewrite bool_decide_eq_true_2 in H).
    destruct (doing (procs s (Rank q))) as [| | | |[c|]] eqn:E; try done.
    + destruct (decide (c = 0)) as [->|Hc].
      * injection Hs as <-. split_and!; [count_eq| |done]. intros r ->%Hq. by exists (ExitedWith 0).
      * assert (s' = set_failures (failures s + 1) (advance w s)) as -> by (by destruct c; injection Hs).
        split_and!; [count_eq| |done]. intros r ->%Hq. exists (ExitedWith c). split; [done|]. count_eq.
    + injection Hs as <-. split_and!; [count_eq| |done]. intros r ->%Hq. exists KilledBySignal. split; [done|]. count_eq.
Qed.

(** What a success adds to the steps of a process. *)
Lemma done_succeed s s' w i rest v : at_ok s → todo (procs s w) = i :: rest → succeed w i s = Some s' →
  done_of v s' = done_of v s ∨ w = v ∧ done_of v s' = done_of v s ++ [i] ∨ (∃ q, v = Rank q) ∧ doing (procs s v) = AtBarrier.
Proof.
  intros Hat Hw Hs.
  assert (Hadv : ∀ s', done_steps s' = done_steps (advance w s) →
    done_of v s' = done_of v s ∨ w = v ∧ done_of v s' = done_of v s ++ [i] ∨ (∃ q, v = Rank q) ∧ doing (procs s v) = AtBarrier).
  { intros s1 H1. unfold done_of. rewrite H1, (done_advance _ _ _ _ Hw), steps_of_snoc.
    destruct (decide (w = v)); [by right; left|left; by rewrite app_nil_r]. }
  destruct i as [c code|l|code| | |k code| | |q|q|e|q|q|code|]; cbn [succeed] in Hs; try (injection Hs as <-; by apply Hadv).
  - destruct w as [|p]; [done|]. destruct (arrived s) as [q|] eqn:Hq; [|injection Hs as <-; by left].
    destruct (decide (q = p)) as [->|Hqp]; [by rewrite bool_decide_eq_true_2 in Hs|].
    destruct (meet_eq s s' p q l rest Hat Hw Hq Hqp) as [Hn ->]; [unfold succeed; by rewrite Hq|].
    apply (at_arrived _ Hat) in Hq. destruct (decide (v = Rank q)) as [->|Hv]; [right; right; by eauto|].
    set (s1 := set_arrived None (advance (Rank p) s)).
    assert (H1 : done_of v (advance (Rank q) s1) = done_of v s1).
    { unfold done_of, advance. destruct (todo (procs s1 (Rank q))); [done|]. simpl.
      by rewrite steps_of_snoc, decide_False, app_nil_r by congruence. }
    rewrite H1. by apply Hadv.
  - destruct (holder s); [done|]. injection Hs as <-. by apply Hadv.
  - destruct (holds k s); injection Hs as <-; [by apply Hadv|by left].
  - destruct (doing (procs s (Rank q))); injection Hs as <-; by apply Hadv.
  - destruct (doing (procs s (Rank q))) as [| | | |[[]|]]; try done; injection Hs as <-; by apply Hadv.
Qed.

Lemma parent_done_succeed s s' w i rest : at_ok s → todo (procs s w) = i :: rest → succeed w i s = Some s' →
  done_of Parent s' = done_of Parent s ∨ w = Parent ∧ done_of Parent s' = done_of Parent s ++ [i].
Proof. intros Hat Hw Hs. destruct (done_succeed s s' w i rest Parent Hat Hw Hs) as [?|[?|[[] ?]]]; auto; done. Qed.

(** Who ends with a code. *)
Lemma succeed_ends s s' w i rest v c : at_ok s → todo (procs s w) = i :: rest → doing (procs s w) = Running →
  succeed w i s = Some s' → doing (procs s' v) = Dead (ExitedWith c) →
  doing (procs s v) = Dead (ExitedWith c) ∨ v = w ∧ todo (procs s' w) = rest ∧ failures s' = failures s ∧
    (i = Return c ∨ i = ReturnVerdict ∧ (c = 0 → failures s = 0)).
Proof.
  intros Hat Hw Hr Hs Hd.
  assert (Ha : doing (procs (advance w s) v) = Dead (ExitedWith c) → doing (procs s v) = Dead (ExitedWith c)).
  { rewrite (doing_advance _ _ _ _ _ Hw). by destruct (decide (v = w)). }
  destruct i as [k code|l|code| | |k code| | |q|q|e|q|q|code|]; cbn [succeed] in Hs; try (injection Hs as <-; left; by apply Ha).
  - destruct w as [|p]; [done|]. destruct (arrived s) as [q|] eqn:Hq.
    + destruct (decide (q = p)) as [->|Hqp]; [by rewrite bool_decide_eq_true_2 in Hs|].
      destruct (meet_eq s s' p q l rest Hat Hw Hq Hqp) as [_ ->]; [unfold succeed; by rewrite Hq|]. left. apply Ha.
      unfold advance in Hd at 1. destruct (todo (procs (set_arrived None (advance (Rank p) s)) (Rank q))); [exact Hd|].
      simpl in Hd. destruct (decide (v = Rank q)) as [->|Hv]; [by rewrite fn_lookup_insert in Hd|by rewrite fn_lookup_insert_ne in Hd].
    + injection Hs as <-. left. change (procs (set_arrived ?a ?x)) with (procs x) in Hd. rewrite doing_set_doing in Hd.
      by destruct (decide (v = Rank p)).
  - destruct (holder s); [done|]. injection Hs as <-. left. by apply Ha.
  - injection Hs as <-. left. apply Ha. rewrite doing_wake_all in Hd. by destruct (doing (procs (advance w s) v)).
  - destruct (holds k s); injection Hs as <-; left; [by apply Ha|]. change (procs (set_holder ?a ?x)) with (procs x) in Hd.
    rewrite doing_set_doing in Hd. by destruct (decide (v = w)).
  - injection Hs as <-. left. rewrite doing_set_doing in Hd. destruct (decide (v = Rank q)); [done|by apply Ha].
  - left. destruct (doing (procs s (Rank q))); injection Hs as <-; try (by apply Ha); rewrite doing_set_doing in Hd;
      (destruct (decide (v = Rank q)); [done|by apply Ha]).
  - left. destruct (doing (procs s (Rank q))) as [| | | |[[]|]]; try done; injection Hs as <-; by apply Ha.
  - injection Hs as <-. rewrite doing_set_doing in Hd. destruct (decide (v = w)) as [->|_]; [|left; by apply Ha].
    injection Hd as ->. right. rewrite todo_set_doing, (todo_advance _ _ _ _ _ Hw), decide_True by done.
    split_and!; auto; count_eq.
  - injection Hs as <-. rewrite doing_set_doing in Hd. destruct (decide (v = w)) as [->|_]; [|left; by apply Ha].
    injection Hd as <-. right. rewrite todo_set_doing, (todo_advance _ _ _ _ _ Hw), decide_True by done.
    split_and!; auto; [count_eq|]. right. split; [done|]. by case_bool_decide.
Qed.

Lemma other_ends s s' w v c : inv s → other_step s s' w → doing (procs s' v) = Dead (ExitedWith c) →
  doing (procs s v) = Dead (ExitedWith c) ∨ c ≠ 0.
Proof.
  intros Hi Ho Hd. destruct (decide (v = w)) as [->|Hne]; [|left; by rewrite (other_doing _ _ _ _ Ho) in Hd].
  destruct Ho as [i rest code Ht Hx ->| ->| ->].
  - rewrite doing_set_doing, decide_True in Hd by done. injection Hd as ->. right. by eapply exit_cases.
  - simpl in Hd. by rewrite fn_lookup_insert in Hd.
  - change (procs (set_holder ?a ?x)) with (procs x) in Hd. by rewrite doing_set_doing, decide_True in Hd.
Qed.

(** An empty program stays empty, except that the parent may turn to its abort. *)
Lemma empty_stays s s' r : moves s s' → todo (procs s (Rank r)) = [] → todo (procs s' (Rank r)) = [].
Proof.
  intros [_ H _|v j rs Hj _ H _ _ _ _ _|q l l' r1 r2 H1 H2 _ H _|e rs _ _ H _] He; rewrite H.
  - done.
  - destruct (decide (Rank r = v)) as [<-|]; [congruence|done].
  - destruct (decide (Rank r = Rank q)) as [[= <-]|]; [congruence|]. destruct (decide (Rank r = Rank (negb q))) as [[= ->]|]; [congruence|done].
  - done.
Qed.

Lemma no_wait_rank s r i rest : inv s → todo (procs s (Rank r)) = i :: rest → ∀ q, is_wait q i = false.
Proof.
  intros (Hp & _ & _) Ht q. pose proof (pr_rank _ _ _ Hp r) as H. rewrite Ht in H.
  destruct (child_ends _ _ _ _ H) as (_ & _ & ? & ? & _). by destruct q.
Qed.

Lemma other_same s s' w : other_step s s' w → failures s' = failures s ∧ done_steps s' = done_steps s.
Proof. by intros [i rest code _ _ ->| ->| ->]. Qed.

Lemma ended_rank s s' w c r : inv s → ended_ok s → exec w c s = Some s' →
  doing (procs s' (Rank r)) = Dead (ExitedWith 0) → todo (procs s' (Rank r)) = [].
Proof.
  intros Hi He Hs Hd. pose proof Hi as (Hp & Ha & _).
  assert (Hm : moves s s') by (apply (exec_moves s s' w c Ha); [intros q i; apply (rank_no_external pid mode s q i Hp)|done]).
  assert (Hold : doing (procs s (Rank r)) = Dead (ExitedWith 0) → todo (procs s' (Rank r)) = [])
    by (intros Hd0; eapply empty_stays, (en_rank _ He); done).
  destruct (exec_cases _ _ _ _ Hs) as (_ & _ & [(i & rest & Hw & Ht & Hsu)|Ho]).
  - destruct (succeed_ends s s' w i rest (Rank r) 0 Ha Ht Hw Hsu Hd) as [H0|(<- & Htd & _ & Hret)]; [by apply Hold|].
    rewrite Htd. pose proof (pr_rank _ _ _ Hp r) as H. rewrite Ht in H. destruct (child_ends _ _ _ _ H) as (_ & Hv & _ & _ & Hend).
    destruct Hret as [->|[-> _]]; [by eapply Hend|done].
  - destruct (other_ends s s' w (Rank r) 0 Hi Ho Hd) as [H0|]; [by apply Hold|done].
Qed.

Lemma ended_wait s s' w c r : inv s → ended_ok s → exec w c s = Some s' → existsb (is_wait r) (done_of Parent s') →
  ∃ st, doing (procs s' (Rank r)) = Dead st ∧ (failures s' = 0 → st = ExitedWith 0).
Proof.
  intros Hi He Hs Hd. pose proof Hi as (Hp & Ha & _). pose proof (en_count _ He) as Hc.
  assert (Hold : failures s ≤ failures s' → existsb (is_wait r) (done_of Parent s) →
    ∃ st, doing (procs s' (Rank r)) = Dead st ∧ (failures s' = 0 → st = ExitedWith 0)).
  { intros Hle Hw. destruct (en_wait _ He r Hw) as (st & Hst & H0). exists st. split; [by eapply dead_stays|]. intros Hf. apply H0. lia. }
  destruct (exec_cases _ _ _ _ Hs) as (_ & _ & [(i & rest & Hw & Ht & Hsu)|Ho]).
  - destruct (failures_succeed s s' w i rest Ha Ht Hsu) as (Hle & Hwt & _).
    destruct (parent_done_succeed s s' w i rest Ha Ht Hsu) as [Heq|[-> Heq]]; rewrite Heq in Hd; [by apply Hold|].
    rewrite existsb_snoc in Hd. apply orb_True in Hd as [Hd|Hd]; [by apply Hold|].
    destruct (Hwt r Hd) as (st & Hst & H0). exists st. split; [by eapply dead_stays|]. intros Hf. apply H0. lia.
  - destruct (other_same _ _ _ Ho) as [Hf Hdn]. unfold done_of in Hd. rewrite Hdn in Hd. apply Hold; [lia|done].
Qed.

Lemma ended_parent s s' w c : inv s → ended_ok s → exec w c s = Some s' → doing (procs s' Parent) = Dead (ExitedWith 0) →
  failures s' = 0 ∧ ∀ r, existsb (is_wait r) (done_of Parent s').
Proof.
  intros Hi He Hs Hd. pose proof Hi as (Hp & Ha & _).
  destruct (exec_cases _ _ _ _ Hs) as (_ & Hfr & [(i & rest & Hw & Ht & Hsu)|Ho]).
  - destruct (succeed_ends s s' w i rest Parent 0 Ha Ht Hw Hsu Hd) as [H0|(<- & _ & Hf & Hret)].
    + assert (Hne : w ≠ Parent) by (intros ->; congruence). destruct w as [|q]; [done|].
      destruct (failures_succeed s s' _ i rest Ha Ht Hsu) as (_ & _ & ->); [|by eapply no_wait_rank].
      destruct (parent_done_succeed s s' _ i rest Ha Ht Hsu) as [->|[? _]]; [by apply (en_parent _ He)|done].
    + assert (Hmain : i = ReturnVerdict ∧ ∀ r, existsb (is_wait r) (done_of Parent s)).
      { destruct (pr_parent _ _ _ Hp) as [H|(l & e & rs & pre & _ & _ & H)]; rewrite Ht in H.
        - destruct (main_ends _ _ _ H) as (_ & N & V). destruct Hret as [->|[-> _]]; [by destruct (N 0)|]. split; [done|]. by apply V.
        - destruct (abort_ends _ _ _ H) as (N & _ & V). destruct Hret as [->|[-> _]]; [by destruct (V 0)|done]. }
      destruct Hmain as [-> Hwt]. destruct Hret as [?|[_ H0]]; [done|]. split; [rewrite Hf; by apply H0|].
      intros r. specialize (Hwt r). destruct (parent_done_succeed s s' _ _ rest Ha Ht Hsu) as [->|[_ ->]]; [done|].
      rewrite existsb_snoc. apply orb_True. by left.
  - destruct (other_ends s s' w Parent 0 Hi Ho Hd) as [H0|]; [|done]. destruct (other_same _ _ _ Ho) as [-> Hdn].
    unfold done_of. rewrite Hdn. by apply (en_parent _ He).
Qed.

Lemma reachable_ended s : reachable pid mode s → ended_ok s.
Proof.
  intros Hr. induction Hr as [|s w c s' Hr IH Hs]; [by split|]. pose proof (reachable_inv _ _ _ Hr) as Hi. split.
  - intros r. by eapply ended_rank.
  - intros r. by eapply ended_wait.
  - destruct (exec_cases _ _ _ _ Hs) as (_ & _ & [(i & rest & Hw & Ht & Hsu)|Ho]).
    + destruct Hi as (_ & Ha & _). destruct (failures_succeed s s' w i rest Ha Ht Hsu) as (Hle & _). pose proof (en_count _ IH). lia.
    + destruct (other_same _ _ _ Ho) as [-> _]. apply IH.
  - by eapply ended_parent.
Qed.

(** C21: a passed test means that everything was done. If the parent ends with 0, then under whatever schedule both
    ranks have ended with 0 and have done every step of their program in order: both checks of the all-reduce, the
    preparation, the restore and the barriers between them. *)
Theorem two_proc_verdict s : reachable pid mode s → doing (procs s Parent) = Dead (ExitedWith 0) →
  ∀ r, doing (procs s (Rank r)) = Dead (ExitedWith 0) ∧ done_of (Rank r) s = child_main pid mode r.
Proof.
  intros Hr Hd r. pose proof (reachable_ended s Hr) as He. destruct (en_parent _ He Hd) as [Hf Hw].
  destruct (en_wait _ He r (Hw r)) as (st & Hst & H0). rewrite (H0 Hf) in Hst. split; [done|].
  pose proof (reachable_inv _ _ _ Hr) as (Hp & _ & _). pose proof (pr_rank _ _ _ Hp r) as H.
  by rewrite (en_rank _ He r Hst), app_nil_r in H.
Qed.

(** ** A rank that dies early *)

Definition step (s s' : system) : Prop := ∃ w c, exec w c s = Some s'.

Lemma dead_done s s' r st : inv s → step s s' → doing (procs s (Rank r)) = Dead st → done_of (Rank r) s' = done_of (Rank r) s.
Proof.
  intros (Hp & Ha & _) (w & c & Hs) Hd. destruct (exec_cases _ _ _ _ Hs) as (_ & Hfr & [(i & rest & Hw & Ht & Hsu)|Ho]).
  - destruct (done_succeed s s' w i rest (Rank r) Ha Ht Hsu) as [H|[[-> _]|[_ H]]]; [done|congruence..].
  - destruct (other_same _ _ _ Ho) as [_ H]. unfold done_of. by rewrite H.
Qed.

(** The parent is still before its last step. *)
Lemma parent_not_through s r : mode_uses_external_checkpoint mode → inv s → ended_ok s →
  existsb is_inc (done_of (Rank r) s) = false → doing (procs s Parent) ≠ Dead (ExitedWith 0) ∧ ¬ aborted mode s ∧ existsb is_both (done_of Parent s) = false.
Proof.
  intros Hm (Hp & Ha & Hu) He Hi.
  assert (Hb : existsb is_both (done_of Parent s) = false).
  { destruct (existsb is_both (done_of Parent s)) eqn:E; [|done].
    pose proof (prepared_both pid mode s r Hp) as H. rewrite E, Hi in H. by destruct (H I). }
  assert (Hna : ¬ aborted mode s) by (intros Hab; destruct (aborted_held _ _ _ Hp Hab) as [H _]; by rewrite Hb in H).
  split_and!; [|done|done]. intros Hd. destruct (en_parent _ He Hd) as [_ Hw]. specialize (Hw false).
  destruct (pr_parent _ _ _ Hp) as [H|]; [|done].
  assert (Hc := splits_sound (λ l _, implb (existsb (is_wait false) l) (existsb is_both l)) (main_steps mode) _ _
    ltac:(destruct mode; try done; vm_compute; reflexivity) H). cbv beta in Hc. rewrite Hb in Hc.
  by destruct (existsb (is_wait false) (done_of Parent s)).
Qed.

(** C34: the example hangs when a rank dies before it has prepared. In an external mode, once a rank has ended (by a failed
    call or a signal) without having counted itself, the parent never gets past its wait for the ranks: in every later state
    it has not come to the end of that wait, has run no [cuda-checkpoint], has not aborted, and has not ended with 0. *)
Theorem two_proc_hangs s s' r st : mode_uses_external_checkpoint mode → reachable pid mode s →
  doing (procs s (Rank r)) = Dead st → existsb is_inc (done_of (Rank r) s) = false → rtc step s s' →
  existsb is_both (done_of Parent s') = false ∧ existsb is_external (done_of Parent s') = false ∧
  ¬ aborted mode s' ∧ doing (procs s' Parent) ≠ Dead (ExitedWith 0).
Proof.
  intros Hm Hr Hd Hi Hst.
  assert (Haux : reachable pid mode s' ∧ existsb is_inc (done_of (Rank r) s') = false).
  { clear Hm. revert Hr Hd Hi. induction Hst as [s|s s1 s' Hs _ IH]; [done|]. intros Hr Hd Hi.
    pose proof (reachable_inv _ _ _ Hr) as Hinv. rewrite <- (dead_done s s1 r st Hinv Hs Hd) in Hi.
    pose proof Hs as (w & c & Hex). apply IH; [by eapply reach_step|by eapply dead_stays|done]. }
  destruct Haux as [Hr' Hi']. pose proof (reachable_inv _ _ _ Hr') as Hinv.
  destruct (parent_not_through s' r Hm Hinv (reachable_ended s' Hr') Hi') as (H1 & H2 & H3). split_and!; [done| |done|done].
  destruct Hinv as (Hp & _ & _). destruct (pr_parent _ _ _ Hp) as [H|]; [|done].
  assert (Hc := splits_sound (λ l _, implb (existsb is_external l) (existsb is_both l)) (main_steps mode) _ _
    ltac:(destruct mode; try done; vm_compute; reflexivity) H). cbv beta in Hc. rewrite H3 in Hc.
  by destruct (existsb is_external (done_of Parent s')).
Qed.
End Verdict.

(** The passing run in the mode without external phase. *)
Lemma two_proc_verdict_witness :
  let s := play 200 (start 42 Gcr) in
  doing (procs s Parent) = Dead (ExitedWith 0) ∧
  ∀ r, doing (procs s (Rank r)) = Dead (ExitedWith 0) ∧ done_of (Rank r) s = child_main 42 Gcr r.
Proof.
  intros s. assert (Hd : doing (procs s Parent) = Dead (ExitedWith 0)) by (vm_compute; reflexivity). split; [exact Hd|].
  apply (two_proc_verdict 42 Gcr s); [apply play_reachable, reach_start|exact Hd].
Defined.

(** Rank 0 fails to set its device right after the forks; the others go on as far as they can. *)
Definition early_death : list (who * choice) := repeat (Parent, Go) 5 ++ [(Rank false, Fails)].
Definition after_death : system := default (start 42 GcrCheckpointAction) (run early_death (start 42 GcrCheckpointAction)).

Lemma two_proc_hangs_witness :
  let s' := play 200 after_death in
  doing (procs s' Parent) = Sleeping false ∧
  existsb is_both (done_of Parent s') = false ∧ existsb is_external (done_of Parent s') = false ∧
  ¬ aborted GcrCheckpointAction s' ∧ doing (procs s' Parent) ≠ Dead (ExitedWith 0).
Proof.
  intros s'. split; [vm_compute; reflexivity|].
  apply (two_proc_hangs 42 GcrCheckpointAction after_death s' false (ExitedWith 10)).
  - exact I.
  - apply run_default_reachable, reach_start.
  - vm_compute. reflexivity.
  - vm_compute. reflexivity.
  - apply (rtc_subrel _ _ _ _ (λ x y '(ex_intro _ w H), ex_intro _ w (ex_intro _ Go H))), play_rtc.
Defined.
