(* ===== verification/TwoProcLive.v ===== *)
(** The two-process example: without failures it passes.

    [go] is a step in which nothing fails and nobody wakes up spuriously.  [mu] decreases with every
    such step; [live_ok] says who can hold the mutex and why a sleeper sleeps, so that some process
    can always go on until the parent has its verdict. *)
From stdpp Require Import functions.
From S2P Require Import Prelude NcclPlugin TwoProc TwoProcFacts TwoProcVerdict.
Open Scope Z_scope.

Definition go (s s' : system) : Prop := ∃ w, exec w Go s = Some s'.

(** ** Steps that succeed, sorted *)

(** Steps that only move their own process. *)
Definition is_plain (i : instr) : bool :=
  match i with BarrierWait _ | CondBroadcast | Fork _ | Kill _ | Return _ | ReturnVerdict => false | _ => true end.

Definition holder_after (i : instr) (w : who) (h : option who) : option who :=
  match i with MutexLock _ => Some w | MutexUnlock => None | _ => h end.

(** Why a plain step could be done. *)
Definition allowed (i : instr) (s : system) : Prop :=
  match i with
  | MutexLock _ => holder s = None
  | WaitUntil c _ => holds c s
  | WaitPid r => ∃ st, doing (procs s (Rank r)) = Dead st
  | _ => True
  end.

Record plain (s s' : system) (w : who) (i : instr) : Prop := {
  pl_procs : procs s' = procs (advance w s);
  pl_done : done_steps s' = done_steps (advance w s);
  pl_holder : holder s' = holder_after i w (holder s);
  pl_allowed : allowed i s;
  pl_holds c : holds c s' = holds c s ∨ i = IncPrepared ∨ i = SetProceed;
  pl_failures : failures s' = failures s ∨ ∃ r st, i = WaitPid r ∧ doing (procs s (Rank r)) = Dead st ∧ st ≠ ExitedWith 0
}.

Inductive go_step (w : who) (s s' : system) : Prop :=
  | gs_plain i rest : todo (procs s w) = i :: rest → doing (procs s w) = Running → is_plain i → plain s s' w i → go_step w s s'
  | gs_broadcast rest : todo (procs s w) = CondBroadcast :: rest → doing (procs s w) = Running → s' = wake_all (advance w s) → go_step w s s'
  | gs_fork r rest : todo (procs s w) = Fork r :: rest → doing (procs s w) = Running →
      s' = set_doing (Rank r) Running (advance w s) → go_step w s s'
  | gs_kill r rest : todo (procs s w) = Kill r :: rest → doing (procs s w) = Running →
      s' = match doing (procs s (Rank r)) with Dead _ => advance w s | _ => set_doing (Rank r) (Dead KilledBySignal) (advance w s) end →
      go_step w s s'
  | gs_return i rest code : todo (procs s w) = i :: rest → doing (procs s w) = Running →
      (i = Return code ∨ i = ReturnVerdict ∧ (failures s = 0 → code = 0)) →
      s' = set_doing w (Dead (ExitedWith code)) (advance w s) → go_step w s s'
  | gs_enter r l rest : w = Rank r → todo (procs s w) = BarrierWait l :: rest → doing (procs s w) = Running → arrived s = None →
      s' = set_arrived (Some r) (set_doing w AtBarrier s) → go_step w s s'
  | gs_meet r l l' rest rest' : w = Rank r → todo (procs s w) = BarrierWait l :: rest → doing (procs s w) = Running →
      doing (procs s (Rank (negb r))) = AtBarrier → todo (procs s (Rank (negb r))) = BarrierWait l' :: rest' →
      s' = advance (Rank (negb r)) (set_arrived None (advance w s)) → go_step w s s'
  | gs_sleep c code rest : todo (procs s w) = WaitUntil c code :: rest → doing (procs s w) = Running → holds c s = false →
      s' = set_holder None (set_doing w (Sleeping false) s) → go_step w s s'
  | gs_wake : doing (procs s w) = Sleeping true → holder s = None → s' = set_holder (Some w) (set_doing w Running s) → go_step w s s'.

Lemma holder_advance w s : holder (advance w s) = holder s.
Proof. unfold advance. by destruct (todo (procs s w)). Qed.

Lemma holds_advance c w s : holds c (advance w s) = holds c s.
Proof. unfold advance. by destruct (todo (procs s w)). Qed.

(** A plain step that only takes its own process on. *)
Lemma plain_advance s w i : holder_after i w (holder s) = holder s → allowed i s → plain s (advance w s) w i.
Proof.
  intros Hh Ha. split; [done|done|by rewrite Hh, holder_advance|done|intros c; left; apply holds_advance|left; apply failures_advance].
Qed.
Lemma plain_same s s0 s' w i : plain s s0 w i → procs s' = procs s0 → done_steps s' = done_steps s0 → holder s' = holder_after i w (holder s) →
  (∀ c, holds c s' = holds c s0 ∨ i = IncPrepared ∨ i = SetProceed) → failures s' = failures s0 → plain s s' w i.
Proof.
  intros [H1 H0 H2 H3 H4 H5] Hp Hd Hh Hc Hf. split; [congruence|congruence|done|done| |by rewrite Hf].
  intros c. destruct (Hc c) as [->|]; [apply H4|by right].
Qed.

Lemma go_sorted w s s' : at_ok s → exec w Go s = Some s' → go_step w s s'.
Proof.
  intros Hat Hs. unfold exec in Hs. destruct (doing (procs s w)) as [| | |woken|] eqn:Hr; try done.
  2: { destruct (holder s) eqn:Hh; [done|]. destruct woken; [|done]. injection Hs as <-. by apply gs_wake. }
  destruct (todo (procs s w)) as [|i rest] eqn:Hw; [done|]. pose proof (holder_advance w s) as Hh.
  assert (Hpl : is_plain i → plain s s' w i → go_step w s s') by (intros; by eapply gs_plain).
  destruct i as [k code|l|code| | |k code| | |q|q|e|q|q|code|]; cbn [succeed] in Hs.
  - injection Hs as <-. by apply Hpl, plain_advance.
  - destruct w as [|p]; [done|]. destruct (arrived s) as [q|] eqn:Hq.
    + destruct (decide (q = p)) as [->|Hqp]; [by rewrite bool_decide_eq_true_2 in Hs|].
      destruct (meet_eq s s' p q l rest Hat Hw Hq Hqp) as [-> ->]; [unfold succeed; by rewrite Hq|].
      apply (at_arrived _ Hat) in Hq. destruct (at_head _ Hat _ Hq) as (l' & rest' & Hl'). by eapply gs_meet.
    + injection Hs as <-. by eapply gs_enter.
  - destruct (holder s) eqn:E; [done|]. injection Hs as <-. apply Hpl; [done|].
    split; [done|done|done|done|intros c; left; apply (holds_advance c w s)|left; apply (failures_advance w s)].
  - injection Hs as <-. apply Hpl; [done|].
    split; [done|done|done|done|intros c; left; apply (holds_advance c w s)|left; apply (failures_advance w s)].
  - injection Hs as <-. by eapply gs_broadcast.
  - destruct (holds k s) eqn:E; injection Hs as <-; [|by eapply gs_sleep]. apply Hpl, plain_advance; [done|done|]. simpl. by rewrite E.
  - injection Hs as <-. apply Hpl; [done|]. eapply plain_same; [by apply plain_advance|done|done|done|by auto|done].
  - injection Hs as <-. apply Hpl; [done|]. eapply plain_same; [by apply plain_advance|done|done|done|by auto|done].
  - injection Hs as <-. apply Hpl; [done|]. eapply plain_same; [by apply plain_advance|done|done|done|by left|done].
  - injection Hs as <-. by eapply gs_fork.
  - injection Hs as <-. by apply Hpl, plain_advance.
  - injection Hs as <-. by eapply gs_kill.
  - assert (Hgo : ∀ st, doing (procs s (Rank q)) = Dead st → (s' = advance w s ∨
      st ≠ ExitedWith 0 ∧ s' = set_failures (failures s + 1) (advance w s)) → go_step w s s').
    { intros st E [->|[Hst ->]]; apply Hpl; try done; [apply plain_advance; [done|by exists st]|].
      split; [done|done|done|by exists st|intros c; left; apply (holds_advance c w s)|right; by exists q, st]. }
    destruct (doing (procs s (Rank q))) as [| | | |st] eqn:E; try done. apply (Hgo st eq_refl).
    destruct st as [[]|]; injection Hs as <-; auto.
  - injection Hs as <-. eapply gs_return; eauto.
  - injection Hs as <-. eapply gs_return; [exact Hw|done| |reflexivity]. right. split; [done|]. intros H. by rewrite bool_decide_eq_true_2.
Qed.

(** ** Every run is finite *)

Definition act (a : activity) : nat := match a with Running => 2 | AtBarrier => 1 | Sleeping true => 3 | _ => 0 end.
Definition weight (p : process) : nat := 10 * length (todo p) + act (doing p).
Definition mu (s : system) : nat := weight (procs s Parent) + weight (procs s (Rank false)) + weight (procs s (Rank true)).

Lemma mu_lt s s' w k : (∀ v, v ≠ w → weight (procs s' v) ≤ weight (procs s v) + k)%nat →
  (weight (procs s' w) + 2 * k < weight (procs s w))%nat → (mu s' < mu s)%nat.
Proof.
  intros Ho Hw. unfold mu. pose proof (Ho Parent) as H1. pose proof (Ho (Rank false)) as H2. pose proof (Ho (Rank true)) as H3.
  destruct w as [|[]]; [specialize (H2 ltac:(done)); specialize (H3 ltac:(done))|specialize (H1 ltac:(done)); specialize (H2 ltac:(done))|
    specialize (H1 ltac:(done)); specialize (H3 ltac:(done))]; lia.
Qed.

Lemma weight_advance w s i rest v : todo (procs s w) = i :: rest → doing (procs s w) = Running →
  (weight (procs (advance w s) v) = if decide (v = w) then weight (procs s v) - 10 else weight (procs s v))%nat.
Proof.
  intros Hw Hr. unfold weight. rewrite (todo_advance _ _ _ _ _ Hw), (doing_advance _ _ _ _ _ Hw).
  destruct (decide (v = w)) as [->|]; [|done]. rewrite Hw, Hr. simpl. lia.
Qed.
Lemma weight_set_doing w a s v : weight (procs (set_doing w a s) v) =
  if decide (v = w) then (10 * length (todo (procs s v)) + act a)%nat else weight (procs s v).
Proof. unfold weight. rewrite todo_set_doing, doing_set_doing. by destruct (decide (v = w)). Qed.
Lemma weight_wake s v : (weight (procs (wake_all s) v) ≤ weight (procs s v) + 3 ∧
  (doing (procs s v) = Running → weight (procs (wake_all s) v) = weight (procs s v)))%nat.
Proof.
  unfold weight. rewrite todo_wake_all, doing_wake_all. destruct (doing (procs s v)) as [| | |[]|]; simpl; split; try lia; done.
Qed.

Lemma act_bound a : (act a ≤ 3)%nat.
Proof. by destruct a as [| | |[]|]; simpl; lia. Qed.

Lemma weight_running w s i rest : todo (procs s w) = i :: rest → doing (procs s w) = Running → (12 ≤ weight (procs s w))%nat.
Proof. intros Hw Hr. unfold weight. rewrite Hw, Hr. simpl. lia. Qed.

(** A process advances, and each other one gains at most 3. *)
Lemma mu_advance s s' w i rest : todo (procs s w) = i :: rest → doing (procs s w) = Running →
  (∀ v, v ≠ w → weight (procs s' v) ≤ weight (procs (advance w s) v) + 3)%nat →
  (weight (procs s' w) ≤ weight (procs (advance w s) w))%nat → (mu s' < mu s)%nat.
Proof.
  intros Hw Hr Ho Hs. pose proof (weight_running _ _ _ _ Hw Hr). apply (mu_lt s s' w 3).
  - intros v Hv. specialize (Ho v Hv). by rewrite (weight_advance _ _ _ _ _ Hw Hr), decide_False in Ho.
  - rewrite (weight_advance _ _ _ _ _ Hw Hr), decide_True in Hs by done. lia.
Qed.

(** Only the activity of one process changes. *)
Lemma mu_doing s w a : (act a < act (doing (procs s w)))%nat → (mu (set_doing w a s) < mu s)%nat.
Proof.
  intros Ha. apply (mu_lt s _ w 0); [intros v Hv|]; rewrite weight_set_doing; [by rewrite decide_False by done; lia|].
  rewrite decide_True by done. unfold weight. lia.
Qed.

Lemma go_mu w s s' : at_ok s → exec w Go s = Some s' → (mu s' < mu s)%nat.
Proof.
  intros Hat Hs. destruct (go_sorted w s s' Hat Hs)
    as [i rest Hw Hr _ [Hp _ _ _ _ _]|rest Hw Hr ->|r rest Hw Hr ->|r rest Hw Hr ->|i rest code Hw Hr _ ->|r l rest -> Hw Hr _ ->
       |r l l' rest rest' -> Hw Hr Hq Hq' ->|c code rest Hw Hr _ ->|Hr _ ->];
    try (pose proof (λ v, weight_advance w s _ _ v Hw Hr) as Hadv).
  - apply (mu_advance s s' w i rest Hw Hr); [intros v _|]; rewrite Hp; lia.
  - apply (mu_advance s _ w _ rest Hw Hr); [intros v _; by apply weight_wake|].
    destruct (weight_wake (advance w s) w) as [_ H]. rewrite H; [lia|]. by rewrite (doing_advance _ _ _ _ _ Hw), decide_True.
  - apply (mu_advance s _ w _ rest Hw Hr); [intros v _|]; rewrite weight_set_doing; unfold weight;
      (destruct (decide (_ = Rank r)) as [E|]; [|lia]); [simpl; lia|].
    rewrite (doing_advance _ _ _ _ _ Hw), decide_True by done. lia.
  - apply (mu_advance s _ w _ rest Hw Hr); [intros v _|]; destruct (doing (procs s (Rank r))); try lia;
      rewrite weight_set_doing; unfold weight; (destruct (decide (_ = Rank r)); simpl; lia).
  - apply (mu_advance s _ w _ rest Hw Hr); [intros v Hv|]; rewrite weight_set_doing;
      [rewrite decide_False by done; lia|rewrite decide_True by done; unfold weight; simpl; lia].
  - apply mu_doing. rewrite Hr. simpl. lia.
  - set (s1 := set_arrived None (advance (Rank r) s)).
    assert (H1 : todo (procs s1 (Rank (negb r))) = BarrierWait l' :: rest')
      by (unfold s1; simpl; rewrite (todo_advance _ _ _ _ _ Hw), decide_False; [done|apply rank_neq]).
    assert (Hle : ∀ v, (weight (procs (advance (Rank (negb r)) s1) v) ≤ weight (procs (advance (Rank r) s) v))%nat).
    { intros v. unfold weight. rewrite (todo_advance _ _ _ _ _ H1), (doing_advance _ _ _ _ _ H1).
      destruct (decide (v = Rank (negb r))) as [->|]; [|unfold s1; simpl; lia].
      change (procs (advance (Rank r) s)) with (procs s1). rewrite H1. simpl. lia. }
    apply (mu_advance s _ (Rank r) _ rest Hw Hr); [intros v _; specialize (Hle v); lia|apply Hle].
  - apply mu_doing. rewrite Hr. simpl. lia.
  - apply mu_doing. rewrite Hr. simpl. lia.
Qed.

(** ** Who waits for what *)

(** Steps made with the mutex held. *)
Definition critical (i : instr) : bool :=
  match i with IncPrepared | SetProceed | CondBroadcast | WaitUntil _ _ | MutexUnlock => true | _ => false end.
Definition first (p : instr → bool) (l : list instr) : bool := match l with i :: _ => p i | [] => false end.
Definition is_broadcast (i : instr) : bool := match i with CondBroadcast => true | _ => false end.

(** What follows a step. *)
Definition next_ok (i : instr) (rest : list instr) : bool :=
  match i with
  | IncPrepared | SetProceed => first is_broadcast rest
  | MutexLock _ | CondBroadcast | WaitUntil _ _ => first critical rest
  | Return c => (c =? 0) && match rest with [] => true | _ => false end
  | ReturnVerdict => match rest with [] => true | _ => false end
  | _ => match rest with [] => false | _ => true end
  end.

(** Someone is about to wake the sleepers. *)
Definition pending (s : system) : Prop := ∃ v rest, todo (procs s v) = CondBroadcast :: rest ∧ doing (procs s v) = Running.

Definition act_ok (s : system) (v : who) : Prop :=
  match doing (procs s v) with
  | Dead st => st = ExitedWith 0 ∧ todo (procs s v) = []
  | Running => todo (procs s v) ≠ []
  | Sleeping b => ∃ c code rest, todo (procs s v) = WaitUntil c code :: rest ∧ (b = false → holds c s = false ∨ pending s)
  | AtBarrier => v ≠ Parent
  | Unborn => todo (procs s v) ≠ [] ∧ ∃ r, v = Rank r ∧ existsb (is_fork r) (todo (procs s Parent))
  end.

Section Live.
Context (pid : Z) (mode : TestMode).
Abbreviation inv := (inv pid mode).

Record live_ok (s : system) : Prop := {
  lv_normal : done_of Parent s ++ todo (procs s Parent) = main_steps mode;
  lv_failures : failures s = 0;
  lv_holder w : holder s = Some w → doing (procs s w) = Running ∧ first critical (todo (procs s w));
  lv_act v : act_ok s v
}.

Lemma child_follows r l i rest : l ++ i :: rest = child_main pid mode r → next_ok i rest ∧ is_verdict i = false.
Proof.
  intros H. assert (Hc := splits_sound (λ l l', match l' with i :: rest => next_ok i rest && negb (is_verdict i) | [] => true end)
    (child_main pid mode r) l (i :: rest) ltac:(destruct mode, r; vm_compute; reflexivity) H).
  cbv beta iota in Hc. apply andb_true_iff in Hc as [H1 H2%negb_true_iff]. by rewrite H1.
Qed.

Lemma main_follows l i rest : l ++ i :: rest = main_steps mode → next_ok i rest.
Proof.
  intros H. assert (Hc := splits_sound (λ l l', match l' with i :: rest => next_ok i rest | [] => true end)
    (main_steps mode) l (i :: rest) ltac:(destruct mode; vm_compute; reflexivity) H). cbv beta iota in Hc. by rewrite Hc.
Qed.

Lemma follows s w i rest : inv s → live_ok s → todo (procs s w) = i :: rest → next_ok i rest ∧ is_kill i = false.
Proof.
  intros (Hp & _ & _) Hl Ht. destruct w as [|r].
  - pose proof (lv_normal _ Hl) as H. rewrite Ht in H. split; [by eapply main_follows|]. by destruct (main_calls _ _ _ _ H) as (? & _).
  - pose proof (pr_rank _ _ _ Hp r) as H. rewrite Ht in H. split; [by destruct (child_follows _ _ _ _ H)|].
    by destruct (child_calls _ _ _ _ _ _ H) as (_ & _ & ? & _).
Qed.

(** A process that is not touched. *)
Lemma act_ok_frame s s' v : act_ok s v → todo (procs s' v) = todo (procs s v) → doing (procs s' v) = doing (procs s v) →
  (∀ c, holds c s = false ∨ pending s → holds c s' = false ∨ pending s') →
  (∀ r, v = Rank r → doing (procs s v) = Unborn → existsb (is_fork r) (todo (procs s Parent)) → existsb (is_fork r) (todo (procs s' Parent))) →
  act_ok s' v.
Proof.
  unfold act_ok. intros Ha -> -> Hs Hf. destruct (doing (procs s v)) as [| | |b|st]; try done.
  - destruct Ha as (Hne & r & -> & Hr). split; [done|]. exists r. split; [done|]. by apply Hf.
  - destruct Ha as (c & code & rest & Ht & Hb). exists c, code, rest. split; [done|]. auto.
Qed.

(** The same [holds], and who is about to wake the sleepers still is. *)
Lemma sleepers_frame s s' : (∀ c, holds c s' = holds c s) →
  (∀ v rest, todo (procs s v) = CondBroadcast :: rest → doing (procs s v) = Running →
    todo (procs s' v) = todo (procs s v) ∧ doing (procs s' v) = doing (procs s v)) →
  ∀ c, holds c s = false ∨ pending s → holds c s' = false ∨ pending s'.
Proof.
  intros Hh Hp c [H|(v & rest & Ht & Hr)]; [left; by rewrite Hh|right]. destruct (Hp v rest Ht Hr) as [H1 H2].
  exists v, rest. by rewrite H1, H2.
Qed.

Lemma done_adv w s i rest : todo (procs s w) = i :: rest →
  done_of Parent (advance w s) ++ todo (procs (advance w s) Parent) = done_of Parent s ++ todo (procs s Parent).
Proof.
  intros Hw. rewrite (todo_advance _ _ _ _ _ Hw). unfold done_of. rewrite (done_advance _ _ _ _ Hw), steps_of_snoc.
  destruct w as [|r]; [rewrite !decide_True by done|rewrite !decide_False by done; by rewrite app_nil_r].
  by rewrite <- app_assoc, Hw.
Qed.

Lemma go_normal w s s' : at_ok s → exec w Go s = Some s' → done_of Parent s' ++ todo (procs s' Parent) = done_of Parent s ++ todo (procs s Parent).
Proof.
  intros Hat Hs. destruct (go_sorted w s s' Hat Hs)
    as [i rest Hw Hr _ [Hp Hd _ _ _ _]|rest Hw Hr ->|r rest Hw Hr ->|r rest Hw Hr ->|i rest code Hw Hr _ ->|r l rest -> Hw Hr _ ->
       |r l l' rest rest' -> Hw Hr Hq Hq' ->|c code rest Hw Hr _ ->|Hr _ ->].
  - unfold done_of. rewrite Hp, Hd. by eapply done_adv.
  - rewrite todo_wake_all. by eapply done_adv.
  - rewrite todo_set_doing. by eapply done_adv.
  - destruct (doing (procs s (Rank r))); rewrite ?todo_set_doing; by eapply done_adv.
  - rewrite todo_set_doing. by eapply done_adv.
  - done.
  - set (s1 := set_arrived None (advance (Rank r) s)).
    assert (H1 : todo (procs s1 (Rank (negb r))) = BarrierWait l' :: rest')
      by (unfold s1; simpl; rewrite (todo_advance _ _ _ _ _ Hw), decide_False; [done|apply rank_neq]).
    rewrite (done_adv _ _ _ _ H1). exact (done_adv _ _ _ _ Hw).
  - change (procs (set_holder ?a ?x)) with (procs x). by rewrite todo_set_doing.
  - change (procs (set_holder ?a ?x)) with (procs x). by rewrite todo_set_doing.
Qed.

(** A process that has just advanced. *)
Lemma act_ok_running s v i rest : next_ok i rest → todo (procs s v) = rest → doing (procs s v) = Running →
  is_plain i || is_broadcast i || is_fork false i || is_fork true i || is_barrier i → act_ok s v.
Proof.
  unfold act_ok. intros Hn Ht ->. rewrite Ht. intros Hi ->. destruct i; simpl in *; try done.
Qed.

Definition untouched (s s' : system) (v : who) : Prop :=
  todo (procs s' v) = todo (procs s v) ∧ doing (procs s' v) = doing (procs s v).

(** Everyone is fine after a step if the touched ones are and the others are not touched. *)
Lemma act_others s s' (T : who → bool) : (∀ v, act_ok s v) → (∀ v, T v → act_ok s' v) → (∀ v, T v = false → untouched s s' v) →
  (∀ c, holds c s = false ∨ pending s → holds c s' = false ∨ pending s') →
  (∀ r, doing (procs s (Rank r)) = Unborn → T (Rank r) = false → existsb (is_fork r) (todo (procs s Parent)) →
    existsb (is_fork r) (todo (procs s' Parent))) → ∀ v, act_ok s' v.
Proof.
  intros Ha HT Hu Hs Hf v. destruct (T v) eqn:E; [by apply HT; rewrite E|]. destruct (Hu v E) as [H1 H2].
  apply (act_ok_frame s s'); [apply Ha|done|done|done|]. intros r -> Hd. by apply Hf.
Qed.

Lemma holder_others s s' (T : who → bool) : (∀ w, holder s = Some w → doing (procs s w) = Running ∧ first critical (todo (procs s w))) →
  holder s' = holder s → (∀ w, holder s = Some w → T w = false) → (∀ v, T v = false → untouched s s' v) →
  ∀ w, holder s' = Some w → doing (procs s' w) = Running ∧ first critical (todo (procs s' w)).
Proof. intros Hh -> HT Hu w Hw. destruct (Hu w (HT w Hw)) as [-> ->]. by apply Hh. Qed.

Definition only (w v : who) : bool := bool_decide (v = w).
Lemma only_false w v : only w v = false ↔ v ≠ w.
Proof. apply bool_decide_eq_false. Qed.
Lemma only_true w v : only w v ↔ v = w.
Proof. apply bool_decide_spec. Qed.

Lemma untouched_advance s s' w i rest : todo (procs s w) = i :: rest → procs s' = procs (advance w s) →
  ∀ v, only w v = false → untouched s s' v.
Proof.
  intros Hw Hp v Hv%only_false. unfold untouched. rewrite Hp, (todo_advance _ _ _ _ _ Hw), (doing_advance _ _ _ _ _ Hw).
  by rewrite !decide_False.
Qed.
Lemma self_advance s s' w i rest : todo (procs s w) = i :: rest → procs s' = procs (advance w s) →
  todo (procs s' w) = rest ∧ doing (procs s' w) = Running.
Proof. intros Hw Hp. rewrite Hp, (todo_advance _ _ _ _ _ Hw), (doing_advance _ _ _ _ _ Hw). by rewrite !decide_True. Qed.

(** Forks still to come are not lost with another step. *)
Lemma forks_kept s s' w i rest r : todo (procs s w) = i :: rest → is_fork r i = false →
  (∀ v, todo (procs s' v) = todo (procs (advance w s) v)) →
  existsb (is_fork r) (todo (procs s Parent)) → existsb (is_fork r) (todo (procs s' Parent)).
Proof.
  intros Hw Hi Ht. rewrite Ht, (todo_advance _ _ _ _ _ Hw). destruct (decide (Parent = w)) as [<-|]; [|done].
  rewrite Hw. simpl. by rewrite Hi.
Qed.

Lemma live_plain s s' w i rest : inv s → live_ok s → todo (procs s w) = i :: rest → doing (procs s w) = Running → is_plain i →
  plain s s' w i → (∀ v, act_ok s' v) ∧ (∀ u, holder s' = Some u → doing (procs s' u) = Running ∧ first critical (todo (procs s' u))) ∧
  failures s' = failures s.
Proof.
  intros Hi Hl Hw Hr Hpl [Hp _ Hh Hal Hho Hf]. destruct (follows s w i rest Hi Hl Hw) as [Hn _].
  destruct (self_advance s s' w i rest Hw Hp) as [Htw Hdw].
  assert (Hu := untouched_advance s s' w i rest Hw Hp). split_and!.
  - apply (act_others s s' (only w)); [apply Hl| |exact Hu| |].
    + intros v ->%only_true. eapply act_ok_running; [exact Hn|done|done|]. by destruct (is_plain i).
    + intros c. destruct (decide (i = IncPrepared ∨ i = SetProceed)) as [Hwr|Hno].
      * intros _. right. exists w. rewrite Htw, Hdw. assert (Hb : first is_broadcast rest) by (by destruct Hwr as [-> | ->]).
        destruct rest as [|[] rest']; try done. by exists rest'.
      * apply sleepers_frame; [intros k; destruct (Hho k) as [|[|]]; naive_solver|]. intros v rs Hv _. apply Hu, only_false.
        intros ->. rewrite Hw in Hv. injection Hv as -> _. done.
    + intros r _ _. eapply forks_kept; [exact Hw|by destruct i|by rewrite Hp].
  - intros u Hu'. rewrite Hh in Hu'. destruct (decide (u = w)) as [->|Hne].
    + rewrite Htw, Hdw. split; [done|]. assert (Hcr : critical i ∨ ∃ code, i = MutexLock code).
      { destruct i; simpl in Hu'; try done; try (right; by eexists); left; apply (lv_holder _ Hl) in Hu' as [_ Hc];
          by rewrite Hw in Hc. }
      destruct i; simpl in *; try done; try (by destruct Hcr as [|[]]). all: by destruct rest as [|[] ?].
    + destruct (Hu u) as [-> ->]; [by apply only_false|]. apply (lv_holder _ Hl). destruct i; simpl in Hu'; naive_solver.
  - destruct Hf as [|(r & st & -> & Hd & Hst)]; [done|]. exfalso. pose proof (lv_act _ Hl (Rank r)) as Ha. unfold act_ok in Ha.
    rewrite Hd in Ha. by destruct Ha.
Qed.

(** What the steps keep. *)
Definition kept (s s' : system) : Prop :=
  (∀ v, act_ok s' v) ∧ (∀ u, holder s' = Some u → doing (procs s' u) = Running ∧ first critical (todo (procs s' u))) ∧
  failures s' = failures s.

(** A holder that advances from a critical step that is not the unlock. *)
Lemma live_broadcast s w rest : inv s → live_ok s → todo (procs s w) = CondBroadcast :: rest → doing (procs s w) = Running →
  kept s (wake_all (advance w s)).
Proof.
  intros Hi Hl Hw Hr. destruct (follows s w _ rest Hi Hl Hw) as [Hn _].
  destruct (self_advance s (advance w s) w _ rest Hw eq_refl) as [Htw Hdw]. split_and!.
  - intros v. pose proof (lv_act _ Hl v) as Ha. unfold act_ok in *. rewrite todo_wake_all, doing_wake_all.
    destruct (decide (v = w)) as [->|Hne]; [rewrite Hdw, Htw; by destruct rest|].
    destruct (untouched_advance s (advance w s) w _ rest Hw eq_refl v) as [-> Hd]; [by apply only_false|]. rewrite Hd.
    destruct (doing (procs s v)) as [| | |b|st]; try done.
    + destruct Ha as (Hne' & r & Hv & Hf). split; [done|]. exists r. split; [done|]. rewrite todo_wake_all.
      eapply forks_kept; [exact Hw|done|done|done].
    + destruct Ha as (c & code & rs & Ht & _). by exists c, code, rs.
  - intros u Hu. change (holder (advance w s) = Some u) in Hu. rewrite holder_advance in Hu.
    rewrite todo_wake_all, doing_wake_all. destruct (decide (u = w)) as [->|Hne].
    + rewrite Hdw, Htw. split; [done|]. by destruct rest.
    + destruct (untouched_advance s (advance w s) w _ rest Hw eq_refl u) as [-> ->]; [by apply only_false|].
      destruct (lv_holder _ Hl u Hu) as [-> ?]. done.
  - apply (failures_advance w s).
Qed.

(** The cases where the holder is not touched. *)
Lemma live_fork s w r rest : inv s → live_ok s → todo (procs s w) = Fork r :: rest → doing (procs s w) = Running →
  kept s (set_doing (Rank r) Running (advance w s)).
Proof.
  intros Hi Hl Hw Hr. destruct (follows s w _ rest Hi Hl Hw) as [Hn _]. pose proof Hi as (Hp & _ & Hun).
  assert (w = Parent) as ->.
  { destruct w as [|q]; [done|]. pose proof (pr_rank _ _ _ Hp q) as H. rewrite Hw in H.
    destruct (child_calls _ _ _ _ _ _ H) as (H1 & H2 & _). by destruct r. }
  assert (Hd : doing (procs s (Rank r)) = Unborn) by (apply Hun; rewrite Hw; simpl; by rewrite bool_decide_eq_true_2).
  destruct (self_advance s (advance Parent s) Parent _ rest Hw eq_refl) as [Htw Hdw].
  pose proof (lv_act _ Hl (Rank r)) as Hne. unfold act_ok in Hne. rewrite Hd in Hne. destruct Hne as [Hne _].
  assert (Hu : ∀ v, only Parent v || only (Rank r) v = false → untouched s (set_doing (Rank r) Running (advance Parent s)) v).
  { intros v [H1 H2]%orb_false_iff. unfold untouched. rewrite todo_set_doing, doing_set_doing, decide_False by (by apply only_false).
    by apply (untouched_advance s (advance Parent s) Parent _ rest Hw eq_refl). }
  split_and!.
  - apply (act_others s _ (λ v, only Parent v || only (Rank r) v)); [apply Hl| |exact Hu| |].
    + intros v [->%only_true | ->%only_true]%orb_True; unfold act_ok; rewrite todo_set_doing, doing_set_doing.
      * rewrite decide_False, Hdw, Htw by done. by destruct rest.
      * rewrite decide_True by done. destruct (untouched_advance s (advance Parent s) Parent _ rest Hw eq_refl (Rank r)) as [-> _]; [by apply only_false|done].
    + apply sleepers_frame; [intros c; apply (holds_advance c Parent s)|]. intros v rs Hv Hvr. apply Hu, orb_false_iff.
      split; apply only_false; intros ->; congruence.
    + intros q Hq Hf. apply orb_false_iff in Hf as [_ Hf%only_false]. rewrite todo_set_doing, Htw, Hw. simpl.
      rewrite bool_decide_eq_false_2; [done|congruence].
  - apply (holder_others s _ (λ v, only Parent v || only (Rank r) v)); [apply Hl|apply (holder_advance Parent s)| |exact Hu].
    intros u [Hur Huc]%(lv_holder _ Hl). apply orb_false_iff. split; apply only_false; intros ->; [by rewrite Hw in Huc|congruence].
  - apply (failures_advance Parent s).
Qed.

Lemma live_return s w i rest code : inv s → live_ok s → todo (procs s w) = i :: rest → doing (procs s w) = Running →
  (i = Return code ∨ i = ReturnVerdict ∧ (failures s = 0 → code = 0)) → kept s (set_doing w (Dead (ExitedWith code)) (advance w s)).
Proof.
  intros Hi Hl Hw Hr Hc. destruct (follows s w _ rest Hi Hl Hw) as [Hn _].
  destruct (self_advance s (advance w s) w _ rest Hw eq_refl) as [Htw Hdw].
  assert (Hend : code = 0 ∧ rest = []).
  { destruct Hc as [->|[-> Hc]]; simpl in Hn.
    - apply andb_True in Hn as [Hn Hrest]. apply Is_true_true in Hn. split; [lia|by destruct rest].
    - split; [apply Hc, (lv_failures _ Hl)|by destruct rest]. }
  destruct Hend as [-> ->].
  assert (Hu : ∀ v, only w v = false → untouched s (set_doing w (Dead (ExitedWith 0)) (advance w s)) v).
  { intros v Hv. unfold untouched. rewrite todo_set_doing, doing_set_doing, decide_False by (by apply only_false).
    by apply (untouched_advance s (advance w s) w _ [] Hw eq_refl). }
  assert (Hcr : critical i = false) by (by destruct Hc as [->|[-> _]]). split_and!.
  - apply (act_others s _ (only w)); [apply Hl| |exact Hu| |].
    + intros v ->%only_true. unfold act_ok. by rewrite todo_set_doing, doing_set_doing, decide_True.
    + apply sleepers_frame; [intros c; apply (holds_advance c w s)|]. intros v rs Hv Hvr. apply Hu, only_false.
      intros ->. rewrite Hw in Hv. injection Hv as -> _. done.
    + intros q _ _. eapply forks_kept; [exact Hw|by destruct Hc as [->|[-> _]]|]. intros v. apply todo_set_doing.
  - apply (holder_others s _ (only w)); [apply Hl|apply (holder_advance w s)| |exact Hu].
    intros u [Hur Huc]%(lv_holder _ Hl). apply only_false. intros ->. rewrite Hw in Huc. simpl in Huc. by rewrite Hcr in Huc.
  - apply (failures_advance w s).
Qed.

(** Only the activity of [w] changes, and its next step is not one of the guarded ones. *)
Lemma live_doing s s' w act' : live_ok s → (∀ v, todo (procs s' v) = todo (procs s v)) →
  (∀ v, doing (procs s' v) = if decide (v = w) then act' else doing (procs s v)) → (∀ c, holds c s' = holds c s) →
  (doing (procs s w) = Running → first is_broadcast (todo (procs s w)) = false) → doing (procs s w) ≠ Unborn → act_ok s' w →
  ∀ v, act_ok s' v.
Proof.
  intros Hl Ht Hd Hh Hb Hn Hw.
  assert (Hu : ∀ v, only w v = false → untouched s s' v) by (intros v Hv%only_false; split; [apply Ht|by rewrite Hd, decide_False]).
  apply (act_others s s' (only w)); [apply Hl|by intros v ->%only_true|exact Hu| |].
  - apply sleepers_frame; [done|]. intros v rs Hv Hvr. apply Hu, only_false. intros ->. specialize (Hb Hvr). by rewrite Hv in Hb.
  - intros r _ _. by rewrite Ht.
Qed.

Lemma live_enter s r l rest : live_ok s → todo (procs s (Rank r)) = BarrierWait l :: rest → doing (procs s (Rank r)) = Running →
  kept s (set_arrived (Some r) (set_doing (Rank r) AtBarrier s)).
Proof.
  intros Hl Hw Hr. split_and!; [|..|done].
  - apply (live_doing s _ (Rank r) AtBarrier Hl); try done.
    + apply todo_set_doing.
    + apply doing_set_doing.
    + by rewrite Hw.
    + by rewrite Hr.
    + unfold act_ok. change (procs (set_arrived ?a ?x)) with (procs x). by rewrite todo_set_doing, doing_set_doing, decide_True.
  - intros u Hu. change (holder s = Some u) in Hu. apply (lv_holder _ Hl) in Hu as [H1 H2].
    change (procs (set_arrived ?a ?x)) with (procs x). rewrite todo_set_doing, doing_set_doing, decide_False; [done|].
    intros ->. by rewrite Hw in H2.
Qed.

Lemma live_sleep s w c code rest : live_ok s → todo (procs s w) = WaitUntil c code :: rest → doing (procs s w) = Running →
  holds c s = false → kept s (set_holder None (set_doing w (Sleeping false) s)).
Proof.
  intros Hl Hw Hr Hc. split_and!; [|done|done].
  apply (live_doing s _ w (Sleeping false) Hl); try done.
  - apply todo_set_doing.
  - apply doing_set_doing.
  - by rewrite Hw.
  - by rewrite Hr.
  - unfold act_ok. change (procs (set_holder ?a ?x)) with (procs x). rewrite todo_set_doing, doing_set_doing, decide_True by done.
    exists c, code, rest. split; [done|]. intros _. by left.
Qed.

Lemma live_wake s w : live_ok s → doing (procs s w) = Sleeping true → kept s (set_holder (Some w) (set_doing w Running s)).
Proof.
  intros Hl Hr. pose proof (lv_act _ Hl w) as Ha. unfold act_ok in Ha. rewrite Hr in Ha. destruct Ha as (c & code & rest & Ht & _).
  split_and!; [|..|done].
  - apply (live_doing s _ w Running Hl); try done.
    + apply todo_set_doing.
    + apply doing_set_doing.
    + by rewrite Ht.
    + by rewrite Hr.
    + unfold act_ok. change (procs (set_holder ?a ?x)) with (procs x). by rewrite todo_set_doing, doing_set_doing, decide_True, Ht.
  - intros u [= <-]. change (procs (set_holder ?a ?x)) with (procs x). by rewrite todo_set_doing, doing_set_doing, decide_True, Ht.
Qed.

Lemma live_meet s r l l' rest rest' : inv s → live_ok s → todo (procs s (Rank r)) = BarrierWait l :: rest →
  doing (procs s (Rank r)) = Running → doing (procs s (Rank (negb r))) = AtBarrier → todo (procs s (Rank (negb r))) = BarrierWait l' :: rest' →
  kept s (advance (Rank (negb r)) (set_arrived None (advance (Rank r) s))).
Proof.
  intros Hi Hl Hw Hr Hq Hq'. destruct (follows s _ _ rest Hi Hl Hw) as [Hn _]. destruct (follows s _ _ rest' Hi Hl Hq') as [Hn' _].
  set (s1 := set_arrived None (advance (Rank r) s)).
  assert (Hp1 : procs s1 = procs (advance (Rank r) s)) by done.
  destruct (self_advance s s1 (Rank r) _ rest Hw Hp1) as [Htw Hdw]. pose proof (untouched_advance s s1 (Rank r) _ rest Hw Hp1) as Hu1.
  destruct (Hu1 (Rank (negb r))) as [Ht1 Hd1]; [apply only_false, rank_neq|]. rewrite Hq' in Ht1.
  destruct (self_advance s1 _ (Rank (negb r)) _ rest' Ht1 eq_refl) as [Htq Hdq].
  pose proof (untouched_advance s1 _ (Rank (negb r)) _ rest' Ht1 eq_refl) as Hu2. set (s2 := advance (Rank (negb r)) s1) in *.
  destruct (Hu2 (Rank r)) as [Ht2 Hd2]; [apply only_false; by destruct r|]. rewrite Htw in Ht2. rewrite Hdw in Hd2.
  set (T := λ v, only (Rank r) v || only (Rank (negb r)) v).
  assert (Hu : ∀ v, T v = false → untouched s s2 v).
  { intros v [H1 H2]%orb_false_iff. destruct (Hu1 v H1) as [A B], (Hu2 v H2) as [A' B']. split; congruence. }
  assert (Hpar : todo (procs s2 Parent) = todo (procs s Parent)) by (by apply (Hu Parent)). split_and!.
  - apply (act_others s s2 T); [apply Hl| |exact Hu| |].
    + intros v [->%only_true | ->%only_true]%orb_True; eapply act_ok_running; [exact Hn|done|done|done|exact Hn'|done|done|done].
    + apply sleepers_frame.
      * intros c. unfold s2. rewrite holds_advance. apply (holds_advance c (Rank r) s).
      * intros v rs Hv Hvr. apply Hu, orb_false_iff. split; apply only_false; intros ->; congruence.
    + intros q _ _. by rewrite Hpar.
  - apply (holder_others s s2 T); [apply Hl| | |exact Hu].
    + unfold s2. rewrite holder_advance. apply (holder_advance (Rank r) s).
    + intros u [Hur Huc]%(lv_holder _ Hl). apply orb_false_iff. split; apply only_false; intros ->; [by rewrite Hw in Huc|congruence].
  - unfold s2. rewrite failures_advance. apply (failures_advance (Rank r) s).
Qed.

Lemma live_go s s' : inv s → live_ok s → go s s' → live_ok s'.
Proof.
  intros Hi Hl [w Hs]. pose proof Hi as (_ & Hat & _). pose proof (go_normal w s s' Hat Hs) as Hnorm.
  enough (Hk : kept s s') by (destruct Hk as (H1 & H2 & H3); split; [by rewrite Hnorm, (lv_normal _ Hl)|by rewrite H3, (lv_failures _ Hl)|done|done]).
  destruct (go_sorted w s s' Hat Hs)
    as [i rest Hw Hr Hpl Hplain|rest Hw Hr ->|r rest Hw Hr ->|r rest Hw Hr _|i rest code Hw Hr Hc ->|r l rest -> Hw Hr _ ->
       |r l l' rest rest' -> Hw Hr Hq Hq' ->|c code rest Hw Hr Hc ->|Hr _ ->].
  - by eapply live_plain.
  - by eapply live_broadcast.
  - by eapply live_fork.
  - by destruct (follows s w _ rest Hi Hl Hw).
  - by eapply live_return.
  - by eapply live_enter.
  - by eapply live_meet.
  - by eapply live_sleep.
  - by apply live_wake.
Qed.

Lemma live_start : live_ok (start pid mode).
Proof.
  split; [done|done|done|]. intros [|r]; unfold act_ok; simpl; [done|]. split; [done|]. exists r. split; [done|]. by destruct r.
Qed.

Lemma go_reachable s : rtc go (start pid mode) s → reachable pid mode s ∧ live_ok s.
Proof.
  revert s. apply rtc_ind_r.
  - split; [by apply reach_start|by apply live_start].
  - intros s1 s2 _ [w Hs] [Hr Hl]. split; [by eapply reach_step|]. eapply live_go; [by apply reachable_inv|done|by exists w].
Qed.

(** ** Nobody waits for ever *)

(** Why a process that runs can not make its step. *)
Lemma blocked s w i rest : inv s → live_ok s → todo (procs s w) = i :: rest → doing (procs s w) = Running → exec w Go s = None →
  (∃ code, i = MutexLock code ∧ holder s ≠ None) ∨ ∃ r, i = WaitPid r ∧ ∀ st, doing (procs s (Rank r)) ≠ Dead st.
Proof.
  intros (Hp & Hat & _) Hl Hw Hr Hs. unfold exec in Hs. rewrite Hr, Hw in Hs.
  destruct i as [k code|l|code| | |k code| | |q|q|e|q|q|code|]; cbn [succeed] in Hs; try done.
  - destruct w as [|r].
    + pose proof (lv_normal _ Hl) as H. rewrite Hw in H. by destruct (main_next _ _ _ _ H) as (_ & _ & ?).
    + destruct (arrived s) as [q|] eqn:Hq; [|done]. case_bool_decide as E; [|done]. subst q.
      apply (at_arrived _ Hat) in Hq. congruence.
  - left. exists code. split; [done|]. by destruct (holder s).
  - right. exists q. split; [done|]. intros st Hst. rewrite Hst in Hs. by destruct st as [[]|].
Qed.

Lemma child_waits r l i rest : l ++ i :: rest = child_main pid mode r →
  (∀ q, i ≠ WaitPid q) ∧
  (∀ c code, i = WaitUntil c code → c = MayRestore ∧ mode_uses_external_checkpoint mode ∧ existsb is_inc l ∧ barriers l = 1%nat) ∧
  (is_barrier i → mode_uses_external_checkpoint mode → barriers l = 1%nat → existsb is_may l).
Proof.
  intros H. assert (Hc := splits_sound (λ l l', match l' with
    | WaitPid _ :: _ => false
    | WaitUntil c _ :: _ => match c with MayRestore => true | _ => false end && mode_uses_external_checkpoint mode && existsb is_inc l &&
        (barriers l =? 1)%nat
    | BarrierWait _ :: _ => implb (mode_uses_external_checkpoint mode && (barriers l =? 1)%nat) (existsb is_may l)
    | _ => true end) (child_main pid mode r) l (i :: rest) ltac:(destruct mode, r; vm_compute; reflexivity) H).
  cbv beta iota in Hc. split_and!.
  - by intros q ->.
  - intros c code ->. rewrite !andb_true_iff, Nat.eqb_eq in Hc. destruct Hc as [[[H1 H2] H3] H4].
    split_and!; [by destruct c|by rewrite H2|by rewrite H3|done].
  - intros Hb Hm Hn. destruct i; try done. rewrite Hn in Hc. destruct (mode_uses_external_checkpoint mode); [|done].
    simpl in Hc. by rewrite Hc.
Qed.

Lemma child_whole r : mode_uses_external_checkpoint mode → existsb is_inc (child_main pid mode r).
Proof. by destruct mode, r. Qed.

Lemma main_waits l i rest : l ++ i :: rest = main_steps mode →
  (∀ c code, i = WaitUntil c code → c = BothPrepared ∧ mode_uses_external_checkpoint mode) ∧
  (∀ q, is_fork q (i) = false → (∃ c code, i = WaitUntil c code) ∨ (∃ r, i = WaitPid r) → existsb (is_fork q) (i :: rest) = false) ∧
  (∀ r, i = WaitPid r → mode_uses_external_checkpoint mode → existsb is_proceed l).
Proof.
  intros H. assert (Hc := splits_sound (λ l l', match l' with
    | WaitUntil c _ :: rest => match c with BothPrepared => true | _ => false end && mode_uses_external_checkpoint mode &&
        negb (existsb (is_fork false) rest) && negb (existsb (is_fork true) rest)
    | WaitPid _ :: rest => implb (mode_uses_external_checkpoint mode) (existsb is_proceed l) &&
        negb (existsb (is_fork false) rest) && negb (existsb (is_fork true) rest)
    | _ => true end) (main_steps mode) l (i :: rest) ltac:(destruct mode; vm_compute; reflexivity) H).
  cbv beta iota in Hc. split_and!.
  - intros c code ->. rewrite !andb_true_iff in Hc. destruct Hc as [[[H1 H2] _] _]. split; [by destruct c|by rewrite H2].
  - intros q _ [(c & code & ->)|(r & ->)]; rewrite !andb_true_iff, !negb_true_iff in Hc; simpl; destruct q; tauto.
  - intros r -> Hm. rewrite !andb_true_iff in Hc. destruct Hc as [[H1 _] _]. destruct (mode_uses_external_checkpoint mode); [|done].
    simpl in H1. by rewrite H1.
Qed.

(** A state where nobody can make a step. *)
Section Stuck.
Context (s : system) (Hi : inv s) (Hl : live_ok s) (Hstuck : ∀ w, exec w Go s = None).

Lemma stuck_free : holder s = None.
Proof.
  destruct (holder s) as [u|] eqn:Hh; [|done]. exfalso. destruct (lv_holder _ Hl u Hh) as [Hr Hc].
  destruct (todo (procs s u)) as [|i rest] eqn:Ht; [done|].
  by destruct (blocked s u i rest Hi Hl Ht Hr (Hstuck u)) as [(code & -> & _)|(r & -> & _)].
Qed.

Lemma stuck_running w : doing (procs s w) = Running → w = Parent ∧ ∃ r rest, todo (procs s w) = WaitPid r :: rest ∧ ∀ st, doing (procs s (Rank r)) ≠ Dead st.
Proof.
  intros Hr. pose proof (lv_act _ Hl w) as Ha. unfold act_ok in Ha. rewrite Hr in Ha. destruct (todo (procs s w)) as [|i rest] eqn:Ht; [done|].
  destruct (blocked s w i rest Hi Hl Ht Hr (Hstuck w)) as [(code & _ & Hh)|(r & -> & Hd)]; [by rewrite stuck_free in Hh|].
  split; [|by exists r, rest]. destruct w as [|q]; [done|]. destruct Hi as (Hp & _ & _). pose proof (pr_rank _ _ _ Hp q) as H.
  rewrite Ht in H. destruct (child_waits _ _ _ _ H) as (Hn & _). by destruct (Hn r).
Qed.

Lemma stuck_sleeping w b : doing (procs s w) = Sleeping b → ∃ c code rest, todo (procs s w) = WaitUntil c code :: rest ∧ holds c s = false.
Proof.
  intros Hr. pose proof (lv_act _ Hl w) as Ha. unfold act_ok in Ha. rewrite Hr in Ha. destruct Ha as (c & code & rest & Ht & Hb).
  exists c, code, rest. split; [done|]. destruct b; [pose proof (Hstuck w) as Hs; unfold exec in Hs; by rewrite Hr, stuck_free in Hs|].
  destruct (Hb eq_refl) as [|(v & rs & Hv & Hvr)]; [done|]. destruct (stuck_running v Hvr) as (_ & r & rest' & Ht' & _). congruence.
Qed.

(** The parent has its verdict, or waits past the forks. *)
Lemma stuck_parent : doing (procs s Parent) = Dead (ExitedWith 0) ∨
  (∃ c code rest, todo (procs s Parent) = WaitUntil c code :: rest ∧ holds c s = false) ∨
  (∃ r rest, todo (procs s Parent) = WaitPid r :: rest ∧ ∀ st, doing (procs s (Rank r)) ≠ Dead st).
Proof.
  pose proof (lv_act _ Hl Parent) as Ha. unfold act_ok in Ha. destruct (doing (procs s Parent)) as [| | |b|st] eqn:Hd.
  - by destruct Ha as (_ & r & ? & _).
  - right; right. destruct (stuck_running Parent Hd) as (_ & r & rest & Ht & Hn). by exists r, rest.
  - done.
  - right; left. eapply stuck_sleeping. exact Hd.
  - left. by destruct Ha as [-> _].
Qed.
End Stuck.
End Live.
