(* ===== verification/TwoProcPass.v ===== *)
(** The two-process example: a run without failures ends, and with the verdict 0. *)
From stdpp Require Import functions.
From S2P Require Import Prelude NcclPlugin TwoProc TwoProcFacts TwoProcVerdict TwoProcLive.
Open Scope Z_scope.

(** ** A state where nobody can make a step *)

Section Stuck.
Context (pid : Z) (mode : TestMode) (s : system).
Context (Hi : inv pid mode s) (Hl : live_ok mode s) (Hstuck : ∀ w, exec w Go s = None).

(** What a rank is doing once both are forked. *)
Inductive rank_stuck (r : bool) : Prop :=
  | rs_ended : doing (procs s (Rank r)) = Dead (ExitedWith 0) → todo (procs s (Rank r)) = [] → rank_stuck r
  | rs_barrier l rest : doing (procs s (Rank r)) = AtBarrier → todo (procs s (Rank r)) = BarrierWait l :: rest → rank_stuck r
  | rs_asleep : proceedRestore s = false → mode_uses_external_checkpoint mode → existsb is_inc (done_of (Rank r) s) →
      barriers (done_of (Rank r) s) = 1%nat → rank_stuck r.

Lemma rank_cases r : existsb (is_fork r) (todo (procs s Parent)) = false → rank_stuck r.
Proof.
  intros Hf. pose proof Hi as (Hp & Hat & _). pose proof (lv_act _ _ Hl (Rank r)) as Ha. unfold act_ok in Ha.
  destruct (doing (procs s (Rank r))) as [| | |b|st] eqn:Hd.
  - destruct Ha as (_ & q & [= <-] & Hq). by rewrite Hf in Hq.
  - by destruct (stuck_running _ _ s Hi Hl Hstuck _ Hd).
  - destruct (at_head _ Hat _ Hd) as (l & rest & Ht). by eapply rs_barrier.
  - destruct (stuck_sleeping _ _ s Hi Hl Hstuck _ _ Hd) as (c & code & rest & Ht & Hc). pose proof (pr_rank _ _ _ Hp r) as H.
    rewrite Ht in H. destruct (child_waits _ _ _ _ _ _ H) as (_ & W & _). destruct (W c code eq_refl) as (-> & ? & ? & ?).
    by apply rs_asleep.
  - destruct Ha as [-> Ht]. by apply rs_ended.
Qed.

Lemma whole r : todo (procs s (Rank r)) = [] → done_of (Rank r) s = child_main pid mode r.
Proof. intros Ht. pose proof Hi as (Hp & _). pose proof (pr_rank _ _ _ Hp r) as H. by rewrite Ht, app_nil_r in H. Qed.

Lemma barriers_whole r l i rest : is_barrier i → l ++ i :: rest = child_main pid mode r →
  (barriers l < barriers (child_main pid mode (negb r)))%nat.
Proof.
  intros Hb H. replace (barriers (child_main pid mode (negb r))) with (barriers (child_main pid mode r)) by (destruct mode, r; vm_compute; reflexivity).
  rewrite <- H. unfold barriers. rewrite List.filter_app, length_app. simpl. destruct (is_barrier i); [simpl; lia|done].
Qed.

(** Nobody is left in the barrier. *)
Lemma no_barrier : (∀ r, rank_stuck r) → ∀ r, doing (procs s (Rank r)) ≠ AtBarrier.
Proof.
  intros Hall r Hd. pose proof Hi as (Hp & Hat & _). destruct (at_head _ Hat _ Hd) as (l & rest & Ht).
  pose proof (pr_rank _ _ _ Hp r) as H. rewrite Ht in H.
  assert (Heq : barriers (done_of (Rank (negb r)) s) = barriers (done_of (Rank r) s)) by (pose proof (pr_barriers _ _ _ Hp); by destruct r).
  destruct (Hall (negb r)) as [_ He|l' rest' Hb _|Hpr Hm _ H1].
  - rewrite (whole _ He) in Heq. pose proof (barriers_whole r _ (BarrierWait l) rest I H). lia.
  - apply (at_arrived _ Hat) in Hd, Hb. rewrite Hd in Hb. injection Hb as Hb. by destruct r.
  - destruct (child_waits _ _ _ _ _ _ H) as (_ & _ & W). assert (Hmay := W I Hm ltac:(congruence)).
    apply (pr_may _ _ _ Hp) in Hmay. by rewrite Hpr in Hmay.
Qed.

Lemma all_counted : mode_uses_external_checkpoint mode → (∀ r, rank_stuck r) → preparedCount s = 2.
Proof.
  intros Hm Hall. assert (Hinc : ∀ r, existsb is_inc (done_of (Rank r) s)).
  { intros r. pose proof (no_barrier Hall r) as Hn. destruct (Hall r) as [_ He| |]; try done. rewrite (whole _ He). by apply child_whole. }
  pose proof Hi as (Hp & _). rewrite (pr_count _ _ _ Hp). unfold count. pose proof (Hinc false). pose proof (Hinc true).
  destruct (existsb is_inc (done_of (Rank false) s)); [|done]. by destruct (existsb is_inc (done_of (Rank true) s)).
Qed.

Lemma stuck_passes : doing (procs s Parent) = Dead (ExitedWith 0).
Proof.
  pose proof Hi as (Hp & Hat & _). pose proof (lv_normal _ _ Hl) as Hn.
  destruct (stuck_parent _ _ s Hi Hl Hstuck) as [|[(c & code & rest & Ht & Hc)|(r & rest & Ht & Hnd)]]; [done|exfalso..].
  - rewrite Ht in Hn. destruct (main_waits _ _ _ _ Hn) as (W & F & _). destruct (W c code eq_refl) as [-> Hm].
    assert (H2 : preparedCount s = 2).
    { apply all_counted; [done|]. intros r. apply rank_cases. rewrite Ht. apply F; [done|]. left. by eauto. }
    by rewrite (eq_refl : holds BothPrepared s = negb (preparedCount s <? 2)), H2 in Hc.
  - rewrite Ht in Hn. destruct (main_waits _ _ _ _ Hn) as (_ & F & W).
    assert (Hall : ∀ q, rank_stuck q) by (intros q; apply rank_cases; rewrite Ht; apply F; [done|]; right; by eauto).
    pose proof (no_barrier Hall r) as Hb. destruct (Hall r) as [Hd _| |Hpr Hm _ _]; [by eapply Hnd|done|].
    specialize (W r eq_refl Hm). rewrite <- (pr_proceed _ _ _ Hp), Hpr in W. done.
Qed.
End Stuck.

(** ** The verdict of a run without failures *)

Inductive go_steps : nat → system → system → Prop :=
  | go_here s : go_steps 0 s s
  | go_more n s s1 s2 : go s s1 → go_steps n s1 s2 → go_steps (S n) s s2.

Section Pass.
Context (pid : Z) (mode : TestMode).

Lemma go_bounded n s s' : rtc go (start pid mode) s → go_steps n s s' → (n + mu s' ≤ mu s)%nat ∧ rtc go (start pid mode) s'.
Proof.
  intros Hr Hn. induction Hn as [s|n s s1 s2 Hs _ IH]; [split; [lia|done]|].
  destruct (go_reachable pid mode s Hr) as [Hre _]. pose proof (reachable_inv _ _ _ Hre) as (_ & Hat & _).
  assert (Hr1 : rtc go (start pid mode) s1) by (by eapply rtc_r). destruct (IH Hr1) as [H1 H2]. split; [|done].
  destruct Hs as [w Hs]. pose proof (go_mu w s s1 Hat Hs). lia.
Qed.

(** C11: without failures the example passes, whatever the order of the processes. From every state that runs without a failure
    and without a spurious wake-up reach, a continuation has at most [mu s] steps; and where no process can make a step (so
    where every continuation ends) the parent has ended with 0: the barrier, the mutex and the condition variable leave nobody waiting. *)
Theorem two_proc_passes s : rtc go (start pid mode) s →
  (∀ n s', go_steps n s s' → (n ≤ mu s)%nat) ∧
  ((∀ w, exec w Go s = None) → doing (procs s Parent) = Dead (ExitedWith 0)).
Proof.
  intros Hr. split.
  - intros n s' Hn. destruct (go_bounded n s s' Hr Hn). lia.
  - intros Hs. destruct (go_reachable pid mode s Hr) as [Hre Hl]. apply (stuck_passes pid mode); [by apply reachable_inv|done|done].
Qed.
End Pass.

(** From the middle of a run in the action mode, and where the scheduler ends. *)
Lemma two_proc_passes_witness :
  let mid := play 40 (start 42 GcrCheckpointAction) in let last := play 200 (start 42 GcrCheckpointAction) in
  (∀ n s', go_steps n mid s' → (n ≤ mu mid)%nat) ∧ doing (procs last Parent) = Dead (ExitedWith 0).
Proof.
  intros mid last. split.
  - apply (two_proc_passes 42 GcrCheckpointAction mid). apply play_rtc.
  - apply (two_proc_passes 42 GcrCheckpointAction last); [apply play_rtc|]. intros [|[]]; vm_compute; reflexivity.
Defined.
