(* ===== verification/Migration.v ===== *)
(** The two GPU migration demonstrations, [src/cuda-checkpoint/src/r580-migration-cli.c] and
    [src/cuda-checkpoint/src/r580-migration-api.c].

    A process that uses GPU 0 checkpoints itself once per GPU and has each restore move everything on GPU [i] to
    GPU [i + 1]; one program runs the [cuda-checkpoint] tool with a device map in text, the other calls the driver.
    Modelled are the two [main] functions and their helpers, the packed text of the device map byte by byte. *)
From stdpp Require Import pretty.
From S2P Require Import Prelude Text Process.
Open Scope Z_scope.

(** The 16 bytes of a UUID. *)
Abbreviation uuid := (list Z).
Inductive child_status := Exited (code : Z) | Signaled (sig : Z).
Definition NVML_FEATURE_ENABLED : Z := 1.

(** The calls of the C library, of the driver and of NVML.  [fork_exec] is [fork] with a child that becomes the given
    command, or aborts. *)
Class Migration (G : Type) := {
  unsetenv : string → M G Z;
  fork_exec : list string → M G Z;            (* the child's pid, negative if there is none *)
  waitpid : Z → M G (Z * child_status);
  cuInit : Z → M G Z;
  primary_retain : Z → M G (Z * Z);           (* [cuDevicePrimaryCtxRetain]: error and context *)
  cuCtxSetCurrent : Z → M G Z;
  cuCtxGetDevice : M G (Z * Z);
  cuDeviceGetCount : M G (Z * Z);
  cuDeviceGetUuid : Z → M G (Z * uuid);
  nvmlInit : M G Z;
  nvmlDeviceGetHandleByIndex : Z → M G (Z * Z);
  nvmlDeviceGetPersistenceMode : Z → M G (Z * Z);
  cuCheckpointProcessLock : Z → M G Z;
  cuCheckpointProcessCheckpoint : Z → M G Z;
  cuCheckpointProcessRestore : Z → list (uuid * uuid) → M G Z;
  cuCheckpointProcessUnlock : Z → M G Z
}.

(** The machine, and the lines printed so far. *)
Record demo (G : Type) := MkDemo { gpu : G; stdout : list string }.
Arguments MkDemo {G}. Arguments gpu {G}. Arguments stdout {G}.

Definition NUL : ascii := Ascii.ascii_of_nat 0.
Definition comma_char : ascii := Ascii.ascii_of_nat 44.
Definition equals_char : ascii := Ascii.ascii_of_nat 61.
Definition UUID_ASCII_SIZE : nat := 40.

(** [ascii_uuid_key_value_t]: the old UUID, [equals], the new UUID, [comma_or_null]. *)
Definition at_equals : nat := 40.
Definition at_new : nat := 41.
Definition at_comma : nat := 81.
Definition sizeof_pair : nat := 82.

(** [%02x] of a byte; [byte u i] is [b[i]], an [uint8_t]. *)
Definition hex2 (b : Z) : string := Str (hex_char (b / 16)) (Str (hex_char (b mod 16)) "").
Definition byte (u : uuid) (i : nat) : Z := nth i u 0 mod 256.
Fixpoint hex_bytes (u : uuid) (i n : nat) : string :=
  match n with O => "" | S n => hex2 (byte u i) +:+ hex_bytes u (S i) n end.
Definition uuid_text (u : uuid) : string :=
  "GPU-" +:+ hex_bytes u 0 4 +:+ "-" +:+ hex_bytes u 4 2 +:+ "-" +:+ hex_bytes u 6 2 +:+ "-" +:+ hex_bytes u 8 2
  +:+ "-" +:+ hex_bytes u 10 6.

(** Writing characters into a buffer at an offset, and the text at its start. *)
Definition store {S} (off : nat) (cs buf : list ascii) : M S (list ascii) :=
  if bool_decide (off + length cs ≤ length buf)%nat then mret (take off buf ++ cs ++ drop (off + length cs) buf)
  else fail OutOfBounds.
Fixpoint c_string (buf : list ascii) : string :=
  match buf with
  | [] => ""
  | c :: buf => if bool_decide (c = NUL) then "" else Str c (c_string buf)
  end.

Section Demos.
Context {G : Type} {MG : Migration G}.
(** [getpid()] *)
Context (self_pid : Z).
Abbreviation demo := (demo G).

Definition sys {A} (m : M G A) : M demo A := zoom gpu (λ g s, MkDemo g (stdout s)) m.

(** [CHECK_OK(f(...))], with and without a result. *)
Definition CHECK_OK (m : M G Z) : M demo unit := r ← sys m; assert_ (bool_decide (r = 0)).
Definition CHECK_VALUE {A} (m : M G (Z * A)) : M demo A := r ← sys m; _ ← assert_ (bool_decide (r.1 = 0)); mret r.2.

Definition ascii_uuid (str dev_idx : nat) (buf : list ascii) : M demo (list ascii) :=
  u ← CHECK_VALUE (cuDeviceGetUuid (Z.of_nat dev_idx));
  buf ← store str (chars (uuid_text u) ++ [NUL]) buf;
  _ ← assert_ (bool_decide (String.length (uuid_text u) = UUID_ASCII_SIZE));
  mret buf.

Definition print_current_ctx_uuid : M demo unit :=
  dev ← CHECK_VALUE cuCtxGetDevice;
  u ← CHECK_VALUE (cuDeviceGetUuid dev);
  modify (λ s, MkDemo (gpu s) (stdout s ++ [hex_bytes u 0 16])).

Definition spawn (args : list string) : M demo unit :=
  child ← sys (fork_exec args);
  _ ← assert_ (bool_decide (0 ≤ child));
  r ← sys (waitpid child);
  _ ← assert_ (bool_decide (r.1 = child));
  match r.2 with
  | Exited code => assert_ (bool_decide (code = 0))
  | Signaled _ => assert_ false
  end.
Definition CUDA_CHECKPOINT (args : list string) : M demo unit := spawn ("cuda-checkpoint"%string :: args).

(** One round of the loop that builds the device map: [prev] is [pair], the entry of the round before. *)
Definition add_pair (dev_count : nat) (acc : option nat * list ascii) (i : nat) : M demo (option nat * list ascii) :=
  let '(prev, buf) := acc in
  buf ← match prev with
        | Some j => store (j * sizeof_pair + at_comma) [comma_char] buf
        | None => mret buf
        end;
  buf ← ascii_uuid (i * sizeof_pair) i buf;
  buf ← ascii_uuid (i * sizeof_pair + at_new) ((i + 1) mod dev_count) buf;
  buf ← store (i * sizeof_pair + at_equals) [equals_char] buf;
  mret (Some i, buf).

Definition build_uuid_map (dev_count : nat) : M demo (list ascii) :=
  r ← foldM (add_pair dev_count) (None, replicate (dev_count * sizeof_pair) NUL) (seq 0 dev_count);
  mret r.2.

Definition migrate_once (self uuid_map : string) : M demo unit :=
  _ ← print_current_ctx_uuid;
  _ ← CUDA_CHECKPOINT ["--action"; "lock"; "--pid"; self]%string;
  _ ← CUDA_CHECKPOINT ["--action"; "checkpoint"; "--pid"; self]%string;
  _ ← CUDA_CHECKPOINT ["--action"; "restore"; "--pid"; self; "--device-map"; uuid_map]%string;
  CUDA_CHECKPOINT ["--action"; "unlock"; "--pid"; self]%string.

(** What both programs start with: the number of GPUs. *)
Definition setup_cuda : M demo nat :=
  _ ← CHECK_OK (cuInit 0);
  ctx ← CHECK_VALUE (primary_retain 0);
  _ ← CHECK_OK (cuCtxSetCurrent ctx);
  dev_count ← CHECK_VALUE cuDeviceGetCount;
  mret (Z.to_nat dev_count).

Definition cli_main : M demo Z :=
  _ ← CHECK_OK (unsetenv "CUDA_VISIBLE_DEVICES");
  _ ← CHECK_OK (unsetenv "CUDA_DEVICE_ORDER");
  dev_count ← setup_cuda;
  uuid_map ← build_uuid_map dev_count;
  self ← sprintf 10 (pretty self_pid);
  _ ← foldM (λ _ _, migrate_once self (c_string uuid_map)) tt (seq 0 dev_count);
  _ ← print_current_ctx_uuid;
  mret 0.

Definition check_persistence_mode : M demo unit :=
  _ ← CHECK_OK nvmlInit;
  dev ← CHECK_VALUE (nvmlDeviceGetHandleByIndex 0);
  persistence_mode ← CHECK_VALUE (nvmlDeviceGetPersistenceMode dev);
  assert_ (bool_decide (persistence_mode = NVML_FEATURE_ENABLED)).

(** One round of the loop that fills [pairs]. *)
Definition gpu_pair (dev_count : nat) (pairs : list (uuid * uuid)) (i : nat) : M demo (list (uuid * uuid)) :=
  old ← CHECK_VALUE (cuDeviceGetUuid (Z.of_nat i));
  new ← CHECK_VALUE (cuDeviceGetUuid (Z.of_nat ((i + 1) mod dev_count)));
  mret (pairs ++ [(old, new)]).

Definition migrate_once_api (pairs : list (uuid * uuid)) : M demo unit :=
  _ ← print_current_ctx_uuid;
  _ ← CHECK_OK (cuCheckpointProcessLock self_pid);
  _ ← CHECK_OK (cuCheckpointProcessCheckpoint self_pid);
  _ ← CHECK_OK (cuCheckpointProcessRestore self_pid pairs);
  CHECK_OK (cuCheckpointProcessUnlock self_pid).

Definition api_main : M demo Z :=
  _ ← CHECK_OK (unsetenv "CUDA_VISIBLE_DEVICES");
  _ ← CHECK_OK (unsetenv "CUDA_DEVICE_ORDER");
  _ ← check_persistence_mode;
  dev_count ← setup_cuda;
  pairs ← foldM (gpu_pair dev_count) [] (seq 0 dev_count);
  _ ← foldM (λ _ _, migrate_once_api pairs) tt (seq 0 dev_count);
  _ ← print_current_ctx_uuid;
  mret 0.

End Demos.
