(* ===== verification/MigrationTheorems.v ===== *)
(** The migration demonstrations: the device map reads back, and both programs visit every GPU. *)
From stdpp Require Import pretty.
From S2P Require Import Prelude Text Process Migration.
Open Scope Z_scope.
#[local] Arguments String.append !_ _ /.

(** ** The text of the device map *)

(** Characters with no meaning in a device map. *)
Definition plain (c : ascii) : Prop := c ≠ NUL ∧ c ≠ comma_char ∧ c ≠ equals_char.

Lemma hex_char_plain d : 0 ≤ d < 16 → plain (hex_char d).
Proof.
  intros Hd. assert (Hall : Forall (λ d, hex_char (Z.of_nat d) ≠ NUL ∧ hex_char (Z.of_nat d) ≠ comma_char ∧
    hex_char (Z.of_nat d) ≠ equals_char) (seq 0 16)) by (apply (bool_decide_unpack _); vm_compute; exact I).
  rewrite Forall_forall in Hall. specialize (Hall (Z.to_nat d) ltac:(apply elem_of_seq; lia)). by rewrite Z2Nat.id in Hall by lia.
Qed.

Lemma nibbles b : 0 ≤ b < 256 → 0 ≤ b / 16 < 16 ∧ 0 ≤ b mod 16 < 16.
Proof. intros Hb. pose proof (Z.div_mod b 16). pose proof (Z.mod_pos_bound b 16). lia. Qed.
Lemma byte_bound u i : 0 ≤ byte u i < 256.
Proof. apply Z.mod_pos_bound. lia. Qed.

Lemma hex2_inj a b : 0 ≤ a < 256 → 0 ≤ b < 256 → hex2 a = hex2 b → a = b.
Proof.
  intros Ha Hb. unfold hex2. destruct (nibbles a Ha) as [H1 H2], (nibbles b Hb) as [H3 H4]. intros [= E1 E2].
  assert (Hd : ∀ x y, 0 ≤ x < 16 → 0 ≤ y < 16 → hex_char x = hex_char y → x = y).
  { intros x y Hx Hy E%(f_equal digit_val). by rewrite (proj1 (digit_char_val x Hx)), (proj1 (digit_char_val y Hy)) in E. }
  apply Hd in E1, E2; [|done..].
  pose proof (Z.div_mod a 16). pose proof (Z.div_mod b 16). lia.
Qed.

Lemma length_hex_bytes u n : ∀ i, String.length (hex_bytes u i n) = (2 * n)%nat.
Proof. induction n as [|n IH]; intros i; [done|]. cbn. rewrite IH. lia. Qed.

Lemma plain_hex_bytes u n : ∀ i, Forall plain (chars (hex_bytes u i n)).
Proof.
  induction n as [|n IH]; intros i; [constructor|]. destruct (nibbles _ (byte_bound u i)).
  cbn. by repeat (constructor; [by apply hex_char_plain|]).
Qed.

Lemma sapp_inj s s' t t' : String.length s = String.length s' → s +:+ t = s' +:+ t' → s = s' ∧ t = t'.
Proof.
  revert s'. induction s as [|c s IH]; intros [|c' s']; cbn; try done. intros [= Hl] [= -> H].
  by destruct (IH s' Hl H) as [-> ->].
Qed.

Lemma hex_bytes_inj u u' n : ∀ i, hex_bytes u i n = hex_bytes u' i n → ∀ j, (i ≤ j < i + n)%nat → byte u j = byte u' j.
Proof.
  induction n as [|n IH]; intros i H j Hj; [lia|]. cbn [hex_bytes] in H. apply sapp_inj in H as [H1 H2]; [|done].
  apply hex2_inj in H1; [|apply byte_bound..]. destruct (decide (j = i)) as [->|Hne]; [done|]. apply (IH (S i) H2). lia.
Qed.

(** A UUID has 16 bytes. *)
Record uuid_ok (u : uuid) : Prop := { uo_length : length u = 16%nat; uo_bytes : Forall (λ b, 0 ≤ b < 256) u }.

Lemma slen_app s t : String.length (s +:+ t) = (String.length s + String.length t)%nat.
Proof. induction s as [|c s IH]; [done|]. cbn. by rewrite IH. Qed.
Lemma uuid_text_length u : String.length (uuid_text u) = UUID_ASCII_SIZE.
Proof. unfold uuid_text. by rewrite !slen_app, !length_hex_bytes. Qed.
Lemma length_chars s : length (chars s) = String.length s.
Proof. induction s as [|c s IH]; [done|]. cbn. by rewrite IH. Qed.

Lemma uuid_text_plain u : Forall plain (chars (uuid_text u)).
Proof.
  unfold uuid_text. rewrite !chars_app. rewrite !Forall_app. split_and!; try apply plain_hex_bytes.
  all: repeat constructor; by intros [=].
Qed.

Lemma uuid_text_inj u u' : uuid_ok u → uuid_ok u' → uuid_text u = uuid_text u' → u = u'.
Proof.
  intros [Hl Hb] [Hl' Hb']. unfold uuid_text. intros H.
  do 9 (apply sapp_inj in H as [? H]; [|by rewrite ?length_hex_bytes]).
  assert (Hbyte : ∀ j, (j < 16)%nat → byte u j = byte u' j).
  { intros j Hj. assert (j < 4 ∨ 4 ≤ j < 6 ∨ 6 ≤ j < 8 ∨ 8 ≤ j < 10 ∨ 10 ≤ j < 16)%nat as [?|[?|[?|[?|?]]]] by lia;
      match goal with E : hex_bytes u _ _ = _ |- _ => apply (hex_bytes_inj _ _ _ _ E); lia end. }
  apply (nth_ext _ _ 0 0); [congruence|]. intros j Hj. specialize (Hbyte j ltac:(lia)). unfold byte in Hbyte.
  assert (Hin : ∀ w, length w = 16%nat → Forall (λ b, 0 ≤ b < 256) w → nth j w 0 mod 256 = nth j w 0).
  { intros w Hw Hf. apply Z.mod_small. rewrite Forall_forall in Hf. apply Hf. apply list_elem_of_In, nth_In. lia. }
  by rewrite !Hin in Hbyte.
Qed.

#[local] Opaque uuid_text.

Lemma concat_seq_S {A} (f : nat → list A) i : concat (f <$> seq 0 (S i)) = concat (f <$> seq 0 i) ++ f i.
Proof. rewrite seq_S, fmap_app, concat_app. cbn. by rewrite app_nil_r. Qed.

(** How [cuda-checkpoint] documents the map: [oldUuid1=newUuid1,oldUuid2=newUuid2,...]. *)
Definition parse_map (s : string) : option (list (string * string)) := mapM (strchr equals_char) (strtok comma_char s).
Definition pair_text (p : string * string) : string := p.1 +:+ Str equals_char p.2.
Definition map_text (pairs : list (string * string)) : string := join comma_char (pair_text <$> pairs).

Lemma parse_map_text pairs :
  Forall (λ p, Forall plain (chars p.1) ∧ Forall plain (chars p.2)) pairs → parse_map (map_text pairs) = Some pairs.
Proof.
  intros Hp. unfold parse_map, map_text. rewrite strtok_join.
  - apply mapM_Some. induction Hp as [|p pairs [H1 H2] _ IH]; constructor; [|done]. unfold pair_text.
    rewrite strchr_app; [by destruct p|]. intros Hin. rewrite Forall_forall in H1. by destruct (H1 _ Hin) as (_ & _ & []).
  - apply Forall_fmap. eapply Forall_impl; [exact Hp|]. intros [a b] [H1 H2]. unfold pair_text. cbn in *. split.
    + by destruct a.
    + rewrite chars_app. intros [Hin|Hin]%elem_of_app.
      * rewrite Forall_forall in H1. by destruct (H1 _ Hin) as (_ & [] & _).
      * cbn in Hin. apply elem_of_cons in Hin as [[=]|Hin]. rewrite Forall_forall in H2. by destruct (H2 _ Hin) as (_ & [] & _).
Qed.

Lemma chars_join_snoc d ts t : chars (join d (ts ++ [t])) = concat ((λ u, chars u ++ [d]) <$> ts) ++ chars t.
Proof.
  induction ts as [|u [|w ts] IH]; [done| |].
  - cbn. rewrite chars_app. cbn. by rewrite app_nil_r, <- app_assoc.
  - change ((u :: w :: ts) ++ [t]) with (u :: w :: (ts ++ [t])). rewrite join_cons, chars_app.
    cbn [String.list_ascii_of_string]. change (w :: ts ++ [t]) with ((w :: ts) ++ [t]). rewrite IH.
    rewrite (fmap_cons _ u). cbn [concat]. by rewrite <- !app_assoc.
Qed.

Lemma c_string_until s r : NUL ∉ chars s → c_string (chars s ++ NUL :: r) = s.
Proof.
  induction s as [|c s IH]; cbn; [done|]. intros [Hc Hs]%not_elem_of_cons. rewrite bool_decide_eq_false_2 by congruence.
  by rewrite IH.
Qed.

Lemma wp_store {S} off cs (l1 l2 l3 : list ascii) (Q : list ascii → S → Prop) s : length l1 = off → length cs = length l2 →
  Q (l1 ++ cs ++ l3) s → wp (store off cs (l1 ++ l2 ++ l3)) Q s.
Proof.
  intros <- Hl HQ. unfold store. rewrite bool_decide_eq_true_2 by (rewrite !length_app; lia). apply wp_ret.
  rewrite take_app_length, drop_app_ge by lia. replace (length l1 + length cs - length l1)%nat with (length l2) by lia.
  by rewrite drop_app_length.
Qed.

(** ** What the driver and [cuda-checkpoint] do *)

Inductive phase := Running | Locked | Checkpointed.

(** The GPUs, the GPU each context is on, the current context, and the phase of the process. *)
Record mview := MkMView { mv_gpus : list uuid; mv_ctxs : gmap Z nat; mv_current : option Z; mv_phase : phase }.
Definition with_ctxs (x : gmap Z nat) (v : mview) := MkMView (mv_gpus v) x (mv_current v) (mv_phase v).
Definition with_current (c : Z) (v : mview) := MkMView (mv_gpus v) (mv_ctxs v) (Some c) (mv_phase v).
Definition with_phase (p : phase) (v : mview) := MkMView (mv_gpus v) (mv_ctxs v) (mv_current v) p.

Inductive ckpt_action := ALock | ACheckpoint | ARestore (pairs : list (string * string)) | AUnlock.

(** The map sends GPU [d] to GPU [d']. *)
Definition moves (pairs : list (string * string)) (us : list uuid) (d d' : nat) : Prop :=
  ∃ old new, us !! d = Some old ∧ us !! d' = Some new ∧ (uuid_text old, uuid_text new) ∈ pairs.

(** The states of a checkpoint as the driver documents them; a restore names every GPU once on each side and moves
    every context along the map. *)
Inductive performs : ckpt_action → mview → mview → Prop :=
  | perform_lock v : mv_phase v = Running → performs ALock v (with_phase Locked v)
  | perform_checkpoint v : mv_phase v = Locked → performs ACheckpoint v (with_phase Checkpointed v)
  | perform_restore v pairs ctxs : mv_phase v = Checkpointed →
      pairs.*1 ≡ₚ uuid_text <$> mv_gpus v → pairs.*2 ≡ₚ uuid_text <$> mv_gpus v →
      map_Forall2 (λ _, moves pairs (mv_gpus v)) (mv_ctxs v) ctxs →
      performs (ARestore pairs) v (with_phase Locked (with_ctxs ctxs v))
  | perform_unlock v : mv_phase v = Locked → performs AUnlock v (with_phase Running v).

Lemma performs_inv a v v' : performs a v v' → match a with
  | ALock => v' = with_phase Locked v
  | ACheckpoint => v' = with_phase Checkpointed v
  | ARestore pairs => ∃ ctxs, v' = with_phase Locked (with_ctxs ctxs v) ∧
      map_Forall2 (λ _, moves pairs (mv_gpus v)) (mv_ctxs v) ctxs
  | AUnlock => v' = with_phase Running v
  end.
Proof. intros []; try done. by eexists. Qed.

Definition texts (p : uuid * uuid) : string * string := (uuid_text p.1, uuid_text p.2).

(** The arguments of [cuda-checkpoint] for an action. *)
Inductive tool_args (pid : string) : ckpt_action → list string → Prop :=
  | args_lock : tool_args pid ALock ["--action"; "lock"; "--pid"; pid]%string
  | args_checkpoint : tool_args pid ACheckpoint ["--action"; "checkpoint"; "--pid"; pid]%string
  | args_restore pairs s : parse_map s = Some pairs →
      tool_args pid (ARestore pairs) ["--action"; "restore"; "--pid"; pid; "--device-map"; s]%string
  | args_unlock : tool_args pid AUnlock ["--action"; "unlock"; "--pid"; pid]%string.

Class MigrationLaws (G : Type) {MG : Migration G} := {
  mig_view : G → mview;
  unsetenv_law g name : ∃ g', unsetenv name g = Ret 0 g' ∧ mig_view g' = mig_view g;
  cuInit_law g : ∃ g', cuInit 0 g = Ret 0 g' ∧ mig_view g' = mig_view g;
  retain_law g d : (d < length (mv_gpus (mig_view g)))%nat → ∃ c g', primary_retain (Z.of_nat d) g = Ret (0, c) g' ∧
    mig_view g' = with_ctxs (<[c := d]> (mv_ctxs (mig_view g))) (mig_view g);
  set_current_law g c : is_Some (mv_ctxs (mig_view g) !! c) →
    ∃ g', cuCtxSetCurrent c g = Ret 0 g' ∧ mig_view g' = with_current c (mig_view g);
  get_device_law g c d : mv_current (mig_view g) = Some c → mv_ctxs (mig_view g) !! c = Some d →
    ∃ g', cuCtxGetDevice g = Ret (0, Z.of_nat d) g' ∧ mig_view g' = mig_view g;
  count_law g : ∃ g', cuDeviceGetCount g = Ret (0, Z.of_nat (length (mv_gpus (mig_view g)))) g' ∧ mig_view g' = mig_view g;
  uuid_law g d u : mv_gpus (mig_view g) !! d = Some u →
    ∃ g', cuDeviceGetUuid (Z.of_nat d) g = Ret (0, u) g' ∧ mig_view g' = mig_view g;
  nvml_init_law g : ∃ g', nvmlInit g = Ret 0 g' ∧ mig_view g' = mig_view g;
  nvml_handle_law g : ∃ h g', nvmlDeviceGetHandleByIndex 0 g = Ret (0, h) g' ∧ mig_view g' = mig_view g;
  (* the demonstration has to be run with persistence mode enabled *)
  persistence_law g h : ∃ g', nvmlDeviceGetPersistenceMode h g = Ret (0, NVML_FEATURE_ENABLED) g' ∧ mig_view g' = mig_view g;
  lock_law g pid v : performs ALock (mig_view g) v →
    ∃ g', cuCheckpointProcessLock pid g = Ret 0 g' ∧ performs ALock (mig_view g) (mig_view g');
  checkpoint_law g pid v : performs ACheckpoint (mig_view g) v →
    ∃ g', cuCheckpointProcessCheckpoint pid g = Ret 0 g' ∧ performs ACheckpoint (mig_view g) (mig_view g');
  restore_law g pid pairs v : performs (ARestore (texts <$> pairs)) (mig_view g) v →
    ∃ g', cuCheckpointProcessRestore pid pairs g = Ret 0 g' ∧ performs (ARestore (texts <$> pairs)) (mig_view g) (mig_view g');
  unlock_law g pid v : performs AUnlock (mig_view g) v →
    ∃ g', cuCheckpointProcessUnlock pid g = Ret 0 g' ∧ performs AUnlock (mig_view g) (mig_view g');
  (* [cuda-checkpoint] does the same and ends with 0 *)
  tool_law g pid a args v : tool_args pid a args → performs a (mig_view g) v →
    ∃ child g1 g2, fork_exec ("cuda-checkpoint"%string :: args) g = Ret child g1 ∧ 0 ≤ child ∧
      waitpid child g1 = Ret (child, Exited 0) g2 ∧ performs a (mig_view g) (mig_view g2)
}.

Section Demos.
Context {G : Type} {MG : Migration G} {ML : MigrationLaws G} (self_pid : Z).
Abbreviation demo := (demo G).
Implicit Types (s : demo) (v : mview).

Definition at_view v (out : list string) s : Prop := mig_view (gpu s) = v ∧ stdout s = out.

Lemma wp_gpu_sys {A} (m : M G A) a g' s (Q : A → demo → Prop) : m (gpu s) = Ret a g' →
  (∀ s', at_view (mig_view g') (stdout s) s' → Q a s') → wp (sys m) Q s.
Proof. intros Hm HQ. apply wp_zoom. eapply wp_intro; [exact Hm|]. by apply HQ. Qed.

Lemma wp_check (m : M G Z) v' out s (Q : unit → demo → Prop) : (∃ g', m (gpu s) = Ret 0 g' ∧ mig_view g' = v') →
  stdout s = out → (∀ s', at_view v' out s' → Q tt s') → wp (CHECK_OK m) Q s.
Proof.
  intros (g' & Hm & <-) <- HQ. apply wp_bind. eapply wp_gpu_sys; [exact Hm|]. intros s' Hs'. apply wp_assert; [done|]. by apply HQ.
Qed.

Lemma wp_checked {A} (m : M G (Z * A)) a v' out s (Q : A → demo → Prop) :
  (∃ g', m (gpu s) = Ret (0, a) g' ∧ mig_view g' = v') → stdout s = out → (∀ s', at_view v' out s' → Q a s') →
  wp (CHECK_VALUE m) Q s.
Proof.
  intros (g' & Hm & <-) <- HQ. apply wp_bind. eapply wp_gpu_sys; [exact Hm|]. intros s' Hs'. apply wp_bind, wp_assert; [done|].
  apply wp_ret. by apply HQ.
Qed.

(** The UUID of GPU [i]; the next GPU. *)
Definition gpu_at (us : list uuid) (i : nat) : uuid := nth i us [].
Definition next (us : list uuid) (i : nat) : nat := (i + 1) mod length us.
Definition rotation (us : list uuid) : list (uuid * uuid) :=
  (λ i, (gpu_at us i, gpu_at us (next us i))) <$> seq 0 (length us).

Lemma next_lt us i : us ≠ [] → (next us i < length us)%nat.
Proof. intros Hne. apply Nat.mod_upper_bound. by destruct us. Qed.
Lemma used_gpus (us : list uuid) (i : nat) : (i < length us)%nat → us ≠ [].
Proof. intros Hi ->. simpl in Hi. lia. Qed.
Lemma gpu_at_lookup us i : (i < length us)%nat → us !! i = Some (gpu_at us i).
Proof. intros Hi. destruct (lookup_lt_is_Some_2 us i Hi) as [u Hu]. unfold gpu_at. by rewrite (nth_lookup_Some _ _ _ _ Hu). Qed.

Lemma wp_uuid v out i s (Q : uuid → demo → Prop) : at_view v out s → (i < length (mv_gpus v))%nat →
  (∀ s', at_view v out s' → Q (gpu_at (mv_gpus v) i) s') → wp (CHECK_VALUE (cuDeviceGetUuid (Z.of_nat i))) Q s.
Proof.
  intros [Hv Ho] Hi HQ. eapply (wp_checked _ _ v); [|done|exact HQ].
  destruct (uuid_law (gpu s) i (gpu_at (mv_gpus v) i)) as (g' & Hg & Hv'); [rewrite Hv; by apply gpu_at_lookup|].
  exists g'. split; [exact Hg|congruence].
Qed.

(** ** Building the device map *)

Section Map.
Context (v : mview) (out : list string).
Abbreviation us := (mv_gpus v).
Abbreviation n := (length us).

Definition uuid_chars (i : nat) : list ascii := chars (uuid_text (gpu_at us i)).
Definition entry (i : nat) : list ascii := uuid_chars i ++ [equals_char] ++ uuid_chars (next us i).
Definition entries (i : nat) : list ascii := concat ((λ j, entry j ++ [comma_char]) <$> seq 0 i).

Lemma length_uuid_chars i : length (uuid_chars i) = 40%nat.
Proof. unfold uuid_chars. by rewrite length_chars, uuid_text_length. Qed.
Lemma length_entry i : length (entry i) = 81%nat.
Proof. unfold entry. by rewrite !length_app, !length_uuid_chars. Qed.
Lemma entries_S i : entries (S i) = entries i ++ entry i ++ [comma_char].
Proof. exact (concat_seq_S (λ j, entry j ++ [comma_char]) i). Qed.
Lemma length_entries i : length (entries i) = (i * sizeof_pair)%nat.
Proof. induction i as [|i IH]; [done|]. rewrite entries_S, !length_app, IH, length_entry. unfold sizeof_pair. simpl. lia. Qed.

Lemma NUL_uuid i : NUL ∉ uuid_chars i.
Proof. intros Hin. pose proof (uuid_text_plain (gpu_at us i)) as Hp. rewrite Forall_forall in Hp. by destruct (Hp _ Hin) as [[] _]. Qed.
Lemma NUL_entry i : NUL ∉ entry i.
Proof.
  unfold entry. rewrite !not_elem_of_app, list_elem_of_singleton. split_and!; [apply NUL_uuid| |apply NUL_uuid]. by intros [=].
Qed.

(** The buffer once [i] pairs are written: the last one ends with the NUL. *)
Definition filled (i : nat) (acc : option nat * list ascii) : Prop :=
  match i with
  | O => acc = (None, replicate (n * sizeof_pair) NUL)
  | S k => acc = (Some k, entries k ++ entry k ++ [NUL] ++ replicate ((n - i) * sizeof_pair) NUL)
  end.

Lemma wp_ascii_uuid str i (l1 l2 l3 : list ascii) (Q : list ascii → demo → Prop) s : at_view v out s → (i < n)%nat →
  length l1 = str → length l2 = 41%nat → (∀ s', at_view v out s' → Q (l1 ++ (uuid_chars i ++ [NUL]) ++ l3) s') →
  wp (ascii_uuid str i (l1 ++ l2 ++ l3)) Q s.
Proof.
  intros Hs Hi Hl1 Hl2 HQ. apply wp_bind, (wp_uuid v out); [done..|]. intros s' Hs'.
  apply wp_bind, wp_store; [done|by rewrite length_app, length_chars, uuid_text_length|]. apply wp_bind, wp_assert.
  - by rewrite uuid_text_length.
  - apply wp_ret. by apply HQ.
Qed.

Lemma add_pair_wp i acc s : at_view v out s → (i < n)%nat → filled i acc →
  wp (add_pair n acc i) (λ acc' s', at_view v out s' ∧ filled (S i) acc') s.
Proof.
  intros Hs Hi Hf. unfold add_pair. destruct acc as [prev buf]. apply wp_bind.
  apply (wp_mono _ (λ b s', at_view v out s' ∧ b = entries i ++ replicate ((n - i) * sizeof_pair) NUL)).
  { destruct i as [|k]; simpl in Hf; simplify_eq.
    - apply wp_ret. by rewrite Nat.sub_0_r.
    - rewrite (app_assoc (entries k)). apply (wp_store _ _ _ [NUL]); [rewrite length_app, length_entries, length_entry; done|done|].
      split; [done|]. rewrite entries_S. by rewrite <- !app_assoc. }
  clear Hs s. intros b s [Hs ->]. cbv beta.
  replace ((n - i) * sizeof_pair)%nat with (41 + (41 + (n - S i) * sizeof_pair))%nat by (unfold sizeof_pair; lia).
  rewrite !replicate_add. apply wp_bind, wp_ascii_uuid; [done..|apply length_entries|done|]. clear s Hs. intros s Hs.
  rewrite <- (app_assoc (uuid_chars i)), (app_assoc (entries i)), (app_assoc _ [NUL]).
  apply wp_bind, wp_ascii_uuid; [done|by apply next_lt, (used_gpus _ i)| |done|].
  { rewrite !length_app, length_entries, length_uuid_chars. unfold at_new. simpl. lia. }
  clear s Hs. intros s Hs. rewrite <- (app_assoc _ [NUL]). apply wp_bind, wp_store; [|done|].
  { rewrite length_app, length_entries, length_uuid_chars. done. }
  apply wp_ret. split; [done|]. cbn [filled]. f_equal. unfold entry. by rewrite <- !app_assoc.
Qed.

Lemma build_wp s : at_view v out s → us ≠ [] →
  wp (build_uuid_map n) (λ b s', at_view v out s' ∧ length b = (n * sizeof_pair)%nat ∧
    c_string b = map_text (texts <$> rotation us)) s.
Proof.
  intros Hs Hne. unfold build_uuid_map. apply wp_bind.
  apply (wp_mono _ (λ acc s', at_view v out s' ∧ filled n acc)).
  { apply (wp_foldM_seq us (λ pre acc s', at_view v out s' ∧ filled (length pre) acc)); [done|].
    intros pre x post acc s1 Hus [H1 Hf]. rewrite length_app, Nat.add_1_r. apply add_pair_wp; [done| |done].
    rewrite Hus, length_app. simpl. lia. }
  intros [prev b] s1 [H1 Hf]. apply wp_ret. split; [done|]. destruct n as [|k] eqn:Hn; [by apply nil_length_inv in Hn|].
  unfold filled in Hf. rewrite Hn, Nat.sub_diag in Hf. injection Hf as -> ->. cbn [snd]. split.
  - rewrite !length_app, length_entries, length_entry. unfold sizeof_pair. simpl. lia.
  - assert (Htxt : entries k ++ entry k = chars (map_text (texts <$> rotation us))).
    { unfold map_text, rotation. rewrite Hn, seq_S, !fmap_app. cbn [fmap list_fmap]. rewrite chars_join_snoc. f_equal.
      unfold entries. f_equal. rewrite <- !list_fmap_compose. apply list_fmap_ext. intros j i _. cbn. unfold pair_text, entry.
      cbn. by rewrite chars_app. }
    rewrite app_assoc, Htxt. apply c_string_until. rewrite <- Htxt. intros [Hin|Hin]%elem_of_app; [|by apply NUL_entry in Hin].
    unfold entries in Hin. apply list_elem_of_In, in_concat in Hin as (l & Hl & Hin).
    apply list_elem_of_In, list_elem_of_fmap in Hl as (j & -> & _). apply list_elem_of_In in Hin.
    apply elem_of_app in Hin as [Hin|[=]%list_elem_of_singleton]. by apply NUL_entry in Hin.
Qed.
End Map.

(** ** Going round *)

Section Tour.
Context (us : list uuid) (Hne : us ≠ []) (Huniq : NoDup us) (Hok : Forall uuid_ok us).
Abbreviation n := (length us).
Abbreviation pairs := (texts <$> rotation us).

(** The process runs, its current context on GPU [d]. *)
Record touring (d : nat) v : Prop := {
  to_gpus : mv_gpus v = us;
  to_running : mv_phase v = Running;
  to_current : ∃ c, mv_current v = Some c ∧ mv_ctxs v !! c = Some d;
  to_ctxs : map_Forall (λ _ d, (d < n)%nat) (mv_ctxs v)
}.

Lemma gpu_at_seq : gpu_at us <$> seq 0 n = us.
Proof.
  apply list_eq. intros i. rewrite list_lookup_fmap. destruct (decide (i < n)%nat) as [Hi|Hi].
  - rewrite lookup_seq_lt by done. cbn. by rewrite (gpu_at_lookup us i).
  - rewrite lookup_seq_ge, lookup_ge_None_2 by lia. done.
Qed.

Lemma next_seq : next us <$> seq 0 n ≡ₚ seq 0 n.
Proof.
  destruct n as [|k] eqn:Hn; [done|]. rewrite seq_S at 1. rewrite fmap_app. cbn [fmap list_fmap].
  assert (Hlast : next us (0 + k) = 0%nat) by (unfold next; rewrite Hn, Nat.add_1_r; apply Nat.Div0.mod_same).
  rewrite Hlast. assert (Hinit : next us <$> seq 0 k = seq 1 k).
  { rewrite <- fmap_S_seq. apply list_fmap_ext. intros j i [-> Hi]%lookup_seq. unfold next. rewrite Hn, Nat.mod_small by lia. lia. }
  rewrite Hinit. by rewrite Permutation_app_comm.
Qed.

Lemma pairs_complete : pairs.*1 ≡ₚ uuid_text <$> us ∧ pairs.*2 ≡ₚ uuid_text <$> us.
Proof.
  unfold rotation. rewrite <- !list_fmap_compose. split.
  - transitivity (uuid_text <$> (gpu_at us <$> seq 0 n)); [by rewrite <- list_fmap_compose|by rewrite gpu_at_seq].
  - transitivity (uuid_text <$> (gpu_at us <$> (next us <$> seq 0 n))).
    + by rewrite <- !list_fmap_compose.
    + by rewrite next_seq, gpu_at_seq.
Qed.

Lemma moves_next d d' : moves pairs us d d' ↔ (d < n)%nat ∧ d' = next us d.
Proof.
  split.
  - intros (old & new & Ho & Hn & ([o w] & [Ho' Hw']%pair_eq & Hin)%list_elem_of_fmap). split; [by eapply lookup_lt_Some|].
    apply list_elem_of_fmap in Hin as (i & [-> ->]%pair_eq & Hi%elem_of_seq).
    assert (Hinj : ∀ a b, a ∈ us → b ∈ us → uuid_text a = uuid_text b → a = b).
    { intros a b Ha Hb. rewrite Forall_forall in Hok. apply uuid_text_inj; by apply Hok. }
    pose proof (gpu_at_lookup us i ltac:(lia)) as Hgi. pose proof (gpu_at_lookup us (next us i) (next_lt us i Hne)) as Hgn.
    apply Hinj in Ho', Hw'; [|by eapply list_elem_of_lookup_2..]. subst old new.
    rewrite (NoDup_lookup us d i _ Huniq Ho Hgi). by apply (NoDup_lookup us d' (next us i) _ Huniq Hn Hgn).
  - intros [Hd ->]. exists (gpu_at us d), (gpu_at us (next us d)).
    split; [by apply gpu_at_lookup|]. split; [by apply gpu_at_lookup, next_lt|]. apply list_elem_of_fmap.
    exists (gpu_at us d, gpu_at us (next us d)). split; [done|]. apply list_elem_of_fmap. exists d. split; [done|].
    apply elem_of_seq. lia.
Qed.

(** The four actions of a round, whoever performs them. *)
Definition enacts (a : ckpt_action) (m : M demo unit) : Prop := ∀ v v' out s, at_view v out s → performs a v v' →
  wp m (λ _ s', ∃ v'', performs a v v'' ∧ at_view v'' out s') s.

Lemma wp_round d v out s m1 m2 m3 m4 : enacts ALock m1 → enacts ACheckpoint m2 → enacts (ARestore pairs) m3 →
  enacts AUnlock m4 → touring d v → at_view v out s →
  wp (_ ← print_current_ctx_uuid; _ ← m1; _ ← m2; _ ← m3; m4)
    (λ _ s', ∃ v', touring (next us d) v' ∧ at_view v' (out ++ [hex_bytes (gpu_at us d) 0 16]) s') s.
Proof.
  intros Hm1 Hm2 Hm3 Hm4 [Hg Hr (c & Hc & Hd) Hall] [Hv Ho]. pose proof (map_Forall_lookup_1 _ _ _ _ Hall Hd) as Hlt. cbv beta in Hlt.
  apply wp_bind. unfold print_current_ctx_uuid. apply wp_bind, (wp_checked _ (Z.of_nat d) v out); [|done|].
  { destruct (get_device_law (gpu s) c d) as (g' & H1 & H2); [by rewrite Hv..|]. exists g'. by rewrite H2. }
  clear s Hv Ho. intros s Hs. apply wp_bind, (wp_uuid v out); [done|by rewrite Hg|]. rewrite Hg. clear s Hs. intros s [Hv Ho].
  apply wp_modify. set (out' := out ++ _). assert (Hs : at_view v out' (MkDemo (gpu s) (stdout s ++ [hex_bytes (gpu_at us d) 0 16])))
    by (split; [done|by rewrite Ho]). clear Hv Ho. generalize dependent Hs. generalize (MkDemo (gpu s) (stdout s ++ [hex_bytes (gpu_at us d) 0 16])).
  clear s. intros s Hs. apply wp_bind. eapply wp_mono; [eapply (Hm1 _ _ _ _ Hs); by constructor|]. clear s Hs.
  intros _ s (v1 & ->%performs_inv & Hs). apply wp_bind. eapply wp_mono; [eapply (Hm2 _ _ _ _ Hs); by constructor|].
  clear s Hs. intros _ s (v2 & ->%performs_inv & Hs). apply wp_bind.
  assert (Hgoing : map_Forall2 (λ _, moves pairs us) (mv_ctxs v) (next us <$> mv_ctxs v)).
  { intros k. rewrite lookup_fmap. destruct (mv_ctxs v !! k) as [x|] eqn:Hx; constructor. apply moves_next.
    split; [by apply (map_Forall_lookup_1 _ _ _ _ Hall Hx)|done]. }
  eapply wp_mono; [eapply (Hm3 _ _ _ _ Hs), perform_restore; cbn; rewrite ?Hg; [done|apply pairs_complete..|exact Hgoing]|].
  clear s Hs. intros _ s (v3 & (ctxs & -> & Hmv)%performs_inv & Hs). cbn in Hmv. rewrite Hg in Hmv.
  eapply wp_mono; [eapply (Hm4 _ _ _ _ Hs); by constructor|]. clear s Hs. intros _ s (v4 & ->%performs_inv & Hs).
  eexists. split; [|exact Hs]. split; [done|done| |].
  - exists c. split; [done|]. cbn. specialize (Hmv c). rewrite Hd in Hmv. inversion Hmv as [? d' Hdd E1 E2|].
    by apply moves_next in Hdd as [_ ->].
  - cbn. intros k d' Hk. specialize (Hmv k). rewrite Hk in Hmv. inversion Hmv as [x ? Hx E1 E2|]. apply moves_next in Hx as [_ ->].
    by apply next_lt.
Qed.

Lemma cli_enacts a args : tool_args (pretty self_pid) a args → enacts a (CUDA_CHECKPOINT args).
Proof.
  intros Ha v v' out s [Hv Ho] Hp. rewrite <- Hv in Hp.
  destruct (tool_law (gpu s) _ a args v' Ha Hp) as (child & g1 & g2 & H1 & Hc & H2 & Heff). rewrite Hv in Heff.
  apply wp_bind, wp_zoom. eapply wp_intro; [exact H1|]. apply wp_bind, wp_assert; [by apply bool_decide_eq_true_2|].
  apply wp_bind, wp_zoom. eapply wp_intro; [exact H2|]. apply wp_bind, wp_assert; [by apply bool_decide_eq_true_2|].
  apply wp_assert; [done|]. by exists (mig_view g2).
Qed.

Lemma api_enacts a (m : M G Z) : (∀ g v, performs a (mig_view g) v → ∃ g', m g = Ret 0 g' ∧ performs a (mig_view g) (mig_view g')) →
  enacts a (CHECK_OK m).
Proof.
  intros Hm v v' out s [Hv Ho] Hp. destruct (Hm (gpu s) v') as (g' & H1 & H2); [by rewrite Hv|]. rewrite Hv in H2.
  eapply wp_check; [by eexists|exact Ho|]. intros s' Hs'. by eexists.
Qed.

(** What a tour prints. *)
Definition line (d : nat) : string := hex_bytes (gpu_at us d) 0 16.
Definition tour_lines : list string := line <$> (seq 0 n ++ [0%nat]).

Lemma wp_tour (round : M demo unit) v out s :
  (∀ d v out s, touring d v → at_view v out s →
     wp round (λ _ s', ∃ v', touring (next us d) v' ∧ at_view v' (out ++ [line d]) s') s) →
  touring 0 v → at_view v out s →
  wp (_ ← foldM (λ _ _, round) tt (seq 0 n); _ ← print_current_ctx_uuid; mret 0)
    (λ r s', r = 0 ∧ ∃ v', touring 0 v' ∧ at_view v' (out ++ tour_lines) s') s.
Proof.
  intros Hround Ht Hs. apply wp_bind.
  apply (wp_mono _ (λ _ s', ∃ v', touring (n mod n) v' ∧ at_view v' (out ++ (line <$> seq 0 n)) s')).
  { apply (wp_foldM_seq us (λ pre _ s', ∃ v', touring (length pre mod n) v' ∧ at_view v' (out ++ (line <$> seq 0 (length pre))) s')).
    - exists v. rewrite Nat.Div0.mod_0_l. cbn. by rewrite app_nil_r.
    - intros pre x post [] s1 Hus (v1 & H1 & Hs1). eapply wp_mono; [by apply (Hround _ _ _ _ H1 Hs1)|].
      assert (Hpre : (length pre < n)%nat) by (rewrite Hus, length_app; simpl; lia).
      intros _ s2 (v2 & H2 & Hs2). exists v2. rewrite length_app, Nat.add_1_r, seq_S, fmap_app, app_assoc. split.
      + rewrite Nat.mod_small in H2 by done. unfold next in H2. by rewrite Nat.add_1_r in H2.
      + rewrite Nat.mod_small in Hs2 by done. exact Hs2. }
  intros _ s1 (v1 & H1 & Hs1). rewrite Nat.Div0.mod_same in H1. destruct H1 as [Hg Hr (c & Hc & Hd) Hall]. destruct Hs1 as [Hv Ho].
  unfold print_current_ctx_uuid. apply wp_bind, wp_bind, (wp_checked _ (Z.of_nat 0) v1 (out ++ (line <$> seq 0 n))); [|done|].
  { destruct (get_device_law (gpu s1) c 0) as (g' & H1 & H2); [by rewrite Hv..|]. exists g'. by rewrite H2. }
  clear s1 Hv Ho. intros s1 Hs1. pose proof (map_Forall_lookup_1 _ _ _ _ Hall Hd) as Hlt.
  apply wp_bind, (wp_uuid v1 (out ++ (line <$> seq 0 n))); [done|by rewrite Hg|]. clear s1 Hs1. intros s1 [Hv Ho].
  apply wp_modify, wp_ret. split; [done|]. exists v1. split; [split; try done; by exists c|]. split; [done|].
  cbn. unfold tour_lines. rewrite Ho, Hg, fmap_app, app_assoc. done.
Qed.

Lemma map_parses : parse_map (map_text pairs) = Some pairs.
Proof.
  apply parse_map_text. apply Forall_fmap, Forall_forall. intros p _. split; apply uuid_text_plain.
Qed.

(** A process that may start: it runs, and its contexts are on GPUs that exist. *)
Record fresh_process v : Prop := {
  fp_gpus : mv_gpus v = us;
  fp_running : mv_phase v = Running;
  fp_ctxs : map_Forall (λ _ d, (d < n)%nat) (mv_ctxs v)
}.

Lemma setup_wp v out s : fresh_process v → at_view v out s →
  wp setup_cuda (λ k s', k = n ∧ ∃ v', touring 0 v' ∧ at_view v' out s') s.
Proof.
  intros [Hg Hr Hall] [Hv Ho]. unfold setup_cuda. apply wp_bind, (wp_check _ v out); [|done|].
  { destruct (cuInit_law (gpu s)) as (g' & H1 & H2). exists g'. by rewrite H2. }
  clear s Hv Ho. intros s [Hv Ho]. assert (Hn : (0 < n)%nat) by (destruct us; [done|simpl; lia]).
  destruct (retain_law (gpu s) 0) as (c & g' & H1 & H2); [by rewrite Hv, Hg|]. rewrite Hv in H2.
  apply wp_bind. eapply wp_checked; [by exists g'|exact Ho|]. clear s Hv Ho H1 H2 g'. intros s [Hv Ho].
  destruct (set_current_law (gpu s) c) as (g' & H1 & H2); [rewrite Hv; cbn; by rewrite lookup_insert_eq|]. rewrite Hv in H2.
  apply wp_bind. eapply wp_check; [by exists g'|exact Ho|]. clear s Hv Ho H1 H2 g'. intros s [Hv Ho].
  destruct (count_law (gpu s)) as (g' & H1 & H2). rewrite Hv in H1, H2. cbn in H1. rewrite Hg in H1.
  apply wp_bind. eapply wp_checked; [by exists g'|exact Ho|]. clear s Hv Ho H1 H2 g'. intros s Hs. apply wp_ret.
  split; [by rewrite Nat2Z.id|]. eexists. split; [|exact Hs]. split; [done|done| |].
  - exists c. split; [done|]. cbn. by rewrite lookup_insert_eq.
  - cbn. by apply map_Forall_insert_2.
Qed.

Lemma unset_wp v out name s (Q : unit → demo → Prop) : at_view v out s → (∀ s', at_view v out s' → Q tt s') →
  wp (CHECK_OK (unsetenv name)) Q s.
Proof.
  intros [Hv Ho] HQ. eapply wp_check; [|exact Ho|exact HQ]. destruct (unsetenv_law (gpu s) name) as (g' & H1 & H2).
  exists g'. by rewrite H2.
Qed.

Lemma cli_wp v out s : fresh_process v → at_view v out s → (String.length (pretty self_pid) < 10)%nat →
  wp (cli_main self_pid) (λ r s', r = 0 ∧ ∃ v', touring 0 v' ∧ at_view v' (out ++ tour_lines) s') s.
Proof.
  intros Hf Hs Hpid. unfold cli_main. apply wp_bind, (unset_wp v out); [done|]. clear s Hs. intros s Hs.
  apply wp_bind, (unset_wp v out); [done|]. clear s Hs. intros s Hs. apply wp_bind.
  eapply wp_mono; [by apply (setup_wp v out)|]. clear s Hs v Hf. intros k s (-> & v & Ht & Hs). apply wp_bind.
  eapply wp_mono; [rewrite <- (to_gpus _ _ Ht); apply (build_wp v out); [done|by rewrite (to_gpus _ _ Ht)]|].
  clear s Hs. intros b s (Hs & _ & Hb). rewrite (to_gpus _ _ Ht) in Hb. unfold sprintf.
  rewrite bool_decide_eq_true_2 by done. apply wp_bind, wp_ret. apply (wp_tour _ v); [|done|done].
  clear s Hs v Ht out. intros d v out s Ht Hs. apply (wp_round d v); [| | | |done|done].
  - apply cli_enacts, args_lock.
  - apply cli_enacts, args_checkpoint.
  - apply cli_enacts, args_restore. rewrite Hb. apply map_parses.
  - apply cli_enacts, args_unlock.
Qed.

(** The API program collects the pairs it passes. *)
Lemma gpu_pairs_wp v out s : mv_gpus v = us → at_view v out s →
  wp (foldM (gpu_pair n) [] (seq 0 n)) (λ ps s', ps = rotation us ∧ at_view v out s') s.
Proof.
  intros Hg Hs. unfold rotation. set (f := λ i, (gpu_at us i, gpu_at us (next us i))).
  apply (wp_foldM_seq us (λ pre ps s', ps = f <$> seq 0 (length pre) ∧ at_view v out s')); [done|].
  intros pre x post ps s1 Hus [-> H1]. assert (Hlt : (length pre < n)%nat) by (rewrite Hus, length_app; simpl; lia).
  apply wp_bind, (wp_uuid v out); [done|by rewrite Hg|]. clear s1 H1. intros s1 H1.
  apply wp_bind, (wp_uuid v out); [done|rewrite Hg; by apply next_lt|]. clear s1 H1. intros s1 H1. apply wp_ret.
  split; [|done].
  replace (length (pre ++ [x])) with (S (length pre)) by (rewrite length_app; simpl; lia). by rewrite seq_S, fmap_app, Hg.
Qed.

Lemma persistence_wp v out s (Q : unit → demo → Prop) : at_view v out s → (∀ s', at_view v out s' → Q tt s') →
  wp check_persistence_mode Q s.
Proof.
  intros [Hv Ho] HQ. unfold check_persistence_mode. destruct (nvml_init_law (gpu s)) as (g' & H1 & H2).
  apply wp_bind, (wp_check _ v out); [exists g'; by rewrite H2|done|]. clear s Hv Ho g' H1 H2. intros s [Hv Ho].
  destruct (nvml_handle_law (gpu s)) as (h & g' & H1 & H2).
  apply wp_bind, (wp_checked _ h v out); [exists g'; by rewrite H2|done|]. clear s Hv Ho g' H1 H2. intros s [Hv Ho].
  destruct (persistence_law (gpu s) h) as (g' & H1 & H2).
  apply wp_bind, (wp_checked _ NVML_FEATURE_ENABLED v out); [exists g'; by rewrite H2|done|]. intros s' Hs'.
  apply wp_assert; [done|]. by apply HQ.
Qed.

Lemma api_wp v out s : fresh_process v → at_view v out s →
  wp (api_main self_pid) (λ r s', r = 0 ∧ ∃ v', touring 0 v' ∧ at_view v' (out ++ tour_lines) s') s.
Proof.
  intros Hf Hs. unfold api_main. apply wp_bind, (unset_wp v out); [done|]. clear s Hs. intros s Hs.
  apply wp_bind, (unset_wp v out); [done|]. clear s Hs. intros s Hs.
  apply wp_bind, (persistence_wp v out); [done|]. clear s Hs. intros s Hs. apply wp_bind.
  eapply wp_mono; [by apply (setup_wp v out)|]. clear s Hs v Hf. intros k s (-> & v & Ht & Hs). apply wp_bind.
  eapply wp_mono; [apply (gpu_pairs_wp v out); [apply Ht|done]|]. clear s Hs. intros ps s [-> Hs].
  apply (wp_tour _ v); [|done|done]. clear s Hs v Ht out. intros d v out s Ht Hs. apply (wp_round d v); [| | | |done|done].
  - apply api_enacts. intros g v'. apply lock_law.
  - apply api_enacts. intros g v'. apply checkpoint_law.
  - apply api_enacts. intros g v'. apply restore_law.
  - apply api_enacts. intros g v'. apply unlock_law.
Qed.
End Tour.
End Demos.

(** The device map is written as it is read.  The packed entries, each UUID printed over the byte that the next
    write sets, stay inside the allocation; the text the tool gets is one [old=new] pair per GPU, and reading it the way
    [cuda-checkpoint] documents gives back the rotation that sends every GPU to the next one. *)
Theorem device_map_roundtrip {G} {MG : Migration G} {ML : MigrationLaws G} (s : demo G) :
  let us := mv_gpus (mig_view (gpu s)) in us ≠ [] →
  ∃ b s', build_uuid_map (length us) s = Ret b s' ∧ length b = (length us * sizeof_pair)%nat ∧
    c_string b = map_text (texts <$> rotation us) ∧ parse_map (c_string b) = Some (texts <$> rotation us).
Proof.
  intros us Hne. destruct (wp_elim _ _ _ (build_wp (mig_view (gpu s)) (stdout s) s (conj eq_refl eq_refl) Hne))
    as (b & s' & H & _ & Hl & Hc). exists b, s'. split; [exact H|]. split; [exact Hl|]. split; [exact Hc|].
  rewrite Hc. apply map_parses.
Qed.

(** C22: the two migration programs do the same.  On any number of GPUs with different UUIDs, both end with 0, print
    the UUIDs of GPU 0, 1, ..., n - 1 and 0 again (every GPU is visited and the last restore brings the process back),
    and leave the process running: the tool with the text of the map and the driver with the array of pairs move it the
    same way. *)
Theorem migration_tour {G} {MG : Migration G} {ML : MigrationLaws G} self_pid (s : demo G) :
  let us := mv_gpus (mig_view (gpu s)) in
  us ≠ [] → NoDup us → Forall uuid_ok us → fresh_process us (mig_view (gpu s)) → (String.length (pretty self_pid) < 10)%nat →
  ∃ s1 s2, cli_main self_pid s = Ret 0 s1 ∧ api_main self_pid s = Ret 0 s2 ∧
    stdout s1 = stdout s ++ tour_lines us ∧ stdout s2 = stdout s1 ∧
    touring us 0 (mig_view (gpu s1)) ∧ touring us 0 (mig_view (gpu s2)).
Proof.
  intros us Hne Hu Hok Hf Hpid. assert (Hs : at_view (mig_view (gpu s)) (stdout s) s) by done.
  destruct (wp_elim _ _ _ (cli_wp self_pid us Hne Hu Hok _ _ s Hf Hs Hpid)) as (r & s1 & H1 & -> & v1 & Ht1 & <- & Ho1).
  destruct (wp_elim _ _ _ (api_wp self_pid us Hne Hu Hok _ _ s Hf Hs)) as (r & s2 & H2 & -> & v2 & Ht2 & <- & Ho2).
  exists s1, s2. split_and!; try done. congruence.
Qed.

(** ** A machine with some GPUs *)

Record gsim := MkG { gs_view : mview; gs_child : list string }.

#[export] Instance phase_eq_dec : EqDecision phase.
Proof. solve_decision. Defined.

(** Where the map sends GPU [d]. *)
Definition dest (ps : list (string * string)) (us : list uuid) (d : nat) : nat :=
  default d (u ← us !! d; x ← list_find (λ p, p.1 = uuid_text u) ps; fst <$> list_find (λ w, uuid_text w = x.2.2) us).

Definition gs_act (a : ckpt_action) (v : mview) : option mview :=
  match a with
  | ALock => if decide (mv_phase v = Running) then Some (with_phase Locked v) else None
  | ACheckpoint => if decide (mv_phase v = Locked) then Some (with_phase Checkpointed v) else None
  | ARestore ps => if decide (mv_phase v = Checkpointed)
      then Some (with_phase Locked (with_ctxs (dest ps (mv_gpus v) <$> mv_ctxs v) v)) else None
  | AUnlock => if decide (mv_phase v = Locked) then Some (with_phase Running v) else None
  end.

Lemma dest_moves ps us d d' : ps.*2 ≡ₚ uuid_text <$> us → moves ps us d d' → moves ps us d (dest ps us d).
Proof.
  intros Hperm (old & new & Ho & Hn & Hin). unfold dest. rewrite Ho. cbn.
  destruct (list_find (λ p, p.1 = uuid_text old) ps) as [[i [o w]]|] eqn:Hf.
  2: { exfalso. apply list_find_None in Hf. rewrite Forall_forall in Hf. by apply (Hf _ Hin). }
  apply list_find_Some in Hf as (Hi & Hp & _). cbn in Hp. subst o. pose proof (list_elem_of_lookup_2 _ _ _ Hi) as Hiw. cbn.
  assert (Hw : w ∈ uuid_text <$> us) by (rewrite <- Hperm; apply list_elem_of_fmap; by exists (uuid_text old, w)).
  apply list_elem_of_fmap in Hw as (u & -> & Hu).
  destruct (list_find (λ x, uuid_text x = uuid_text u) us) as [[j u']|] eqn:Hj.
  - apply list_find_Some in Hj as (Hj & Hp & _). exists old, u'. cbn. by rewrite Hp.
  - exfalso. apply list_find_None in Hj. rewrite Forall_forall in Hj. by apply (Hj _ Hu).
Qed.

Lemma gs_act_performs a v v' : performs a v v' → ∃ v'', gs_act a v = Some v'' ∧ performs a v v''.
Proof.
  intros [w Hp|w Hp|w ps ctxs Hp H1 H2 Hm|w Hp]; cbn; rewrite decide_True by done; eexists; (split; [done|]); constructor; try done.
  intros k. rewrite lookup_fmap. specialize (Hm k). inversion Hm as [d d' Hd E1 E2|E1 E2]; cbn; constructor. by eapply dest_moves.
Qed.

Definition gs_keep {A} (f : mview → A) : M gsim A := λ g, Ret (f (gs_view g)) g.
Definition gs_set (f : mview → mview) : M gsim Z := λ g, Ret 0 (MkG (f (gs_view g)) (gs_child g)).
Definition gs_do (a : option ckpt_action) : M gsim Z := λ g,
  match a with
  | Some a => match gs_act a (gs_view g) with Some v => Ret 0 (MkG v (gs_child g)) | None => Ret 1 g end
  | None => Ret 1 g
  end.
Definition tool_action (args : list string) : option ckpt_action :=
  match args with
  | [_; _; a; _; _] =>
      if decide (a = "lock"%string) then Some ALock else if decide (a = "checkpoint"%string) then Some ACheckpoint
      else if decide (a = "unlock"%string) then Some AUnlock else None
  | [_; _; _; _; _; _; s] => ARestore <$> parse_map s
  | _ => None
  end.

#[export] Instance gsim_migration : Migration gsim := {|
  unsetenv _ := λ g, Ret 0 g;
  fork_exec args := λ g, Ret 7 (MkG (gs_view g) args);
  waitpid pid := λ g, match gs_do (tool_action (gs_child g)) g with
                      | Ret r g' => Ret (pid, Exited r) g' | Exit c g' => Exit c g' | Stuck w g' => Stuck w g' end;
  cuInit _ := λ g, Ret 0 g;
  primary_retain d := λ g, Ret (0, 1) (MkG (with_ctxs (<[1 := Z.to_nat d]> (mv_ctxs (gs_view g))) (gs_view g)) (gs_child g));
  cuCtxSetCurrent c := gs_set (with_current c);
  cuCtxGetDevice := gs_keep (λ v, (0, Z.of_nat (default 0%nat (c ← mv_current v; mv_ctxs v !! c))));
  cuDeviceGetCount := gs_keep (λ v, (0, Z.of_nat (length (mv_gpus v))));
  cuDeviceGetUuid d := gs_keep (λ v, (0, default [] (mv_gpus v !! Z.to_nat d)));
  nvmlInit := λ g, Ret 0 g;
  nvmlDeviceGetHandleByIndex i := λ g, Ret (0, i) g;
  nvmlDeviceGetPersistenceMode _ := λ g, Ret (0, NVML_FEATURE_ENABLED) g;
  cuCheckpointProcessLock _ := gs_do (Some ALock);
  cuCheckpointProcessCheckpoint _ := gs_do (Some ACheckpoint);
  cuCheckpointProcessRestore _ ps := gs_do (Some (ARestore (texts <$> ps)));
  cuCheckpointProcessUnlock _ := gs_do (Some AUnlock)
|}.

Lemma gs_do_performs a g v : performs a (gs_view g) v →
  ∃ g', gs_do (Some a) g = Ret 0 g' ∧ performs a (gs_view g) (gs_view g').
Proof.
  intros (v' & Ha & Hp)%gs_act_performs. exists (MkG v' (gs_child g)). split; [|done]. unfold gs_do. by rewrite Ha.
Qed.

#[export] Instance gsim_laws : MigrationLaws gsim.
Proof.
  refine {| mig_view := gs_view |}; try (intros; by eexists).
  - intros g d Hd. exists 1. eexists. split; [cbn; by rewrite Nat2Z.id|done].
  - intros g c d Hc Hd. exists g. split; [|done]. cbn. unfold gs_keep. by rewrite Hc; cbn; rewrite Hd.
  - intros g d u Hu. exists g. split; [|done]. cbn. unfold gs_keep. by rewrite Nat2Z.id, Hu.
  - intros g. by exists 0, g.
  - intros g pid v. apply gs_do_performs.
  - intros g pid v. apply gs_do_performs.
  - intros g pid ps v. apply gs_do_performs.
  - intros g pid v. apply gs_do_performs.
  - intros g pid a args v Ha Hp. exists 7, (MkG (gs_view g) ("cuda-checkpoint"%string :: args)).
    destruct (gs_do_performs a (MkG (gs_view g) ("cuda-checkpoint"%string :: args)) v Hp) as (g2 & H1 & H2).
    exists g2. split; [done|]. split; [done|]. split; [|exact H2].
    assert (Htool : tool_action ("cuda-checkpoint"%string :: args) = Some a).
    { destruct Ha as [| |ps t Hps|]; [done..| |done]. cbn. by rewrite Hps. }
    cbn [waitpid gsim_migration gs_child]. by rewrite Htool, H1.
Defined.

(** Three GPUs; the process has a context on the last one already. *)
Definition three_uuids : list uuid := (λ k, k :: replicate 14 170 ++ [255 - k]) <$> [0; 1; 2].
Definition three_gpus : demo gsim := MkDemo (MkG (MkMView three_uuids {[5 := 2%nat]} None Running) []) [].

Lemma device_map_roundtrip_witness : ∃ b s', build_uuid_map 3 three_gpus = Ret b s' ∧ length b = 246%nat ∧
  c_string b = ("GPU-00aaaaaa-aaaa-aaaa-aaaa-aaaaaaaaaaff=GPU-01aaaaaa-aaaa-aaaa-aaaa-aaaaaaaaaafe," +:+
    "GPU-01aaaaaa-aaaa-aaaa-aaaa-aaaaaaaaaafe=GPU-02aaaaaa-aaaa-aaaa-aaaa-aaaaaaaaaafd," +:+
    "GPU-02aaaaaa-aaaa-aaaa-aaaa-aaaaaaaaaafd=GPU-00aaaaaa-aaaa-aaaa-aaaa-aaaaaaaaaaff")%string.
Proof.
  assert (Hne : mv_gpus (mig_view (gpu three_gpus)) ≠ []) by (vm_compute; discriminate).
  destruct (device_map_roundtrip three_gpus Hne) as (b & s' & H & Hl & Hc & _).
  exists b, s'. split; [exact H|]. split; [exact Hl|]. rewrite Hc. vm_compute. reflexivity.
Defined.

Lemma migration_tour_witness : ∃ s1 s2, cli_main 4242 three_gpus = Ret 0 s1 ∧ api_main 4242 three_gpus = Ret 0 s2 ∧
  stdout s2 = stdout s1 ∧ stdout s1 = ["00aaaaaaaaaaaaaaaaaaaaaaaaaaaaff"; "01aaaaaaaaaaaaaaaaaaaaaaaaaaaafe";
    "02aaaaaaaaaaaaaaaaaaaaaaaaaaaafd"; "00aaaaaaaaaaaaaaaaaaaaaaaaaaaaff"]%string.
Proof.
  destruct (migration_tour (G:=gsim) 4242 three_gpus) as (s1 & s2 & H1 & H2 & Ho1 & Ho2 & _).
  - vm_compute. discriminate.
  - apply (bool_decide_unpack (NoDup three_uuids)). vm_compute. exact I.
  - repeat (constructor; [split; [reflexivity|by repeat (constructor; [lia|]); constructor]|]). constructor.
  - split; [reflexivity|reflexivity|]. intros k d Hk. change (({[5 := 2%nat]} : gmap Z nat) !! k = Some d) in Hk.
    apply lookup_singleton_Some in Hk as [<- <-]. vm_compute. lia.
  - vm_compute. lia.
  - exists s1, s2. split; [exact H1|]. split; [exact H2|]. split; [exact Ho2|]. rewrite Ho1. vm_compute. reflexivity.
Defined.
