(* ===== verification/Features.v ===== *)
(** The checkpoint demonstration with CRIU, [src/cuda-checkpoint/src/r570-features.c].

    A parent forks a child that uses CUDA and NVML; the two talk over a pair of sockets.  The child asks for a checkpoint,
    the parent dumps it with CRIU, restores it from the image and lets it go on.  Both programs are lists of steps;
    [exec] lets one process make one step, [run] closes over every order of steps and every failing call.  The machine is
    finite, so the theorems follow from its states one by one, which [closure] enumerates. *)
From stdpp Require Import pretty.
From S2P Require Import Prelude.
Open Scope Z_scope.

(** The commands of [systemf]; the directory for the images is 17 characters long. *)
Inductive command := LsPlugin | WhichCheckpoint | WhichCriu | CriuDump | CriuRestore.
#[export] Instance command_eq_dec : EqDecision command.
Proof. solve_decision. Defined.

Record params := MkParams { libDir : string; imagesDir : string; st_ino : Z; child_pid : Z; childSock : Z }.

Definition command_text (p : params) (c : command) : string :=
  match c with
  | LsPlugin => "ls " +:+ libDir p +:+ "/cuda_plugin.so"
  | WhichCheckpoint => "which cuda-checkpoint"
  | WhichCriu => "which criu"
  | CriuDump => "criu dump --shell-job --images-dir " +:+ imagesDir p +:+ " --libdir " +:+ libDir p +:+ " --ext-unix-sk="
      +:+ pretty (st_ino p) +:+ " --tree " +:+ pretty (child_pid p)
  | CriuRestore => "criu restore --shell-job --images-dir " +:+ imagesDir p +:+ " --libdir " +:+ libDir p +:+ " --inherit-fd fd["
      +:+ pretty (childSock p) +:+ "]:socket:[" +:+ pretty (st_ino p) +:+ "] --restore-detached"
  end.
(** [char cmd[256]] *)
Definition command_fits (p : params) (c : command) : bool := bool_decide (String.length (command_text p c) < 256)%nat.

(** ** The two programs *)

(** Library calls of the child whose answer is checked and that change none of the state here. *)
Inductive lib_call :=
  | Close | CuInit | NvmlInit | CuDeviceGet | CuDeviceGetAttribute (attribute : string) | NvmlDeviceGetHandleByPciBusId
  | NvmlDeviceGetMemoryInfo | CuDevicePrimaryCtxRetain | CuCtxSetCurrent | CuMemAlloc.
Inductive child_step :=
  | Lib (c : lib_call) | CuMemcpyHtoD (value : Z) | CuMemcpyDtoH | CheckValue (value : Z) | CheckFree | PrintSuccess
  | ChildWrite | ChildRead | ChildExit.
Inductive parent_step :=
  | Systemf (c : command) | Socketpair | ForkChild | ParentRead | ParentWrite | GetState | Mkdtemp | Fstat | WaitChild | Return.

#[export] Instance lib_call_eq_dec : EqDecision lib_call.
Proof. solve_decision. Defined.
#[export] Instance child_step_eq_dec : EqDecision child_step.
Proof. solve_decision. Defined.
#[export] Instance parent_step_eq_dec : EqDecision parent_step.
Proof. solve_decision. Defined.

Definition magic : Z := 305419896.

(** The child once it is restored. *)
Definition after_restore : list child_step :=
  [CuMemcpyDtoH; CheckValue magic; Lib NvmlDeviceGetMemoryInfo; CheckFree; PrintSuccess; ChildWrite].
Definition runChild : list child_step :=
  [Lib CuInit; Lib NvmlInit; Lib CuDeviceGet; Lib (CuDeviceGetAttribute "PCI_DOMAIN_ID"); Lib (CuDeviceGetAttribute "PCI_BUS_ID");
   Lib (CuDeviceGetAttribute "PCI_DEVICE_ID"); Lib NvmlDeviceGetHandleByPciBusId; Lib NvmlDeviceGetMemoryInfo;
   Lib CuDevicePrimaryCtxRetain; Lib CuCtxSetCurrent; Lib CuMemAlloc; CuMemcpyHtoD magic;
   ChildWrite; ChildRead] ++ after_restore.
Definition child_steps : list child_step := [Lib Close] ++ runChild ++ [ChildExit].

Definition checkpointAndRestore : list parent_step :=
  [Mkdtemp; Fstat; Systemf CriuDump; WaitChild; Systemf CriuRestore].
Definition runParent : list parent_step :=
  [ParentRead; GetState] ++ checkpointAndRestore ++ [ParentWrite; ParentRead].
Definition parent_steps : list parent_step :=
  [Systemf LsPlugin; Systemf WhichCheckpoint; Systemf WhichCriu; Socketpair; ForkChild] ++ runParent ++ [Return].

(** ** The state *)

(** What a child holds: its program, the word of device memory, its variable [value]. *)
Record child_image := MkImage { im_todo : list child_step; im_device : Z; im_value : Z }.
Inductive child_state := Unborn | Alive (c : child_image) | Aborted | Killed | Exited.
Inductive parent_state := Busy (todo : list parent_step) | Asserted | Overrun | Returned.

Record machine := MkMachine {
  parent : parent_state;
  child : child_state;
  image : option child_image;     (* what CRIU dumped *)
  requests : nat;                 (* bytes from the child that the parent has not read *)
  replies : nat;                  (* bytes from the parent *)
  success : bool                  (* [SUCCESS] was printed *)
}.

#[export] Instance child_image_eq_dec : EqDecision child_image.
Proof. solve_decision. Defined.
#[export] Instance child_state_eq_dec : EqDecision child_state.
Proof. solve_decision. Defined.
#[export] Instance parent_state_eq_dec : EqDecision parent_state.
Proof. solve_decision. Defined.
#[export] Instance machine_eq_dec : EqDecision machine.
Proof. solve_decision. Defined.

Definition initial : machine := MkMachine (Busy parent_steps) Unborn None 0 0 false.

Definition set_parent x m := MkMachine x (child m) (image m) (requests m) (replies m) (success m).
Definition set_child x m := MkMachine (parent m) x (image m) (requests m) (replies m) (success m).
Definition set_image x m := MkMachine (parent m) (child m) x (requests m) (replies m) (success m).
Definition set_requests x m := MkMachine (parent m) (child m) (image m) x (replies m) (success m).
Definition set_replies x m := MkMachine (parent m) (child m) (image m) (requests m) x (success m).
Definition set_success x m := MkMachine (parent m) (child m) (image m) (requests m) (replies m) x.

(** The parent keeps both ends of the pair open, so its [read] waits until there is a byte; the child's end of the
    parent is gone when the parent is. *)
Definition parent_alive (m : machine) : bool := match parent m with Busy _ => true | _ => false end.
Definition child_alive (m : machine) : bool := match child m with Alive _ => true | _ => false end.

Section Steps.
Context (fitting : command → bool).

(** One step of the parent that works or fails ([ok]); [None]: it has to wait, or is done. *)
Definition exec_parent (ok : bool) (m : machine) : option machine :=
  match parent m with
  | Busy (i :: rest) =>
      let next := Some (set_parent (Busy rest) m) in
      let stop := Some (set_parent Asserted m) in
      match i with
      | Systemf c =>
          if negb (fitting c) then Some (set_parent Overrun m) else
          if negb ok then stop else
          match c with
          | CriuDump => match child m with
                        | Alive im => Some (set_parent (Busy rest) (set_child Killed (set_image (Some im) m)))
                        | _ => stop
                        end
          | CriuRestore => match image m with
                           | Some im => Some (set_parent (Busy rest) (set_child (Alive im) m))
                           | None => stop
                           end
          | _ => next
          end
      | Socketpair | Fstat => if ok then next else stop
      | Mkdtemp => next
      | ForkChild => Some (set_parent (Busy rest) (if ok then set_child (Alive (MkImage child_steps 0 0)) m else m))
      | ParentRead => if negb ok then stop else
          match requests m with O => None | S k => Some (set_parent (Busy rest) (set_requests k m)) end
      | ParentWrite => if ok then Some (set_parent (Busy rest) (set_replies (S (replies m)) m)) else stop
      | GetState => if ok && child_alive m then next else stop
      | WaitChild => match child m with
                     | Alive _ => if ok then None else stop
                     | Unborn => stop
                     | _ => if ok then next else stop
                     end
      | Return => Some (set_parent Returned m)
      end
  | _ => None
  end.

Definition exec_child (ok : bool) (m : machine) : option machine :=
  match child m with
  | Alive (MkImage (i :: rest) device value) =>
      let go device value m := Some (set_child (Alive (MkImage rest device value)) m) in
      let abort := Some (set_child Aborted m) in
      match i with
      | Lib _ | CheckFree => if ok then go device value m else abort
      | CuMemcpyHtoD x => if ok then go x value m else abort
      | CuMemcpyDtoH => if ok then go device device m else abort
      | CheckValue x => if bool_decide (value = x) then go device value m else abort
      | PrintSuccess => go device value (set_success true m)
      | ChildWrite => if ok && parent_alive m then go device value (set_requests (S (requests m)) m) else abort
      | ChildRead => if negb ok then abort else
          match replies m with
          | S k => go device value (set_replies k m)
          | O => if parent_alive m then None else abort
          end
      | ChildExit => Some (set_child Exited m)
      end
  | _ => None
  end.

(** A process and whether its call works. *)
Definition move : Type := bool * bool.
Definition exec (mv : move) (m : machine) : option machine := if mv.1 then exec_parent mv.2 m else exec_child mv.2 m.

Definition step (m m' : machine) : Prop := ∃ mv, exec mv m = Some m'.
Definition work (m m' : machine) : Prop := ∃ who, exec (who, true) m = Some m'.
End Steps.

(** ** Every state *)

Definition moves : list move := [(true, true); (true, false); (false, true); (false, false)].

(** The states that [next] reaches from [todo], found in rounds. *)
Fixpoint closure (next : machine → list machine) (fuel : nat) (todo seen : list machine) : list machine :=
  match fuel with
  | O => seen
  | S fuel => match todo with
              | [] => seen
              | m :: todo =>
                  let new := foldr (λ x l, if decide (x ∈ seen ++ todo ++ l) then l else x :: l) [] (next m) in
                  closure next fuel (todo ++ new) (if decide (m ∈ seen) then seen else m :: seen)
              end
  end.

Definition next_any (m : machine) : list machine :=
  mv ← moves; omap (λ b, exec (λ _, b) mv m) [true; false].
Definition next_work (m : machine) : list machine := omap (λ who, exec (λ _, true) (who, true) m) [true; false].
Definition any_states : list machine := Eval vm_compute in closure next_any 2000 [initial] [].
Definition work_states : list machine := Eval vm_compute in closure next_work 2000 [initial] [].

Definition closed (next : machine → list machine) (l : list machine) : bool :=
  forallb (λ m, forallb (λ m', bool_decide (m' ∈ l)) (next m)) l.
Lemma closed_rtc next l (R : machine → machine → Prop) : closed next l = true → (∀ m m', R m m' → m' ∈ next m) →
  ∀ m m', rtc R m m' → m ∈ l → m' ∈ l.
Proof.
  intros Hc Hn m m' H. induction H as [m|m m1 m' H _ IH]; [done|]. intros Hm. apply IH. unfold closed in Hc.
  rewrite forallb_forall in Hc. specialize (Hc m ltac:(by apply list_elem_of_In)). rewrite forallb_forall in Hc.
  apply (bool_decide_eq_true_1 _), Hc, list_elem_of_In, Hn, H.
Qed.
(** A property of every state of a list, by evaluation. *)
Lemma all_states (P : machine → Prop) `{!∀ m, Decision (P m)} l : forallb (λ m, bool_decide (P m)) l = true → ∀ m, m ∈ l → P m.
Proof. rewrite forallb_forall. intros Hl m Hm. apply (bool_decide_eq_true_1 _), Hl. by apply list_elem_of_In. Qed.
Lemma any_closed : closed next_any any_states = true. Proof. vm_compute. reflexivity. Qed.
Lemma work_closed : closed next_work work_states = true. Proof. vm_compute. reflexivity. Qed.

Section Theorems.
Context (fitting : command → bool).

(** A step depends on at most one command. *)
Lemma exec_some_fit mv m : ∃ b, exec fitting mv m = exec (λ _, b) mv m.
Proof.
  destruct mv as [[] ok]; [|by exists true]. unfold exec, exec_parent. cbn.
  destruct (parent m) as [[|[c| | | | | | | | |] rest]| | |]; try (by exists true). by exists (fitting c).
Qed.
Lemma step_next m m' : step fitting m m' → m' ∈ next_any m.
Proof.
  intros [mv H]. destruct (exec_some_fit mv m) as [b Hb]. rewrite Hb in H. unfold next_any. apply list_elem_of_bind.
  exists mv. split.
  - apply list_elem_of_omap. exists b. split; [destruct b; set_solver|exact H].
  - unfold moves. destruct mv as [[] []]; set_solver.
Qed.
Lemma steps_any m : rtc (step fitting) initial m → m ∈ any_states.
Proof.
  intros H. eapply (closed_rtc next_any any_states _ any_closed step_next); [exact H|].
  apply (bool_decide_unpack (initial ∈ any_states)). vm_compute. exact I.
Qed.

Lemma exec_all_fit mv m : (∀ c, fitting c = true) → exec fitting mv m = exec (λ _, true) mv m.
Proof. intros Hf. destruct (exec_some_fit mv m) as [[] Hb]; [done|]. destruct mv as [[] ok]; [|done].
  unfold exec, exec_parent. cbn. destruct (parent m) as [[|[c| | | | | | | | |] rest]| | |]; try done. by rewrite Hf. Qed.
Lemma work_next m m' : (∀ c, fitting c = true) → work fitting m m' → m' ∈ next_work m.
Proof.
  intros Hf [who H]. rewrite exec_all_fit in H by done. apply list_elem_of_omap. exists who. split; [|exact H].
  destruct who; set_solver.
Qed.
Lemma steps_work m : (∀ c, fitting c = true) → rtc (work fitting) initial m → m ∈ work_states.
Proof.
  intros Hf H. eapply (closed_rtc next_work work_states (work fitting) work_closed); [intros; by apply work_next|exact H|].
  apply (bool_decide_unpack (initial ∈ work_states)). vm_compute. exact I.
Qed.
End Theorems.

(** What is left to do. *)
Definition mu (m : machine) : nat :=
  24 * match parent m with Busy todo => length todo | _ => 0 end
  + match child m with Alive im => length (im_todo im) | _ => 0 end.

(** What holds of every state, and of every state without failures. *)
Definition requested : child_image := MkImage (ChildRead :: after_restore ++ [ChildExit]) magic 0.
Definition consistent (m : machine) : bool :=
  match image m with
  | Some im => bool_decide (im = requested)
  | None => negb (success m)
  end && (success m || negb (bool_decide (parent m = Returned))).
Definition finished (m : machine) : bool :=
  bool_decide (parent m = Returned) && bool_decide (child m = Exited) && success m.
Definition advancing (m : machine) : bool :=
  match next_work m with
  | [] => finished m
  | l => forallb (λ m', bool_decide (mu m' < mu m)%nat) l
  end.

Lemma all_consistent m : m ∈ any_states → consistent m = true.
Proof. revert m. apply (all_states (λ m, consistent m = true)). vm_compute. reflexivity. Qed.
Lemma all_advancing m : m ∈ work_states → advancing m = true.
Proof. revert m. apply (all_states (λ m, advancing m = true)). vm_compute. reflexivity. Qed.

(** CRIU takes the child where it asked for it.  Under every order of steps, every failing call and every plugin
    directory, a dump holds the child between its request and the answer, with its word in device memory; [SUCCESS] is
    printed by a restored child only, and the parent ends with 0 only after that. *)
Theorem features_dump_at_request p m : rtc (step (command_fits p)) initial m →
  (∀ im, image m = Some im → im = requested) ∧ (success m = true → is_Some (image m)) ∧
  (parent m = Returned → success m = true).
Proof.
  intros Hm%steps_any%all_consistent. unfold consistent in Hm. apply andb_prop in Hm as [H1 H2].
  split; [|split].
  - intros im Him. rewrite Him in H1. by apply bool_decide_eq_true_1 in H1.
  - intros Hs. rewrite Hs in H1. destruct (image m); [by eexists|done].
  - intros Hr. rewrite bool_decide_eq_true_2 in H2 by done. by rewrite orb_false_r in H2.
Qed.

Lemma nsteps_mu p n m m' : (∀ c, command_fits p c = true) → m ∈ work_states → nsteps (work (command_fits p)) n m m' → (n + mu m' ≤ mu m)%nat.
Proof.
  intros Hf Hm Hn. induction Hn as [m|n m m1 m' Hw _ IH]; [lia|]. pose proof (work_next _ _ _ Hf Hw) as Hin.
  assert (H1 : m1 ∈ work_states).
  { eapply (closed_rtc next_work work_states (work (command_fits p)) work_closed); [intros; by eapply work_next|by apply rtc_once|done]. }
  specialize (IH H1). pose proof (all_advancing m Hm) as Ha. unfold advancing in Ha.
  assert (Hlt : (mu m1 < mu m)%nat); [|lia]. destruct (next_work m) as [|x l] eqn:He; [by apply elem_of_nil in Hin|].
  rewrite forallb_forall in Ha. apply (bool_decide_eq_true_1 _), Ha. by apply list_elem_of_In.
Qed.

(** C23: without failures the demonstration comes to its end.  With a plugin directory that leaves every command within
    its 256 bytes, from every state that working calls reach a continuation has at most [mu m] steps, and where neither
    process can make a step the child has printed [SUCCESS] and exited and the parent has returned 0. *)
Theorem features_passes p m : (∀ c, command_fits p c = true) → rtc (work (command_fits p)) initial m →
  (∀ n m', nsteps (work (command_fits p)) n m m' → (n ≤ mu m)%nat) ∧
  ((∀ who, exec (command_fits p) (who, true) m = None) → parent m = Returned ∧ child m = Exited ∧ success m = true).
Proof.
  intros Hf Hm%steps_work; [|done]. split.
  - intros n m' Hn. pose proof (nsteps_mu p n m m' Hf Hm Hn). lia.
  - intros Hstuck. pose proof (all_advancing m Hm) as Ha. unfold advancing in Ha.
    assert (He : next_work m = []).
    { unfold next_work. pose proof (Hstuck true) as H1. pose proof (Hstuck false) as H2.
      rewrite exec_all_fit in H1, H2 by done. cbn [omap list_omap]. by rewrite H1, H2. }
    rewrite He in Ha. unfold finished in Ha. rewrite !andb_true_iff, !bool_decide_eq_true in Ha. tauto.
Qed.

(** A run by a list of choices. *)
Fixpoint play (fitting : command → bool) (mvs : list move) (m : machine) : machine :=
  match mvs with
  | [] => m
  | mv :: mvs => match exec fitting mv m with Some m' => play fitting mvs m' | None => play fitting mvs m end
  end.
Lemma play_step fitting mvs : ∀ m, rtc (step fitting) m (play fitting mvs m).
Proof.
  induction mvs as [|mv mvs IH]; intros m; [done|]. cbn. destruct (exec fitting mv m) as [m'|] eqn:He; [|done].
  eapply rtc_l; [by exists mv|apply IH].
Qed.
Lemma play_work fitting whos : ∀ m, rtc (work fitting) m (play fitting ((λ w, (w, true)) <$> whos) m).
Proof.
  induction whos as [|w whos IH]; intros m; [done|]. cbn. destruct (exec fitting (w, true) m) as [m'|] eqn:He; [|apply IH].
  eapply rtc_l; [by exists w|apply IH].
Qed.

Definition usual : params := MkParams "/usr/lib/criu" "images-dir-a1B2c3" 123456 4711 3.
Lemma usual_fits c : command_fits usual c = true.
Proof. destruct c; vm_compute; reflexivity. Qed.
(** Both processes in turn. *)
Definition in_turn : list bool := concat (replicate 40 [true; false]).

Lemma features_dump_at_request_witness : let m := play (command_fits usual) ((λ w, (w, true)) <$> take 48 in_turn) initial in
  image m = Some requested ∧ parent m = Busy [Systemf CriuRestore; ParentWrite; ParentRead; Return].
Proof.
  intros m. assert (Him : is_Some (image m)) by (by vm_compute; eexists).
  destruct Him as [im Him]. destruct (features_dump_at_request usual m) as [H _]; [apply play_step|].
  rewrite Him, (H im Him). split; [done|]. vm_compute. reflexivity.
Defined.

Lemma features_passes_witness : let m := play (command_fits usual) ((λ w, (w, true)) <$> in_turn) initial in
  parent m = Returned ∧ child m = Exited ∧ success m = true.
Proof.
  intros m. apply (features_passes usual m usual_fits); [apply play_work|]. intros []; vm_compute; reflexivity.
Defined.

(** A child whose [cuInit] fails leaves the parent in its [read]: the parent holds the child's end of the pair open
    itself, so it never sees the end of the stream. *)
Lemma features_hangs : let m := play (command_fits usual) (((λ _, (true, true)) <$> seq 0 5) ++ [(false, false)]) initial in
  child m = Aborted ∧ parent m = Busy (runParent ++ [Return]) ∧ ∀ who, exec (command_fits usual) (who, true) m = None.
Proof. intros m. vm_compute. split_and!; [done|done|by intros []]. Qed.

#[local] Arguments String.append !_ _ /.
Lemma length_app_string s t : String.length (s +:+ t) = (String.length s + String.length t)%nat.
Proof. induction s as [|c s IH]; [done|]. cbn. by rewrite IH. Qed.

(** The first command already runs over its buffer when the directory is long. *)
Lemma features_long_directory p : (238 ≤ String.length (libDir p))%nat →
  exec_parent (command_fits p) true initial = Some (set_parent Overrun initial).
Proof.
  intros Hl. assert (Hf : command_fits p LsPlugin = false).
  { unfold command_fits. change (command_text p LsPlugin) with ("ls " +:+ (libDir p +:+ "/cuda_plugin.so"))%string.
    rewrite !length_app_string. apply bool_decide_eq_false_2. simpl. lia. }
  unfold exec_parent. cbn. by rewrite Hf.
Qed.
